(** * wilson.py: the asynchronous session orchestrator [AI_Core]

    A shallow embedding of the coroutines of [AI_Core] (src/wilson.py) and of
    the tool helpers they call.  Python values are a small tagged union,
    dictionaries are [gmap string value], exceptions and suspension are an
    explicit outcome, and every coroutine is a function in a state monad over
    the fields of [AI_Core] plus an abstract world [W] that stands for the
    operating system, the camera, the network and the remote session. *)

From Stdlib Require Import ZArith String Ascii List Lia.
From stdpp Require Import base option gmap strings list fin_maps pretty.

Open Scope string_scope.
Open Scope Z_scope.
Open Scope list_scope.

(** ** Python values *)

(** The values that travel through tool arguments and tool results:
    [fc.args] is a [dict] from strings to arbitrary JSON-like values. *)
#[warnings="-register-all"]
Inductive value : Type :=
| VNone
| VBool (b : bool)
| VInt (n : Z)
| VStr (s : string)
| VList (l : list value).

Abbreviation dict := (gmap string value).
Abbreviation bytes := string (only parsing).

(** Python truthiness, as used by [not x], [if x] and [x or y]. *)
Definition truthy (v : value) : bool :=
  match v with
  | VNone => false
  | VBool b => b
  | VInt n => negb (n =? 0)
  | VStr s => negb (String.eqb s "")
  | VList l => match l with [] => false | _ => true end
  end.

Definition isinstance_str (v : value) : bool :=
  match v with VStr _ => true | _ => false end.

(** [d.get(k, dflt)] and [d.get(k)]. *)
Definition dict_get (d : dict) (k : string) (dflt : value) : value :=
  default dflt (d !! k).

Definition dict_get_none (d : dict) (k : string) : value :=
  dict_get d k VNone.

(** ** Exceptions, suspension and the state monad *)

(** The exceptions deriving from [Exception], with their [str(e)].
    [asyncio.CancelledError] derives from [BaseException] and is not one of
    them: it is an outcome of its own below. *)
Inductive exn_class : Type :=
| AttributeError | TypeError | ValueError | FileNotFoundError | OSError
| ConnectionClosed | RuntimeError.

Record exn : Type := Exn { exn_cls : exn_class; exn_str : string }.

Definition is_FileNotFoundError (e : exn) : bool :=
  match exn_cls e with FileNotFoundError => true | _ => false end.

(** What running a piece of code gives: a value, a raised exception, the
    cancellation of the task at an [await], or a coroutine suspended for
    good on an [await] whose event never comes (an empty queue that nobody
    fills any more). *)
Inductive outcome (A : Type) : Type :=
| Ret (a : A)
| Raise (e : exn)
| Cancelled
| Block.
Arguments Ret {A} a.
Arguments Raise {A} e.
Arguments Cancelled {A}.
Arguments Block {A}.

Definition SO (S A : Type) : Type := S -> outcome A * S.

Definition so_ret {S A} (a : A) : SO S A := fun s => (Ret a, s).

Definition so_bind {S A B} (f : A -> SO S B) (m : SO S A) : SO S B :=
  fun s =>
    match m s with
    | (Ret a, s') => f a s'
    | (Raise e, s') => (Raise e, s')
    | (Cancelled, s') => (Cancelled, s')
    | (Block, s') => (Block, s')
    end.

#[global] Instance SO_ret {S} : MRet (SO S) := @so_ret S.
#[global] Instance SO_bind {S} : MBind (SO S) := @so_bind S.

Definition raise {S A} (e : exn) : SO S A := fun s => (Raise e, s).
Definition block {S A} : SO S A := fun s => (Block, s).
Definition gets {S A} (f : S -> A) : SO S A := fun s => (Ret (f s), s).
Definition modify {S} (f : S -> S) : SO S unit := fun s => (Ret tt, f s).

(** [try: body except Exception as e: handler e]: a cancellation is not
    caught. *)
Definition try_except {S A} (body : SO S A) (handler : exn -> SO S A) : SO S A :=
  fun s =>
    match body s with
    | (Raise e, s') => handler e s'
    | r => r
    end.

(** [try: body except <cls>: handler], for one exception class. *)
Definition try_except_cls {S A} (cls : exn -> bool) (body : SO S A)
    (handler : exn -> SO S A) : SO S A :=
  fun s =>
    match body s with
    | (Raise e, s') => if cls e then handler e s' else (Raise e, s')
    | r => r
    end.

(** [try: body finally: fin].  The [finally] block runs when the body
    returns, raises or is cancelled; a body that stays suspended never
    reaches it. *)
Definition try_finally {S A} (body : SO S A) (fin : SO S unit) : SO S A :=
  fun s =>
    match body s with
    | (Block, s') => (Block, s')
    | (r, s') =>
        match fin s' with
        | (Ret _, s'') => (r, s'')
        | (Raise e, s'') => (Raise e, s'')
        | (Cancelled, s'') => (Cancelled, s'')
        | (Block, s'') => (Block, s'')
        end
    end.

(** Synchronous calls into the operating system and the libraries: they
    return or raise, and may change the world. *)
Inductive result (A : Type) : Type :=
| Ok (a : A)
| Err (e : exn).
Arguments Ok {A} a.
Arguments Err {A} e.

Definition Sync (W A : Type) : Type := W -> result A * W.

(** Awaited calls: they complete by returning or raising, unless the task
    is cancelled while it waits ([None]). *)
Definition Await (W A : Type) : Type := W -> option (result A) * W.

(** Running a synchronous call inside a coroutine or a helper. *)
Definition call {W A} (f : Sync W A) : SO W A :=
  fun w => match f w with
           | (Ok a, w') => (Ret a, w')
           | (Err e, w') => (Raise e, w')
           end.

(** ** The world outside the orchestrator *)

Inductive platform : Type := win32 | darwin | other_platform.

(** The argument of [subprocess.Popen] and [subprocess.run]: a command line
    run through the shell ([shell=True]), one program ([shell=False]) or an
    argument vector. *)
Inductive command : Type :=
| Shell (cmdline : string)
| Program (exe : string)
| Argv (argv : list string).

(** A directory as [os.walk] sees it: its sub-directories and its files. *)
#[warnings="-register-all"]
Inductive dirtree : Type :=
| Dir (subdirs : list (string * dirtree)) (files : list string).

Abbreviation frame := string (only parsing).

(** One response to a function call, as appended to [function_responses]. *)
Record function_response : Type := FunctionResponse {
  fr_id : string;
  fr_name : string;
  fr_response : dict
}.

(** The calls the orchestrator makes on the remote session. *)
Inductive session_op : Type :=
| send_realtime_input_audio (data : bytes)
| send_realtime_input_video (data : bytes)
| send_tool_response (function_responses : list function_response)
| send_client_content (text : string).

(** The operating system, the libraries and the network, as far as
    [AI_Core] uses them.  Observations read the world, synchronous calls may
    raise and change it; nothing is assumed about what they answer. *)
Class World (W : Type) : Type := {
  sys_platform : platform;
  (* os.path, os.environ *)
  path_join : string -> string -> string;
  path_basename : string -> string;
  path_dirname : string -> string;
  path_abspath : string -> W -> string;
  path_exists : string -> W -> bool;
  path_isdir : string -> W -> bool;
  path_isfile : string -> W -> bool;
  fd_exists : Z -> W -> bool;
  expanduser_home : W -> string;
  environ_get : string -> W -> option string;
  os_walk : string -> W -> dirtree;
  (* files *)
  os_makedirs : string -> Sync W unit;
  os_makedirs_exist_ok : string -> Sync W unit;
  open_write : string -> value -> Sync W unit;
  open_append : string -> string -> Sync W unit;
  open_read : string -> Sync W string;
  os_listdir : string -> Sync W (list string);
  shutil_move : string -> string -> Sync W unit;
  os_startfile : string -> Sync W unit;
  (* processes and the browser *)
  subprocess_Popen : command -> Sync W unit;
  subprocess_run : command -> Sync W Z;
  webbrowser_open : string -> Sync W unit;
  (* camera and screen, through asyncio.to_thread *)
  cv2_VideoCapture : Await W unit;
  cap_isOpened : W -> bool;
  cap_read : Await W (bool * option frame);
  ImageGrab_grab : Await W frame;
  (* microphone, through asyncio.to_thread *)
  audio_stream_read : Await W bytes;
  (* handing a synchronous function to asyncio.to_thread *)
  to_thread_start : Await W unit;
  (* codecs *)
  jpeg_of_frame : frame -> bytes;
  b64encode : bytes -> string;
  b64decode : string -> result bytes;
  (* the remote session and the text-to-speech websocket *)
  session_send : session_op -> Await W unit;
  ws_connect : Await W unit;
  ws_send : string -> Await W unit;
  ws_listen : Await W (list bytes)
}.

(** ** Signals and the trace of what the orchestrator does *)

(** The Qt signals of [AI_Core], with their arguments.  The markup of a
    [tool_activity_received] body is left out: the body is the list of the
    values interpolated into it, in order. *)
Inductive signal : Type :=
| text_received (text : string)
| end_of_turn
| frame_received (image : option frame)
| search_results_received (urls : list string)
| code_being_executed (code result : string)
| file_list_received (directory_path files : value)
| file_search_received (query : value) (matches : list string)
| file_opened_received (file_path : string)
| tool_activity_received (tag : string) (body : list string)
| video_mode_changed (mode : string)
| speaking_started
| speaking_stopped.

Inductive camera_op : Type := CamOpen | CamRead | CamRelease | ScreenGrab.

Inductive ws_op : Type := WsConnect | WsSend (message : string) | WsClose.

(** An item of [out_queue_gemini]: the dictionaries
    [{"data": .., "mime_type": ..}] the producers put. *)
Record message : Type := Message { msg_mime_type : string; msg_data : string }.

(** Everything observable, in the order it happens: signals emitted, calls
    on the remote session, camera and websocket operations, and the items
    whose [put] on [out_queue_gemini] completed. *)
Inductive action : Type :=
| Emit (sg : signal)
| Session (op : session_op)
| Camera (op : camera_op)
| Websocket (op : ws_op)
| Submit (item : message).

(** ** The state of [AI_Core] *)

Inductive VideoCapture : Type := VideoCapture0.

(** The fields of [AI_Core] set in [__init__], the local [video_capture] of
    [stream_video_to_gui] (it lives across iterations of its loop), the
    trace and the world. *)
Record core (W : Type) : Type := Core {
  video_mode : string;
  is_running : bool;
  session : bool;
  out_queue_gemini : list message;
  response_queue_tts : list (option string);
  audio_in_queue_player : list bytes;
  text_input_queue : list (option string);
  latest_frame : option frame;
  video_capture : option VideoCapture;
  trace : list action;
  world : W
}.
Arguments Core {W}.
Arguments video_mode {W}.
Arguments is_running {W}.
Arguments session {W}.
Arguments out_queue_gemini {W}.
Arguments response_queue_tts {W}.
Arguments audio_in_queue_player {W}.
Arguments text_input_queue {W}.
Arguments latest_frame {W}.
Arguments video_capture {W}.
Arguments trace {W}.
Arguments world {W}.

(** [asyncio.Queue(maxsize=20)]. *)
Definition out_queue_maxsize : nat := 20.

Section Setters.
Context {W : Type}.
Implicit Type c : core W.

Definition set_video_mode_field (m : string) c : core W :=
  Core m (is_running c) (session c) (out_queue_gemini c) (response_queue_tts c)
    (audio_in_queue_player c) (text_input_queue c) (latest_frame c)
    (video_capture c) (trace c) (world c).
Definition set_is_running (b : bool) c : core W :=
  Core (video_mode c) b (session c) (out_queue_gemini c) (response_queue_tts c)
    (audio_in_queue_player c) (text_input_queue c) (latest_frame c)
    (video_capture c) (trace c) (world c).
Definition set_out_queue_gemini (q : list message) c : core W :=
  Core (video_mode c) (is_running c) (session c) q (response_queue_tts c)
    (audio_in_queue_player c) (text_input_queue c) (latest_frame c)
    (video_capture c) (trace c) (world c).
Definition set_response_queue_tts (q : list (option string)) c : core W :=
  Core (video_mode c) (is_running c) (session c) (out_queue_gemini c) q
    (audio_in_queue_player c) (text_input_queue c) (latest_frame c)
    (video_capture c) (trace c) (world c).
Definition set_audio_in_queue_player (q : list bytes) c : core W :=
  Core (video_mode c) (is_running c) (session c) (out_queue_gemini c)
    (response_queue_tts c) q (text_input_queue c) (latest_frame c)
    (video_capture c) (trace c) (world c).
Definition set_text_input_queue (q : list (option string)) c : core W :=
  Core (video_mode c) (is_running c) (session c) (out_queue_gemini c)
    (response_queue_tts c) (audio_in_queue_player c) q (latest_frame c)
    (video_capture c) (trace c) (world c).
Definition set_latest_frame (f : option frame) c : core W :=
  Core (video_mode c) (is_running c) (session c) (out_queue_gemini c)
    (response_queue_tts c) (audio_in_queue_player c) (text_input_queue c) f
    (video_capture c) (trace c) (world c).
Definition set_video_capture (v : option VideoCapture) c : core W :=
  Core (video_mode c) (is_running c) (session c) (out_queue_gemini c)
    (response_queue_tts c) (audio_in_queue_player c) (text_input_queue c)
    (latest_frame c) v (trace c) (world c).
Definition set_trace (t : list action) c : core W :=
  Core (video_mode c) (is_running c) (session c) (out_queue_gemini c)
    (response_queue_tts c) (audio_in_queue_player c) (text_input_queue c)
    (latest_frame c) (video_capture c) t (world c).
Definition set_world (w : W) c : core W :=
  Core (video_mode c) (is_running c) (session c) (out_queue_gemini c)
    (response_queue_tts c) (audio_in_queue_player c) (text_input_queue c)
    (latest_frame c) (video_capture c) (trace c) w.

(** Appending to the trace. *)
Definition log (a : action) : SO (core W) unit :=
  modify (fun c => set_trace (trace c ++ [a]) c).

(** [self.<signal>.emit(..)]. *)
Definition emit (sg : signal) : SO (core W) unit := log (Emit sg).

(** Running code that only touches the world (a tool helper, a library
    call) from a coroutine. *)
Definition in_world {A} (m : SO W A) : SO (core W) A :=
  fun c => let '(r, w') := m (world c) in (r, set_world w' c).

(** [await f(..)] for an awaited library call. *)
Definition await {A} (f : Await W A) : SO (core W) A :=
  fun c => match f (world c) with
           | (Some (Ok a), w') => (Ret a, set_world w' c)
           | (Some (Err e), w') => (Raise e, set_world w' c)
           | (None, w') => (Cancelled, set_world w' c)
           end.
End Setters.

(** Writes to standard output ([print], [traceback.print_exc]) and sleeps
    are left out of the model: no signal, queue or session call depends on
    them. *)

(** ** MediaCapture: [set_video_mode] and [stream_video_to_gui] *)

Section MediaCapture.
Context {W : Type} `{World W}.

Definition video_modes : list string := ["camera"; "screen"; "none"].

(** [AI_Core.set_video_mode], a Qt slot taking a [str]. *)
Definition set_video_mode (mode : string) : SO (core W) unit :=
  if bool_decide (mode ∈ video_modes) then
    modify (set_video_mode_field mode) ;;
    (if String.eqb mode "none" then modify (set_latest_frame None) else mret tt) ;;
    emit (video_mode_changed mode)
  else mret tt.

(** [if video_capture is not None: await asyncio.to_thread(video_capture.release);
    video_capture = None].  Releasing a capture does not raise. *)
Definition release_capture : SO (core W) unit :=
  vc ← gets video_capture;
  match vc with
  | Some _ => log (Camera CamRelease) ;; modify (set_video_capture None)
  | None => mret tt
  end.

(** The first half of the loop body: acquire one frame according to the
    mode.  [None] stands for [continue]; [Some frame] carries the value of
    the local [frame] ([None] when the camera is not opened). *)
Definition capture_frame : SO (core W) (option (option frame)) :=
  mode ← gets video_mode;
  if String.eqb mode "camera" then
    vc ← gets video_capture;
    match vc with
    | None =>
        await cv2_VideoCapture ;;
        log (Camera CamOpen) ;;
        modify (set_video_capture (Some VideoCapture0))
    | Some _ => mret tt
    end ;;
    opened ← gets (fun c => cap_isOpened (world c));
    if opened : bool then
      log (Camera CamRead) ;;
      rf ← await cap_read;
      if negb (fst rf) then mret None else mret (Some (snd rf))
    else mret (Some None)
  else if String.eqb mode "screen" then
    release_capture ;;
    log (Camera ScreenGrab) ;;
    fr ← await ImageGrab_grab;
    mret (Some (Some fr))
  else
    release_capture ;;
    mret None.

(** The second half: publish the frame as the latest one and to the GUI. *)
Definition publish_frame (fr : option frame) : SO (core W) unit :=
  match fr with
  | Some f => modify (set_latest_frame (Some f)) ;; emit (frame_received (Some f))
  | None => emit (frame_received None)
  end.

(** One iteration of [while self.is_running] in [stream_video_to_gui],
    with its [try .. except Exception]. *)
Definition stream_video_iteration : SO (core W) unit :=
  try_except
    (r ← capture_frame;
     match r with
     | None => mret tt
     | Some fr => publish_frame fr
     end)
    (fun _ => release_capture).

(** One evaluation of the loop condition of [stream_video_to_gui]: the
    body when running, otherwise the release after the loop. *)
Definition stream_video_to_gui_turn : SO (core W) unit :=
  running ← gets is_running;
  if running : bool then stream_video_iteration else release_capture.

(** What can happen to the capture pipeline, in any order: a mode switch
    from the GUI, a turn of the capture loop, the orchestrator stopping. *)
Inductive video_event : Type :=
| SetVideoMode (mode : string)
| CaptureLoopTurn
| StopRunning.

Definition video_step (ev : video_event) : SO (core W) unit :=
  match ev with
  | SetVideoMode mode => set_video_mode mode
  | CaptureLoopTurn => stream_video_to_gui_turn
  | StopRunning => modify (set_is_running false)
  end.

(** A schedule of such events; the state after it, whatever the outcome. *)
Fixpoint run_video (evs : list video_event) (c : core W) : core W :=
  match evs with
  | [] => c
  | ev :: evs' => run_video evs' (snd (video_step ev c))
  end.
End MediaCapture.

(** The capture devices held after a trace, starting from [h] held, and
    whether the trace ever holds two at once or releases one it does not
    hold. *)
Fixpoint held_after (t : list action) (h : nat) : nat :=
  match t with
  | [] => h
  | Camera CamOpen :: t' => held_after t' (S h)
  | Camera CamRelease :: t' => held_after t' (Nat.pred h)
  | _ :: t' => held_after t' h
  end.

Fixpoint held_ok (t : list action) (h : nat) : bool :=
  match t with
  | [] => true
  | Camera CamOpen :: t' => Nat.eqb h 0 && held_ok t' 1
  | Camera CamRelease :: t' => Nat.eqb h 1 && held_ok t' 0
  | _ :: t' => held_ok t' h
  end.

(** The camera and screen operations of a trace. *)
Definition camera_ops (t : list action) : list camera_op :=
  omap (fun a => match a with Camera op => Some op | _ => None end) t.

(** The capture loop owns at most one device, and the trace agrees with the
    local [video_capture]. *)
Definition capture_inv {W : Type} (c : core W) : Prop :=
  held_ok (trace c) 0%nat = true /\
  held_after (trace c) 0%nat = (if video_capture c is Some _ then 1%nat else 0%nat).

(** The calls on the remote session and the submitted items of a trace. *)
Definition session_ops (t : list action) : list session_op :=
  omap (fun a => match a with Session op => Some op | _ => None end) t.

Definition submitted (t : list action) : list message :=
  omap (fun a => match a with Submit m => Some m | _ => None end) t.

(** ** OutboundMux: the producers and [send_realtime] *)

Section OutboundMux.
Context {W : Type} `{World W}.

(** [await self.session.<op>(..)]. *)
Definition session_call (op : session_op) : SO (core W) unit :=
  log (Session op) ;; await (session_send op).

(** [await self.out_queue_gemini.put(item)] on the queue of capacity 20:
    the producer stays suspended while the queue is full. *)
Definition out_queue_put (item : message) : SO (core W) unit :=
  q ← gets out_queue_gemini;
  if bool_decide (length q < out_queue_maxsize)%nat then
    modify (set_out_queue_gemini (q ++ [item])) ;; log (Submit item)
  else block.

(** One iteration of the loop of [listen_audio]. *)
Definition listen_audio_iteration : SO (core W) unit :=
  data ← await audio_stream_read;
  running ← gets is_running;
  if running : bool then out_queue_put (Message "audio/pcm" data)
  else mret tt.

(** One iteration of the loop of [send_frames_to_gemini]. *)
Definition send_frames_to_gemini_iteration : SO (core W) unit :=
  mode ← gets video_mode;
  lf ← gets latest_frame;
  match lf with
  | Some fr =>
      if negb (String.eqb mode "none") then
        out_queue_put (Message "image/jpeg" (b64encode (jpeg_of_frame fr)))
      else mret tt
  | None => mret tt
  end.

(** One iteration of the loop of [send_realtime]; [false] stands for
    [break]. *)
Definition send_realtime_iteration : SO (core W) bool :=
  q ← gets out_queue_gemini;
  match q with
  | [] => block
  | msg :: q' =>
      modify (set_out_queue_gemini q') ;;
      running ← gets is_running;
      if negb running then mret false
      else
        (if String.eqb (msg_mime_type msg) "audio/pcm" then
           session_call (send_realtime_input_audio (msg_data msg))
         else if String.eqb (msg_mime_type msg) "image/jpeg" then
           match b64decode (msg_data msg) with
           | Ok data => session_call (send_realtime_input_video data)
           | Err e => raise e
           end
         else mret tt) ;;
        mret true
  end.

(** The loop condition [while self.is_running] in front of a body. *)
Definition while_running_turn (body : SO (core W) unit) : SO (core W) unit :=
  running ← gets is_running;
  if running : bool then body else mret tt.

(** The tasks around the outbound queue, scheduled in any order, and
    mode switches from the GUI. *)
Inductive mux_event : Type :=
| MicTurn
| FrameSamplerTurn
| SenderTurn
| CaptureTurn
| ModeSwitch (mode : string).

Definition mux_step (ev : mux_event) : SO (core W) unit :=
  match ev with
  | MicTurn => while_running_turn listen_audio_iteration
  | FrameSamplerTurn => while_running_turn send_frames_to_gemini_iteration
  | SenderTurn => while_running_turn (send_realtime_iteration ;; mret tt)
  | CaptureTurn => stream_video_to_gui_turn
  | ModeSwitch mode => set_video_mode mode
  end.

Definition same_task (e1 e2 : mux_event) : bool :=
  match e1, e2 with
  | MicTurn, MicTurn | FrameSamplerTurn, FrameSamplerTurn
  | SenderTurn, SenderTurn | CaptureTurn, CaptureTurn => true
  | _, _ => false
  end.

(** Running a schedule, [dead] being the tasks that have ended with an
    exception.  A task that would suspend (a [put] on the full queue, a
    [get] on the empty one) does not take its turn now; a task that
    raises or is cancelled is finished and takes no further turn. *)
Fixpoint run_mux (evs : list mux_event) (dead : list mux_event) (c : core W)
    : list mux_event * core W :=
  match evs with
  | [] => (dead, c)
  | ev :: evs' =>
      if existsb (same_task ev) dead then run_mux evs' dead c
      else
        match mux_step ev c with
        | (Ret _, c') => run_mux evs' dead c'
        | (Block, _) => run_mux evs' dead c
        | (Raise _, c') | (Cancelled, c') => run_mux evs' (ev :: dead) c'
        end
  end.

(** What [send_realtime] sends for an item: nothing for an item it cannot
    decode or does not know. *)
Definition realtime_input (msg : message) : option session_op :=
  if String.eqb (msg_mime_type msg) "audio/pcm" then
    Some (send_realtime_input_audio (msg_data msg))
  else if String.eqb (msg_mime_type msg) "image/jpeg" then
    match b64decode (msg_data msg) with
    | Ok data => Some (send_realtime_input_video data)
    | Err _ => None
    end
  else None.

(** The submitted items split into a consumed prefix and the queue; the
    session calls are what [send_realtime] sends for the consumed items,
    in order; the queue respects its capacity. *)
Definition mux_inv (c : core W) : Prop :=
  is_running c = true /\
  (length (out_queue_gemini c) <= out_queue_maxsize)%nat /\
  exists consumed,
    submitted (trace c) = consumed ++ out_queue_gemini c /\
    session_ops (trace c) = omap realtime_input consumed.
End OutboundMux.

(** ** SessionOrchestrator: [process_text_input_queue] *)

(** [while not q.empty(): q.get_nowait()], on the contents of the queue. *)
Fixpoint drain {A} (q : list A) : list A :=
  match q with
  | [] => []
  | _ :: q' => drain q'
  end.

(** [text or "."] for a [str]. *)
Definition str_or (text dflt : string) : string :=
  if String.eqb text "" then dflt else text.

Section TextInput.
Context {W : Type} `{World W}.

(** [for q in [self.response_queue_tts, self.audio_in_queue_player]:
      while not q.empty(): q.get_nowait()]. *)
Definition purge_speech_queues : SO (core W) unit :=
  modify (fun c => set_response_queue_tts (drain (response_queue_tts c)) c) ;;
  modify (fun c => set_audio_in_queue_player (drain (audio_in_queue_player c)) c).

(** One iteration of the loop of [process_text_input_queue]; [false]
    stands for [break].  An item is a [str], or [None] for the shutdown
    sentinel. *)
Definition process_text_input_iteration : SO (core W) bool :=
  q ← gets text_input_queue;
  match q with
  | [] => block
  | item :: q' =>
      modify (set_text_input_queue q') ;;
      match item with
      | None => mret false
      | Some text =>
          open ← gets session;
          (if open : bool then
             purge_speech_queues ;;
             session_call (send_client_content (str_or text "."))
           else mret tt) ;;
          mret true
      end
  end.

(** [process_text_input_queue], for at most [fuel] iterations. *)
Fixpoint process_text_input_loop (fuel : nat) : SO (core W) unit :=
  match fuel with
  | O => block
  | S fuel' =>
      running ← gets is_running;
      if running : bool then
        continue ← process_text_input_iteration;
        if continue : bool then process_text_input_loop fuel' else mret tt
      else mret tt
  end.

(** Every iteration takes an item off the queue, so one more iteration
    than there are items is enough: the loop then ends or is suspended on
    the empty queue. *)
Definition process_text_input_queue : SO (core W) unit :=
  fun c => process_text_input_loop (S (length (text_input_queue c))) c.

(** The state in which the user turn is sent: the item is off the input
    queue and both speech queues have been emptied. *)
Definition purged (c : core W) (q' : list (option string)) : core W :=
  set_audio_in_queue_player []
    (set_response_queue_tts [] (set_text_input_queue q' c)).
End TextInput.

(** ** TTSBridge: [tts] *)

(** The speaking signals of a trace: [true] for [speaking_started],
    [false] for [speaking_stopped]. *)
Definition speaking_events (t : list action) : list bool :=
  omap (fun a => match a with
                 | Emit speaking_started => Some true
                 | Emit speaking_stopped => Some false
                 | _ => None
                 end) t.

(** The speaking flag of the animation widget after a trace
    ([start_speaking_animation] sets it, [stop_speaking_animation] clears
    it). *)
Definition is_speaking (t : list action) : bool :=
  default false (last (speaking_events t)).

(** The speaking signals of [n] completed episodes. *)
Definition episodes (n : nat) : list bool := concat (replicate n [true; false]).

Section TTSBridge.
Context {W : Type} `{World W}.

(** [await websocket.send(json.dumps({"text": text, ..}))]: the message is
    represented by its ["text"] field. *)
Definition websocket_send (text : string) : SO (core W) unit :=
  log (Websocket (WsSend text)) ;; await (ws_send text).

(** The inner loop of [tts]: forward the following fragments until the end
    sentinel, for at most [fuel] iterations. *)
Fixpoint tts_forward_fragments (fuel : nat) : SO (core W) unit :=
  match fuel with
  | O => block
  | S fuel' =>
      running ← gets is_running;
      if running : bool then
        q ← gets response_queue_tts;
        match q with
        | [] => block
        | None :: q' =>
            modify (set_response_queue_tts q') ;;
            websocket_send ""
        | Some text_chunk :: q' =>
            modify (set_response_queue_tts q') ;;
            websocket_send (String.append text_chunk " ") ;;
            tts_forward_fragments fuel'
        end
      else mret tt
  end.

(** The body of [try] in [tts].  The task [listen()] is represented by what
    awaiting it gives: the decoded audio buffers it has put on the playback
    queue, or the exception it ended with.  Leaving [async with] closes the
    connection. *)
Definition tts_connection (text_chunk : string) (fuel : nat) : SO (core W) unit :=
  await ws_connect ;;
  log (Websocket WsConnect) ;;
  try_finally
    (websocket_send " " ;;
     websocket_send (String.append text_chunk " ") ;;
     tts_forward_fragments fuel ;;
     audio ← await ws_listen;
     modify (fun c => set_audio_in_queue_player (audio_in_queue_player c ++ audio) c))
    (log (Websocket WsClose)).

(** One speech episode: [speaking_started], the connection under
    [try .. except Exception .. finally], [speaking_stopped]. *)
Definition tts_episode_fuel (text_chunk : string) (fuel : nat) : SO (core W) unit :=
  emit speaking_started ;;
  try_finally
    (try_except (tts_connection text_chunk fuel) (fun _ => mret tt))
    (emit speaking_stopped).

(** The outer loop of [tts], for at most [fuel] iterations. *)
Fixpoint tts_loop (fuel : nat) : SO (core W) unit :=
  match fuel with
  | O => block
  | S fuel' =>
      running ← gets is_running;
      if running : bool then
        q ← gets response_queue_tts;
        match q with
        | [] => block
        | item :: q' =>
            modify (set_response_queue_tts q') ;;
            running' ← gets is_running;
            match item with
            | Some text_chunk =>
                if running' : bool then
                  tts_episode_fuel text_chunk fuel' ;;
                  tts_loop fuel'
                else tts_loop fuel'
            | None => tts_loop fuel'
            end
        end
      else mret tt
  end.

(** Every iteration of either loop takes an item off the fragment queue,
    so one more iteration than there are items is enough. *)
Definition tts_episode (text_chunk : string) : SO (core W) unit :=
  fun c => tts_episode_fuel text_chunk (S (length (response_queue_tts c))) c.

Definition tts : SO (core W) unit :=
  fun c => tts_loop (S (length (response_queue_tts c))) c.
End TTSBridge.

(** ** Python string operations used by the tool helpers and the demux *)


Definition map_string (f : ascii -> ascii) (s : string) : string :=
  string_of_list_ascii (map f (list_ascii_of_string s)).

Definition ascii_lower (c : ascii) : ascii :=
  let n := nat_of_ascii c in
  if (Nat.leb 65 n && Nat.leb n 90)%bool then ascii_of_nat (n + 32) else c.

Definition ascii_upper (c : ascii) : ascii :=
  let n := nat_of_ascii c in
  if (Nat.leb 97 n && Nat.leb n 122)%bool then ascii_of_nat (n - 32) else c.

(** [s.lower()] and [s.upper()] for a string of ASCII characters; the
    case of other letters is not modelled, and what is stated of a
    comparison of lower-cased names is stated of ASCII names. *)
Definition str_lower : string -> string := map_string ascii_lower.
Definition str_upper : string -> string := map_string ascii_upper.

(** A [str] is held as the bytes of its UTF-8 encoding.  The white space
    of Python ([str.isspace], which [str.strip()] and [str.split()] go by)
    is U+0009 to U+000D, U+001C to U+0020, U+0085, U+00A0, U+1680, U+2000
    to U+200A, U+2028, U+2029, U+202F, U+205F and U+3000; the first ten are
    single bytes. *)
Definition ascii_is_space (c : ascii) : bool :=
  let n := nat_of_ascii c in
  ((Nat.leb 9 n && Nat.leb n 13) || (Nat.leb 28 n && Nat.leb n 32))%bool.

(** The number of bytes of the white space character that [s] starts
    with; 0 when it starts with none. *)
Definition space_width (s : string) : nat :=
  match s with
  | String c0 s0 =>
      if ascii_is_space c0 then 1%nat
      else
        match s0 with
        | String c1 s1 =>
            let n0 := nat_of_ascii c0 in
            let n1 := nat_of_ascii c1 in
            if (Nat.eqb n0 194 && (Nat.eqb n1 133 || Nat.eqb n1 160))%bool then 2%nat
            else
              match s1 with
              | String c2 _ =>
                  let n2 := nat_of_ascii c2 in
                  if (Nat.eqb n0 225 && Nat.eqb n1 154 && Nat.eqb n2 128)%bool then 3%nat
                  else if (Nat.eqb n0 226 && Nat.eqb n1 128 &&
                           ((Nat.leb 128 n2 && Nat.leb n2 138) || Nat.eqb n2 168 ||
                            Nat.eqb n2 169 || Nat.eqb n2 175))%bool then 3%nat
                  else if (Nat.eqb n0 226 && Nat.eqb n1 129 && Nat.eqb n2 159)%bool
                  then 3%nat
                  else if (Nat.eqb n0 227 && Nat.eqb n1 128 && Nat.eqb n2 128)%bool
                  then 3%nat
                  else 0%nat
              | EmptyString => 0%nat
              end
        | EmptyString => 0%nat
        end
  | EmptyString => 0%nat
  end.

(** [s.lstrip()]; [inside] counts the bytes still to come of a white space
    character that has begun. *)
Fixpoint lstrip_go (inside : nat) (s : string) : string :=
  match s with
  | String c s' =>
      match inside with
      | S k => lstrip_go k s'
      | O =>
          match space_width s with
          | S k => lstrip_go k s'
          | O => s
          end
      end
  | EmptyString => EmptyString
  end.

Definition lstrip (s : string) : string := lstrip_go 0 s.

(** [s.rstrip()]: a white space character is kept when something is kept
    after it. *)
Fixpoint rstrip_go (inside : nat) (s : string) : string :=
  match s with
  | String c s' =>
      let blank (k : nat) :=
        match rstrip_go k s' with
        | EmptyString => EmptyString
        | kept => String c kept
        end in
      match inside with
      | S k => blank k
      | O =>
          match space_width s with
          | S k => blank k
          | O => String c (rstrip_go 0 s')
          end
      end
  | EmptyString => EmptyString
  end.

Definition rstrip (s : string) : string := rstrip_go 0 s.

(** [s.strip()]. *)
Definition str_strip (s : string) : string := rstrip (lstrip s).

(** [s.startswith(p)] and [s.endswith(p)]. *)
Definition str_startswith (p s : string) : bool := String.prefix p s.
Definition str_endswith (p s : string) : bool :=
  String.prefix (String.rev p) (String.rev s).

(** [sub in s]. *)
Fixpoint str_contains (sub s : string) : bool :=
  String.prefix sub s ||
  match s with
  | String _ s' => str_contains sub s'
  | EmptyString => false
  end.

(** [s.replace(c, r)] for a one-character [c]. *)
Fixpoint str_replace_char (c : ascii) (r : string) (s : string) : string :=
  match s with
  | String c' s' =>
      if Ascii.eqb c c' then String.append r (str_replace_char c r s')
      else String c' (str_replace_char c r s')
  | EmptyString => EmptyString
  end.

(** [s[:n]]. *)
Definition str_take (n : nat) (s : string) : string := String.substring 0 n s.

(** [s.split(sep)] for a non-empty [sep]: the pieces between the
    occurrences of [sep], scanned from the left. *)
Fixpoint str_split_go (sep : string) (skip : nat) (cur : string) (s : string)
    : list string :=
  match s with
  | EmptyString => [String.rev cur]
  | String c s' =>
      match skip with
      | S k => str_split_go sep k cur s'
      | O =>
          if String.prefix sep s then
            String.rev cur :: str_split_go sep (String.length sep - 1) "" s'
          else str_split_go sep 0 (String c cur) s'
      end
  end.

Definition str_split (sep s : string) : list string := str_split_go sep 0 "" s.

(** [html.escape(s)] on a [str]: the ampersand, the angle brackets and the
    double and single quotes are replaced by their entities. *)
Definition escape_char (c : ascii) : string :=
  if Ascii.eqb c "&" then "&amp;"
  else if Ascii.eqb c "<" then "&lt;"
  else if Ascii.eqb c ">" then "&gt;"
  else if Ascii.eqb c (ascii_of_nat 34) then "&quot;"
  else if Ascii.eqb c "'" then "&#x27;"
  else String c EmptyString.

Fixpoint html_escape (s : string) : string :=
  match s with
  | String c s' => String.append (escape_char c) (html_escape s')
  | EmptyString => EmptyString
  end.

(** [str(v)], as an f-string interpolates a value.  Strings inside a list
    are shown between single quotes, without escaping. *)
Fixpoint py_str_aux (top : bool) (v : value) : string :=
  match v with
  | VNone => "None"
  | VBool true => "True"
  | VBool false => "False"
  | VInt n => pretty n
  | VStr s => if top then s else String.append "'" (String.append s "'")
  | VList l =>
      String.append "["
        (String.append (String.concat ", " (map (py_str_aux false) l)) "]")
  end.

Definition py_str : value -> string := py_str_aux true.

(** Concatenation of the pieces of an f-string. *)
Definition fmt (pieces : list string) : string := String.concat "" pieces.

Section DynamicTyping.
Context {S : Type}.

(** Operations that exist on [str] only raise on any other value. *)
Definition attribute_error {A} (attr : string) : SO S A :=
  raise (Exn AttributeError (fmt ["object has no attribute '"; attr; "'"])).

(** [escape(v)]: [html.escape] starts with [v.replace(..)]. *)
Definition escape (v : value) : SO S string :=
  match v with
  | VStr s => mret (html_escape s)
  | _ => attribute_error "replace"
  end.

(** [v.<method>()] for a method of [str], giving [f s] on a string. *)
Definition str_method {A} (attr : string) (f : string -> A) (v : value) : SO S A :=
  match v with
  | VStr s => mret (f s)
  | _ => attribute_error attr
  end.

(** [sub in v]: substring test on a [str], membership on a list, a
    [TypeError] on a value that is not iterable. *)
Definition py_contains (sub : string) (v : value) : SO S bool :=
  match v with
  | VStr s => mret (str_contains sub s)
  | VList l => mret (existsb (fun x => match x with
                                       | VStr s => String.eqb s sub
                                       | _ => false
                                       end) l)
  | _ => raise (Exn TypeError "argument is not iterable")
  end.

(** A value passed where the operating system expects a path. *)
Definition fspath (v : value) : SO S string :=
  match v with
  | VStr s => mret s
  | _ => raise (Exn TypeError "expected str, bytes or os.PathLike object")
  end.
End DynamicTyping.


(** ** ToolExecutor: the helper methods of [AI_Core] *)

(** [{"status": status, "message": message}]. *)
Definition mk_result (status message : string) : dict :=
  <["status" := VStr status]> (<["message" := VStr message]> ∅).

(** [not v or not isinstance(v, str)]. *)
Definition not_a_path (v : value) : bool :=
  negb (truthy v) || negb (isinstance_str v).

(** The double-quote character, for command lines. *)
Definition dq : string := String (ascii_of_nat 34) EmptyString.

(** [os.walk(top)], top-down: one entry [(root, dirs, files)] per directory.
    [keep] is the pruning of [dirs] done by the caller between entries
    ([dirs[:] = ..]); without pruning it is constantly [true]. *)
Fixpoint walk_entries `{World W} (keep : string -> bool) (root : string) (t : dirtree)
    : list (string * list string * list string) :=
  match t with
  | Dir subdirs files =>
      (root, map fst subdirs, files)
        :: flat_map (fun sub => if keep (fst sub)
                                then walk_entries keep (path_join root (fst sub)) (snd sub)
                                else [])
             subdirs
  end.

Section FileHelpers.
Context {W : Type} `{World W}.

Definition _create_folder (folder_path : value) : SO W dict :=
  try_except
    (if not_a_path folder_path then
       mret (mk_result "error" "Invalid folder path provided.")
     else
       p ← fspath folder_path;
       ex ← gets (path_exists p);
       if ex : bool then
         mret (mk_result "skipped" (fmt ["The folder '"; p; "' already exists."]))
       else
         call (os_makedirs p) ;;
         mret (mk_result "success"
                 (fmt ["Successfully created the folder at '"; p; "'."])))
    (fun e => mret (mk_result "error" (fmt ["An error occurred: "; exn_str e]))).

Definition _create_file (file_path content : value) : SO W dict :=
  try_except
    (if not_a_path file_path then
       mret (mk_result "error" "Invalid file path provided.")
     else
       p ← fspath file_path;
       ex ← gets (path_exists p);
       if ex : bool then
         mret (mk_result "skipped" (fmt ["The file '"; p; "' already exists."]))
       else
         call (open_write p content) ;;
         mret (mk_result "success"
                 (fmt ["Successfully created the file at '"; p; "'."])))
    (fun e => mret (mk_result "error"
                      (fmt ["An error occurred while creating the file: "; exn_str e]))).

Definition _edit_file (file_path content : value) : SO W dict :=
  try_except
    (if not_a_path file_path then
       mret (mk_result "error" "Invalid file path provided.")
     else
       p ← fspath file_path;
       ex ← gets (path_exists p);
       if negb ex then
         mret (mk_result "error"
                 (fmt ["The file '"; p; "' does not exist. Please create it first."]))
       else
         call (open_append p (String (ascii_of_nat 10) (py_str content))) ;;
         mret (mk_result "success"
                 (fmt ["Successfully appended content to the file at '"; p; "'."])))
    (fun e => mret (mk_result "error"
                      (fmt ["An error occurred while editing the file: "; exn_str e]))).

Definition _list_files (directory_path : value) : SO W dict :=
  try_except
    (let path_to_list := if truthy directory_path then directory_path else VStr "." in
     if negb (isinstance_str path_to_list) then
       mret (mk_result "error" "Invalid directory path provided.")
     else
       p ← fspath path_to_list;
       isd ← gets (path_isdir p);
       if negb isd then
         mret (mk_result "error" (fmt ["The path '"; p; "' is not a valid directory."]))
       else
         files ← call (os_listdir p);
         mret (<["files" := VList (map VStr files)]>
                 (<["directory_path" := path_to_list]>
                    (mk_result "success"
                       (fmt ["Found "; pretty (length files); " items in '"; p; "'."])))))
    (fun e => mret (mk_result "error" (fmt ["An error occurred: "; exn_str e]))).

Definition _read_file (file_path : value) : SO W dict :=
  try_except
    (if not_a_path file_path then
       mret (mk_result "error" "Invalid file path provided.")
     else
       p ← fspath file_path;
       ex ← gets (path_exists p);
       if negb ex then
         mret (mk_result "error" (fmt ["The file '"; p; "' does not exist."]))
       else
         isf ← gets (path_isfile p);
         if negb isf then
           mret (mk_result "error" (fmt ["The path '"; p; "' is not a file."]))
         else
           content ← call (open_read p);
           mret (<["content" := VStr content]>
                   (mk_result "success" (fmt ["Successfully read the file '"; p; "'."]))))
    (fun e => mret (mk_result "error"
                      (fmt ["An error occurred while reading the file: "; exn_str e]))).

(** The folder shortcuts of [_move_file]. *)
Definition move_shortcuts (home : string) : list (string * string) :=
  [("desktop", path_join home "Desktop");
   ("downloads", path_join home "Downloads");
   ("documents", path_join home "Documents");
   ("videos", path_join home "Videos");
   ("music", path_join home "Music");
   ("pictures", path_join home "Pictures")].

(** [d.get(k)] on a dictionary written as a list of pairs. *)
Definition assoc_get {A} (k : string) (d : list (string * A)) : option A :=
  snd <$> find (fun kv => String.eqb (fst kv) k) d.

Definition _move_file (source_path destination_path : value) : SO W dict :=
  try_except
    (if not_a_path source_path then
       mret (mk_result "error" "Invalid source path provided.")
     else if not_a_path destination_path then
       mret (mk_result "error" "Invalid destination path provided.")
     else
       src ← fspath source_path;
       dst ← fspath destination_path;
       ex ← gets (path_exists src);
       if negb ex then
         mret (mk_result "error" (fmt ["Source '"; src; "' does not exist."]))
       else
         home ← gets expanduser_home;
         let dest_lower := str_lower (str_strip dst) in
         let dst1 := default dst (assoc_get dest_lower (move_shortcuts home)) in
         isd ← gets (path_isdir dst1);
         let dst2 := if isd : bool then path_join dst1 (path_basename src) else dst1 in
         parent ← gets (fun w => path_dirname (path_abspath dst2 w));
         call (os_makedirs_exist_ok parent) ;;
         call (shutil_move src dst2) ;;
         mret (<["destination" := VStr dst2]>
                 (mk_result "success" (fmt ["Moved to '"; dst2; "'."]))))
    (fun e => mret (mk_result "error" (fmt ["Failed to move file: "; exn_str e]))).

Definition pruned_dirs : list string :=
  ["Windows"; "System32"; "SysWOW64"; "WinSxS"; "$Recycle.Bin"; "ProgramData";
   "node_modules"].

(** [not d.startswith('.') and d not in [..]]. *)
Definition keep_dir (d : string) : bool :=
  negb (str_startswith "." d) && negb (existsb (String.eqb d) pruned_dirs).

(** [for f in files: if filename.lower() in f.lower(): matches.append(..)]. *)
Fixpoint scan_files (filename : value) (root : string) (files : list string)
    (matches : list string) : SO W (list string) :=
  match files with
  | [] => mret matches
  | f :: files' =>
      needle ← str_method "lower" str_lower filename;
      if str_contains needle (str_lower f) then
        scan_files filename root files' (matches ++ [path_join root f])
      else scan_files filename root files' matches
  end.

(** The loop over the entries of one [os.walk]; [inl] is the early
    [return matches], [inr] the matches so far at the end of the walk. *)
Fixpoint scan_entries (filename : value)
    (entries : list (string * list string * list string)) (matches : list string)
    : SO W (list string + list string) :=
  match entries with
  | [] => mret (inr matches)
  | (root, _, files) :: entries' =>
      matches' ← scan_files filename root files matches;
      if Nat.leb 5 (length matches') then mret (inl matches')
      else scan_entries filename entries' matches'
  end.

Fixpoint scan_roots (filename : value) (roots : list string) (matches : list string)
    : SO W (list string) :=
  match roots with
  | [] => mret matches
  | root_dir :: roots' =>
      isd ← gets (path_isdir root_dir);
      if String.eqb root_dir "" || negb isd then scan_roots filename roots' matches
      else
        tree ← gets (os_walk root_dir);
        r ← scan_entries filename (walk_entries keep_dir root_dir tree) matches;
        match r with
        | inl found => mret found
        | inr matches' => scan_roots filename roots' matches'
        end
  end.

(** [AI_Core._search_file_sync]: no [try] here. *)
Definition _search_file_sync (filename : value) : SO W (list string) :=
  home ← gets expanduser_home;
  let search_roots :=
    [path_join home "Desktop"; path_join home "Downloads"; path_join home "Documents";
     path_join home "Videos"; path_join home "Music"; path_join home "Pictures"; home] in
  scan_roots filename search_roots [].
End FileHelpers.

(** [app_map] of [_open_application] on Windows. *)
Definition win32_app_map : list (string * string) :=
  [("calculator", "calc.exe");
   ("notepad", "notepad.exe");
   ("paint", "mspaint.exe");
   ("wordpad", "write.exe");
   ("task manager", "taskmgr.exe");
   ("file explorer", "explorer.exe");
   ("explorer", "explorer.exe");
   ("cmd", "cmd.exe");
   ("command prompt", "cmd.exe");
   ("powershell", "powershell.exe");
   ("windows powershell", "powershell.exe");
   ("powershell 7", "pwsh.exe");
   ("pwsh", "pwsh.exe");
   ("terminal", "wt.exe");
   ("windows terminal", "wt.exe");
   ("git bash", "git-bash.exe");
   ("gitbash", "git-bash.exe");
   ("chrome", "chrome.exe");
   ("google chrome", "chrome.exe");
   ("firefox", "firefox.exe");
   ("brave", "brave.exe");
   ("brave browser", "brave.exe");
   ("edge", "msedge.exe");
   ("microsoft edge", "msedge.exe");
   ("obs", "obs64.exe");
   ("obs studio", "obs64.exe");
   ("vlc", "vlc.exe");
   ("discord", "discord.exe");
   ("spotify", "spotify.exe");
   ("steam", "steam.exe");
   ("epic games", "epicgameslauncher.exe");
   ("epic", "epicgameslauncher.exe");
   ("mumuplayer", "MuMuNxMain.exe");
   ("mumu", "MuMuNxMain.exe");
   ("mumu player", "MuMuNxMain.exe");
   ("vs code", "code.exe");
   ("vscode", "code.exe");
   ("visual studio code", "code.exe");
   ("word", "winword.exe");
   ("microsoft word", "winword.exe");
   ("excel", "excel.exe");
   ("microsoft excel", "excel.exe");
   ("powerpoint", "powerpnt.exe");
   ("snipping tool", "snippingtool.exe");
   ("teams", "ms-teams:");
   ("microsoft teams", "ms-teams:");
   ("outlook", "outlook.exe");
   ("microsoft outlook", "outlook.exe");
   ("skype", "skype.exe");
   ("zoom", "zoom.exe");
   ("telegram", "telegram.exe");
   ("whatsapp", "whatsapp.exe");
   ("filmora", "Wondershare Filmora Launcher.exe")].

(** [process_map] of [_close_application] on Windows. *)
Definition win32_process_map : list (string * list string) :=
  [("chrome", ["chrome.exe"]);
   ("google chrome", ["chrome.exe"]);
   ("brave", ["brave.exe"]);
   ("brave browser", ["brave.exe"]);
   ("firefox", ["firefox.exe"]);
   ("edge", ["msedge.exe"]);
   ("microsoft edge", ["msedge.exe"]);
   ("discord", ["discord.exe"]);
   ("spotify", ["spotify.exe"]);
   ("steam", ["steam.exe"]);
   ("obs", ["obs64.exe"]);
   ("obs studio", ["obs64.exe"]);
   ("vlc", ["vlc.exe"]);
   ("notepad", ["notepad.exe"]);
   ("calculator", ["calculatorapp.exe"; "calc.exe"]);
   ("explorer", ["explorer.exe"]);
   ("file explorer", ["explorer.exe"]);
   ("task manager", ["taskmgr.exe"]);
   ("cmd", ["cmd.exe"]);
   ("command prompt", ["cmd.exe"]);
   ("powershell", ["powershell.exe"]);
   ("teams", ["ms-teams.exe"; "teams.exe"]);
   ("microsoft teams", ["ms-teams.exe"; "teams.exe"]);
   ("outlook", ["outlook.exe"]);
   ("word", ["winword.exe"]);
   ("microsoft word", ["winword.exe"]);
   ("excel", ["excel.exe"]);
   ("microsoft excel", ["excel.exe"]);
   ("powerpoint", ["powerpnt.exe"]);
   ("zoom", ["zoom.exe"]);
   ("telegram", ["telegram.exe"]);
   ("skype", ["skype.exe"]);
   ("mumuplayer", ["MuMuNxMain.exe"]);
   ("mumu", ["MuMuNxMain.exe"]);
   ("mumu player", ["MuMuNxMain.exe"]);
   ("epic games", ["epicgameslauncher.exe"]);
   ("vs code", ["code.exe"]);
   ("vscode", ["code.exe"]);
   ("visual studio code", ["code.exe"]);
   ("paint", ["mspaint.exe"]);
   ("filmora", ["Filmora.exe"]);
   ("whatsapp", ["whatsapp.exe"])].

(** [app_map] of [_open_application] on macOS. *)
Definition darwin_app_map : list (string * string) :=
  [("calculator", "Calculator"); ("chrome", "Google Chrome"); ("firefox", "Firefox");
   ("finder", "Finder"); ("textedit", "TextEdit"); ("obs", "OBS");
   ("obs studio", "OBS"); ("discord", "Discord"); ("spotify", "Spotify")].

(** [CONSOLE_APPS]. *)
Definition CONSOLE_APPS : list string :=
  ["cmd.exe"; "powershell.exe"; "pwsh.exe"; "wt.exe"; "git-bash.exe"].

(** The command line [start "" "<target>"]. *)
Definition start_command (target : string) : command :=
  Shell (fmt ["start "; dq; dq; " "; dq; target; dq]).

(** [v == s] for a string literal [s]. *)
Definition value_is (v : value) (s : string) : bool :=
  match v with VStr s' => String.eqb s' s | _ => false end.

Section ApplicationHelpers.
Context {W : Type} `{World W}.

Definition launched (application_name : string) : dict :=
  mk_result "success" (fmt ["Successfully launched '"; application_name; "'."]).

Definition attempted (application_name : string) : dict :=
  mk_result "success" (fmt ["Attempted to launch '"; application_name; "'."]).

(** [for root, dirs, files in os.walk(d): if exe.lower() in [f.lower() ..]: ..]:
    [Some result] is the [return] from inside the loop. *)
Fixpoint launch_from_entries (exe application_name : string)
    (entries : list (string * list string * list string)) : SO W (option dict) :=
  match entries with
  | [] => mret None
  | (root, _, files) :: entries' =>
      if existsb (String.eqb (str_lower exe)) (map str_lower files) then
        let full_path := path_join root exe in
        call (subprocess_Popen (Program full_path)) ;;
        mret (Some (mk_result "success"
                      (fmt ["Launched '"; application_name; "' from "; full_path; "."])))
      else launch_from_entries exe application_name entries'
  end.

Fixpoint launch_from_dirs (exe application_name : string) (search_dirs : list string)
    : SO W (option dict) :=
  match search_dirs with
  | [] => mret None
  | d :: search_dirs' =>
      isd ← gets (path_isdir d);
      if String.eqb d "" || negb isd then
        launch_from_dirs exe application_name search_dirs'
      else
        tree ← gets (os_walk d);
        r ← launch_from_entries exe application_name
              (walk_entries (fun _ => true) d tree);
        match r with
        | Some res => mret (Some res)
        | None => launch_from_dirs exe application_name search_dirs'
        end
  end.

(** [search_dirs] of [_open_application]. *)
Definition install_dirs (w : W) : list string :=
  let env name dflt := default dflt (environ_get name w) in
  [env "ProgramFiles" "C:\Program Files";
   env "ProgramFiles(x86)" "C:\Program Files (x86)";
   env "LocalAppData" "";
   path_join (env "LocalAppData" "") "Programs";
   path_join (env "AppData" "") "..\Local\Programs";
   path_join (env "AppData" "") "Local\Programs"].

Definition _open_application (application_name : value) : SO W dict :=
  try_except
    (if not_a_path application_name then
       mret (mk_result "error" "Invalid application name provided.")
     else
       name ← fspath application_name;
       let name_lower := str_strip (str_lower name) in
       match sys_platform with
       | win32 =>
           let exe := default "" (assoc_get name_lower win32_app_map) in
           if negb (String.eqb exe "") then
             if str_endswith ":" exe then
               call (subprocess_Popen (Shell (fmt ["start "; exe]))) ;;
               mret (launched name)
             else if existsb (String.eqb (str_lower exe)) CONSOLE_APPS then
               call (subprocess_Popen (start_command exe)) ;;
               mret (launched name)
             else
               direct ← try_except_cls is_FileNotFoundError
                          (call (subprocess_Popen (Program exe)) ;;
                           mret (Some (launched name)))
                          (fun _ => mret None);
               match direct with
               | Some res => mret res
               | None =>
                   search_dirs ← gets install_dirs;
                   found ← launch_from_dirs exe name search_dirs;
                   match found with
                   | Some res => mret res
                   | None =>
                       call (subprocess_Popen (start_command exe)) ;;
                       mret (attempted name)
                   end
               end
           else
             call (subprocess_Popen (start_command name)) ;;
             mret (attempted name)
       | darwin =>
           let app_name := default name (assoc_get name_lower darwin_app_map) in
           call (subprocess_Popen (Argv ["open"; "-a"; app_name])) ;;
           mret (launched name)
       | other_platform =>
           call (subprocess_Popen (Argv [name_lower])) ;;
           mret (launched name)
       end)
    (fun e => mret (mk_result "error" (fmt ["An error occurred: "; exn_str e]))).

Definition _open_direct_youtube (query content_type : value) : SO W dict :=
  try_except
    (if not_a_path query then mret (mk_result "error" "Invalid query.")
     else
       q ← fspath query;
       let encoded := str_replace_char " " "+" q in
       let url :=
         if value_is content_type "channel" then
           fmt ["https://www.youtube.com/results?search_query="; encoded;
                "&sp=EgIQAg%253D%253D"]
         else if value_is content_type "video" then
           fmt ["https://www.youtube.com/results?search_query="; encoded;
                "&sp=EgIQAQ%253D%253D"]
         else fmt ["https://www.youtube.com/results?search_query="; encoded] in
       call (webbrowser_open url) ;;
       mret (mk_result "success"
               (fmt ["Opened YouTube search for '"; q; "'. The first result should be the ";
                     py_str content_type;
                     ". The user can now click it themselves, or you can ask them to share the URL so you can open it directly."])))
    (fun e => mret (mk_result "error" (fmt ["An error occurred: "; exn_str e]))).

Definition _search_and_open (query platform : value) : SO W dict :=
  try_except
    (if not_a_path query then mret (mk_result "error" "Invalid query.")
     else
       q ← fspath query;
       let encoded := str_replace_char " " "+" q in
       if value_is platform "youtube" then
         call (webbrowser_open
                 (fmt ["https://www.youtube.com/@"; str_replace_char " " "" q])) ;;
         mret (mk_result "success"
                 (fmt ["Attempted to open YouTube channel for '"; q;
                       "' via direct handle URL. If it doesn't load, I'll search instead."]))
       else if value_is platform "google" then
         call (webbrowser_open (fmt ["https://www.google.com/search?q="; encoded])) ;;
         mret (mk_result "success" (fmt ["Opened Google search for '"; q; "'."]))
       else
         call (webbrowser_open
                 (fmt ["https://www.youtube.com/results?search_query="; encoded])) ;;
         mret (mk_result "success"
                 (fmt ["Opened search for '"; q; "' on "; py_str platform; "."])))
    (fun e => mret (mk_result "error" (fmt ["An error occurred: "; exn_str e]))).

(** [for proc in processes: .. taskkill /F /IM ..; killed.append(proc)]. *)
Fixpoint taskkill_all (processes killed : list string) : SO W (list string) :=
  match processes with
  | [] => mret killed
  | proc :: processes' =>
      returncode ← call (subprocess_run (Shell (fmt ["taskkill /F /IM "; proc])));
      taskkill_all processes' (if returncode =? 0 then killed ++ [proc] else killed)
  end.

Definition not_running (application_name : string) : dict :=
  mk_result "not_found" (fmt ["'"; application_name; "' does not appear to be running."]).

Definition _close_application (application_name : value) : SO W dict :=
  try_except
    (if not_a_path application_name then
       mret (mk_result "error" "Invalid application name provided.")
     else
       name ← fspath application_name;
       let name_lower := str_strip (str_lower name) in
       match sys_platform with
       | win32 =>
           let processes :=
             default [if str_endswith ".exe" name then name else String.append name ".exe"]
               (assoc_get name_lower win32_process_map) in
           killed ← taskkill_all processes [];
           match killed with
           | _ :: _ =>
               mret (mk_result "success" (fmt ["Successfully closed '"; name; "'."]))
           | [] =>
               returncode ← call (subprocess_run
                  (Shell (fmt ["taskkill /F /FI "; dq; "WINDOWTITLE eq *"; name; "*"; dq])));
               if returncode =? 0 then
                 mret (mk_result "success" (fmt ["Closed '"; name; "' by window title."]))
               else mret (not_running name)
           end
       | darwin =>
           returncode ← call (subprocess_run (Argv ["pkill"; "-x"; name]));
           if returncode =? 0 then mret (mk_result "success" (fmt ["Closed '"; name; "'."]))
           else mret (not_running name)
       | other_platform =>
           returncode ← call (subprocess_run (Argv ["pkill"; name]));
           if returncode =? 0 then mret (mk_result "success" (fmt ["Closed '"; name; "'."]))
           else mret (not_running name)
       end)
    (fun e => mret (mk_result "error"
                      (fmt ["Failed to close '"; py_str application_name; "': "; exn_str e]))).

Definition _open_website (url : value) : SO W dict :=
  try_except
    (if not_a_path url then mret (mk_result "error" "Invalid URL provided.")
     else
       u ← fspath url;
       let u' := if str_startswith "http://" u || str_startswith "https://" u
                 then u else String.append "https://" u in
       call (webbrowser_open u') ;;
       mret (mk_result "success" (fmt ["Successfully opened '"; u'; "'."])))
    (fun e => mret (mk_result "error" (fmt ["An error occurred: "; exn_str e]))).
End ApplicationHelpers.

(** The values of ["status"] in a tool result. *)
Definition statuses : list string := ["success"; "error"; "skipped"; "not_found"].

(** A result mapping with a ["status"] among the four and a ["message"]
    that is a string. *)
Definition well_formed_result (d : dict) : Prop :=
  exists status message,
    d !! "status" = Some (VStr status) /\ status ∈ statuses /\
    d !! "message" = Some (VStr message).

(** Running [m] in world [w] returns (it does not raise, is not cancelled
    and does not suspend) a well-formed result. *)
Definition returns_result {W : Type} (m : SO W dict) (w : W) : Prop :=
  exists d w', m w = (Ret d, w') /\ well_formed_result d.

(** ** ResponseDemux: [receive_text] *)

(** A function call of a chunk: [fc.id], [fc.name], [fc.args]. *)
Record function_call : Type := FunctionCall {
  fc_id : string;
  fc_name : string;
  fc_args : dict
}.

(** A part of a model turn.  An attribute that is absent or [None] is
    [None]; [executable_code] holds its [.code], [code_execution_result] its
    [.output], [inline_data] its [.data]. *)
Record part : Type := Part {
  executable_code : option string;
  code_execution_result : option string;
  inline_data : option bytes;
  part_text : option string
}.

(** [chunk.server_content]: the [grounding_chunks] of its grounding
    metadata, each with its [web.uri] if any, and the [parts] of its model
    turn.  The inner option is the list attribute itself, which may be
    [None]. *)
Record server_content : Type := ServerContent {
  grounding_metadata : option (option (list (option string)));
  model_turn : option (option (list part))
}.

(** A chunk of a turn's stream: the function calls of its tool call (empty
    when there is no tool call) and its server content. *)
Record chunk : Type := Chunk {
  tool_call_function_calls : list function_call;
  chunk_server_content : option server_content
}.

(** The stream of one turn: it ends, yields a chunk, raises, or the task is
    cancelled while waiting for the next chunk. *)
Inductive stream : Type :=
| StreamEnd
| StreamChunk (c : chunk) (rest : stream)
| StreamRaise (e : exn)
| StreamCancelled.

(** The locals of one turn of [receive_text]. *)
Record turn_locals : Type := TurnLocals {
  turn_urls : gset string;
  turn_code_content : string;
  turn_code_result : string;
  file_list_data : option (value * value)
}.

Definition fresh_turn : turn_locals := TurnLocals ∅ "" "" None.

(** [a or b] on values. *)
Definition py_or (a b : value) : value := if truthy a then a else b.

(** [result.get("status") == "success"]. *)
Definition status_ok (result : dict) : bool :=
  value_is (dict_get_none result "status") "success".

(** [url.split("//")[-1].split("/")[0]]. *)
Definition url_host (url : string) : string :=
  default "" (head (str_split "/" (default "" (last (str_split "//" url))))).

(** [content[:120].replace("\n", " ")]. *)
Definition preview_of (content : string) : string :=
  str_replace_char (ascii_of_nat 10) " " (str_take 120 content).

Section ToolDispatch.
Context {W : Type} `{World W}.

(** [self.tool_activity_received.emit(tag, body)]: the tag is given without
    its pictograph, and the body by the values of the [escape(..)] calls
    interpolated into its markup, which are evaluated in order before the
    signal is emitted. *)
Definition tool_activity (tag : string) (interpolated : list (SO (core W) string))
    : SO (core W) unit :=
  body ← mapM id interpolated;
  emit (tool_activity_received tag body).

(** [await asyncio.to_thread(self._search_file_sync, filename)]. *)
Definition search_in_thread (filename : value) : SO (core W) (list string) :=
  await to_thread_start ;;
  in_world (_search_file_sync filename).

(** [os.path.exists(v)]: a path for a [str], a file descriptor for an
    [int], a [TypeError] otherwise. *)
Definition py_path_exists (v : value) : SO (core W) bool :=
  match v with
  | VStr p => gets (fun c => path_exists p (world c))
  | VInt n => gets (fun c => fd_exists n (world c))
  | VBool b => gets (fun c => fd_exists (if b then 1 else 0) (world c))
  | _ => raise (Exn TypeError "stat: path should be string, bytes, os.PathLike or integer")
  end.

Definition message_of (result : dict) : value := dict_get result "message" (VStr "").

Definition dispatch_create_folder (args : dict) : SO (core W) dict :=
  let path := dict_get args "folder_path" (VStr "") in
  result ← in_world (_create_folder path);
  tool_activity "CREATE FOLDER" [escape path; escape (message_of result)] ;;
  mret result.

Definition dispatch_create_file (args : dict) : SO (core W) dict :=
  let path := dict_get args "file_path" (VStr "") in
  result ← in_world (_create_file path (dict_get args "content" (VStr "")));
  str_method "splitlines" (fun _ => tt) (dict_get args "content" (VStr "")) ;;
  tool_activity "CREATE FILE" [escape path; escape (message_of result)] ;;
  mret result.

Definition dispatch_edit_file (args : dict) : SO (core W) dict :=
  let path := dict_get args "file_path" (VStr "") in
  result ← in_world (_edit_file path (dict_get args "content" (VStr "")));
  tool_activity "EDIT FILE" [escape path; escape (message_of result)] ;;
  mret result.

Definition dispatch_read_file (args : dict) : SO (core W) dict :=
  let path := dict_get args "file_path" (VStr "") in
  result ← in_world (_read_file path);
  preview ← (if status_ok result
             then s ← str_method "replace" preview_of (dict_get result "content" (VStr ""));
                  mret (VStr s)
             else mret (message_of result));
  tool_activity "READ FILE" [escape path; escape preview] ;;
  mret result.

Definition dispatch_open_application (args : dict) : SO (core W) dict :=
  let app := dict_get args "application_name" (VStr "") in
  tool_activity "LAUNCHING APP" [escape app] ;;
  result ← in_world (_open_application app);
  tool_activity "APP LAUNCHED" [escape app; escape (message_of result)] ;;
  mret result.

Definition dispatch_close_application (args : dict) : SO (core W) dict :=
  let app := dict_get args "application_name" (VStr "") in
  tool_activity "CLOSING APP" [escape app] ;;
  result ← in_world (_close_application app);
  tool_activity "APP CLOSED" [escape app; escape (message_of result)] ;;
  mret result.

Definition dispatch_open_website (args : dict) : SO (core W) dict :=
  let url := dict_get args "url" (VStr "") in
  result ← in_world (_open_website url);
  has_scheme ← py_contains "//" url;
  display ← (if has_scheme : bool
             then s ← str_method "split" url_host url; mret (VStr s)
             else mret url);
  tool_activity "OPEN WEBSITE" [escape url; escape display; escape (message_of result)] ;;
  mret result.

Definition dispatch_open_direct_youtube (args : dict) : SO (core W) dict :=
  let query := dict_get args "query" (VStr "") in
  let ctype := dict_get args "content_type" (VStr "channel") in
  result ← in_world (_open_direct_youtube query ctype);
  tool_activity "YOUTUBE SEARCH" [escape query] ;;
  mret result.

Definition dispatch_search_and_open (args : dict) : SO (core W) dict :=
  let query := dict_get args "query" (VStr "") in
  let platform := dict_get args "platform" (VStr "youtube") in
  result ← in_world (_search_and_open query platform);
  tool_activity "SEARCH & OPEN"
    [upper ← str_method "upper" str_upper platform; escape (VStr upper); escape query] ;;
  mret result.
(** [list_files] emits nothing; a successful listing becomes the turn's
    [file_list_data]. *)
Definition dispatch_list_files (args : dict) (locals : turn_locals)
    : SO (core W) (dict * turn_locals) :=
  result ← in_world (_list_files (dict_get_none args "directory_path"));
  if status_ok result then
    mret (result,
          TurnLocals (turn_urls locals) (turn_code_content locals)
            (turn_code_result locals)
            (Some (dict_get_none result "directory_path", dict_get_none result "files")))
  else mret (result, locals).

Definition dispatch_search_file (args : dict) : SO (core W) dict :=
  let filename := dict_get args "filename" (VStr "") in
  tool_activity "FILE SEARCH" [escape filename] ;;
  matches ← search_in_thread filename;
  let result :=
    match matches with
    | best_match :: _ =>
        <["best_match" := VStr best_match]>
          (<["matches" := VList (map VStr matches)]>
             (mk_result "success" (fmt ["Found "; pretty (length matches); " match(es)."])))
    | [] =>
        mk_result "not_found" (fmt ["No file matching '"; py_str filename; "' found."])
    end in
  emit (file_search_received filename matches) ;;
  mret result.

Definition dispatch_open_file (args : dict) : SO (core W) dict :=
  let file_path0 := dict_get_none args "file_path" in
  let filename := dict_get_none args "filename" in
  file_path ←
    (if negb (truthy file_path0) && truthy filename then
       tool_activity "LOCATING FILE" [escape filename] ;;
       matches ← search_in_thread filename;
       match matches with
       | first :: _ =>
           emit (file_search_received filename matches) ;;
           mret (VStr first)
       | [] => mret VNone
       end
     else mret file_path0);
  found ← (if truthy file_path then py_path_exists file_path else mret false);
  if found : bool then
    try_except
      (p ← fspath file_path;
       match sys_platform with
       | win32 => in_world (call (os_startfile p))
       | _ => in_world (call (subprocess_Popen (Argv ["xdg-open"; p])))
       end ;;
       emit (file_opened_received p) ;;
       mret (mk_result "success" (fmt ["Opened '"; path_basename p; "' successfully."])))
      (fun e =>
         tool_activity "OPEN FAILED" [escape (VStr (exn_str e))] ;;
         mret (mk_result "error" (fmt ["Failed to open file: "; exn_str e])))
  else
    tool_activity "FILE NOT FOUND" [escape (py_or filename (py_or file_path (VStr "?")))] ;;
    mret (mk_result "not_found"
            (fmt ["File not found: '"; py_str (py_or file_path filename); "'."])).

Definition dispatch_move_file (args : dict) : SO (core W) dict :=
  let src := dict_get args "source_path" (VStr "") in
  let dst := dict_get args "destination_path" (VStr "") in
  src_name ← (p ← fspath src; mret (VStr (path_basename p)));
  tool_activity "MOVING FILE" [escape src_name; escape src; escape dst] ;;
  result ← in_world (_move_file src dst);
  let dest_final := dict_get result "destination" dst in
  tool_activity "FILE MOVED" [escape src_name; escape dest_final] ;;
  mret result.

(** The body of [for fc in chunk.tool_call.function_calls] up to the
    [append]: the chain of [if fc.name == ..] with [result = {}] as the
    start value, giving [result] and the turn's locals. *)
Definition dispatch_call (fc : function_call) (locals : turn_locals)
    : SO (core W) (dict * turn_locals) :=
  let args := fc_args fc in
  let keep (m : SO (core W) dict) := result ← m; mret (result, locals) in
  if String.eqb (fc_name fc) "create_folder" then keep (dispatch_create_folder args)
  else if String.eqb (fc_name fc) "create_file" then keep (dispatch_create_file args)
  else if String.eqb (fc_name fc) "edit_file" then keep (dispatch_edit_file args)
  else if String.eqb (fc_name fc) "list_files" then dispatch_list_files args locals
  else if String.eqb (fc_name fc) "read_file" then keep (dispatch_read_file args)
  else if String.eqb (fc_name fc) "open_application" then
    keep (dispatch_open_application args)
  else if String.eqb (fc_name fc) "close_application" then
    keep (dispatch_close_application args)
  else if String.eqb (fc_name fc) "open_website" then keep (dispatch_open_website args)
  else if String.eqb (fc_name fc) "open_direct_youtube" then
    keep (dispatch_open_direct_youtube args)
  else if String.eqb (fc_name fc) "search_and_open" then
    keep (dispatch_search_and_open args)
  else if String.eqb (fc_name fc) "search_file" then keep (dispatch_search_file args)
  else if String.eqb (fc_name fc) "open_file" then keep (dispatch_open_file args)
  else if String.eqb (fc_name fc) "move_file" then keep (dispatch_move_file args)
  else mret (∅, locals).

(** [for fc in ..: ..; function_responses.append({"id": fc.id, "name":
    fc.name, "response": result})]. *)
Fixpoint collect_responses (calls : list function_call)
    (function_responses : list function_response) (locals : turn_locals)
    : SO (core W) (list function_response * turn_locals) :=
  match calls with
  | [] => mret (function_responses, locals)
  | fc :: calls' =>
      r ← dispatch_call fc locals;
      collect_responses calls'
        (function_responses ++ [FunctionResponse (fc_id fc) (fc_name fc) (fst r)])
        (snd r)
  end.

(** The tool-call branch of the chunk loop, up to its [continue]. *)
Definition answer_tool_calls (calls : list function_call) (locals : turn_locals)
    : SO (core W) turn_locals :=
  r ← collect_responses calls [] locals;
  session_call (send_tool_response (fst r)) ;;
  mret (snd r).
End ToolDispatch.

(** The names declared in the tool schema. *)
Definition declared_tools : list string :=
  ["create_folder"; "create_file"; "edit_file"; "list_files"; "read_file";
   "open_application"; "open_website"; "open_direct_youtube"; "search_and_open";
   "close_application"; "search_file"; "open_file"; "move_file"].

Section ResponseDemux.
Context {W : Type} `{World W}.

(** [for g_chunk in ..grounding_chunks: if g_chunk.web and g_chunk.web.uri:
    turn_urls.add(g_chunk.web.uri)]. *)
Definition add_grounding_urls (uris : list (option string)) (locals : turn_locals)
    : turn_locals :=
  TurnLocals
    (foldl (fun urls uri =>
              match uri with
              | Some u => if String.eqb u "" then urls else {[u]} ∪ urls
              | None => urls
              end)
       (turn_urls locals) uris)
    (turn_code_content locals) (turn_code_result locals) (file_list_data locals).

(** The body of [for part in chunk.server_content.model_turn.parts]. *)
Definition handle_part (p : part) (locals : turn_locals) : SO (core W) turn_locals :=
  let code := default (turn_code_content locals) (executable_code p) in
  let output := default (turn_code_result locals) (code_execution_result p) in
  match inline_data p with
  | Some data =>
      modify (fun c => set_audio_in_queue_player (audio_in_queue_player c ++ [data]) c) ;;
      emit speaking_started
  | None => mret tt
  end ;;
  match part_text p with
  | Some text => if String.eqb text "" then mret tt else emit (text_received text)
  | None => mret tt
  end ;;
  mret (TurnLocals (turn_urls locals) code output (file_list_data locals)).

Fixpoint handle_parts (parts : list part) (locals : turn_locals)
    : SO (core W) turn_locals :=
  match parts with
  | [] => mret locals
  | p :: parts' => locals' ← handle_part p locals; handle_parts parts' locals'
  end.

(** Iterating over a list attribute that is [None] raises. *)
Definition iterate {A} (l : option (list A)) : SO (core W) (list A) :=
  match l with
  | Some xs => mret xs
  | None => raise (Exn TypeError "'NoneType' object is not iterable")
  end.

(** [if chunk.server_content: ..]. *)
Definition handle_server_content (sc : server_content) (locals : turn_locals)
    : SO (core W) turn_locals :=
  locals1 ← match grounding_metadata sc with
            | Some grounding_chunks =>
                uris ← iterate grounding_chunks;
                mret (add_grounding_urls uris locals)
            | None => mret locals
            end;
  match model_turn sc with
  | Some parts => ps ← iterate parts; handle_parts ps locals1
  | None => mret locals1
  end.

(** The body of [async for chunk in turn]. *)
Definition handle_chunk (ch : chunk) (locals : turn_locals) : SO (core W) turn_locals :=
  match tool_call_function_calls ch with
  | _ :: _ => answer_tool_calls (tool_call_function_calls ch) locals
  | [] =>
      match chunk_server_content ch with
      | Some sc => handle_server_content sc locals
      | None => mret locals
      end
  end.

(** [async for chunk in turn: ..]. *)
Fixpoint read_stream (turn : stream) (locals : turn_locals) : SO (core W) turn_locals :=
  match turn with
  | StreamEnd => mret locals
  | StreamChunk ch rest => locals' ← handle_chunk ch locals; read_stream rest locals'
  | StreamRaise e => raise e
  | StreamCancelled => fun c => (Cancelled, c)
  end.

(** What follows the loop over the chunks: one activity by priority, or the
    three empty signals; then [end_of_turn] and [speaking_stopped].
    [list(turn_urls)] is the set in some order. *)
Definition finish_turn (locals : turn_locals) : SO (core W) unit :=
  match file_list_data locals with
  | Some (directory_path, files) => emit (file_list_received directory_path files)
  | None =>
      if negb (String.eqb (turn_code_content locals) "") then
        emit (code_being_executed (turn_code_content locals) (turn_code_result locals))
      else if negb (bool_decide (turn_urls locals = ∅)) then
        emit (search_results_received (elements (turn_urls locals)))
      else
        emit (code_being_executed "" "") ;;
        emit (search_results_received []) ;;
        emit (file_list_received (VStr "") (VList []))
  end ;;
  emit end_of_turn ;;
  emit speaking_stopped.

(** The body of [try] in [receive_text]: one turn. *)
Definition receive_turn (turn : stream) : SO (core W) unit :=
  locals ← read_stream turn fresh_turn;
  finish_turn locals.

(** [receive_text] over the turns the session delivers; it is suspended
    when they are exhausted. *)
Fixpoint receive_text (turns : list stream) : SO (core W) unit :=
  match turns with
  | [] => running ← gets is_running; if running : bool then block else mret tt
  | turn :: turns' =>
      running ← gets is_running;
      if running : bool then
        continue ← try_except (receive_turn turn ;; mret true) (fun _ => gets is_running);
        if continue : bool then receive_text turns' else mret tt
      else mret tt
  end.
End ResponseDemux.

(** The signals of a trace, and those of the three activity channels
    decided at the end of a turn. *)
Definition signals (t : list action) : list signal :=
  omap (fun a => match a with Emit sg => Some sg | _ => None end) t.

Definition is_turn_activity (sg : signal) : bool :=
  match sg with
  | file_list_received _ _ | code_being_executed _ _ | search_results_received _ => true
  | _ => false
  end.

(** An activity signal that carries nothing. *)
Definition is_empty_activity (sg : signal) : bool :=
  match sg with
  | file_list_received (VStr "") (VList []) => true
  | code_being_executed "" "" => true
  | search_results_received [] => true
  | _ => false
  end.

(** The text deltas emitted in a trace. *)
Definition texts_received (t : list action) : list string :=
  omap (fun a => match a with Emit (text_received s) => Some s | _ => None end) t.

(** The tool responses sent in a trace, batch by batch. *)
Definition tool_responses (t : list action) : list (list function_response) :=
  omap (fun a => match a with
                 | Session (send_tool_response rs) => Some rs
                 | _ => None
                 end) t.

(** The activity chosen at the end of a turn, in the words of the
    specification: a directory listing, else a code execution, else search
    results, else the three empty signals. *)
Definition turn_activity (locals : turn_locals) : list signal :=
  match file_list_data locals with
  | Some (directory_path, files) => [file_list_received directory_path files]
  | None =>
      if decide (turn_code_content locals <> "") then
        [code_being_executed (turn_code_content locals) (turn_code_result locals)]
      else if decide (turn_urls locals <> ∅) then
        [search_results_received (elements (turn_urls locals))]
      else
        [code_being_executed "" ""; search_results_received [];
         file_list_received (VStr "") (VList [])]
  end.

(** A turn that has accumulated nothing: no directory listing, no code, no
    grounding URL. *)
Definition idle_locals (locals : turn_locals) : Prop :=
  file_list_data locals = None /\ turn_code_content locals = "" /\
  turn_urls locals = ∅.

(** A chunk with no tool call, no grounding URL and no code-execution
    part. *)
Definition idle_part (p : part) : Prop :=
  executable_code p = None /\ code_execution_result p = None.

Definition idle_chunk (ch : chunk) : Prop :=
  tool_call_function_calls ch = [] /\
  match chunk_server_content ch with
  | Some sc =>
      match grounding_metadata sc with
      | Some (Some uris) => Forall (fun u => u = None \/ u = Some "") uris
      | _ => True
      end /\
      match model_turn sc with
      | Some (Some parts) => Forall idle_part parts
      | _ => True
      end
  | None => True
  end.

Fixpoint idle_stream (turn : stream) : Prop :=
  match turn with
  | StreamChunk ch rest => idle_chunk ch /\ idle_stream rest
  | _ => True
  end.

(** The function calls of a stream, chunk by chunk (the chunks that carry
    tool calls), and the text deltas of its other chunks, in order. *)
Fixpoint stream_batches (turn : stream) : list (list function_call) :=
  match turn with
  | StreamChunk ch rest =>
      match tool_call_function_calls ch with
      | [] => stream_batches rest
      | calls => calls :: stream_batches rest
      end
  | _ => []
  end.

Definition part_texts (parts : list part) : list string :=
  omap (fun p => match part_text p with
                 | Some text => if String.eqb text "" then None else Some text
                 | None => None
                 end) parts.

Definition chunk_texts (ch : chunk) : list string :=
  match tool_call_function_calls ch, chunk_server_content ch with
  | [], Some sc =>
      match model_turn sc with
      | Some (Some parts) => part_texts parts
      | _ => []
      end
  | _, _ => []
  end.

Fixpoint stream_texts (turn : stream) : list string :=
  match turn with
  | StreamChunk ch rest => chunk_texts ch ++ stream_texts rest
  | _ => []
  end.

(** The identification of a request and of a response. *)
Definition call_key (fc : function_call) : string * string := (fc_id fc, fc_name fc).
Definition response_key (r : function_response) : string * string := (fr_id r, fr_name r).

(** The actions an observation of the trace may ignore. *)
Definition not_tool_response (a : action) : bool :=
  match a with Session (send_tool_response _) => false | _ => true end.

Definition not_text (a : action) : bool :=
  match a with Emit (text_received _) => false | _ => true end.

(** The identifications of the responses sent in a trace, batch by batch. *)
Definition response_keys {W : Type} (c : core W) : list (list (string * string)) :=
  map (map response_key) (tool_responses (trace c)).

Definition texts_of {W : Type} (c : core W) : list string := texts_received (trace c).

(** Running a piece of code extends the observation [obs] by a prefix of
    [expected], and by all of it when the code returns. *)
Definition extends_by {W X A : Type} (obs : core W -> list X) (expected : list X)
    (m : SO (core W) A) : Prop :=
  forall c, exists done,
    obs (snd (m c)) = obs c ++ done /\ done `prefix_of` expected /\
    (forall a, fst (m c) = Ret a -> done = expected).

(** ** Predicates on code, used to state what the pieces of the model do *)

Section CodePredicates.
Context {W : Type}.

(** Synchronous code: it returns a value satisfying [P] or raises; it is
    never cancelled and never suspends. *)
Definition sync {A} (P : A -> Prop) (m : SO W A) : Prop :=
  forall w, match fst (m w) with
            | Ret a => P a
            | Raise _ => True
            | Cancelled | Block => False
            end.

(** Code that returns a value in every world. *)
Definition returns_value {A} (m : SO W A) : Prop :=
  forall w, exists a w', m w = (Ret a, w').

(** What a search that may [return] from inside its loop gives. *)
Definition maybe_result (r : option dict) : Prop :=
  match r with Some d => well_formed_result d | None => True end.

(** What a piece of the demux returns, when it returns. *)
Definition returning {A} (P : A -> Prop) (m : SO (core W) A) : Prop :=
  forall c, match fst (m c) with Ret a => P a | _ => True end.

(** [m] does not change the observation [f] of the state. *)
Definition keeps {A B} (f : core W -> B) (m : SO (core W) A) : Prop :=
  forall c, f (snd (m c)) = f c.

(** What the parts of a speech episode between the two speaking signals may
    do: no speaking signal, the fragment queue only shrinks, and a
    suspension means the queue is empty. *)
Definition quiet {A} (c : core W) (rc : outcome A * core W) : Prop :=
  speaking_events (trace (snd rc)) = speaking_events (trace c) /\
  (length (response_queue_tts (snd rc)) <= length (response_queue_tts c))%nat /\
  (fst rc = Block -> response_queue_tts (snd rc) = []).
End CodePredicates.

(** An observation that ignores every action of the trace. *)
Definition any_action (a : action) : bool := true.

(** ** What a file search can find *)

Section SearchSpace.
Context {W : Type} `{World W}.

(** The files of one entry of a walk whose name contains the query,
    letter case apart, as full paths, in the order of the entry. *)
Definition entry_matches (query : string) (entry : string * list string * list string)
    : list string :=
  map (path_join (fst (fst entry)))
    (List.filter (fun f => str_contains (str_lower query) (str_lower f)) (snd entry)).

(** The roots [_search_file_sync] walks, in its order. *)
Definition search_roots (w : W) : list string :=
  let home := expanduser_home w in
  [path_join home "Desktop"; path_join home "Downloads"; path_join home "Documents";
   path_join home "Videos"; path_join home "Music"; path_join home "Pictures"; home].

(** The entries of the walk of one root, none when the root is no
    directory. *)
Definition root_entries (w : W) (root_dir : string)
    : list (string * list string * list string) :=
  if String.eqb root_dir "" || negb (path_isdir root_dir w) then []
  else walk_entries keep_dir root_dir (os_walk root_dir w).

(** The entries of the walks of all the roots that are directories. *)
Definition searched_entries (w : W) : list (string * list string * list string) :=
  flat_map (fun root_dir =>
              if String.eqb root_dir "" || negb (path_isdir root_dir w) then []
              else walk_entries keep_dir root_dir (os_walk root_dir w))
    (search_roots w).

(** The search compares names in lower case, which is modelled for ASCII
    names: a string of ASCII characters, and a world in which every file
    name the search meets is one. *)
Definition is_ascii (s : string) : bool :=
  forallb (fun ch => Nat.ltb (nat_of_ascii ch) 128) (list_ascii_of_string s).

Definition ascii_names (w : W) : bool :=
  forallb (fun entry => forallb is_ascii (snd entry)) (searched_entries w).

(** What a search that never stops early would return. *)
Definition exhaustive_matches (query : string) (w : W) : list string :=
  flat_map (entry_matches query) (searched_entries w).
End SearchSpace.

(** ** Outcomes of the demux on arguments of the declared types *)

(** An outcome that is a value satisfying [P], or the cancellation of the
    task at an [await]; an exception only where [raising] allows one; never
    a suspension for good. *)
Definition outcome_ok {A} (raising : bool) (P : A -> Prop) (o : outcome A) : Prop :=
  match o with
  | Ret a => P a
  | Cancelled => True
  | Raise _ => raising = true
  | Block => False
  end.

(** Code that goes through without raising, and code that may raise. *)
Definition completes {W A} (P : A -> Prop) (m : SO (core W) A) : Prop :=
  forall c, outcome_ok false P (fst (m c)).

Definition may_raise {W A} (P : A -> Prop) (m : SO (core W) A) : Prop :=
  forall c, outcome_ok true P (fst (m c)).

(** Every argument that a call carries is a string, as the declared schema
    of every tool asks. *)
Definition strings_only (args : dict) : Prop :=
  map_Forall (fun _ v => isinstance_str v = true) args.

(** A world in which [asyncio.to_thread] starts its thread, and one in
    which the session takes what it is sent: the calls complete, unless the
    task is cancelled while it waits. *)
Definition thread_starts {W : Type} `{World W} : Prop :=
  forall w e, fst (to_thread_start w) <> Some (Err e).

Definition session_accepts {W : Type} `{World W} : Prop :=
  forall op w e, fst (session_send op w) <> Some (Err e).

(** What the demux needs of a chunk to read it without an exception:
    every argument of every function call is a string; where the server
    content has grounding metadata, its [grounding_chunks] is a list, and
    where it has a model turn, its [parts] is a list.  The library types
    both as optional lists, and [receive_text] iterates over them as they
    come: over [None] the [for] raises [TypeError]. *)
Definition typed_chunk (ch : chunk) : Prop :=
  Forall (fun fc => strings_only (fc_args fc)) (tool_call_function_calls ch) /\
  match chunk_server_content ch with
  | Some sc => grounding_metadata sc <> Some None /\ model_turn sc <> Some None
  | None => True
  end.

(** A stream of such chunks whose iteration does not raise. *)
Fixpoint typed_stream (turn : stream) : Prop :=
  match turn with
  | StreamEnd | StreamCancelled => True
  | StreamChunk ch rest => typed_chunk ch /\ typed_stream rest
  | StreamRaise _ => False
  end.

(** ** Further observations of a turn *)

(** The audio buffers of a stream: the [inline_data] of the parts of its
    chunks without tool calls, in order. *)
Definition part_audio (parts : list part) : list bytes := omap inline_data parts.

Definition chunk_audio (ch : chunk) : list bytes :=
  match tool_call_function_calls ch, chunk_server_content ch with
  | [], Some sc =>
      match model_turn sc with
      | Some (Some parts) => part_audio parts
      | _ => []
      end
  | _, _ => []
  end.

Fixpoint stream_audio (turn : stream) : list bytes :=
  match turn with
  | StreamChunk ch rest => chunk_audio ch ++ stream_audio rest
  | _ => []
  end.

(** What [receive_text] emits after the chunks of a turn: the activity,
    [end_of_turn], [speaking_stopped]. *)
Definition closes_turn (a : action) : bool :=
  match a with
  | Emit end_of_turn | Emit speaking_stopped => true
  | Emit sg => is_turn_activity sg
  | _ => false
  end.

Definition turn_closings {W : Type} (c : core W) : list action :=
  List.filter closes_turn (trace c).

Definition queued_audio {W : Type} (c : core W) : list bytes := audio_in_queue_player c.

Definition speaking_of {W : Type} (c : core W) : list bool := speaking_events (trace c).

(** The actions that are no speaking signal. *)
Definition not_speaking (a : action) : bool :=
  match a with
  | Emit speaking_started | Emit speaking_stopped => false
  | _ => true
  end.

(** The tools whose helper checks its first argument, which the demux
    replaces by the empty string when the call does not carry it. *)
Definition checked_tools : list string :=
  ["create_folder"; "create_file"; "edit_file"; "read_file"; "open_application";
   "close_application"; "open_website"; "open_direct_youtube"; "search_and_open";
   "move_file"].

(** ** Playback: [play_audio] *)

(** The audio output [play_audio] opens and writes to, through
    [asyncio.to_thread]. *)
Class AudioOutput (W : Type) : Type := {
  pya_open_output : Await W unit;
  stream_write : bytes -> Await W unit
}.

(** [play_audio] with the buffers it has handed to [stream.write], in
    order. *)
Record player (W : Type) : Type := Player {
  player_core : core W;
  written : list bytes
}.
Arguments Player {W}.
Arguments player_core {W}.
Arguments written {W}.

Section Playback.
Context {W : Type} `{World W} `{AudioOutput W}.

(** Code of [AI_Core] run from the playback task. *)
Definition on_core {A} (m : SO (core W) A) : SO (player W) A :=
  fun p => let '(r, c') := m (player_core p) in (r, Player c' (written p)).

(** [await asyncio.to_thread(stream.write, bytestream)]. *)
Definition stream_write_call (bytestream : bytes) : SO (player W) unit :=
  modify (fun p => Player (player_core p) (written p ++ [bytestream])) ;;
  on_core (await (stream_write bytestream)).

(** The body of the loop of [play_audio]. *)
Definition play_audio_iteration : SO (player W) unit :=
  q ← on_core (gets audio_in_queue_player);
  match q with
  | [] => block
  | bytestream :: q' =>
      on_core (modify (set_audio_in_queue_player q')) ;;
      running ← on_core (gets is_running);
      if negb (String.eqb bytestream "") && running
      then stream_write_call bytestream
      else mret tt
  end.

(** [while self.is_running: ..], for at most [fuel] iterations. *)
Fixpoint play_audio_loop (fuel : nat) : SO (player W) unit :=
  match fuel with
  | O => block
  | S fuel' =>
      running ← on_core (gets is_running);
      if running : bool then play_audio_iteration ;; play_audio_loop fuel'
      else mret tt
  end.

(** Every iteration takes a buffer off the playback queue, so one more
    iteration than there are buffers is enough. *)
Definition play_audio : SO (player W) unit :=
  on_core (await pya_open_output) ;;
  ((fun p => play_audio_loop (S (length (audio_in_queue_player (player_core p)))) p)
     : SO (player W) unit).
End Playback.

(** The buffers [play_audio] writes: the ones that are not empty. *)
Definition audible (q : list bytes) : list bytes :=
  List.filter (fun bytestream => negb (String.eqb bytestream "")) q.

(** ** The user text channel: [handle_user_text], [shutdown_async_tasks], [stop] *)

Section Lifecycle.
Context {W : Type} `{World W}.

(** [AI_Core.handle_user_text], a Qt slot taking a [str]; the coroutine it
    schedules puts the text on the unbounded input queue.
    [loop_is_running] is what [self.loop.is_running()] answers. *)
Definition handle_user_text (loop_is_running : bool) (text : string) : SO (core W) unit :=
  running ← gets is_running;
  if running && loop_is_running then
    modify (fun c => set_text_input_queue (text_input_queue c ++ [Some text]) c)
  else mret tt.

(** [shutdown_async_tasks], on the fields of [AI_Core]: the sentinel on the
    input queue (an [asyncio.Queue] object is always true).  The
    cancellation of the tasks acts on the tasks, not on these fields. *)
Definition shutdown_async_tasks : SO (core W) unit :=
  modify (fun c => set_text_input_queue (text_input_queue c ++ [None]) c).

(** [AI_Core.stop], on the fields of [AI_Core]; the closing of the
    microphone stream is left out. *)
Definition stop (loop_is_running : bool) : SO (core W) unit :=
  running ← gets is_running;
  if running && loop_is_running then
    modify (set_is_running false) ;; shutdown_async_tasks
  else mret tt.

(** What happens on the text channel, in any order: the user submits a
    text, the loop of [process_text_input_queue] takes a turn, the
    orchestrator is stopped. *)
Inductive text_event : Type :=
| UserText (text : string)
| TextLoopTurn
| StopCore.

(** One evaluation of [while self.is_running] in
    [process_text_input_queue] with its body; [false] when the loop has
    ended. *)
Definition text_loop_turn : SO (core W) bool :=
  running ← gets is_running;
  if running : bool then process_text_input_iteration else mret false.

(** Running a schedule while the event loop runs; [alive] says whether the
    task of [process_text_input_queue] is still there.  A task suspended on
    the empty queue takes its turn later; one that has returned, raised or
    been cancelled takes none. *)
Fixpoint run_text (evs : list text_event) (alive : bool) (c : core W) : bool * core W :=
  match evs with
  | [] => (alive, c)
  | UserText text :: evs' => run_text evs' alive (snd (handle_user_text true text c))
  | StopCore :: evs' => run_text evs' alive (snd (stop true c))
  | TextLoopTurn :: evs' =>
      if alive then
        match text_loop_turn c with
        | (Ret true, c') => run_text evs' true c'
        | (Block, _) => run_text evs' true c
        | (_, c') => run_text evs' false c'
        end
      else run_text evs' false c
  end.
End Lifecycle.

(** The texts submitted before the orchestrator is stopped. *)
Fixpoint accepted (evs : list text_event) : list string :=
  match evs with
  | [] => []
  | UserText text :: evs' => text :: accepted evs'
  | TextLoopTurn :: evs' => accepted evs'
  | StopCore :: _ => []
  end.

(** The user turns sent to the session in a trace. *)
Definition client_texts (t : list action) : list string :=
  omap (fun a => match a with
                 | Session (send_client_content text) => Some text
                 | _ => None
                 end) t.

(** ** The animation widget: [AIAnimationWidget]

    The angles are Python floats, that is IEEE 754 binary64 numbers; the
    sphere and its painting use [math.sin] and [math.cos] and are left
    out. *)

From Stdlib Require PrimFloat.

Module AIAnimationWidget.
Import PrimFloat.
#[local] Open Scope float_scope.

Record widget : Type := Widget {
  angle_y : float;
  angle_x : float;
  is_speaking : bool;
  pulse_angle : float
}.

(** [__init__]. *)
Definition init : widget := Widget 0 0 false 0.

Definition start_speaking_animation (w : widget) : widget :=
  Widget (angle_y w) (angle_x w) true (pulse_angle w).

Definition stop_speaking_animation (w : widget) : widget :=
  Widget (angle_y w) (angle_x w) false 0.

(** [math.pi * 2]. *)
Definition two_pi : float := 0x1.921fb54442d18p+1 * 2.

(** The steps of the two rotations and of the pulse, per tick of the
    timer: 0.8, 0.2 and 0.2 as Python reads these literals. *)
Definition step_y : float := 0x1.999999999999ap-1.
Definition step_x : float := 0x1.999999999999ap-3.
Definition step_pulse : float := 0x1.999999999999ap-3.

Definition full_circle : float := 360.

(** [if angle >= 360: angle = 0]. *)
Definition wrap (angle : float) : float := if full_circle <=? angle then 0 else angle.

(** [update_animation], the slot of the timer. *)
Definition update_animation (w : widget) : widget :=
  let angle_y' := angle_y w + step_y in
  let angle_x' := angle_x w + step_x in
  let pulse' :=
    if is_speaking w then
      let p := pulse_angle w + step_pulse in
      if two_pi <? p then p - two_pi else p
    else pulse_angle w in
  Widget (wrap angle_y') (wrap angle_x') (is_speaking w) pulse'.

(** What happens to the widget: a tick of its timer, or one of the two
    speaking signals of [AI_Core]. *)
Inductive event : Type := Tick | Started | Stopped.

Definition step (w : widget) (ev : event) : widget :=
  match ev with
  | Tick => update_animation w
  | Started => start_speaking_animation w
  | Stopped => stop_speaking_animation w
  end.

Definition run (evs : list event) : widget := fold_left step evs init.

(** An angle in the half-open interval from 0 to 360. *)
Definition in_circle (angle : float) : bool :=
  andb (0 <=? angle) (angle <? full_circle).

Fixpoint ticks (n : nat) (w : widget) : widget :=
  match n with
  | O => w
  | S n' => ticks n' (update_animation w)
  end.

(** What one tick does to each of the two rotation angles. *)
Definition turn_y (angle : float) : float := wrap (angle + step_y).
Definition turn_x (angle : float) : float := wrap (angle + step_x).

(** The ticks among events, and the ticks after which each rotation is
    back where it started. *)
Definition count_ticks (evs : list event) : nat :=
  length (List.filter (fun ev => match ev with Tick => true | _ => false end) evs).

Definition period_y : nat := 450.
Definition period_x : nat := 1801.

(** The last of the two speaking signals among events. *)
Definition last_speaking (evs : list event) : bool :=
  fold_left (fun b ev => match ev with Tick => b | Started => true | Stopped => false end)
    evs false.
End AIAnimationWidget.

(** ** The window: the slots of [MainWindow] *)

(** [s.split()]: the words of [s] between runs of white space; [inside]
    counts the bytes still to come of a white space character that has
    begun. *)
Fixpoint split_words_go (inside : nat) (cur : string) (s : string) : list string :=
  match s with
  | EmptyString => if String.eqb cur "" then [] else [String.rev cur]
  | String c s' =>
      match inside with
      | S k => split_words_go k cur s'
      | O =>
          match space_width s with
          | S k =>
              if String.eqb cur "" then split_words_go k "" s'
              else String.rev cur :: split_words_go k "" s'
          | O => split_words_go 0 (String c cur) s'
          end
      end
  end.

Definition str_split_words (s : string) : list string := split_words_go 0 "" s.

(** [sorted(l)] for a list of [str]. *)
Fixpoint sorted_insert (x : string) (l : list string) : list string :=
  match l with
  | [] => [x]
  | y :: l' => if String.leb x y then x :: l else y :: sorted_insert x l'
  end.

Definition sorted (l : list string) : list string := foldr sorted_insert [] l.

(** [enumerate(l)]. *)
Definition enumerate {A} (l : list A) : list (nat * A) := imap (fun i x => (i, x)) l.

(** A double-quoted attribute value inside markup. *)
Definition quoted (s : string) : string := String.append dq (String.append s dq).

(** What has been done to the [QTextEdit] of the conversation:
    [append(html)] starts a new paragraph, [insertText(text)] at the end
    continues the last one. *)
Inductive text_op : Type :=
| AppendHtml (html : string)
| InsertText (text : string).

Record window : Type := Window {
  is_first_ada_chunk : bool;
  current_video_mode : string;
  text_display : list text_op;
  input_box : string;
  tool_activity_title : string;
  tool_activity_display : list string;
  webcam_button : string;
  screenshare_button : string;
  off_button : string;
  video_label : option frame;
  animation_widget : AIAnimationWidget.widget;
  user_text_submitted : list string
}.

Section WindowSetters.
Implicit Type g : window.

Definition set_is_first_ada_chunk (b : bool) g : window :=
  Window b (current_video_mode g) (text_display g) (input_box g) (tool_activity_title g)
    (tool_activity_display g) (webcam_button g) (screenshare_button g) (off_button g)
    (video_label g) (animation_widget g) (user_text_submitted g).
Definition set_current_video_mode (m : string) g : window :=
  Window (is_first_ada_chunk g) m (text_display g) (input_box g) (tool_activity_title g)
    (tool_activity_display g) (webcam_button g) (screenshare_button g) (off_button g)
    (video_label g) (animation_widget g) (user_text_submitted g).
Definition set_text_display (t : list text_op) g : window :=
  Window (is_first_ada_chunk g) (current_video_mode g) t (input_box g)
    (tool_activity_title g) (tool_activity_display g) (webcam_button g)
    (screenshare_button g) (off_button g) (video_label g) (animation_widget g)
    (user_text_submitted g).
Definition set_input_box (s : string) g : window :=
  Window (is_first_ada_chunk g) (current_video_mode g) (text_display g) s
    (tool_activity_title g) (tool_activity_display g) (webcam_button g)
    (screenshare_button g) (off_button g) (video_label g) (animation_widget g)
    (user_text_submitted g).
Definition set_tool_activity_title (s : string) g : window :=
  Window (is_first_ada_chunk g) (current_video_mode g) (text_display g) (input_box g) s
    (tool_activity_display g) (webcam_button g) (screenshare_button g) (off_button g)
    (video_label g) (animation_widget g) (user_text_submitted g).
Definition set_tool_activity_display (l : list string) g : window :=
  Window (is_first_ada_chunk g) (current_video_mode g) (text_display g) (input_box g)
    (tool_activity_title g) l (webcam_button g) (screenshare_button g) (off_button g)
    (video_label g) (animation_widget g) (user_text_submitted g).
Definition set_buttons (webcam screenshare off : string) g : window :=
  Window (is_first_ada_chunk g) (current_video_mode g) (text_display g) (input_box g)
    (tool_activity_title g) (tool_activity_display g) webcam screenshare off
    (video_label g) (animation_widget g) (user_text_submitted g).
Definition set_video_label (v : option frame) g : window :=
  Window (is_first_ada_chunk g) (current_video_mode g) (text_display g) (input_box g)
    (tool_activity_title g) (tool_activity_display g) (webcam_button g)
    (screenshare_button g) (off_button g) v (animation_widget g) (user_text_submitted g).
Definition set_animation_widget (a : AIAnimationWidget.widget) g : window :=
  Window (is_first_ada_chunk g) (current_video_mode g) (text_display g) (input_box g)
    (tool_activity_title g) (tool_activity_display g) (webcam_button g)
    (screenshare_button g) (off_button g) (video_label g) a (user_text_submitted g).
Definition set_user_text_submitted (l : list string) g : window :=
  Window (is_first_ada_chunk g) (current_video_mode g) (text_display g) (input_box g)
    (tool_activity_title g) (tool_activity_display g) (webcam_button g)
    (screenshare_button g) (off_button g) (video_label g) (animation_widget g) l.

(** [self.text_display.append(html)]. *)
Definition text_display_append (html : string) g : window :=
  set_text_display (text_display g ++ [AppendHtml html]) g.
End WindowSetters.

(** [MainWindow.__init__] up to [setup_backend_thread]: nothing shown, no
    button marked, [DEFAULT_MODE] as the mode. *)
Definition DEFAULT_MODE : string := "camera".

Definition new_window : window :=
  Window true DEFAULT_MODE [] "" "SYSTEM ACTIVITY" [] "" "" "" None
    AIAnimationWidget.init [].

Section Slots.
Context {W : Type} `{World W}.
Implicit Type g : window.

(** [send_user_text], the slot of the input box. *)
Definition send_user_text g : window :=
  let text := str_strip (input_box g) in
  if negb (String.eqb text "") then
    set_input_box ""
      (set_user_text_submitted (user_text_submitted g ++ [text])
         (text_display_append
            (fmt ["<p style='color:#00ffff; font-weight:bold;'>&gt; USER:</p>";
                  "<p style='color:#e0e0ff; padding-left: 10px;'>"; html_escape text;
                  "</p>"])
            g))
  else g.

Definition update_video_mode_ui (mode : string) g : window :=
  let g1 := set_buttons "" "" "" (set_current_video_mode mode g) in
  if String.eqb mode "camera" then
    set_buttons "video_button_active" (screenshare_button g1) (off_button g1) g1
  else if String.eqb mode "screen" then
    set_buttons (webcam_button g1) "video_button_active" (off_button g1) g1
  else if String.eqb mode "none" then
    set_video_label None
      (set_buttons (webcam_button g1) (screenshare_button g1) "video_button_active" g1)
  else g1.

Definition update_text (text : string) g : window :=
  let g1 :=
    if is_first_ada_chunk g then
      text_display_append "<p style='color:#00d1ff; font-weight:bold;'>&gt; A.L.Y.X.:</p>"
        (set_is_first_ada_chunk false g)
    else g in
  set_text_display (text_display g1 ++ [InsertText text]) g1.

(** [_append_activity]; [ts] is the time of day the clock gives,
    formatted. *)
Definition _append_activity (ts tag html_body : string) g : window :=
  let header :=
    fmt ["<p style="; quoted "color:#00d1ff; font-weight:bold; margin:8px 0 2px 0;";
         ">["; ts; "] "; tag; "</p>"] in
  set_tool_activity_display (tool_activity_display g ++ [String.append header html_body]) g.

(** [url.split('//')[1].split('/')[0] if '//' in url else url]; [None]
    stands for the [IndexError] of an index out of range. *)
Definition search_display_text (url : string) : option string :=
  if str_contains "//" url then
    rest ← str_split "//" url !! 1%nat;
    head (str_split "/" rest)
  else Some url.

(** The loop of [update_search_results] over [enumerate(urls)]. *)
Fixpoint search_results_html (items : list (nat * string)) (html_content : string)
    : option string :=
  match items with
  | [] => Some html_content
  | (i, url) :: items' =>
      display_text ← search_display_text url;
      search_results_html items'
        (String.append html_content
           (fmt ["<p style="; quoted "margin:0; padding: 2px 0;"; ">"; pretty (S i);
                 ": <a href="; quoted url; " style=";
                 quoted "color: #00ffff; text-decoration: none;"; ">"; display_text;
                 "</a></p>"]))
  end.

Definition update_search_results (ts : string) (urls : list string) g : option window :=
  match urls with
  | [] => Some g
  | _ =>
      let g1 := set_tool_activity_title "SYSTEM ACTIVITY // SEARCH" g in
      html_content ← search_results_html (enumerate urls) "";
      Some (_append_activity ts "&#128269; WEB SEARCH" html_content g1)
  end.

Definition display_executed_code (ts code result : string) g : window :=
  if String.eqb code "" then g
  else
    let g1 := set_tool_activity_title "SYSTEM ACTIVITY // CODE EXEC" g in
    let html :=
      fmt ["<pre style=";
           quoted "white-space: pre-wrap; word-wrap: break-word; color: #e0e0ff; font-size: 9pt; line-height: 1.4;";
           ">"; html_escape code; "</pre>"] in
    let html' :=
      if negb (String.eqb result "") then
        String.append html
          (fmt ["<p style=";
                quoted "color:#00d1ff; font-weight:bold; margin-top:6px; margin-bottom:3px;";
                ">&gt; OUTPUT:</p><pre style=";
                quoted "white-space: pre-wrap; word-wrap: break-word; color: #90EE90; font-size: 9pt;";
                ">"; html_escape (str_strip result); "</pre>"])
      else html in
    _append_activity ts "&#128187; CODE EXECUTION" html' g1.

(** The breadcrumb loop of [update_file_list] over [enumerate(parts)]. *)
Fixpoint breadcrumb_html (parts : list (nat * string)) (breadcrumb : string) : string :=
  match parts with
  | [] => breadcrumb
  | (i, part) :: parts' =>
      if String.eqb part "" then breadcrumb_html parts' breadcrumb
      else
        let sep :=
          if Nat.ltb 0 i && negb (String.eqb breadcrumb "") then " &#9658; " else "" in
        breadcrumb_html parts'
          (String.append breadcrumb
             (fmt [sep; "<span style="; quoted "color:#87CEEB;"; ">"; html_escape part;
                   "</span>"]))
  end.

(** [path.replace("\\", "/").split("/")]. *)
Definition path_parts (path : string) : list string :=
  str_split "/" (str_replace_char "\" "/" path).

(** [update_file_list]; [w] is the file system at the time the slot runs. *)
Definition update_file_list (w : W) (ts directory_path : string) (files : list string) g
    : window :=
  if String.eqb directory_path "" then g
  else
    let g1 := set_tool_activity_title "SYSTEM ACTIVITY // FILESYS" g in
    let breadcrumb := breadcrumb_html (enumerate (path_parts directory_path)) "" in
    let html := fmt ["<p style="; quoted "margin-bottom:4px;"; ">&#128193; "; breadcrumb;
                     "</p>"] in
    let html' :=
      match files with
      | [] =>
          String.append html
            (fmt ["<p style="; quoted "color:#a0a0ff; font-style:italic;";
                  ">(Directory is empty)</p>"])
      | _ =>
          let is_folder i := path_isdir (path_join directory_path i) w in
          let folders := sorted (List.filter is_folder files) in
          let file_items := sorted (List.filter (fun i => negb (is_folder i)) files) in
          fmt [html;
               fmt ["<div style=";
                    quoted "padding-left:8px; border-left: 2px solid #00a1c1; margin-top:4px;";
                    ">"];
               fmt (map (fun folder =>
                           fmt ["<p style="; quoted "margin:1px 0; color:#87CEEB;";
                                ">&#128194; "; html_escape folder; "/</p>"]) folders);
               fmt (map (fun file_item =>
                           fmt ["<p style="; quoted "margin:1px 0; color:#e0e0ff;";
                                ">&#128196; "; html_escape file_item; "</p>"]) file_items);
               "</div>"]
      end in
    _append_activity ts "&#128194; FILE SYSTEM" html' g1.

(** [update_tool_activity]: the title takes the last word of the tag;
    [None] stands for the [IndexError] of [tag.split()[-1]] on a tag
    without a word, raised before anything is changed. *)
Definition update_tool_activity (ts tag html_body : string) g : option window :=
  word ← last (str_split_words tag);
  Some (_append_activity ts tag html_body
          (set_tool_activity_title (fmt ["SYSTEM ACTIVITY // "; word]) g)).

(** One line of the loop of [update_file_search]: [parts[-1]] and
    ["/".join(parts[:-1])]. *)
Definition file_search_line (i : nat) (path : string) : option string :=
  let parts := path_parts path in
  filename ← last parts;
  let color := if Nat.eqb i 0 then "#00ffff" else "#c0c0ff" in
  Some (fmt ["<p style="; quoted (fmt ["margin:1px 0; color:"; color; ";"]);
             ">&#128196; <span style="; quoted "color:#888;"; ">";
             html_escape (String.concat "/" (removelast parts)); "/</span><strong>";
             html_escape filename; "</strong></p>"]).

Fixpoint file_search_lines (items : list (nat * string)) (html : string) : option string :=
  match items with
  | [] => Some html
  | (i, path) :: items' =>
      line ← file_search_line i path;
      file_search_lines items' (String.append html line)
  end.

Definition update_file_search (ts query : string) (matches : list string) g
    : option window :=
  let g1 := set_tool_activity_title "SYSTEM ACTIVITY // FILE SEARCH" g in
  let html :=
    fmt ["<p style="; quoted "margin-bottom:4px;";
         ">&#128269; Searching for: <span style="; quoted "color:#00ffff;"; ">";
         html_escape query; "</span></p>"] in
  html' ←
    match matches with
    | [] =>
        Some (String.append html
                (fmt ["<p style="; quoted "color:#ff6b6b; font-style:italic;";
                      ">&#10007; No matches found.</p>"]))
    | _ =>
        lines ← file_search_lines (enumerate matches)
                  (String.append html
                     (fmt ["<div style=";
                           quoted "padding-left:8px; border-left: 2px solid #00ffff; margin-top:4px;";
                           ">"]));
        Some (String.append (String.append lines "</div>")
                (if Nat.eqb (length matches) 1 then
                   fmt ["<p style="; quoted "color:#90EE90; margin-top:4px;";
                        ">&#10003; 1 match found.</p>"]
                 else
                   fmt ["<p style="; quoted "color:#90EE90; margin-top:4px;";
                        ">&#10003; "; pretty (length matches); " matches found.</p>"]))
    end;
  Some (_append_activity ts "&#128270; FILE SEARCH" html' g1).

Definition update_file_opened (ts file_path : string) g : option window :=
  let g1 := set_tool_activity_title "SYSTEM ACTIVITY // FILE OPEN" g in
  let parts := path_parts file_path in
  filename ← last parts;
  let dir_path := String.concat "/" (removelast parts) in
  let html :=
    fmt ["<p style="; quoted "margin:2px 0;"; ">&#128194; <span style=";
         quoted "color:#888;"; ">"; html_escape dir_path; "/</span></p>";
         "<p style="; quoted "margin:2px 0; padding-left:12px; border-left:2px solid #00ffff;";
         ">";
         "&#128196; <span style="; quoted "color:#00ffff; font-weight:bold;"; ">";
         html_escape filename; "</span>";
         " <span style="; quoted "color:#90EE90;"; ">&#9654; OPENED</span></p>"] in
  Some (_append_activity ts "&#128196; FILE OPENED" html g1).

Definition add_newline g : window :=
  set_is_first_ada_chunk true
    (if negb (is_first_ada_chunk g) then text_display_append "" g else g).

(** [update_frame]; a null image is [None], and the pixmap shown is the
    image, its scaling left out. *)
Definition update_frame (image : option frame) g : window :=
  if String.eqb (current_video_mode g) "none" then set_video_label None g
  else
    match image with
    | Some fr => set_video_label (Some fr) g
    | None => set_video_label None g
    end.
End Slots.

(** ** The connections of [setup_backend_thread] *)

(** The moment a slot runs: the file system it sees and the time of day
    its clock gives. *)
Record moment (W : Type) : Type := Moment { moment_world : W; moment_time : string }.
Arguments Moment {W}.
Arguments moment_world {W}.
Arguments moment_time {W}.

(** The strings of a list payload, if it holds strings only. *)
Definition strings_of (l : list value) : option (list string) :=
  mapM (fun v => match v with VStr s => Some s | _ => None end) l.

Section Connections.
Context {W : Type} `{World W}.
(** The markup around the values of a tool activity body. *)
Variable markup : string -> list string -> string.

(** The slot connected to each signal of [AI_Core].  [None]: the payload
    is not of the type the signal declares, or the slot raises. *)
Definition deliver (m : moment W) (sg : signal) (g : window) : option window :=
  let ts := moment_time m in
  match sg with
  | text_received text => Some (update_text text g)
  | end_of_turn => Some (add_newline g)
  | frame_received image => Some (update_frame image g)
  | search_results_received urls => update_search_results ts urls g
  | code_being_executed code result => Some (display_executed_code ts code result g)
  | file_list_received (VStr directory_path) (VList files) =>
      names ← strings_of files;
      Some (update_file_list (moment_world m) ts directory_path names g)
  | file_list_received _ _ => None
  | file_search_received (VStr query) matches => update_file_search ts query matches g
  | file_search_received _ _ => None
  | file_opened_received file_path => update_file_opened ts file_path g
  | tool_activity_received tag body => update_tool_activity ts tag (markup tag body) g
  | video_mode_changed mode => Some (update_video_mode_ui mode g)
  | speaking_started =>
      Some (set_animation_widget
              (AIAnimationWidget.start_speaking_animation (animation_widget g)) g)
  | speaking_stopped =>
      Some (set_animation_widget
              (AIAnimationWidget.stop_speaking_animation (animation_widget g)) g)
  end.

(** Delivering signals in order, the [k]-th one at the moment [at k]. *)
Fixpoint deliver_all (at_ : nat -> moment W) (k : nat) (sgs : list signal) (g : window)
    : option window :=
  match sgs with
  | [] => Some g
  | sg :: sgs' => g' ← deliver (at_ k) sg g; deliver_all at_ (S k) sgs' g'
  end.
End Connections.

(** The window shows the video mode [mode]: it holds that mode, the button
    of that mode is marked and no other, and no picture is shown while the
    mode is "none". *)
Definition marked (on : bool) : string := if on then "video_button_active" else "".

Definition panel_shows (mode : string) (g : window) : Prop :=
  current_video_mode g = mode /\
  webcam_button g = marked (String.eqb mode "camera") /\
  screenshare_button g = marked (String.eqb mode "screen") /\
  off_button g = marked (String.eqb mode "none") /\
  (mode = "none" -> video_label g = None).

(** The window agrees with [AI_Core] on the video. *)
Definition shows_mode {W : Type} (c : core W) (g : window) : Prop :=
  panel_shows (video_mode c) g.

(** The modes announced by [video_mode_changed] among signals, in order,
    and the signals of the video: a frame or a change of mode. *)
Definition mode_changes (sgs : list signal) : list string :=
  omap (fun sg => match sg with video_mode_changed mode => Some mode | _ => None end) sgs.

Definition video_signal (sg : signal) : bool :=
  match sg with
  | frame_received _ | video_mode_changed _ => true
  | _ => false
  end.

(** What a trace has gained since it had [n] actions. *)
Definition signals_since {W : Type} (n : nat) (c : core W) : list signal :=
  signals (drop n (trace c)).

(** The header that opens a reply in the conversation. *)
Definition reply_header : string :=
  "<p style='color:#00d1ff; font-weight:bold;'>&gt; A.L.Y.X.:</p>".

(** A string of white space only. *)
Fixpoint blank_go (inside : nat) (s : string) : bool :=
  match s with
  | EmptyString => true
  | String c s' =>
      match inside with
      | S k => blank_go k s'
      | O =>
          match space_width s with
          | S k => blank_go k s'
          | O => false
          end
      end
  end.

Definition is_blank (s : string) : bool := blank_go 0 s.

(** ** The URLs handed to the browser *)

(** A string without a space character. *)
Definition no_space (s : string) : bool :=
  forallb (fun c => negb (Ascii.eqb " " c)) (list_ascii_of_string s).

(** The status of a result. *)
Definition succeeded (d : dict) : bool :=
  match d !! "status" with
  | Some status => value_is status "success"
  | None => false
  end.

(** The outcome of a helper, given the URL it calls the browser on: the
    world is the one the call leaves, and the status is "success" exactly
    when the call returns. *)
Definition opens {W : Type} `{World W} (url : string) (w : W) (r : outcome dict * W) : Prop :=
  snd r = snd (webbrowser_open url w) /\
  exists d,
    fst r = Ret d /\
    succeeded d = match fst (webbrowser_open url w) with Ok _ => true | Err _ => false end.

(** ** The connection of a speech episode *)

(** What a trace does on the websocket of the text-to-speech service. *)
Definition websocket_ops (t : list action) : list ws_op :=
  omap (fun a => match a with Websocket op => Some op | _ => None end) t.

(** The messages that follow the first fragment of an episode, given the
    fragment queue: each fragment up to the end sentinel with a space
    after it, then the empty text for the sentinel. *)
Fixpoint following_sends (q : list (option string)) : list string :=
  match q with
  | [] => []
  | None :: _ => [""]
  | Some text_chunk :: q' => String.append text_chunk " " :: following_sends q'
  end.

(** All the messages of an episode: the priming one, the first fragment,
    the following ones. *)
Definition episode_sends (text_chunk : string) (q : list (option string)) : list string :=
  " " :: String.append text_chunk " " :: following_sends q.

(** The life of a connection on which [sends] were handed to
    [websocket.send], left by code that ended with [o]: nothing when
    nothing was sent, else the connection, the messages, and the closing
    unless the code stays suspended. *)
Definition connection_ops {A} (o : outcome A) (sends : list string) : list ws_op :=
  match sends with
  | [] => []
  | _ => WsConnect :: map WsSend sends ++ match o with Block => [] | _ => [WsClose] end
  end.

(** ** The tasks around the outbound queue, one await at a time

    The coroutines test the video mode and the running flag and then
    await: the thread that opens or reads the camera or grabs the screen,
    a sleep, a [put] on the full queue, a [get] on the empty one.  Each
    task is followed here from one of these awaits to the next.
    [set_video_mode] is called on the GUI thread, by the buttons of the
    window: its calls are placed between the steps of the tasks.  The
    release of the device, which touches nothing another task reads, is
    taken with the step it belongs to. *)

(** Where a task stands: at the test of its [while]; [listen_audio]
    awaiting the microphone; [send_frames_to_gemini] awaiting its sleep; a
    producer awaiting the [put] of an item; [send_realtime] awaiting its
    [get]; [stream_video_to_gui] awaiting [cv2.VideoCapture],
    [video_capture.read] or [ImageGrab.grab]; or the task has ended. *)
Inductive stage : Type :=
| AtLoopHead
| Reading
| Sleeping
| Putting (item : message)
| Getting
| Opening
| ReadingFrame
| Grabbing
| Finished.

Record tasks (W : Type) : Type := Tasks {
  tasks_core : core W;
  mic_at : stage;
  sampler_at : stage;
  capture_at : stage;
  sender_at : stage
}.
Arguments Tasks {W}.
Arguments tasks_core {W}.
Arguments mic_at {W}.
Arguments sampler_at {W}.
Arguments capture_at {W}.
Arguments sender_at {W}.

(** What happens around the queue: a task goes on to its next await, or
    the GUI calls [set_video_mode]. *)
Inductive task_event : Type :=
| MicStep
| SamplerStep
| SenderStep
| CaptureStep
| GuiSetVideoMode (mode : string).

Section Tasks.
Context {W : Type} `{World W}.

(** [stream_video_to_gui] with a capture in hand: [if video_capture.isOpened()]
    starts the read, otherwise the empty image is shown. *)
Definition camera_opened : SO (core W) stage :=
  opened ← gets (fun c => cap_isOpened (world c));
  if opened : bool then log (Camera CamRead) ;; mret ReadingFrame
  else publish_frame None ;; mret AtLoopHead.

(** From the test of [self.video_mode] to the first await of the branch. *)
Definition capture_head : SO (core W) stage :=
  mode ← gets video_mode;
  if String.eqb mode "camera" then
    vc ← gets video_capture;
    match vc with
    | None => mret Opening
    | Some _ => camera_opened
    end
  else if String.eqb mode "screen" then
    release_capture ;;
    log (Camera ScreenGrab) ;;
    mret Grabbing
  else
    release_capture ;;
    mret AtLoopHead.

(** [video_capture = await asyncio.to_thread(cv2.VideoCapture, 0)] comes back. *)
Definition capture_opening : SO (core W) stage :=
  await cv2_VideoCapture ;;
  log (Camera CamOpen) ;;
  modify (set_video_capture (Some VideoCapture0)) ;;
  camera_opened.

(** [ret, frame = await asyncio.to_thread(video_capture.read)] comes back. *)
Definition capture_reading : SO (core W) stage :=
  rf ← await cap_read;
  if negb (fst rf) then mret AtLoopHead
  else publish_frame (snd rf) ;; mret AtLoopHead.

(** [screenshot = await asyncio.to_thread(ImageGrab.grab)] comes back. *)
Definition capture_grabbing : SO (core W) stage :=
  fr ← await ImageGrab_grab;
  publish_frame (Some fr) ;; mret AtLoopHead.

(** A piece of the loop body under its [try .. except Exception]: the
    handler releases the device and the loop goes on; a cancellation ends
    the task. *)
Definition guarded (piece : SO (core W) stage) (c : core W) : stage * core W :=
  match try_except piece (fun _ => release_capture ;; mret AtLoopHead) c with
  | (Ret at_, c') => (at_, c')
  | (_, c') => (Finished, c')
  end.

(** [stream_video_to_gui].  After the loop the device is released. *)
Definition capture_advance (at_ : stage) (c : core W) : stage * core W :=
  match at_ with
  | AtLoopHead =>
      if is_running c then guarded capture_head c
      else (Finished, snd (release_capture c))
  | Opening => guarded capture_opening c
  | ReadingFrame => guarded capture_reading c
  | Grabbing => guarded capture_grabbing c
  | _ => (at_, c)
  end.

(** [await self.out_queue_gemini.put(item)]: the task stays where it is
    while the queue is full. *)
Definition put_advance (item : message) (c : core W) : stage * core W :=
  match out_queue_put item c with
  | (Ret _, c') => (AtLoopHead, c')
  | (Block, _) => (Putting item, c)
  | (_, c') => (Finished, c')
  end.

(** [listen_audio]: the test of the [while]; the read of the microphone
    and the test that follows it; the [put]. *)
Definition mic_advance (at_ : stage) (c : core W) : stage * core W :=
  match at_ with
  | AtLoopHead => (if is_running c then Reading else Finished, c)
  | Reading =>
      match await audio_stream_read c with
      | (Ret data, c') =>
          (if is_running c' then Putting (Message "audio/pcm" data) else Finished, c')
      | (_, c') => (Finished, c')
      end
  | Putting item => put_advance item c
  | _ => (at_, c)
  end.

(** [send_frames_to_gemini]: the test of the [while]; after the sleep, the
    test of the mode and of the latest frame, and the encoding; the
    [put]. *)
Definition sampler_advance (at_ : stage) (c : core W) : stage * core W :=
  match at_ with
  | AtLoopHead => (if is_running c then Sleeping else Finished, c)
  | Sleeping =>
      if negb (String.eqb (video_mode c) "none") then
        match latest_frame c with
        | Some fr => (Putting (Message "image/jpeg" (b64encode (jpeg_of_frame fr))), c)
        | None => (AtLoopHead, c)
        end
      else (AtLoopHead, c)
  | Putting item => put_advance item c
  | _ => (at_, c)
  end.

(** [send_realtime]: the test of the [while]; the [get], on which the
    task stays while the queue is empty, with the test and the call on the
    session that follow it. *)
Definition sender_advance (at_ : stage) (c : core W) : stage * core W :=
  match at_ with
  | AtLoopHead => (if is_running c then Getting else Finished, c)
  | Getting =>
      match send_realtime_iteration c with
      | (Ret true, c') => (AtLoopHead, c')
      | (Block, _) => (Getting, c)
      | (_, c') => (Finished, c')
      end
  | _ => (at_, c)
  end.

Definition task_step (t : tasks W) (ev : task_event) : tasks W :=
  match ev with
  | MicStep =>
      let '(at_, c) := mic_advance (mic_at t) (tasks_core t) in
      Tasks c at_ (sampler_at t) (capture_at t) (sender_at t)
  | SamplerStep =>
      let '(at_, c) := sampler_advance (sampler_at t) (tasks_core t) in
      Tasks c (mic_at t) at_ (capture_at t) (sender_at t)
  | CaptureStep =>
      let '(at_, c) := capture_advance (capture_at t) (tasks_core t) in
      Tasks c (mic_at t) (sampler_at t) at_ (sender_at t)
  | SenderStep =>
      let '(at_, c) := sender_advance (sender_at t) (tasks_core t) in
      Tasks c (mic_at t) (sampler_at t) (capture_at t) at_
  | GuiSetVideoMode mode =>
      Tasks (snd (set_video_mode mode (tasks_core t)))
        (mic_at t) (sampler_at t) (capture_at t) (sender_at t)
  end.

Definition run_tasks (evs : list task_event) (t : tasks W) : tasks W :=
  fold_left task_step evs t.

(** The capture task followed until it is back at its [while] or ended. *)
Fixpoint capture_until_head (fuel : nat) (at_ : stage) (c : core W) : stage * core W :=
  match fuel with
  | O => (at_, c)
  | S fuel' =>
      let '(next, c') := capture_advance at_ c in
      match next with
      | Opening | ReadingFrame | Grabbing => capture_until_head fuel' next c'
      | _ => (next, c')
      end
  end.
End Tasks.

(** ** The video switched off *)

Definition audio_item (item : message) : Prop := msg_mime_type item = "audio/pcm".

Definition images (items : list message) : list message :=
  List.filter (fun item => negb (String.eqb (msg_mime_type item) "audio/pcm")) items.

(** The frames shown in the window. *)
Definition shown (t : list action) : list (option frame) :=
  omap (fun a => match a with Emit (frame_received image) => Some image | _ => None end) t.

(** The item a producer is putting. *)
Definition putting (at_ : stage) : list message :=
  match at_ with
  | Putting item => [item]
  | _ => []
  end.

(** The capture task has a thread of the camera or of the screen
    running. *)
Definition capturing (at_ : stage) : bool :=
  match at_ with
  | Opening | ReadingFrame | Grabbing => true
  | _ => false
  end.

Definition frames_in_flight {W : Type} (t : tasks W) : nat :=
  if capturing (capture_at t) then 1%nat else 0%nat.

Definition items_in_flight {W : Type} (t : tasks W) : list message :=
  putting (mic_at t) ++ putting (sampler_at t).

(** The items on their way to the session: queued, or being put. *)
Definition items_pending {W : Type} (t : tasks W) : list message :=
  out_queue_gemini (tasks_core t) ++ items_in_flight t.

(** The video is off and nothing of it is in flight: no thread of the
    camera or of the screen is running and no producer is putting an
    image. *)
Definition video_at_rest {W : Type} (t : tasks W) : Prop :=
  video_mode (tasks_core t) = "none" /\
  capturing (capture_at t) = false /\
  images (items_in_flight t) = [].

(** The events that leave the video off: everything but a switch to the
    camera or to the screen. *)
Definition leaves_video_off (ev : task_event) : Prop :=
  match ev with
  | GuiSetVideoMode mode => mode <> "camera" /\ mode <> "screen"
  | _ => True
  end.

(** What may happen while the video is off, [t] being the tasks when it
    was switched off: an item submitted is audio or was being put; the
    camera is touched, other than released, and a frame is shown only by
    a thread that was running; an image sent to the session was queued or
    being put. *)
Definition off_action {W : Type} `{World W} (t : tasks W) (a : action) : Prop :=
  match a with
  | Submit item => audio_item item \/ item ∈ items_in_flight t
  | Camera op => op = CamRelease \/ capturing (capture_at t) = true
  | Emit (frame_received _) => capturing (capture_at t) = true
  | Session (send_realtime_input_video data) =>
      exists item,
        item ∈ items_pending t /\
        realtime_input item = Some (send_realtime_input_video data)
  | _ => True
  end.

(** What the steps keep while the video is off: [t0] the tasks when it
    was switched off, [added] what was added to the trace since. *)
Record video_stays_off {W : Type} `{World W} (t0 : tasks W) (added : list action) (t : tasks W) : Prop := {
  off_mode : video_mode (tasks_core t) = "none";
  off_trace : trace (tasks_core t) = trace (tasks_core t0) ++ added;
  off_added : Forall (off_action t0) added;
  off_queue : Forall (fun item => audio_item item \/ item ∈ items_pending t0)
                (out_queue_gemini (tasks_core t));
  off_puts : Forall (fun item => audio_item item \/ item ∈ items_in_flight t0)
               (putting (mic_at t) ++ putting (sampler_at t));
  off_frames : (length (shown added) + frames_in_flight t <= frames_in_flight t0)%nat;
  off_images : (length (images (submitted added)) +
                length (images (putting (mic_at t) ++ putting (sampler_at t)))
                <= length (images (items_in_flight t0)))%nat
}.

(** ** A simulated world

    A small deterministic world used to run the model on concrete inputs: a
    flat file store, a camera that always delivers, a network that never
    fails, and base64 as the codec. *)

Module Base64.
Definition alphabet : string :=
  "ABCDEFGHIJKLMNOPQRSTUVWXYZabcdefghijklmnopqrstuvwxyz0123456789+/".

Definition char_of_sextet (n : N) : ascii :=
  default "="%char (String.get (N.to_nat n) alphabet).

Fixpoint index_from (c : ascii) (s : string) (i : N) : option N :=
  match s with
  | EmptyString => None
  | String c' s' => if Ascii.eqb c c' then Some i else index_from c s' (N.succ i)
  end.

Definition sextet_of_char (c : ascii) : option N := index_from c alphabet 0%N.

Fixpoint encode_bytes (bs : list N) : list ascii :=
  match bs with
  | [] => []
  | [b0] =>
      [char_of_sextet (b0 / 4); char_of_sextet ((b0 mod 4) * 16);
       "="%char; "="%char]
  | [b0; b1] =>
      [char_of_sextet (b0 / 4); char_of_sextet ((b0 mod 4) * 16 + b1 / 16);
       char_of_sextet ((b1 mod 16) * 4); "="%char]
  | b0 :: b1 :: b2 :: rest =>
      char_of_sextet (b0 / 4) :: char_of_sextet ((b0 mod 4) * 16 + b1 / 16)
        :: char_of_sextet ((b1 mod 16) * 4 + b2 / 64) :: char_of_sextet (b2 mod 64)
        :: encode_bytes rest
  end%N.

Fixpoint decode_sextets (ss : list N) : option (list N) :=
  match ss with
  | [] => Some []
  | [_] => None
  | [s0; s1] => Some [s0 * 4 + s1 / 16]
  | [s0; s1; s2] => Some [s0 * 4 + s1 / 16; (s1 mod 16) * 16 + s2 / 4]
  | s0 :: s1 :: s2 :: s3 :: rest =>
      bs ← decode_sextets rest;
      Some ((s0 * 4 + s1 / 16) :: ((s1 mod 16) * 16 + s2 / 4)
              :: ((s2 mod 4) * 64 + s3) :: bs)
  end%N.

Definition encode (data : string) : string :=
  string_of_list_ascii
    (encode_bytes (map N_of_ascii (list_ascii_of_string data))).

(** Characters outside the alphabet are skipped, as [base64.b64decode]
    does by default; a group that is not padded to four raises. *)
Definition decode (s : string) : result string :=
  let cs := list_ascii_of_string s in
  let sextets := omap sextet_of_char cs in
  let pads := length (filter (fun c => c = "="%char) cs) in
  if Nat.eqb ((length sextets + pads) mod 4) 0 then
    match decode_sextets sextets with
    | Some bs => Ok (string_of_list_ascii (map ascii_of_N bs))
    | None => Err (Exn ValueError "Incorrect padding")
    end
  else Err (Exn ValueError "Incorrect padding").
End Base64.

Module SimWorld.
(** The files that exist, with their contents, and whether the
    text-to-speech service can be reached. *)
Record sim : Type := Sim { sim_files : gmap string string; sim_tts_up : bool }.

Definition sim_exists (p : string) (w : sim) : bool :=
  bool_decide (is_Some (sim_files w !! p)).

Definition with_files (f : gmap string string) (w : sim) : sim := Sim f (sim_tts_up w).

Definition sim_write (p : string) (content : value) : Sync sim unit :=
  fun w => match content with
           | VStr s => (Ok tt, with_files (<[p := s]> (sim_files w)) w)
           | _ => (Err (Exn TypeError "write() argument must be str"),
                   with_files (<[p := ""]> (sim_files w)) w)
           end.

Definition sim_append (p : string) (s : string) : Sync sim unit :=
  fun w => (Ok tt,
            with_files (<[p := String.append (default "" (sim_files w !! p)) s]> (sim_files w)) w).

Definition sim_read (p : string) : Sync sim string :=
  fun w => match sim_files w !! p with
           | Some s => (Ok s, w)
           | None => (Err (Exn FileNotFoundError p), w)
           end.

Definition sim_move (src dst : string) : Sync sim unit :=
  fun w => match sim_files w !! src with
           | Some s => (Ok tt, with_files (<[dst := s]> (delete src (sim_files w))) w)
           | None => (Err (Exn FileNotFoundError src), w)
           end.

Definition sim_ok {A} (a : A) : Sync sim A := fun w => (Ok a, w).

(** Nothing can be created under [/sys]. *)
Definition sim_makedirs (p : string) : Sync sim unit :=
  fun w => if String.prefix "/sys" p
           then (Err (Exn OSError "[Errno 13] Permission denied"), w)
           else sim_write p (VStr "") w.

Definition sim_done {A} (a : A) : Await sim A := fun w => (Some (Ok a), w).

Definition sim_tts {A} (a : A) : Await sim A :=
  fun w => if sim_tts_up w then (Some (Ok a), w)
           else (Some (Err (Exn OSError "connection refused")), w).

#[global] Instance sim_world : World sim := {|
  sys_platform := other_platform;
  path_join a b := String.append a (String.append "/" b);
  path_basename p := p;
  path_dirname p := "";
  path_abspath p _ := p;
  path_exists := sim_exists;
  path_isdir _ _ := false;
  path_isfile := sim_exists;
  fd_exists _ _ := false;
  expanduser_home _ := "/home/user";
  environ_get _ _ := None;
  os_walk _ _ := Dir [] [];
  os_makedirs := sim_makedirs;
  os_makedirs_exist_ok _ := sim_ok tt;
  open_write := sim_write;
  open_append := sim_append;
  open_read := sim_read;
  os_listdir p := fun w => (Err (Exn FileNotFoundError p), w);
  shutil_move := sim_move;
  os_startfile _ := sim_ok tt;
  subprocess_Popen _ := sim_ok tt;
  subprocess_run _ := sim_ok 0;
  webbrowser_open _ := sim_ok tt;
  cv2_VideoCapture := sim_done tt;
  cap_isOpened _ := true;
  cap_read := sim_done (true, Some "camera-frame");
  ImageGrab_grab := sim_done "screen-frame";
  audio_stream_read := sim_done "pcm";
  to_thread_start := sim_done tt;
  jpeg_of_frame fr := fr;
  b64encode := Base64.encode;
  b64decode := Base64.decode;
  session_send _ := sim_done tt;
  ws_connect := sim_tts tt;
  ws_send _ := sim_tts tt;
  ws_listen := sim_tts ["audio1"; "audio2"]
|}.

Definition empty_world : sim := Sim ∅ true.

(** [AI_Core.__init__] with a given video mode, in an empty file store. *)
Definition init (mode : string) : core sim :=
  Core mode true false [] [] [] [] None None [] empty_world.

(** The same once [main_task_runner] has stored the session. *)
Definition connected (mode : string) : core sim :=
  Core mode true true [] [] [] [] None None [] empty_world.
End SimWorld.

(** The state the capture loop reaches after one turn in camera mode: the
    camera is open and held. *)
Definition camera_running : core SimWorld.sim :=
  run_video [CaptureLoopTurn] (SimWorld.init "camera").

(** A schedule of the tasks around the outbound queue. *)
Definition mux_schedule : list mux_event :=
  [CaptureTurn; MicTurn; FrameSamplerTurn; SenderTurn; MicTurn; SenderTurn;
   ModeSwitch "none"; FrameSamplerTurn; SenderTurn; SenderTurn].

(** A state with stale speech queued: two fragments and a sentinel for the
    TTS bridge, two audio buffers for playback, and a user text waiting. *)
Definition speaking_state (text : string) : core SimWorld.sim :=
  Core "camera" true true [] [Some "Hello"; Some " world"; None]
    ["buf1"; "buf2"] [Some text] None None [] SimWorld.empty_world.

(** Fragments queued for the TTS bridge, with the service reachable or
    not. *)
Definition tts_state (up : bool) (fragments : list (option string)) : core SimWorld.sim :=
  Core "camera" true true [] fragments [] [] None None [] (SimWorld.Sim ∅ up).

(** Sample chunks: a text delta, and tool calls. *)
Definition text_chunk (text : string) : chunk :=
  Chunk [] (Some (ServerContent None (Some (Some [Part None None None (Some text)])))).

Definition tool_chunk (calls : list function_call) : chunk := Chunk calls None.

(** [create_file(file_path="x.txt", content="hi")]. *)
Definition create_file_call : function_call :=
  FunctionCall "call-1" "create_file"
    (<["file_path" := VStr "x.txt"]> (<["content" := VStr "hi"]> ∅)).

(** [create_folder(folder_path=123)]: a number where the schema asks for a
    string. *)
Definition create_folder_number_call : function_call :=
  FunctionCall "call-2" "create_folder" (<["folder_path" := VInt 123]> ∅).

(** A call of a function that the schema does not declare. *)
Definition undeclared_call : function_call := FunctionCall "call-3" "reboot" ∅.

(** ** A simulated home directory

    A world with a fixed directory tree under the home directory and
    nothing else: every call succeeds and changes nothing. *)

Module DeskWorld.
Inductive desk : Type := Desk.

Definition home : string := "/home/user".

Definition join (a b : string) : string := String.append a (String.append "/" b).

Definition home_tree : dirtree :=
  Dir [("Desktop", Dir [] ["Report.txt"; "notes.md"]);
       (".cache", Dir [] ["report.tmp"]);
       ("Documents", Dir [("drafts", Dir [] ["report-v2.txt"])] ["thesis.tex"])]
      ["todo.txt"].

(** The directory at path [p] in the tree [t] rooted at [root]. *)
Fixpoint find_dir (root : string) (t : dirtree) (p : string) {struct t} : option dirtree :=
  if String.eqb p root then Some t
  else
    match t with
    | Dir subdirs _ =>
        (fix go (l : list (string * dirtree)) : option dirtree :=
           match l with
           | [] => None
           | sub :: l' =>
               match find_dir (join root (fst sub)) (snd sub) p with
               | Some d => Some d
               | None => go l'
               end
           end) subdirs
    end.

(** The working directory is the home directory. *)
Definition resolve (p : string) : option dirtree :=
  if String.eqb p "." then Some home_tree else find_dir home home_tree p.

Definition listing (t : dirtree) : list string :=
  match t with Dir subdirs files => map fst subdirs ++ files end.

Definition ok {A} (a : A) : Sync desk A := fun w => (Ok a, w).
Definition done {A} (a : A) : Await desk A := fun w => (Some (Ok a), w).

#[global] Instance desk_world : World desk := {|
  sys_platform := other_platform;
  path_join := join;
  path_basename p := p;
  path_dirname p := "";
  path_abspath p _ := p;
  path_exists p _ := bool_decide (is_Some (resolve p));
  path_isdir p _ := bool_decide (is_Some (resolve p));
  path_isfile _ _ := false;
  fd_exists _ _ := false;
  expanduser_home _ := home;
  environ_get _ _ := None;
  os_walk p _ := default (Dir [] []) (resolve p);
  os_makedirs _ := ok tt;
  os_makedirs_exist_ok _ := ok tt;
  open_write _ _ := ok tt;
  open_append _ _ := ok tt;
  open_read _ := ok "";
  os_listdir p := ok (listing (default (Dir [] []) (resolve p)));
  shutil_move _ _ := ok tt;
  os_startfile _ := ok tt;
  subprocess_Popen _ := ok tt;
  subprocess_run _ := ok 0;
  webbrowser_open _ := ok tt;
  cv2_VideoCapture := done tt;
  cap_isOpened _ := true;
  cap_read := done (true, Some "camera-frame");
  ImageGrab_grab := done "screen-frame";
  audio_stream_read := done "pcm";
  to_thread_start := done tt;
  jpeg_of_frame fr := fr;
  b64encode := Base64.encode;
  b64decode := Base64.decode;
  session_send _ := done tt;
  ws_connect := done tt;
  ws_send _ := done tt;
  ws_listen := done []
|}.

(** [AI_Core] connected to a session, in this world. *)
Definition connected (mode : string) : core desk :=
  Core mode true true [] [] [] [] None None [] Desk.
End DeskWorld.

(** A chunk that carries one buffer of synthesized audio. *)
Definition audio_chunk (data : bytes) : chunk :=
  Chunk [] (Some (ServerContent None (Some (Some [Part None None (Some data) None])))).

(** A turn that starts speaking and then carries a call with a number
    where a string is due. *)
Definition failing_turn : stream :=
  StreamChunk (audio_chunk "pcm-1")
    (StreamChunk (tool_chunk [create_folder_number_call]) StreamEnd).

(** A call with no argument at all, and a call of [list_files] for a
    given directory. *)
Definition bare_call (name : string) : function_call := FunctionCall "call-4" name ∅.

Definition list_files_call (id directory_path : string) : function_call :=
  FunctionCall id "list_files" (<["directory_path" := VStr directory_path]> ∅).

(** [open_file(file_path=["notes.txt"])]: a list where the schema asks for a
    string. *)
Definition open_file_list_call : function_call :=
  FunctionCall "call-5" "open_file" (<["file_path" := VList [VStr "notes.txt"]]> ∅).

(** A text delta in a chunk whose grounding metadata is there with its
    [grounding_chunks] left [None], and a text delta in a chunk that also
    carries a tool call. *)
Definition ungrounded_chunk (text : string) : chunk :=
  Chunk [] (Some (ServerContent (Some None) (Some (Some [Part None None None (Some text)])))).

Definition call_and_text_chunk (text : string) : chunk :=
  Chunk [create_file_call]
    (Some (ServerContent None (Some (Some [Part None None None (Some text)])))).

(** U+3000, the ideographic space, in UTF-8. *)
Definition ideographic_space : string :=
  String (ascii_of_nat 227) (String (ascii_of_nat 128) (String (ascii_of_nat 128) "")).

(** The simulated audio output: opening and writing always succeed. *)
#[global] Instance sim_audio_output : AudioOutput SimWorld.sim := {|
  pya_open_output := SimWorld.sim_done tt;
  stream_write _ := SimWorld.sim_done tt
|}.

(** Buffers waiting for playback, one of them empty. *)
Definition playing_state : player SimWorld.sim :=
  Player (Core "camera" true true [] [] ["buf1"; ""; "buf2"] [] None None []
            SimWorld.empty_world) [].

(** The four tasks at the test of their loops. *)
Definition tasks_at_head (c : core SimWorld.sim) : tasks SimWorld.sim :=
  Tasks c AtLoopHead AtLoopHead AtLoopHead AtLoopHead.

(** The video switched off from the GUI while the frame sampler is putting
    an image and a thread is reading the camera. *)
Definition switched_off_in_flight : tasks SimWorld.sim :=
  run_tasks [SamplerStep; SamplerStep; CaptureStep; GuiSetVideoMode "none"]
    (tasks_at_head camera_running).

(** What the tasks do next, with a string that is no mode sent by the
    GUI. *)
Definition off_schedule : list task_event :=
  [CaptureStep; SamplerStep; SenderStep; SenderStep; MicStep; MicStep; MicStep;
   GuiSetVideoMode "webcam"; CaptureStep; SamplerStep; SamplerStep; SenderStep;
   SenderStep; GuiSetVideoMode "none"; CaptureStep; SenderStep].

(** * Proofs *)

Example str_ops_examples :
  str_lower "  Google Chrome " = "  google chrome " /\
  str_strip "  google chrome " = "google chrome" /\
  str_endswith ":" "ms-teams:" = true /\
  str_replace_char " " "+" "a b c" = "a+b+c" /\
  str_split "//" "https://example.org/a//b" = ["https:"; "example.org/a"; "b"] /\
  str_split "/" "example.org/a" = ["example.org"; "a"] /\
  html_escape "<a&b>" = "&lt;a&amp;b&gt;" /\
  py_str (VList [VStr "a"; VInt 3]) = "['a', 3]".
Proof. repeat split; reflexivity. Qed.

Example base64_hi : Base64.encode "hi" = "aGk=" /\ Base64.decode "aGk=" = Ok "hi".
Proof. split; reflexivity. Qed.

(** Unfolding the monad down to functions on states. *)
Ltac unfold_so :=
  unfold mbind, mret, SO_bind, SO_ret, so_bind, so_ret, gets, modify, raise,
    block, try_except, try_except_cls, try_finally, await, in_world, call,
    emit, log in *.

Ltac case_matches :=
  repeat match goal with
         | |- context [match ?x with _ => _ end] =>
             lazymatch x with
             | context [match _ with _ => _ end] => fail
             | _ => destruct x eqn:?; simpl in *
             end
         end.

Lemma held_after_app t1 t2 h :
  held_after (t1 ++ t2) h = held_after t2 (held_after t1 h).
Proof.
  revert h. induction t1 as [|a t1 IH]; intros h; [reflexivity|].
  destruct a as [| |[]| |]; simpl; apply IH.
Qed.

Lemma held_ok_app t1 t2 h :
  held_ok (t1 ++ t2) h = held_ok t1 h && held_ok t2 (held_after t1 h).
Proof.
  revert h. induction t1 as [|a t1 IH]; intros h; [reflexivity|].
  destruct a as [| |[]| |]; simpl; rewrite ?IH, ?andb_assoc; try reflexivity.
  - destruct (Nat.eqb_spec h 0) as [->|]; reflexivity.
  - destruct (Nat.eqb_spec h 1) as [->|]; reflexivity.
Qed.

Lemma camera_ops_app t1 t2 : camera_ops (t1 ++ t2) = camera_ops t1 ++ camera_ops t2.
Proof. unfold camera_ops. apply omap_app. Qed.

Section MediaCaptureFacts.
Context {W : Type} `{World W}.
Implicit Type c : core W.


Lemma set_video_mode_outside mode c :
  mode ∉ video_modes -> set_video_mode mode c = (Ret tt, c).
Proof.
  intros Hout. unfold set_video_mode.
  rewrite bool_decide_eq_false_2 by exact Hout. reflexivity.
Qed.

Lemma set_video_mode_inside mode c :
  mode ∈ video_modes ->
  set_video_mode mode c =
    (Ret tt,
     set_trace (trace c ++ [Emit (video_mode_changed mode)])
       ((if String.eqb mode "none" then set_latest_frame None else id)
          (set_video_mode_field mode c))).
Proof.
  intros Hin. unfold set_video_mode.
  rewrite bool_decide_eq_true_2 by exact Hin.
  unfold_so. destruct (String.eqb mode "none"); reflexivity.
Qed.

Lemma set_video_mode_keeps_capture mode c :
  video_capture (snd (set_video_mode mode c)) = video_capture c /\
  camera_ops (trace (snd (set_video_mode mode c))) = camera_ops (trace c).
Proof.
  destruct (decide (mode ∈ video_modes)) as [Hin|Hout].
  - rewrite set_video_mode_inside by exact Hin. simpl.
    rewrite camera_ops_app. simpl. rewrite app_nil_r.
    destruct (String.eqb mode "none"); auto.
  - rewrite set_video_mode_outside by exact Hout. auto.
Qed.

Lemma video_step_mode ev c :
  video_mode c ∈ video_modes -> video_mode (snd (video_step ev c)) ∈ video_modes.
Proof.
  intros Hc. destruct ev as [mode| |]; simpl.
  - destruct (decide (mode ∈ video_modes)) as [Hin|Hout].
    + rewrite set_video_mode_inside by exact Hin. simpl.
      destruct (String.eqb mode "none"); exact Hin.
    + rewrite set_video_mode_outside by exact Hout. exact Hc.
  - unfold stream_video_to_gui_turn, stream_video_iteration, capture_frame,
      publish_frame, release_capture.
    unfold_so. case_matches; assumption.
  - exact Hc.
Qed.

Lemma run_video_mode evs c :
  video_mode c ∈ video_modes -> video_mode (run_video evs c) ∈ video_modes.
Proof.
  revert c. induction evs as [|ev evs IH]; intros c Hc; simpl; [exact Hc|].
  apply IH, video_step_mode, Hc.
Qed.

Lemma video_step_capture_inv ev c :
  capture_inv c -> capture_inv (snd (video_step ev c)).
Proof.
  unfold capture_inv. intros [Hok Hheld]. destruct ev as [mode| |]; simpl.
  - destruct (set_video_mode_keeps_capture mode c) as [-> _].
    destruct (decide (mode ∈ video_modes)) as [Hin|Hout].
    + rewrite set_video_mode_inside by exact Hin. simpl.
      rewrite held_ok_app, held_after_app, Hok, Hheld.
      destruct (String.eqb mode "none"); simpl; auto.
    + rewrite set_video_mode_outside by exact Hout. auto.
  - unfold stream_video_to_gui_turn, stream_video_iteration, capture_frame,
      publish_frame, release_capture.
    unfold_so. case_matches;
      repeat match goal with
             | E : (_, _) = (_, _) |- _ => inversion E; subst; clear E
             | E : video_capture _ = _ |- _ => simpl in E; try rewrite E in *
             end;
      simpl; rewrite ?held_ok_app, ?held_after_app, ?Hok, ?Hheld; simpl;
      try rewrite ?held_ok_app, ?held_after_app, ?Hok, ?Hheld; simpl;
      auto; try discriminate.
  - auto.
Qed.

Lemma run_video_capture_inv evs c :
  capture_inv c -> capture_inv (run_video evs c).
Proof.
  revert c. induction evs as [|ev evs IH]; intros c Hc; simpl; [exact Hc|].
  apply IH, video_step_capture_inv, Hc.
Qed.

Lemma turn_releases_first c v :
  video_capture c = Some v ->
  video_mode c = "screen" \/ video_mode c = "none" ->
  let c' := snd (stream_video_to_gui_turn c) in
  video_capture c' = None /\
  camera_ops (trace c') =
    camera_ops (trace c) ++
      CamRelease ::
        (if is_running c && String.eqb (video_mode c) "screen"
         then [ScreenGrab] else []).
Proof.
  intros Hv Hmode.
  unfold stream_video_to_gui_turn, stream_video_iteration, capture_frame,
    publish_frame, release_capture.
  unfold_so. destruct (is_running c); simpl.
  - destruct Hmode as [Hm|Hm]; rewrite Hm; simpl; rewrite Hv; simpl.
    + destruct (ImageGrab_grab (world c)) as [[[fr|e]|] w']; simpl;
        rewrite !camera_ops_app; simpl; rewrite ?app_nil_r, <- ?app_assoc; auto.
    + rewrite !camera_ops_app. auto.
  - rewrite Hv. simpl. rewrite !camera_ops_app. auto.
Qed.
End MediaCaptureFacts.

(** ** C10: the video mode stays one of camera, screen, none *)

(** C10.  Starting from a valid mode, the mode stays in
    {camera, screen, none} along every schedule of mode switches (with any
    string), capture-loop turns and stops; a switch to a string outside the
    set changes nothing at all, so the mode is kept and no
    [video_mode_changed] is emitted; a switch to none sets the mode, clears
    [latest_frame] and emits exactly that one signal. *)
Theorem video_mode_stays_valid {W : Type} `{World W} (c : core W) :
  video_mode c ∈ video_modes ->
  (forall evs, video_mode (run_video evs c) ∈ video_modes) /\
  (forall mode, mode ∉ video_modes -> set_video_mode mode c = (Ret tt, c)) /\
  (let c' := snd (set_video_mode "none" c) in
   video_mode c' = "none" /\ latest_frame c' = None /\
   trace c' = trace c ++ [Emit (video_mode_changed "none")]).
Proof.
  intros Hc. split; [|split].
  - intros evs. apply run_video_mode, Hc.
  - intros mode Hout. apply set_video_mode_outside, Hout.
  - rewrite set_video_mode_inside by (unfold video_modes; repeat constructor).
    simpl. auto.
Qed.

Lemma video_mode_stays_valid_witness :
  video_mode (SimWorld.init "camera") ∈ video_modes /\
  video_mode
    (run_video [SetVideoMode "webcam"; CaptureLoopTurn; SetVideoMode "screen";
                CaptureLoopTurn; SetVideoMode ""; StopRunning]
       (SimWorld.init "camera")) ∈ video_modes.
Proof.
  assert (Hin : video_mode (SimWorld.init "camera") ∈ video_modes)
    by (simpl; unfold video_modes; apply list_elem_of_here).
  split; [exact Hin|].
  exact (proj1 (video_mode_stays_valid (SimWorld.init "camera") Hin) _).
Defined.

(** ** C6: who releases the camera on a mode switch *)


(** C6, as stated, fails: with the camera held, [set_video_mode "screen"]
    returns with the device still held and no release in the trace. *)
Lemma set_video_mode_returns_with_camera_held :
  video_capture camera_running = Some VideoCapture0 /\
  video_capture (snd (set_video_mode "screen" camera_running)) = Some VideoCapture0 /\
  camera_ops (trace (snd (set_video_mode "screen" camera_running))) = [CamOpen; CamRead] /\
  held_after (trace (snd (set_video_mode "screen" camera_running))) 0 = 1%nat.
Proof. vm_compute. repeat split. Qed.

(** C6, amended.  A mode switch releases nothing itself: the device is the
    capture loop's.  After a switch to screen or none, the next turn of the
    capture loop releases a held device first, before the screen grab of
    that turn, and attempts no camera read; and along every schedule the
    loop never holds two devices, opening one only when it holds none. *)
Theorem capture_device_released_by_loop {W : Type} `{World W} (c : core W) :
  capture_inv c ->
  (forall mode,
     video_capture (snd (set_video_mode mode c)) = video_capture c /\
     camera_ops (trace (snd (set_video_mode mode c))) = camera_ops (trace c)) /\
  (forall mode v,
     mode = "screen" \/ mode = "none" ->
     video_capture c = Some v ->
     let c1 := snd (set_video_mode mode c) in
     let c2 := snd (stream_video_to_gui_turn c1) in
     video_capture c2 = None /\
     camera_ops (trace c2) =
       camera_ops (trace c) ++
         CamRelease ::
           (if is_running c && String.eqb mode "screen" then [ScreenGrab] else [])) /\
  (forall evs,
     held_ok (trace (run_video evs c)) 0 = true /\
     (held_after (trace (run_video evs c)) 0 <= 1)%nat).
Proof.
  intros Hinv. split; [|split].
  - intros mode. apply set_video_mode_keeps_capture.
  - intros mode v Hmode Hv c1 c2.
    assert (Hin : mode ∈ video_modes)
      by (destruct Hmode as [-> | ->]; unfold video_modes; repeat constructor).
    destruct (set_video_mode_keeps_capture mode c) as [Hvc Hops].
    assert (Hm1 : video_mode c1 = mode /\ is_running c1 = is_running c).
    { subst c1. rewrite set_video_mode_inside by exact Hin. simpl.
      destruct (String.eqb mode "none"); auto. }
    destruct Hm1 as [Hm1 Hr1].
    destruct (turn_releases_first c1 v) as [Hnone Hcam].
    + subst c1. rewrite Hvc. exact Hv.
    + rewrite Hm1. exact Hmode.
    + split; [exact Hnone|].
      subst c2. rewrite Hcam, Hm1, Hr1. subst c1. rewrite Hops. reflexivity.
  - intros evs. destruct (run_video_capture_inv evs c Hinv) as [Hok Hheld].
    split; [exact Hok|]. rewrite Hheld.
    destruct (video_capture (run_video evs c)); lia.
Qed.

Lemma capture_device_released_by_loop_witness :
  capture_inv camera_running /\
  (let c2 := snd (stream_video_to_gui_turn (snd (set_video_mode "screen" camera_running))) in
   video_capture c2 = None /\
   camera_ops (trace c2) = [CamOpen; CamRead; CamRelease; ScreenGrab]).
Proof.
  assert (Hinv : capture_inv camera_running) by (split; reflexivity).
  split; [exact Hinv|].
  exact (proj1 (proj2 (capture_device_released_by_loop camera_running Hinv))
           "screen" VideoCapture0 (or_introl eq_refl) eq_refl).
Defined.

(** ** C4: the outbound queue is forwarded in order, each item once *)

Lemma session_ops_app t1 t2 : session_ops (t1 ++ t2) = session_ops t1 ++ session_ops t2.
Proof. unfold session_ops. apply omap_app. Qed.

Lemma submitted_app t1 t2 : submitted (t1 ++ t2) = submitted t1 ++ submitted t2.
Proof. unfold submitted. apply omap_app. Qed.

Section OutboundMuxFacts.
Context {W : Type} `{World W}.
Implicit Type c : core W.


Ltac mux_trace :=
  simpl; rewrite ?submitted_app, ?session_ops_app; simpl; rewrite ?app_nil_r.

Lemma out_queue_put_inv item c :
  mux_inv c -> mux_inv (snd (out_queue_put item c)).
Proof.
  intros (Hrun & Hlen & consumed & Hsub & Hops). unfold out_queue_put. unfold_so.
  simpl. case_bool_decide as Hfull; simpl; [|repeat split; eauto].
  split; [exact Hrun|]. split.
  - simpl. rewrite length_app. simpl. unfold out_queue_maxsize in *. lia.
  - exists consumed. mux_trace. rewrite Hsub, Hops, app_assoc. auto.
Qed.

Lemma in_world_inv {A} (f : Await W A) c : mux_inv c -> mux_inv (snd (await f c)).
Proof.
  intros Hc. unfold_so. destruct (f (world c)) as [[[a|e]|] w']; exact Hc.
Qed.

Lemma mux_step_inv ev c : mux_inv c -> mux_inv (snd (mux_step ev c)).
Proof.
  intros Hc. pose proof Hc as (Hrun & Hlen & consumed & Hsub & Hops).
  destruct ev as [| | | |mode]; simpl; unfold while_running_turn.
  - (* listen_audio *)
    unfold listen_audio_iteration.
    change (mux_inv (snd ((running ← gets is_running;
              if running : bool then
                data ← await audio_stream_read;
                running' ← gets is_running;
                if running' : bool then out_queue_put (Message "audio/pcm" data)
                else mret tt
              else mret tt) c))).
    unfold mbind at 1, SO_bind, so_bind, gets at 1. rewrite Hrun.
    pose proof (in_world_inv audio_stream_read c Hc) as Hw.
    unfold mbind at 1, SO_bind, so_bind.
    destruct (await audio_stream_read c) as [[data|e| |] c1]; simpl in *; try exact Hw.
    unfold mbind, SO_bind, so_bind, gets.
    destruct Hw as (Hrun1 & Hw). rewrite Hrun1.
    apply out_queue_put_inv. split; assumption.
  - (* send_frames_to_gemini *)
    unfold send_frames_to_gemini_iteration.
    unfold mbind, SO_bind, so_bind, gets. rewrite Hrun.
    destruct (latest_frame c) as [fr|]; [|exact Hc].
    destruct (negb (String.eqb (video_mode c) "none")); [|exact Hc].
    apply out_queue_put_inv, Hc.
  - (* send_realtime *)
    unfold send_realtime_iteration, session_call. unfold_so. rewrite Hrun.
    destruct (out_queue_gemini c) as [|msg q'] eqn:Hq; simpl; [exact Hc|].
    rewrite Hrun. simpl.
    assert (Hlen' : (length q' <= out_queue_maxsize)%nat) by (simpl in Hlen; lia).
    assert (Hsub' : submitted (trace c) = (consumed ++ [msg]) ++ q')
      by (rewrite Hsub, <- app_assoc; reflexivity).
    unfold realtime_input in *.
    destruct (String.eqb (msg_mime_type msg) "audio/pcm") eqn:Ha; simpl.
    { destruct (session_send _ (world c)) as [[[[]|e]|] w']; simpl;
        (split; [exact Hrun|]; split; [exact Hlen'|]; exists (consumed ++ [msg]);
         mux_trace; rewrite omap_app; simpl; unfold realtime_input; rewrite Ha;
         simpl; rewrite Hops; auto). }
    destruct (String.eqb (msg_mime_type msg) "image/jpeg") eqn:Hi; simpl.
    { destruct (b64decode (msg_data msg)) as [data|e] eqn:Hd; simpl.
      - destruct (session_send _ (world c)) as [[[[]|e]|] w']; simpl;
          (split; [exact Hrun|]; split; [exact Hlen'|]; exists (consumed ++ [msg]);
           mux_trace; rewrite omap_app; simpl; unfold realtime_input;
           rewrite Ha, Hi, Hd; simpl; rewrite Hops; auto).
      - split; [exact Hrun|]; split; [exact Hlen'|]. exists (consumed ++ [msg]).
        mux_trace. rewrite omap_app. simpl. unfold realtime_input.
        rewrite Ha, Hi, Hd. simpl. rewrite app_nil_r. auto. }
    split; [exact Hrun|]; split; [exact Hlen'|]. exists (consumed ++ [msg]).
    mux_trace. rewrite omap_app. simpl. unfold realtime_input.
    rewrite Ha, Hi. simpl. rewrite app_nil_r. auto.
  - (* stream_video_to_gui *)
    unfold stream_video_to_gui_turn, stream_video_iteration, capture_frame,
      publish_frame, release_capture.
    unfold_so. rewrite Hrun.
    case_matches; (split; [exact Hrun|]; split; [exact Hlen|]; exists consumed;
                   mux_trace; auto).
  - (* set_video_mode *)
    unfold set_video_mode. unfold_so.
    case_matches; (split; [exact Hrun|]; split; [exact Hlen|]; exists consumed;
                   mux_trace; auto).
Qed.

Lemma run_mux_inv evs dead c : mux_inv c -> mux_inv (snd (run_mux evs dead c)).
Proof.
  revert dead c. induction evs as [|ev evs IH]; intros dead c Hc; simpl; [exact Hc|].
  destruct (existsb (same_task ev) dead); [apply IH, Hc|].
  pose proof (mux_step_inv ev c Hc) as Hstep.
  destruct (mux_step ev c) as [[[]|e| |] c']; simpl in Hstep; apply IH; assumption.
Qed.
End OutboundMuxFacts.

Section OutboundMuxTheorem.
Context {W : Type} `{World W}.
Implicit Type c : core W.

(** With a sendable item at the head of the queue, a turn of
    [send_realtime] removes that item and calls the session with it. *)
Lemma sender_turn_forwards_head c msg q op :
  is_running c = true ->
  out_queue_gemini c = msg :: q ->
  realtime_input msg = Some op ->
  let c' := snd (mux_step SenderTurn c) in
  out_queue_gemini c' = q /\ trace c' = trace c ++ [Session op].
Proof.
  intros Hrun Hq Hop. simpl. unfold while_running_turn, send_realtime_iteration, session_call.
  unfold_so. rewrite Hrun, Hq. simpl. rewrite Hrun. simpl.
  unfold realtime_input in Hop.
  destruct (String.eqb (msg_mime_type msg) "audio/pcm"); simpl.
  - inversion Hop; subst.
    destruct (session_send _ (world c)) as [[[[]|e]|] w']; simpl; auto.
  - destruct (String.eqb (msg_mime_type msg) "image/jpeg"); [|discriminate].
    destruct (b64decode (msg_data msg)) as [data|e]; [|discriminate].
    inversion Hop; subst. simpl.
    destruct (session_send _ (world c)) as [[[[]|e]|] w']; simpl; auto.
Qed.

Lemma realtime_input_cases msg :
  is_Some (realtime_input msg) ->
  (msg_mime_type msg = "audio/pcm" /\
   realtime_input msg = Some (send_realtime_input_audio (msg_data msg))) \/
  (msg_mime_type msg = "image/jpeg" /\
   exists data, b64decode (msg_data msg) = Ok data /\
                realtime_input msg = Some (send_realtime_input_video data)).
Proof.
  unfold realtime_input. intros [op Hop].
  destruct (String.eqb_spec (msg_mime_type msg) "audio/pcm") as [Ha|Ha]; [left; auto|].
  destruct (String.eqb_spec (msg_mime_type msg) "image/jpeg") as [Hi|Hi]; [|discriminate].
  destruct (b64decode (msg_data msg)) as [data|e]; [|discriminate].
  right. split; [exact Hi|]. exists data. auto.
Qed.

Lemma omap_all_some {A B} (f : A -> option B) (l : list A) :
  Forall (fun x => is_Some (f x)) l -> map Some (omap f l) = map f l.
Proof.
  induction 1 as [|x l [y Hy] _ IH]; simpl; [reflexivity|].
  rewrite Hy. simpl. f_equal. exact IH.
Qed.
End OutboundMuxTheorem.




(** ** C5 and C9: user text preempts speech *)

Lemma drain_nil {A} (q : list A) : drain q = [].
Proof. induction q as [|x q IH]; [reflexivity | exact IH]. Qed.

Section TextInputFacts.
Context {W : Type} `{World W}.
Implicit Type c : core W.


Lemma process_text_input_iteration_text c text q' :
  text_input_queue c = Some text :: q' ->
  session c = true ->
  process_text_input_iteration c =
    (session_call (send_client_content (str_or text ".")) ;; mret true)
      (purged c q').
Proof.
  intros Hq Hs. unfold process_text_input_iteration, purge_speech_queues, purged.
  unfold_so. rewrite Hq. simpl. rewrite Hs. simpl. rewrite !drain_nil. reflexivity.
Qed.

Lemma session_call_trace op c :
  trace (snd (session_call op c)) = trace c ++ [Session op] /\
  response_queue_tts (snd (session_call op c)) = response_queue_tts c /\
  audio_in_queue_player (snd (session_call op c)) = audio_in_queue_player c /\
  fst (session_call op c) <> Block.
Proof.
  unfold session_call. unfold_so. simpl.
  destruct (session_send op (world c)) as [[[[]|e]|] w']; simpl; repeat split; discriminate.
Qed.

(** With more fuel than items the loop never runs out of fuel: its
    result does not depend on the fuel. *)
Lemma process_text_input_loop_fuel fuel1 fuel2 c :
  (length (text_input_queue c) < fuel1)%nat ->
  (length (text_input_queue c) < fuel2)%nat ->
  process_text_input_loop fuel1 c = process_text_input_loop fuel2 c.
Proof.
  revert fuel2 c. induction fuel1 as [|fuel1 IH]; intros fuel2 c H1 H2; [lia|].
  destruct fuel2 as [|fuel2]; [lia|]. simpl.
  unfold process_text_input_iteration, purge_speech_queues, session_call.
  unfold_so. destruct (is_running c); [|reflexivity].
  destruct (text_input_queue c) as [|[text|] q'] eqn:Hq; simpl; try reflexivity.
  simpl in H1, H2.
  destruct (session c); simpl.
  - destruct (session_send _ (world c)) as [[[[]|e]|] w']; simpl; try reflexivity.
    apply IH; simpl; lia.
  - apply IH; simpl; lia.
Qed.
End TextInputFacts.

Lemma process_text_input_iteration_effect {W : Type} `{World W} (c : core W)
    (text : string) (q' : list (option string)) :
  text_input_queue c = Some text :: q' ->
  session c = true ->
  let c' := snd (process_text_input_iteration c) in
  response_queue_tts c' = [] /\ audio_in_queue_player c' = [] /\
  trace c' = trace c ++ [Session (send_client_content (str_or text "."))] /\
  fst (process_text_input_iteration c) <> Block.
Proof.
  intros Hq Hs c'. subst c'.
  rewrite (process_text_input_iteration_text c text q' Hq Hs).
  destruct (session_call_trace (send_client_content (str_or text ".")) (purged c q'))
    as (Ht & Htts & Hply & Hnb).
  unfold mbind, SO_bind, so_bind, mret, SO_ret, so_ret.
  destruct (session_call _ (purged c q')) as [[[]|e| |] c1]; simpl in *;
    repeat split; try assumption; try discriminate; congruence.
Qed.

(** C5.  For every text item (not the sentinel) taken from the input
    queue while a session is open, the user turn is sent from a state in
    which the TTS fragment queue and the playback queue are already empty:
    whatever they held before is gone, the call on the session is the
    action that follows, and the two queues are still empty when the
    iteration ends, which it does without suspending. *)
Theorem user_text_purges_speech_queues {W : Type} `{World W} (c : core W)
    (text : string) (q' : list (option string)) :
  text_input_queue c = Some text :: q' ->
  session c = true ->
  response_queue_tts (purged c q') = [] /\
  audio_in_queue_player (purged c q') = [] /\
  process_text_input_iteration c =
    (session_call (send_client_content (str_or text ".")) ;; mret true) (purged c q') /\
  (let c' := snd (process_text_input_iteration c) in
   response_queue_tts c' = [] /\ audio_in_queue_player c' = [] /\
   trace c' = trace c ++ [Session (send_client_content (str_or text "."))]) /\
  fst (process_text_input_iteration c) <> Block.
Proof.
  intros Hq Hs.
  destruct (process_text_input_iteration_effect c text q' Hq Hs) as (Htts & Hply & Ht & Hnb).
  split; [reflexivity|]. split; [reflexivity|].
  split; [apply process_text_input_iteration_text; assumption|].
  split; [|exact Hnb]. simpl. auto.
Qed.

Lemma user_text_purges_speech_queues_witness :
  let c' := snd (process_text_input_iteration (speaking_state "stop")) in
  response_queue_tts c' = [] /\ audio_in_queue_player c' = [] /\
  trace c' = [Session (send_client_content "stop")].
Proof.
  exact (proj1 (proj2 (proj2 (proj2
    (user_text_purges_speech_queues (speaking_state "stop") "stop" [] eq_refl eq_refl))))).
Defined.

(** C9.  When the text taken from the input queue is the empty string
    (not the sentinel) and a session is open, the user turn sent to the
    session carries the text ".". *)
Theorem empty_text_sent_as_dot {W : Type} `{World W} (c : core W)
    (q' : list (option string)) :
  text_input_queue c = Some "" :: q' ->
  session c = true ->
  trace (snd (process_text_input_iteration c)) =
    trace c ++ [Session (send_client_content ".")].
Proof.
  intros Hq Hs.
  destruct (process_text_input_iteration_effect c "" q' Hq Hs) as (_ & _ & Ht & _).
  exact Ht.
Qed.

Lemma empty_text_sent_as_dot_witness :
  trace (snd (process_text_input_iteration (speaking_state ""))) =
    [Session (send_client_content ".")].
Proof.
  exact (empty_text_sent_as_dot (speaking_state "") [] eq_refl eq_refl).
Defined.

(** ** C7: every speech episode ends with [speaking_stopped] *)

Lemma speaking_events_app t1 t2 :
  speaking_events (t1 ++ t2) = speaking_events t1 ++ speaking_events t2.
Proof. unfold speaking_events. apply omap_app. Qed.

Section TTSBridgeFacts.
Context {W : Type} `{World W}.
Implicit Type c : core W.

Ltac quiet_trace :=
  simpl; rewrite ?speaking_events_app; simpl; rewrite ?app_nil_r.

Lemma quiet_bind {A B} (m : SO (core W) A) (k : A -> SO (core W) B) c :
  quiet c (m c) ->
  (forall a, fst (m c) = Ret a ->
             (length (response_queue_tts (snd (m c))) <= length (response_queue_tts c))%nat ->
             quiet (snd (m c)) (k a (snd (m c)))) ->
  quiet c ((m ≫= k) c).
Proof.
  unfold quiet. intros (He & Hl & Hb) Hk. unfold mbind, SO_bind, so_bind.
  destruct (m c) as [[a|e| |] c1]; simpl in *.
  - destruct (Hk a eq_refl Hl) as (He' & Hl' & Hb'). repeat split.
    + congruence.
    + lia.
    + exact Hb'.
  - repeat split; auto. discriminate.
  - repeat split; auto. discriminate.
  - auto.
Qed.

Lemma quiet_ret {A} (a : A) c : quiet c ((mret a : SO (core W) A) c).
Proof. unfold quiet. simpl. repeat split; auto. discriminate. Qed.

Lemma quiet_gets {A} (f : core W -> A) c : quiet c (gets f c).
Proof. unfold quiet. simpl. repeat split; auto. discriminate. Qed.

Lemma quiet_await {A} (f : Await W A) c : quiet c (await f c).
Proof.
  unfold quiet. unfold_so. destruct (f (world c)) as [[[a|e]|] w']; simpl;
    repeat split; auto; discriminate.
Qed.

Lemma quiet_websocket_send text c : quiet c (websocket_send text c).
Proof.
  unfold quiet, websocket_send. unfold_so. simpl.
  destruct (ws_send text (world c)) as [[[[]|e]|] w']; quiet_trace;
    repeat split; auto; discriminate.
Qed.

Lemma websocket_send_queue text c :
  response_queue_tts (snd (websocket_send text c)) = response_queue_tts c.
Proof.
  unfold websocket_send. unfold_so. simpl.
  destruct (ws_send text (world c)) as [[[[]|e]|] w']; reflexivity.
Qed.

Lemma quiet_take item q' c :
  response_queue_tts c = item :: q' ->
  quiet c (modify (set_response_queue_tts q') c).
Proof.
  intros Hq. unfold quiet, modify. simpl. rewrite Hq. simpl.
  repeat split; auto; discriminate.
Qed.

Lemma tts_forward_fragments_quiet fuel c :
  (length (response_queue_tts c) < fuel)%nat ->
  quiet c (tts_forward_fragments fuel c).
Proof.
  revert c. induction fuel as [|fuel IH]; intros c Hlt; [lia|].
  cbn [tts_forward_fragments].
  apply quiet_bind; [apply quiet_gets|]. intros running _ _. simpl.
  destruct running; [|apply quiet_ret].
  apply quiet_bind; [apply quiet_gets|]. intros q Hq _. simpl in Hq.
  injection Hq as <-. simpl.
  destruct (response_queue_tts c) as [|[text_chunk|] q'] eqn:Hq'.
  - unfold quiet, block. simpl. rewrite Hq'. repeat split; auto.
  - apply quiet_bind; [eapply quiet_take; eassumption|]. intros [] _ _. simpl.
    apply quiet_bind; [apply quiet_websocket_send|]. intros [] _ _.
    apply IH. rewrite websocket_send_queue. simpl in *. lia.
  - apply quiet_bind; [eapply quiet_take; eassumption|]. intros [] _ _. simpl.
    apply quiet_websocket_send.
Qed.

Lemma quiet_log_websocket op c : quiet c (log (Websocket op) c).
Proof. unfold quiet. unfold_so. quiet_trace. repeat split; auto; discriminate. Qed.

Lemma quiet_finally_close {A} (body : SO (core W) A) c :
  quiet c (body c) -> quiet c (try_finally body (log (Websocket WsClose)) c).
Proof.
  unfold quiet, try_finally. intros (He & Hl & Hb). unfold_so.
  destruct (body c) as [[a|e| |] c1]; quiet_trace; repeat split; auto; discriminate.
Qed.

Lemma quiet_try_except {A} (body : SO (core W) A) (a : A) c :
  quiet c (body c) -> quiet c (try_except body (fun _ => mret a) c).
Proof.
  unfold quiet, try_except. intros (He & Hl & Hb). unfold_so.
  destruct (body c) as [[a'|e| |] c1]; simpl in *; auto.
  repeat split; auto; discriminate.
Qed.

Lemma tts_connection_quiet text_chunk fuel c :
  (length (response_queue_tts c) < fuel)%nat ->
  quiet c (tts_connection text_chunk fuel c).
Proof.
  intros Hlt. unfold tts_connection.
  apply quiet_bind; [apply quiet_await|]. intros [] _ Hl1.
  apply quiet_bind; [apply quiet_log_websocket|]. intros [] _ Hl2.
  apply quiet_finally_close.
  apply quiet_bind; [apply quiet_websocket_send|]. intros [] _ Hl3.
  apply quiet_bind; [apply quiet_websocket_send|]. intros [] _ Hl4.
  apply quiet_bind; [apply tts_forward_fragments_quiet; lia|]. intros [] _ Hl5.
  apply quiet_bind; [apply quiet_await|]. intros audio _ Hl6.
  unfold quiet, modify. simpl. repeat split; auto; discriminate.
Qed.

(** One episode: [speaking_started], then [speaking_stopped] unless the
    coroutine stays suspended on the empty fragment queue. *)
Lemma tts_episode_fuel_events text_chunk fuel c :
  (length (response_queue_tts c) < fuel)%nat ->
  let rc := tts_episode_fuel text_chunk fuel c in
  speaking_events (trace (snd rc)) =
    speaking_events (trace c) ++
      (match fst rc with Block => [true] | _ => [true; false] end) /\
  (length (response_queue_tts (snd rc)) <= length (response_queue_tts c))%nat /\
  (fst rc = Block -> response_queue_tts (snd rc) = []).
Proof.
  intros Hlt rc.
  set (c0 := set_trace (trace c ++ [Emit speaking_started]) c).
  assert (Hrc : rc = try_finally
                       (try_except (tts_connection text_chunk fuel) (fun _ => mret tt))
                       (emit speaking_stopped) c0) by reflexivity.
  assert (Hq : quiet c0
            (try_except (tts_connection text_chunk fuel) (fun _ => mret tt) c0)).
  { apply quiet_try_except, tts_connection_quiet. exact Hlt. }
  destruct Hq as (He & Hl & Hb). clearbody rc. subst rc.
  unfold try_finally, emit, log, modify.
  destruct (try_except _ _ c0) as [[[]|e| |] c1]; simpl in *;
    rewrite ?speaking_events_app, ?He; subst c0; quiet_trace;
    rewrite <- ?app_assoc; repeat split; auto; discriminate.
Qed.
Lemma tts_loop_step fuel c :
  tts_loop (S fuel) c =
    if is_running c then
      match response_queue_tts c with
      | [] => (Block, c)
      | Some text_chunk :: q' =>
          match tts_episode_fuel text_chunk fuel (set_response_queue_tts q' c) with
          | (Ret _, c2) => tts_loop fuel c2
          | (Raise e, c2) => (Raise e, c2)
          | (Cancelled, c2) => (Cancelled, c2)
          | (Block, c2) => (Block, c2)
          end
      | None :: q' => tts_loop fuel (set_response_queue_tts q' c)
      end
    else (Ret tt, c).
Proof.
  cbn [tts_loop]. unfold mbind, SO_bind, so_bind, gets, modify, block. simpl.
  destruct (is_running c) eqn:Hrun; [|reflexivity].
  destruct (response_queue_tts c) as [|[text_chunk|] q']; simpl; rewrite ?Hrun; reflexivity.
Qed.

Lemma tts_loop_events fuel c :
  (length (response_queue_tts c) < fuel)%nat ->
  exists n tail,
    speaking_events (trace (snd (tts_loop fuel c))) =
      speaking_events (trace c) ++ episodes n ++ tail /\
    (tail = [] \/
     (tail = [true] /\ fst (tts_loop fuel c) = Block /\
      response_queue_tts (snd (tts_loop fuel c)) = [])).
Proof.
  revert c. induction fuel as [|fuel IH]; intros c Hlt; [lia|].
  rewrite tts_loop_step.
  destruct (is_running c) eqn:Hrun;
    [|exists 0%nat, []; simpl; rewrite app_nil_r; auto].
  destruct (response_queue_tts c) as [|item q'] eqn:Hq;
    [exists 0%nat, []; simpl; rewrite app_nil_r; auto|].
  set (c1 := set_response_queue_tts q' c).
  assert (Hlt1 : (length (response_queue_tts c1) < fuel)%nat)
    by (subst c1; simpl in *; lia).
  assert (Ht1 : trace c1 = trace c) by reflexivity.
  destruct item as [text_chunk|].
  - pose proof (tts_episode_fuel_events text_chunk fuel c1 Hlt1) as (He & Hl & Hb).
    destruct (tts_episode_fuel text_chunk fuel c1) as [[[]|e| |] c2]; simpl in *.
    + destruct (IH c2) as (n & tail & Hn & Htail); [lia|].
      exists (S n), tail. split; [|exact Htail].
      rewrite Hn, He. unfold episodes. simpl. rewrite <- !app_assoc. reflexivity.
    + exists 1%nat, []. rewrite He. simpl. auto.
    + exists 1%nat, []. rewrite He. simpl. auto.
    + exists 0%nat, [true]. rewrite He. simpl. split; [reflexivity|].
      right. auto.
  - destruct (IH c1 Hlt1) as (n & tail & Hn & Htail).
    exists n, tail. rewrite Hn, Ht1. auto.
Qed.

Lemma is_speaking_stopped t : is_speaking (t ++ [Emit speaking_stopped]) = false.
Proof.
  unfold is_speaking. rewrite speaking_events_app. simpl. rewrite last_snoc. reflexivity.
Qed.
End TTSBridgeFacts.

Section EpisodeEnds.
Context {W : Type} `{World W}.
Implicit Type c : core W.

Lemma websocket_send_fields text c :
  is_running (snd (websocket_send text c)) = is_running c /\
  response_queue_tts (snd (websocket_send text c)) = response_queue_tts c /\
  fst (websocket_send text c) <> Block.
Proof.
  unfold websocket_send. unfold_so. simpl.
  destruct (ws_send text (world c)) as [[[[]|e]|] w']; repeat split; discriminate.
Qed.

(** The inner loop is suspended only on a queue it has found without an
    end sentinel, while the orchestrator runs. *)
Lemma tts_forward_fragments_blocks fuel c :
  (length (response_queue_tts c) < fuel)%nat ->
  fst (tts_forward_fragments fuel c) = Block ->
  is_running c = true /\ Forall is_Some (response_queue_tts c).
Proof.
  revert c. induction fuel as [|fuel IH]; intros c Hlt; [lia|].
  cbn [tts_forward_fragments]. unfold mbind, SO_bind, so_bind, gets, modify. simpl.
  destruct (is_running c) eqn:Hrun; [|discriminate].
  destruct (response_queue_tts c) as [|[text_chunk|] q'] eqn:Hq.
  - intros _. split; [reflexivity | constructor].
  - set (c1 := set_response_queue_tts q' c).
    destruct (websocket_send_fields (String.append text_chunk " ") c1) as (Hr & Hq1 & Hnb).
    destruct (websocket_send (String.append text_chunk " ") c1) as [[[]|e| |] c2];
      simpl in Hr, Hq1, Hnb |- *; try discriminate; [|congruence].
    intros Hblock. destruct (IH c2) as [_ Hall]; [rewrite Hq1; simpl in *; lia | exact Hblock |].
    split; [reflexivity|]. constructor; [eexists; reflexivity|]. rewrite Hq1 in Hall. exact Hall.
  - set (c1 := set_response_queue_tts q' c).
    destruct (websocket_send_fields "" c1) as (_ & _ & Hnb). intros Hblock. contradiction.
Qed.

Lemma so_bind_run {A B} (m : SO (core W) A) (k : A -> SO (core W) B) c :
  (m ≫= k) c =
    match m c with
    | (Ret a, c') => k a c'
    | (Raise e, c') => (Raise e, c')
    | (Cancelled, c') => (Cancelled, c')
    | (Block, c') => (Block, c')
    end.
Proof. reflexivity. Qed.

(** The connection of an episode is suspended only after it has been
    established, with the orchestrator running and no end sentinel in the
    fragment queue. *)
Lemma tts_connection_blocks text_chunk fuel c :
  (length (response_queue_tts c) < fuel)%nat ->
  fst (tts_connection text_chunk fuel c) = Block ->
  is_running c = true /\ Forall is_Some (response_queue_tts c) /\
  fst (ws_connect (world c)) = Some (Ok tt).
Proof.
  intros Hlt. unfold tts_connection. rewrite so_bind_run. unfold await at 1.
  destruct (ws_connect (world c)) as [[[[]|e]|] w'] eqn:Hconn; cbn [fst snd];
    try discriminate.
  rewrite so_bind_run.
  change (log (Websocket WsConnect) (set_world w' c))
    with (Ret tt, set_trace (trace (set_world w' c) ++ [Websocket WsConnect])
                    (set_world w' c)).
  cbn iota beta.
  set (c1 := set_trace (trace (set_world w' c) ++ [Websocket WsConnect]) (set_world w' c)).
  unfold try_finally. rewrite so_bind_run.
  destruct (websocket_send_fields " " c1) as (Hr1 & Hq1 & Hnb1).
  destruct (websocket_send " " c1) as [[[]|e| |] c2]; cbn [fst snd] in Hr1, Hq1, Hnb1 |- *;
    try (unfold log, modify; cbn; discriminate); [|congruence].
  rewrite so_bind_run.
  destruct (websocket_send_fields (String.append text_chunk " ") c2) as (Hr2 & Hq2 & Hnb2).
  destruct (websocket_send (String.append text_chunk " ") c2) as [[[]|e| |] c3];
    cbn [fst snd] in Hr2, Hq2, Hnb2 |- *;
    try (unfold log, modify; cbn; discriminate); [|congruence].
  rewrite so_bind_run.
  assert (Hq3 : response_queue_tts c3 = response_queue_tts c) by (rewrite Hq2, Hq1; reflexivity).
  assert (Hr3 : is_running c3 = is_running c) by (rewrite Hr2, Hr1; reflexivity).
  pose proof (tts_forward_fragments_blocks fuel c3 ltac:(rewrite Hq3; exact Hlt)) as Hfwd.
  destruct (tts_forward_fragments fuel c3) as [[[]|e| |] c4]; cbn [fst snd] in Hfwd |- *;
    try (unfold log, modify; cbn; discriminate).
  - rewrite so_bind_run. unfold await, modify, log.
    destruct (ws_listen (world c4)) as [[[audio|e]|] w4]; cbn; discriminate.
  - intros _. destruct (Hfwd eq_refl) as [Hrun Hall].
    rewrite Hr3 in Hrun. rewrite Hq3 in Hall. auto.
Qed.

(** The episode around the connection: an exception of the connection is
    caught, and [speaking_stopped] follows unless the connection stays
    suspended. *)
Lemma tts_episode_fuel_outcome text_chunk fuel c :
  let c1 := set_trace (trace c ++ [Emit speaking_started]) c in
  let conn := tts_connection text_chunk fuel c1 in
  tts_episode_fuel text_chunk fuel c =
    match fst conn with
    | Ret _ | Raise _ =>
        (Ret tt, set_trace (trace (snd conn) ++ [Emit speaking_stopped]) (snd conn))
    | Cancelled =>
        (Cancelled, set_trace (trace (snd conn) ++ [Emit speaking_stopped]) (snd conn))
    | Block => (Block, snd conn)
    end.
Proof.
  intros c1 conn. subst conn. unfold tts_episode_fuel. rewrite so_bind_run.
  change (emit speaking_started c) with (Ret tt, c1). cbn iota beta.
  unfold try_finally, try_except, emit, log, modify.
  destruct (tts_connection text_chunk fuel c1) as [[[]|e| |] c2]; reflexivity.
Qed.
End EpisodeEnds.

(** C7.  Every speech episode emits [speaking_started] and then, when it
    ends, [speaking_stopped]: this holds whatever the websocket does, so
    also when connecting, sending or listening raises an exception, which
    [except Exception] catches, or when the task is cancelled there, which
    it does not catch.  The
    only way to have [speaking_started] without [speaking_stopped] is an
    episode that has not ended, suspended on the empty fragment queue.
    After an episode that ended the speaking flag is clear; and over the
    whole [tts] loop the speaking signals are a sequence of complete
    started/stopped pairs, followed by one [speaking_started] only if the
    loop is suspended inside an episode.

    An episode does end whenever something fails or the end sentinel is
    there: it stays suspended only if the connection was established, the
    orchestrator runs and the fragment queue held no end sentinel.  Any
    exception of the connection (raised by connecting, by a send or by the
    listener) makes the episode return with [speaking_stopped] emitted;
    for an error on connecting and for an error on the priming message the
    whole trace of the episode is given. *)
Theorem speech_episode_always_stopped {W : Type} `{World W} (c : core W)
    (text_chunk : string) :
  speaking_events (trace (snd (tts_episode text_chunk c))) =
    speaking_events (trace c) ++
      (match fst (tts_episode text_chunk c) with
       | Block => [true]
       | _ => [true; false]
       end) /\
  (match fst (tts_episode text_chunk c) with
   | Block => response_queue_tts (snd (tts_episode text_chunk c)) = []
   | _ => is_speaking (trace (snd (tts_episode text_chunk c))) = false
   end) /\
  (exists n tail,
     speaking_events (trace (snd (tts c))) = speaking_events (trace c) ++ episodes n ++ tail /\
     (tail = [] \/
      (tail = [true] /\ fst (tts c) = Block /\ response_queue_tts (snd (tts c)) = []))) /\
  (fst (tts_episode text_chunk c) = Block ->
   is_running c = true /\ Forall is_Some (response_queue_tts c) /\
   fst (ws_connect (world c)) = Some (Ok tt)) /\
  (forall e,
     fst (tts_connection text_chunk (S (length (response_queue_tts c)))
            (set_trace (trace c ++ [Emit speaking_started]) c)) = Raise e ->
     fst (tts_episode text_chunk c) = Ret tt /\
     speaking_events (trace (snd (tts_episode text_chunk c))) =
       speaking_events (trace c) ++ [true; false]) /\
  (forall e,
     fst (ws_connect (world c)) = Some (Err e) ->
     fst (tts_episode text_chunk c) = Ret tt /\
     trace (snd (tts_episode text_chunk c)) =
       trace c ++ [Emit speaking_started; Emit speaking_stopped]) /\
  (forall e w1,
     ws_connect (world c) = (Some (Ok tt), w1) ->
     fst (ws_send " " w1) = Some (Err e) ->
     fst (tts_episode text_chunk c) = Ret tt /\
     trace (snd (tts_episode text_chunk c)) =
       trace c ++ [Emit speaking_started; Websocket WsConnect; Websocket (WsSend " ");
                   Websocket WsClose; Emit speaking_stopped]).
Proof.
  assert (Hlt : (length (response_queue_tts c) < S (length (response_queue_tts c)))%nat) by lia.
  pose proof (tts_episode_fuel_events text_chunk _ c Hlt) as (He & Hl & Hb).
  pose proof (tts_episode_fuel_outcome text_chunk (S (length (response_queue_tts c))) c)
    as Hout. cbv zeta in Hout.
  unfold tts_episode, tts. split; [exact He|]. split; [|split; [apply tts_loop_events, Hlt|]].
  { unfold is_speaking. rewrite He.
    destruct (fst (tts_episode_fuel text_chunk _ c)); [| | |apply Hb; reflexivity];
      rewrite (app_assoc _ [true] [false]), last_snoc; reflexivity. }
  split; [|split; [|split]].
  - rewrite Hout. intros Hblock.
    apply (tts_connection_blocks text_chunk (S (length (response_queue_tts c)))
             (set_trace (trace c ++ [Emit speaking_started]) c) Hlt).
    destruct (fst (tts_connection _ _ _)); try discriminate Hblock. reflexivity.
  - intros e Hraise. rewrite He, Hout, Hraise. split; reflexivity.
  - intros e Hconn.
    destruct (ws_connect (world c)) as [[[[]|e']|] w'] eqn:Hw; try discriminate Hconn.
    assert (Hc : tts_connection text_chunk (S (length (response_queue_tts c)))
                   (set_trace (trace c ++ [Emit speaking_started]) c) =
                 (Raise e', set_world w' (set_trace (trace c ++ [Emit speaking_started]) c))).
    { unfold tts_connection. rewrite so_bind_run. unfold await. cbn [world set_trace].
      rewrite Hw. reflexivity. }
    rewrite Hout, Hc. cbn. rewrite <- app_assoc. split; reflexivity.
  - intros e w1 Hconn Hsend.
    destruct (ws_send " " w1) as [[[[]|e']|] w2] eqn:Hw; try discriminate Hsend.
    assert (Hc : exists c2,
               tts_connection text_chunk (S (length (response_queue_tts c)))
                 (set_trace (trace c ++ [Emit speaking_started]) c) = (Raise e', c2) /\
               trace c2 = trace c ++ [Emit speaking_started; Websocket WsConnect;
                                      Websocket (WsSend " "); Websocket WsClose]).
    { unfold tts_connection. rewrite so_bind_run. unfold await at 1. cbn [world set_trace].
      rewrite Hconn. cbn iota beta. rewrite so_bind_run.
      unfold log at 1, modify at 1. cbn iota beta.
      unfold try_finally. rewrite so_bind_run. unfold websocket_send at 1.
      rewrite so_bind_run. unfold log at 1, modify at 1. cbn iota beta.
      unfold await at 1. cbn [world set_trace set_world]. rewrite Hw.
      eexists. split; [reflexivity|]. cbn. rewrite <- !app_assoc. reflexivity. }
    destruct Hc as (c2 & Hc & Htrace). rewrite Hout, Hc. cbn. rewrite Htrace, <- app_assoc.
    split; reflexivity.
Qed.

(** The scenario of the specification: fragments "Hello", " world" and the
    end sentinel give one connection, two fragment messages after the
    priming one, one flush, and the close. *)
Example tts_hello_world :
  trace (snd (tts (tts_state true [Some "Hello"; Some " world"; None]))) =
    [Emit speaking_started; Websocket WsConnect; Websocket (WsSend " ");
     Websocket (WsSend "Hello "); Websocket (WsSend " world ");
     Websocket (WsSend ""); Websocket WsClose; Emit speaking_stopped] /\
  audio_in_queue_player (snd (tts (tts_state true [Some "Hello"; Some " world"; None]))) =
    ["audio1"; "audio2"].
Proof. split; reflexivity. Qed.

(** With the service unreachable every fragment starts an episode that
    fails on connecting; each one still emits [speaking_stopped]. *)
Example tts_connection_refused :
  trace (snd (tts (tts_state false [Some "Hello"; Some " world"; None]))) =
    [Emit speaking_started; Emit speaking_stopped;
     Emit speaking_started; Emit speaking_stopped] /\
  is_speaking (trace (snd (tts (tts_state false [Some "Hello"; Some " world"; None])))) = false.
Proof. split; reflexivity. Qed.

(** ** C8: the tool helpers never raise *)

Lemma mk_result_well_formed status message :
  status ∈ statuses -> well_formed_result (mk_result status message).
Proof.
  intros Hin. exists status, message. unfold mk_result.
  rewrite lookup_insert_eq, lookup_insert_ne by discriminate.
  rewrite lookup_insert_eq. auto.
Qed.

Lemma insert_well_formed k v d :
  k <> "status" -> k <> "message" ->
  well_formed_result d -> well_formed_result (<[k := v]> d).
Proof.
  intros Hs Hm (status & message & H1 & H2 & H3). exists status, message.
  rewrite !lookup_insert_ne by assumption. auto.
Qed.

Lemma status_success : "success" ∈ statuses.
Proof. unfold statuses. repeat constructor. Qed.
Lemma status_error : "error" ∈ statuses.
Proof. unfold statuses. repeat constructor. Qed.
Lemma status_skipped : "skipped" ∈ statuses.
Proof. unfold statuses. repeat constructor. Qed.
Lemma status_not_found : "not_found" ∈ statuses.
Proof. unfold statuses. repeat constructor. Qed.

Create HintDb tool_result discriminated.
#[global] Hint Resolve mk_result_well_formed status_success status_error
  status_skipped status_not_found : tool_result.
#[global] Hint Extern 2 (well_formed_result (<[_ := _]> _)) =>
  apply insert_well_formed; [discriminate | discriminate | ] : tool_result.

Section HelperFacts.
Context {W : Type} `{World W}.

Lemma sync_ret {A} (P : A -> Prop) (a : A) : P a -> sync (W:=W) P (mret a).
Proof. intros Ha w. exact Ha. Qed.

Lemma sync_raise {A} (P : A -> Prop) e : sync (W:=W) P (raise e).
Proof. intros w. exact I. Qed.

Lemma sync_bind {A B} (Q : A -> Prop) (P : B -> Prop) (m : SO W A) (k : A -> SO W B) :
  sync Q m -> (forall a, Q a -> sync P (k a)) -> sync P (m ≫= k).
Proof.
  intros Hm Hk w. specialize (Hm w). unfold mbind, SO_bind, so_bind.
  destruct (m w) as [[a|e| |] w1]; simpl in *; try exact Hm.
  apply (Hk a Hm).
Qed.

Lemma sync_gets {A} (f : W -> A) : sync (fun _ => True) (gets f).
Proof. intros w. exact I. Qed.

Lemma sync_call {A} (f : Sync W A) : sync (fun _ => True) (call f).
Proof. intros w. unfold call. destruct (f w) as [[a|e] w1]; exact I. Qed.

Lemma sync_fspath v : sync (fun _ => True) (fspath v : SO W string).
Proof. intros w. destruct v; exact I. Qed.

Lemma sync_str_method {A} attr (f : string -> A) v :
  sync (fun _ => True) (str_method attr f v : SO W A).
Proof. intros w. destruct v; exact I. Qed.

Lemma sync_weaken {A} (P Q : A -> Prop) (m : SO W A) :
  (forall a, P a -> Q a) -> sync P m -> sync Q m.
Proof.
  intros HPQ Hm w. specialize (Hm w). destruct (fst (m w)); auto.
Qed.

Lemma sync_try_except_cls {A} (P : A -> Prop) cls (body : SO W A) handler :
  sync P body -> (forall e, sync P (handler e)) -> sync P (try_except_cls cls body handler).
Proof.
  intros Hb Hh w. specialize (Hb w). unfold try_except_cls.
  destruct (body w) as [[a|e| |] w1]; simpl in *; try exact Hb.
  destruct (cls e); [apply Hh | exact I].
Qed.

(** A helper whose whole body is under [try .. except Exception] with a
    handler that returns an error result: it always returns a result. *)
Lemma try_except_returns_result (body : SO W dict) (message : exn -> string) w :
  sync well_formed_result body ->
  returns_result
    (try_except body (fun e => mret (mk_result "error" (message e)))) w.
Proof.
  intros Hb. specialize (Hb w). unfold returns_result, try_except.
  destruct (body w) as [[d|e| |] w1]; simpl in *; try contradiction.
  - exists d, w1. auto.
  - exists (mk_result "error" (message e)), w1. split; [reflexivity|].
    auto with tool_result.
Qed.
End HelperFacts.

(** Steps through synchronous code: a bind, a branch, a return. *)
Ltac sync_prim :=
  first [ apply sync_gets | apply sync_call | apply sync_fspath
        | apply sync_str_method ].

Ltac sync_step :=
  lazymatch goal with
  | |- sync _ (mret _) => apply sync_ret; auto 6 with tool_result
  | |- sync _ (raise _) => apply sync_raise
  | |- sync _ (_ ≫= _) =>
      eapply sync_bind with (Q := fun _ => True); [sync_prim | intros ? _]
  | |- sync _ (if ?b then _ else _) => destruct b
  | |- sync _ (match ?x with _ => _ end) => destruct x
  | |- sync _ (let _ := _ in _) => cbv zeta
  end.

Ltac sync_auto := repeat sync_step.

Section FileHelperFacts.
Context {W : Type} `{World W}.

Lemma _create_folder_returns v w : returns_result (_create_folder v) w.
Proof. apply try_except_returns_result. sync_auto. Qed.

Lemma _create_file_returns v content w : returns_result (_create_file v content) w.
Proof. apply try_except_returns_result. sync_auto. Qed.

Lemma _edit_file_returns v content w : returns_result (_edit_file v content) w.
Proof. apply try_except_returns_result. sync_auto. Qed.

Lemma _list_files_returns v w : returns_result (_list_files v) w.
Proof. apply try_except_returns_result. sync_auto. Qed.

Lemma _read_file_returns v w : returns_result (_read_file v) w.
Proof. apply try_except_returns_result. sync_auto. Qed.

Lemma _move_file_returns src dst w : returns_result (_move_file src dst) w.
Proof. apply try_except_returns_result. sync_auto. Qed.
End FileHelperFacts.

Section ApplicationHelperFacts.
Context {W : Type} `{World W}.

Lemma launch_from_entries_sync exe name entries :
  sync maybe_result (launch_from_entries exe name entries).
Proof.
  induction entries as [|[[root dirs] files] entries IH]; simpl.
  - apply sync_ret. exact I.
  - destruct (existsb _ _); [|exact IH].
    eapply sync_bind with (Q := fun _ => True); [apply sync_call|]. intros _ _.
    apply sync_ret. simpl. auto with tool_result.
Qed.

Lemma launch_from_dirs_sync exe name search_dirs :
  sync maybe_result (launch_from_dirs exe name search_dirs).
Proof.
  induction search_dirs as [|d search_dirs IH]; simpl.
  - apply sync_ret. exact I.
  - eapply sync_bind with (Q := fun _ => True); [apply sync_gets|]. intros isd _.
    destruct (_ || _); [exact IH|].
    eapply sync_bind with (Q := fun _ => True); [apply sync_gets|]. intros tree _.
    eapply sync_bind; [apply launch_from_entries_sync|]. intros [d'|] Hd.
    + apply sync_ret. exact Hd.
    + exact IH.
Qed.

Lemma taskkill_all_sync processes killed :
  sync (fun _ => True) (taskkill_all processes killed).
Proof.
  revert killed. induction processes as [|proc processes IH]; intros killed; simpl.
  - apply sync_ret. exact I.
  - eapply sync_bind with (Q := fun _ => True); [apply sync_call|]. intros rc _.
    apply IH.
Qed.

Lemma launched_well_formed name : well_formed_result (launched name).
Proof. unfold launched. auto with tool_result. Qed.

Lemma attempted_well_formed name : well_formed_result (attempted name).
Proof. unfold attempted. auto with tool_result. Qed.

Lemma not_running_well_formed name : well_formed_result (not_running name).
Proof. unfold not_running. auto with tool_result. Qed.

Hint Resolve launched_well_formed attempted_well_formed not_running_well_formed
  : tool_result.

Lemma _open_application_returns v w : returns_result (_open_application v) w.
Proof.
  apply try_except_returns_result.
  destruct (not_a_path v); [sync_auto|].
  sync_step. cbv zeta. destruct sys_platform; [|sync_auto..].
  destruct (negb _); [|sync_auto].
  destruct (str_endswith _ _); [sync_auto|].
  destruct (existsb _ _); [sync_auto|].
  eapply sync_bind with (Q := maybe_result).
  { apply sync_try_except_cls; [|intros e; apply sync_ret; exact I].
    sync_step. apply sync_ret. simpl. auto with tool_result. }
  intros [d|] Hd; [apply sync_ret; exact Hd|].
  sync_step.
  eapply sync_bind; [apply launch_from_dirs_sync|].
  intros [d|] Hd'; [apply sync_ret; exact Hd'|]. sync_auto.
Qed.

Lemma _open_direct_youtube_returns q ct w : returns_result (_open_direct_youtube q ct) w.
Proof. apply try_except_returns_result. sync_auto. Qed.

Lemma _search_and_open_returns q p w : returns_result (_search_and_open q p) w.
Proof. apply try_except_returns_result. sync_auto. Qed.

Lemma _close_application_returns v w : returns_result (_close_application v) w.
Proof.
  apply try_except_returns_result.
  destruct (not_a_path v); [sync_auto|].
  sync_step. cbv zeta. destruct sys_platform; [|sync_auto..].
  eapply sync_bind with (Q := fun _ => True); [apply taskkill_all_sync|].
  intros killed _. sync_auto.
Qed.

Lemma _open_website_returns v w : returns_result (_open_website v) w.
Proof. apply try_except_returns_result. sync_auto. Qed.
End ApplicationHelperFacts.

(** ** Frames: what a piece of code leaves alone *)

Section Frames.
Context {W : Type} `{World W} {B : Type}.
Variable f : core W -> B.
Variable ok_action : action -> bool.
Hypothesis Hworld : forall w c, f (set_world w c) = f c.
Hypothesis Hplayer : forall q c, f (set_audio_in_queue_player q c) = f c.
Hypothesis Hlog : forall a c, ok_action a = true -> f (set_trace (trace c ++ [a]) c) = f c.

Lemma keeps_pure {A} (m : SO (core W) A) : (forall c, snd (m c) = c) -> keeps f m.
Proof. intros Hm c. rewrite Hm. reflexivity. Qed.

Lemma keeps_bind {A C} (m : SO (core W) A) (k : A -> SO (core W) C) :
  keeps f m -> (forall a, keeps f (k a)) -> keeps f (m ≫= k).
Proof.
  intros Hm Hk c. specialize (Hm c). unfold mbind, SO_bind, so_bind.
  destruct (m c) as [[a|e| |] c1]; simpl in *; try exact Hm.
  rewrite Hk. exact Hm.
Qed.

Lemma keeps_ret {A} (a : A) : keeps f (mret a : SO (core W) A).
Proof. intros c. reflexivity. Qed.

Lemma keeps_raise {A} e : keeps f (raise e : SO (core W) A).
Proof. intros c. reflexivity. Qed.

Lemma keeps_gets {A} (g : core W -> A) : keeps f (gets g).
Proof. intros c. reflexivity. Qed.

Lemma keeps_log a : ok_action a = true -> keeps f (log a).
Proof. intros Ha c. unfold log, modify. simpl. apply Hlog, Ha. Qed.

Lemma keeps_emit sg : ok_action (Emit sg) = true -> keeps f (emit sg).
Proof. apply keeps_log. Qed.

Lemma keeps_in_world {A} (m : SO W A) : keeps f (in_world m).
Proof. intros c. unfold in_world. destruct (m (world c)) as [r w']. simpl. apply Hworld. Qed.

Lemma keeps_await {A} (g : Await W A) : keeps f (await g).
Proof.
  intros c. unfold await. destruct (g (world c)) as [[[a|e]|] w']; simpl; apply Hworld.
Qed.

Lemma keeps_escape v : keeps f (escape v).
Proof. apply keeps_pure. intros c. destruct v; reflexivity. Qed.

Lemma keeps_str_method {A} attr (g : string -> A) v : keeps f (str_method attr g v).
Proof. apply keeps_pure. intros c. destruct v; reflexivity. Qed.

Lemma keeps_fspath v : keeps f (fspath v).
Proof. apply keeps_pure. intros c. destruct v; reflexivity. Qed.

Lemma keeps_py_contains sub v : keeps f (py_contains sub v).
Proof. apply keeps_pure. intros c. destruct v; reflexivity. Qed.

Lemma keeps_py_path_exists v : keeps f (py_path_exists v).
Proof. apply keeps_pure. intros c. destruct v; reflexivity. Qed.

Lemma keeps_iterate {A} (l : option (list A)) : keeps f (iterate l).
Proof. apply keeps_pure. intros c. destruct l; reflexivity. Qed.

Lemma keeps_try_except {A} (body : SO (core W) A) handler :
  keeps f body -> (forall e, keeps f (handler e)) -> keeps f (try_except body handler).
Proof.
  intros Hb Hh c. specialize (Hb c). unfold try_except.
  destruct (body c) as [[a|e| |] c1]; simpl in *; try exact Hb.
  rewrite Hh. exact Hb.
Qed.

Lemma keeps_mapM {A} (ms : list (SO (core W) A)) :
  Forall (keeps f) ms -> keeps f (mapM id ms).
Proof.
  induction 1 as [|m ms Hm _ IH]; simpl; [apply keeps_ret|].
  apply keeps_bind; [exact Hm|]. intros a.
  apply keeps_bind; [exact IH|]. intros l. apply keeps_ret.
Qed.

Lemma keeps_tool_activity tag ms :
  ok_action (Emit (tool_activity_received tag [])) = true ->
  (forall tag' body, ok_action (Emit (tool_activity_received tag' body)) = true) ->
  Forall (keeps f) ms -> keeps f (tool_activity tag ms).
Proof.
  intros _ Hok Hms. unfold tool_activity.
  apply keeps_bind; [apply keeps_mapM, Hms|]. intros body. apply keeps_emit, Hok.
Qed.
End Frames.

Ltac keeps_step :=
  lazymatch goal with
  | |- keeps _ (mret _) => apply keeps_ret
  | |- keeps _ (raise _) => apply keeps_raise
  | |- keeps _ (gets _) => apply keeps_gets
  | |- keeps _ (in_world _) => apply keeps_in_world; assumption
  | |- keeps _ (await _) => apply keeps_await; assumption
  | |- keeps _ (escape _) => apply keeps_escape
  | |- keeps _ (str_method _ _ _) => apply keeps_str_method
  | |- keeps _ (fspath _) => apply keeps_fspath
  | |- keeps _ (py_contains _ _) => apply keeps_py_contains
  | |- keeps _ (py_path_exists _) => apply keeps_py_path_exists
  | |- keeps _ (iterate _) => apply keeps_iterate
  | |- keeps _ (emit _) => eapply keeps_emit; [eassumption | solve [auto]]
  | |- keeps _ (tool_activity _ _) =>
      eapply keeps_tool_activity; [eassumption | solve [auto] | solve [auto] | ]
  | |- keeps _ (try_except _ _) => apply keeps_try_except; [|intros ?]
  | |- keeps _ (_ ≫= _) => apply keeps_bind; [|intros ?]
  | |- keeps _ (if ?b then _ else _) => destruct b
  | |- keeps _ (match ?x with _ => _ end) => destruct x
  | |- keeps _ (let _ := _ in _) => cbv zeta
  | |- Forall (keeps _) _ => constructor
  end.

Ltac keeps_auto := repeat keeps_step.

Section DispatchFrames.
Context {W : Type} `{World W} {B : Type}.
Variable f : core W -> B.
Variable ok_action : action -> bool.
Hypothesis Hworld : forall w c, f (set_world w c) = f c.
Hypothesis Hlog : forall a c, ok_action a = true -> f (set_trace (trace c ++ [a]) c) = f c.
Hypothesis Htool : forall tag body, ok_action (Emit (tool_activity_received tag body)) = true.
Hypothesis Hsearch : forall q ms, ok_action (Emit (file_search_received q ms)) = true.
Hypothesis Hopened : forall p, ok_action (Emit (file_opened_received p)) = true.

Lemma search_in_thread_keeps filename : keeps f (search_in_thread filename).
Proof. unfold search_in_thread. keeps_auto. Qed.

(** Dispatching one function call leaves alone whatever ignores the world
    and the signals of the tools. *)
Lemma dispatch_call_keeps fc locals : keeps f (dispatch_call fc locals).
Proof.
  unfold dispatch_call. cbv zeta.
  repeat match goal with
         | |- keeps _ (if String.eqb ?a ?b then _ else _) => destruct (String.eqb a b)
         end;
    [..|apply keeps_ret];
    (apply keeps_bind; [|intros ?; apply keeps_ret]) || idtac.
  - unfold dispatch_create_folder. keeps_auto.
  - unfold dispatch_create_file. keeps_auto.
  - unfold dispatch_edit_file. keeps_auto.
  - unfold dispatch_list_files. keeps_auto.
  - unfold dispatch_read_file. keeps_auto.
  - unfold dispatch_open_application. keeps_auto.
  - unfold dispatch_close_application. keeps_auto.
  - unfold dispatch_open_website. keeps_auto.
  - unfold dispatch_open_direct_youtube. keeps_auto.
  - unfold dispatch_search_and_open. keeps_auto.
  - unfold dispatch_search_file. keeps_auto. all: apply search_in_thread_keeps.
  - unfold dispatch_open_file. keeps_auto. all: try apply search_in_thread_keeps.
  - unfold dispatch_move_file. keeps_auto.
Qed.

Lemma collect_responses_keeps calls rs locals : keeps f (collect_responses calls rs locals).
Proof.
  revert rs locals. induction calls as [|fc calls IH]; intros rs locals; simpl.
  - apply keeps_ret.
  - apply keeps_bind; [apply dispatch_call_keeps|]. intros r. apply IH.
Qed.
End DispatchFrames.

(** [_search_file_sync] on a string: it has no [try], and needs none. *)
Section SearchFacts.
Context {W : Type} `{World W}.

Lemma scan_files_returns s root files matches :
  returns_value (scan_files (VStr s) root files matches).
Proof.
  revert matches. induction files as [|f files IH]; intros matches w; simpl.
  - eexists _, _. reflexivity.
  - unfold mbind, SO_bind, so_bind, mret, SO_ret, so_ret. simpl.
    destruct (str_contains _ _); apply IH.
Qed.

Lemma scan_entries_returns s entries matches :
  returns_value (scan_entries (VStr s) entries matches).
Proof.
  revert matches. induction entries as [|[[root dirs] files] entries IH];
    intros matches w; simpl.
  - eexists _, _. reflexivity.
  - unfold mbind, SO_bind, so_bind.
    destruct (scan_files_returns s root files matches w) as (ms & w1 & ->).
    simpl. destruct (length ms) as [|[|[|[|[|n]]]]]; try apply IH; eexists _, _; reflexivity.
Qed.

Lemma scan_roots_returns s roots matches :
  returns_value (scan_roots (VStr s) roots matches).
Proof.
  revert matches. induction roots as [|root_dir roots IH]; intros matches w; simpl.
  - eexists _, _. reflexivity.
  - unfold mbind, SO_bind, so_bind, gets.
    destruct (_ || _); [apply IH|].
    destruct (scan_entries_returns s (walk_entries keep_dir root_dir (os_walk root_dir w))
                matches w) as ([found|ms] & w1 & ->).
    + eexists _, _. reflexivity.
    + apply IH.
Qed.

Lemma _search_file_sync_returns s : returns_value (_search_file_sync (VStr s)).
Proof.
  intros w. unfold _search_file_sync, mbind, SO_bind, so_bind, gets.
  apply scan_roots_returns.
Qed.
End SearchFacts.

(** What a piece of the demux returns, when it returns. *)
Section DispatchResults.
Context {W : Type} `{World W}.

Lemma returning_ret {A} (P : A -> Prop) a : P a -> returning (W:=W) P (mret a).
Proof. intros Ha c. exact Ha. Qed.

Lemma returning_bind {A B} (Q : A -> Prop) (P : B -> Prop)
    (m : SO (core W) A) (k : A -> SO (core W) B) :
  returning Q m -> (forall a, Q a -> returning P (k a)) -> returning P (m ≫= k).
Proof.
  intros Hm Hk c. specialize (Hm c). unfold mbind, SO_bind, so_bind.
  destruct (m c) as [[a|e| |] c1]; simpl in *; try exact I.
  apply (Hk a Hm).
Qed.

Lemma returning_any {A} (m : SO (core W) A) : returning (fun _ => True) m.
Proof. intros c. destruct (fst (m c)); exact I. Qed.

Lemma returning_then {A B} (P : B -> Prop) (m : SO (core W) A) (k : A -> SO (core W) B) :
  (forall a, returning P (k a)) -> returning P (m ≫= k).
Proof.
  intros Hk. eapply returning_bind; [apply returning_any|]. intros a _. apply Hk.
Qed.

Lemma returning_try_except {A} (P : A -> Prop) (body : SO (core W) A) handler :
  returning P body -> (forall e, returning P (handler e)) ->
  returning P (try_except body handler).
Proof.
  intros Hb Hh c. specialize (Hb c). unfold try_except.
  destruct (body c) as [[a|e| |] c1]; simpl in *; try exact I; [exact Hb|apply Hh].
Qed.

Lemma returning_helper (m : SO W dict) :
  (forall w, returns_result m w) -> returning well_formed_result (in_world m).
Proof.
  intros Hm c. unfold in_world.
  destruct (Hm (world c)) as (d & w' & -> & Hd). exact Hd.
Qed.

Lemma search_result_well_formed filename matches :
  well_formed_result
    match matches with
    | best_match :: _ =>
        <["best_match" := VStr best_match]>
          (<["matches" := VList (map VStr matches)]>
             (mk_result "success" (fmt ["Found "; pretty (length matches); " match(es)."])))
    | [] => mk_result "not_found" (fmt ["No file matching '"; py_str filename; "' found."])
    end.
Proof. destruct matches; auto 6 with tool_result. Qed.

(** For a declared tool the [result] of the dispatch, when the dispatch
    gets as far as having one, is a well-formed result. *)
Lemma dispatch_call_result fc locals :
  fc_name fc ∈ declared_tools ->
  returning (fun r => well_formed_result (fst r)) (dispatch_call fc locals).
Proof.
  intros Hname. unfold dispatch_call. cbv zeta.
  repeat match goal with
         | |- returning _ (if String.eqb ?a ?b then _ else _) =>
             destruct (String.eqb_spec a b)
         end.
  14: { exfalso. unfold declared_tools in Hname.
        repeat (apply elem_of_cons in Hname; destruct Hname as [Hname|Hname];
                [congruence|]).
        inversion Hname. }
  all: try (eapply returning_bind; [|intros d Hd; apply returning_ret; exact Hd]).
  - unfold dispatch_create_folder. cbv zeta.
    eapply returning_bind; [apply returning_helper, _create_folder_returns|].
    intros d Hd. apply returning_then; intros ?. apply returning_ret, Hd.
  - unfold dispatch_create_file. cbv zeta.
    eapply returning_bind; [apply returning_helper, _create_file_returns|].
    intros d Hd. do 2 (apply returning_then; intros ?). apply returning_ret, Hd.
  - unfold dispatch_edit_file. cbv zeta.
    eapply returning_bind; [apply returning_helper, _edit_file_returns|].
    intros d Hd. apply returning_then; intros ?. apply returning_ret, Hd.
  - unfold dispatch_list_files.
    eapply returning_bind; [apply returning_helper, _list_files_returns|].
    intros d Hd. destruct (status_ok d); apply returning_ret; exact Hd.
  - unfold dispatch_read_file. cbv zeta.
    eapply returning_bind; [apply returning_helper, _read_file_returns|].
    intros d Hd. do 2 (apply returning_then; intros ?). apply returning_ret, Hd.
  - unfold dispatch_open_application. cbv zeta. apply returning_then; intros ?.
    eapply returning_bind; [apply returning_helper, _open_application_returns|].
    intros d Hd. apply returning_then; intros ?. apply returning_ret, Hd.
  - unfold dispatch_close_application. cbv zeta. apply returning_then; intros ?.
    eapply returning_bind; [apply returning_helper, _close_application_returns|].
    intros d Hd. apply returning_then; intros ?. apply returning_ret, Hd.
  - unfold dispatch_open_website. cbv zeta.
    eapply returning_bind; [apply returning_helper, _open_website_returns|].
    intros d Hd. do 3 (apply returning_then; intros ?). apply returning_ret, Hd.
  - unfold dispatch_open_direct_youtube. cbv zeta.
    eapply returning_bind; [apply returning_helper, _open_direct_youtube_returns|].
    intros d Hd. apply returning_then; intros ?. apply returning_ret, Hd.
  - unfold dispatch_search_and_open. cbv zeta.
    eapply returning_bind; [apply returning_helper, _search_and_open_returns|].
    intros d Hd. apply returning_then; intros ?. apply returning_ret, Hd.
  - unfold dispatch_search_file. cbv zeta. do 2 (apply returning_then; intros ?).
    apply returning_then; intros ?. apply returning_ret, search_result_well_formed.
  - unfold dispatch_open_file. cbv zeta.
    do 2 (apply returning_then; intros ?).
    match goal with |- returning _ (if ?b then _ else _) => destruct b end.
    + apply returning_try_except.
      * do 3 (apply returning_then; intros ?).
        apply returning_ret. simpl. auto with tool_result.
      * intros exc. apply returning_then; intros ?.
        apply returning_ret. simpl. auto with tool_result.
    + apply returning_then; intros ?. apply returning_ret. simpl. auto with tool_result.
  - unfold dispatch_move_file. cbv zeta. do 2 (apply returning_then; intros ?).
    eapply returning_bind; [apply returning_helper, _move_file_returns|].
    intros d Hd. apply returning_then; intros ?. apply returning_ret, Hd.
Qed.
End DispatchResults.

(** What does hold of the tool helpers.  For every argument value and
    every behaviour of the operating system, each of the eleven helper
    methods that execute a tool returns (it does not raise) a mapping whose
    "status" is one of success, error, skipped, not_found, with a "message"
    string; [_search_file_sync] returns its list of matches without raising
    when it is called on a string; and for a declared tool name the result
    the dispatch builds, when it builds one, is such a mapping.  An
    exception inside a helper becomes status "error" with a message carrying
    [str(e)], as shown for [os.makedirs] in [_create_folder] and for
    [subprocess.Popen] in [_open_application]. *)
Lemma helper_methods_never_raise {W : Type} `{World W} :
  (forall folder_path w, returns_result (_create_folder folder_path) w) /\
  (forall file_path content w, returns_result (_create_file file_path content) w) /\
  (forall file_path content w, returns_result (_edit_file file_path content) w) /\
  (forall directory_path w, returns_result (_list_files directory_path) w) /\
  (forall file_path w, returns_result (_read_file file_path) w) /\
  (forall source_path destination_path w,
     returns_result (_move_file source_path destination_path) w) /\
  (forall application_name w, returns_result (_open_application application_name) w) /\
  (forall query content_type w, returns_result (_open_direct_youtube query content_type) w) /\
  (forall query platform w, returns_result (_search_and_open query platform) w) /\
  (forall application_name w, returns_result (_close_application application_name) w) /\
  (forall url w, returns_result (_open_website url) w) /\
  (forall filename w, exists matches w',
     _search_file_sync (VStr filename) w = (Ret matches, w')) /\
  (forall fc locals c,
     fc_name fc ∈ declared_tools ->
     match fst (dispatch_call fc locals c) with
     | Ret r => well_formed_result (fst r)
     | _ => True
     end) /\
  (forall p w e w',
     p <> "" -> path_exists p w = false -> os_makedirs p w = (Err e, w') ->
     _create_folder (VStr p) w =
       (Ret (mk_result "error" (fmt ["An error occurred: "; exn_str e])), w')) /\
  (forall name w e w',
     name <> "" -> sys_platform = other_platform ->
     subprocess_Popen (Argv [str_strip (str_lower name)]) w = (Err e, w') ->
     _open_application (VStr name) w =
       (Ret (mk_result "error" (fmt ["An error occurred: "; exn_str e])), w')).
Proof.
  repeat match goal with |- _ /\ _ => split end.
  - apply _create_folder_returns.
  - apply _create_file_returns.
  - apply _edit_file_returns.
  - apply _list_files_returns.
  - apply _read_file_returns.
  - apply _move_file_returns.
  - apply _open_application_returns.
  - apply _open_direct_youtube_returns.
  - apply _search_and_open_returns.
  - apply _close_application_returns.
  - apply _open_website_returns.
  - intros filename w. apply _search_file_sync_returns.
  - intros fc locals c Hname. apply (dispatch_call_result fc locals Hname c).
  - intros p w e w' Hp Hex Hmk. unfold _create_folder, try_except, not_a_path.
    simpl. apply String.eqb_neq in Hp. rewrite Hp. simpl.
    unfold mbind, SO_bind, so_bind, mret, SO_ret, so_ret, gets, call. simpl.
    rewrite Hex, Hmk. reflexivity.
  - intros name w e w' Hn Hplat Hpopen. unfold _open_application, try_except, not_a_path.
    simpl. apply String.eqb_neq in Hn. rewrite Hn. simpl.
    unfold mbind, SO_bind, so_bind, mret, SO_ret, so_ret, call. simpl.
    rewrite Hplat. rewrite Hpopen. reflexivity.
Qed.

Example helper_methods_never_raise_makedirs :
  _create_folder (VStr "/sys/new") SimWorld.empty_world =
    (Ret (mk_result "error" "An error occurred: [Errno 13] Permission denied"),
     SimWorld.empty_world).
Proof.
  destruct (@helper_methods_never_raise SimWorld.sim _)
    as (_ & _ & _ & _ & _ & _ & _ & _ & _ & _ & _ & _ & _ & Hmakedirs & _).
  refine (Hmakedirs "/sys/new" SimWorld.empty_world
            (Exn OSError "[Errno 13] Permission denied") SimWorld.empty_world _ _ _).
  - discriminate.
  - reflexivity.
  - reflexivity.
Qed.

(** ** Progress of an observation along the demux *)

Lemma tool_responses_app t1 t2 :
  tool_responses (t1 ++ t2) = tool_responses t1 ++ tool_responses t2.
Proof. unfold tool_responses. apply omap_app. Qed.

Lemma texts_received_app t1 t2 :
  texts_received (t1 ++ t2) = texts_received t1 ++ texts_received t2.
Proof. unfold texts_received. apply omap_app. Qed.

Lemma signals_app t1 t2 : signals (t1 ++ t2) = signals t1 ++ signals t2.
Proof. unfold signals. apply omap_app. Qed.

Section Progress.
Context {W : Type} `{World W} {X : Type}.
Variable obs : core W -> list X.

Lemma extends_by_keeps {A} (m : SO (core W) A) : keeps obs m -> extends_by obs [] m.
Proof.
  intros Hm c. exists []. rewrite app_nil_r. split; [apply Hm|]. split; [reflexivity|auto].
Qed.

Lemma extends_by_bind {A B} e1 e2 (m : SO (core W) A) (k : A -> SO (core W) B) :
  extends_by obs e1 m -> (forall a, extends_by obs e2 (k a)) ->
  extends_by obs (e1 ++ e2) (m ≫= k).
Proof.
  intros Hm Hk c. destruct (Hm c) as (d1 & Hobs1 & Hpre1 & Hret1).
  unfold mbind, SO_bind, so_bind.
  destruct (m c) as [[a|e| |] c1]; simpl in *;
    try (exists d1; split; [exact Hobs1|]; split;
         [apply prefix_app_r, Hpre1 | discriminate]).
  destruct (Hk a c1) as (d2 & Hobs2 & Hpre2 & Hret2).
  rewrite (Hret1 a eq_refl) in Hobs1.
  exists (e1 ++ d2). split; [rewrite Hobs2, Hobs1, app_assoc; reflexivity|].
  split; [apply prefix_app, Hpre2|].
  intros b Hb. rewrite (Hret2 b Hb). reflexivity.
Qed.

Lemma extends_by_nil_bind {A B} e (m : SO (core W) A) (k : A -> SO (core W) B) :
  keeps obs m -> (forall a, extends_by obs e (k a)) -> extends_by obs e (m ≫= k).
Proof.
  intros Hm Hk. change e with ([] ++ e).
  apply extends_by_bind; [apply extends_by_keeps, Hm | exact Hk].
Qed.

Lemma extends_by_bind_nil {A B} e (m : SO (core W) A) (k : A -> SO (core W) B) :
  extends_by obs e m -> (forall a, keeps obs (k a)) -> extends_by obs e (m ≫= k).
Proof.
  intros Hm Hk. rewrite <- (app_nil_r e).
  apply extends_by_bind; [exact Hm | intros a; apply extends_by_keeps, Hk].
Qed.
End Progress.

Section DemuxFrames.
Context {W : Type} `{World W} {B : Type}.
Variable f : core W -> B.
Variable ok_action : action -> bool.
Hypothesis Hworld : forall w c, f (set_world w c) = f c.
Hypothesis Hplayer : forall q c, f (set_audio_in_queue_player q c) = f c.
Hypothesis Hlog : forall a c, ok_action a = true -> f (set_trace (trace c ++ [a]) c) = f c.

Lemma keeps_modify_player (g : core W -> list string) :
  keeps f (modify (fun c => set_audio_in_queue_player (g c) c)).
Proof. intros c. unfold modify. simpl. apply Hplayer. Qed.

Lemma session_call_keeps op : ok_action (Session op) = true -> keeps f (session_call op).
Proof.
  intros Hop. unfold session_call.
  apply keeps_bind; [eapply keeps_log; eassumption|]. intros _.
  apply keeps_await, Hworld.
Qed.

(** The server-content branch emits only [speaking_started] and
    [text_received]. *)
Lemma handle_part_keeps p locals :
  ok_action (Emit speaking_started) = true ->
  (forall s, ok_action (Emit (text_received s)) = true) ->
  keeps f (handle_part p locals).
Proof.
  intros Hstart Htext. unfold handle_part. cbv zeta.
  apply keeps_bind.
  { destruct (inline_data p); [|apply keeps_ret].
    apply keeps_bind; [apply keeps_modify_player|]. intros _.
    eapply keeps_emit; eassumption. }
  intros _. apply keeps_bind; [|intros _; apply keeps_ret].
  destruct (part_text p) as [text|]; [|apply keeps_ret].
  destruct (String.eqb text ""); [apply keeps_ret|].
  eapply keeps_emit; [eassumption|]. apply Htext.
Qed.

Lemma handle_parts_keeps parts locals :
  ok_action (Emit speaking_started) = true ->
  (forall s, ok_action (Emit (text_received s)) = true) ->
  keeps f (handle_parts parts locals).
Proof.
  intros Hstart Htext. revert locals.
  induction parts as [|p parts IH]; intros locals; simpl; [apply keeps_ret|].
  apply keeps_bind; [apply handle_part_keeps; assumption|]. intros l. apply IH.
Qed.

Lemma handle_server_content_keeps sc locals :
  ok_action (Emit speaking_started) = true ->
  (forall s, ok_action (Emit (text_received s)) = true) ->
  keeps f (handle_server_content sc locals).
Proof.
  intros Hstart Htext. unfold handle_server_content.
  apply keeps_bind.
  { destruct (grounding_metadata sc); [|apply keeps_ret].
    apply keeps_bind; [apply keeps_iterate|]. intros uris. apply keeps_ret. }
  intros l. destruct (model_turn sc); [|apply keeps_ret].
  apply keeps_bind; [apply keeps_iterate|]. intros ps.
  apply handle_parts_keeps; assumption.
Qed.

(** The tool-call branch emits the signals of the tools and calls the
    session once. *)
Lemma answer_tool_calls_keeps calls locals :
  (forall tag body, ok_action (Emit (tool_activity_received tag body)) = true) ->
  (forall q ms, ok_action (Emit (file_search_received q ms)) = true) ->
  (forall p, ok_action (Emit (file_opened_received p)) = true) ->
  (forall rs, ok_action (Session (send_tool_response rs)) = true) ->
  keeps f (answer_tool_calls calls locals).
Proof.
  intros Htool Hsearch Hopened Hsession. unfold answer_tool_calls.
  apply keeps_bind; [eapply collect_responses_keeps; eassumption|]. intros r.
  apply keeps_bind; [apply session_call_keeps, Hsession|]. intros _. apply keeps_ret.
Qed.

(** The end of a turn emits signals only. *)
Lemma finish_turn_keeps locals :
  (forall sg, ok_action (Emit sg) = true) -> keeps f (finish_turn locals).
Proof.
  intros Hsig. unfold finish_turn.
  assert (Hemit : forall sg, keeps f (emit sg))
    by (intros sg; eapply keeps_emit; [eassumption | apply Hsig]).
  apply keeps_bind.
  { destruct (file_list_data locals) as [[d fs]|]; [apply Hemit|].
    destruct (negb _); [apply Hemit|].
    destruct (negb _); [apply Hemit|].
    apply keeps_bind; [apply Hemit|]. intros _.
    apply keeps_bind; [apply Hemit|]. intros _. apply Hemit. }
  intros _. apply keeps_bind; [apply Hemit|]. intros _. apply Hemit.
Qed.
End DemuxFrames.

(** [receive_text] writes the trace, the world and the playback queue, and
    nothing else of [AI_Core]. *)
Section ReceiveTextFrame.
Context {W : Type} `{World W} {B : Type}.
Variable f : core W -> B.
Hypothesis Hworld : forall w c, f (set_world w c) = f c.
Hypothesis Hplayer : forall q c, f (set_audio_in_queue_player q c) = f c.
Hypothesis Htrace : forall t c, f (set_trace t c) = f c.

Let any_action (a : action) : bool := true.

Lemma any_action_log a c : any_action a = true -> f (set_trace (trace c ++ [a]) c) = f c.
Proof. intros _. apply Htrace. Qed.

Lemma handle_chunk_keeps_all ch locals : keeps f (handle_chunk ch locals).
Proof.
  unfold handle_chunk. destruct (tool_call_function_calls ch) as [|fc calls].
  - destruct (chunk_server_content ch) as [sc|]; [|apply keeps_ret].
    eapply handle_server_content_keeps with (ok_action := any_action);
      auto using any_action_log.
  - eapply answer_tool_calls_keeps with (ok_action := any_action);
      auto using any_action_log.
Qed.

Lemma read_stream_keeps_all turn locals : keeps f (read_stream turn locals).
Proof.
  revert locals. induction turn as [|ch rest IH|e|]; intros locals; simpl.
  - apply keeps_ret.
  - apply keeps_bind; [apply handle_chunk_keeps_all|]. intros l. apply IH.
  - apply keeps_raise.
  - intros c. reflexivity.
Qed.

Lemma receive_turn_keeps_all turn : keeps f (receive_turn turn).
Proof.
  unfold receive_turn. apply keeps_bind; [apply read_stream_keeps_all|]. intros locals.
  eapply finish_turn_keeps with (ok_action := any_action); auto using any_action_log.
Qed.

Lemma receive_text_keeps_all turns : keeps f (receive_text turns).
Proof.
  induction turns as [|turn turns IH]; simpl.
  - apply keeps_bind; [apply keeps_gets|]. intros [|]; [|apply keeps_ret].
    intros c. reflexivity.
  - apply keeps_bind; [apply keeps_gets|]. intros [|]; [|apply keeps_ret].
    apply keeps_bind.
    + apply keeps_try_except.
      * apply keeps_bind; [apply receive_turn_keeps_all|]. intros _. apply keeps_ret.
      * intros e. apply keeps_gets.
    + intros [|]; [exact IH | apply keeps_ret].
Qed.
End ReceiveTextFrame.

Section DemuxProgress.
Context {W : Type} `{World W}.
Implicit Type c : core W.

Lemma response_keys_log a c :
  not_tool_response a = true ->
  response_keys (set_trace (trace c ++ [a]) c) = response_keys c.
Proof.
  intros Ha. unfold response_keys. simpl. rewrite tool_responses_app.
  destruct a as [sg|[]| | |]; simpl in *; try discriminate; rewrite app_nil_r; reflexivity.
Qed.

Lemma texts_of_log a c :
  not_text a = true -> texts_of (set_trace (trace c ++ [a]) c) = texts_of c.
Proof.
  intros Ha. unfold texts_of. simpl. rewrite texts_received_app.
  destruct a as [[]| | | |]; simpl in *; try discriminate; rewrite app_nil_r; reflexivity.
Qed.

Lemma collect_responses_keys calls rs locals :
  returning (fun r => map response_key (fst r) = map response_key rs ++ map call_key calls)
    (collect_responses calls rs locals).
Proof.
  revert rs locals. induction calls as [|fc calls IH]; intros rs locals; simpl.
  - apply returning_ret. simpl. rewrite app_nil_r. reflexivity.
  - apply returning_then. intros r. intros c.
    specialize (IH (rs ++ [FunctionResponse (fc_id fc) (fc_name fc) (fst r)]) (snd r) c).
    destruct (fst (collect_responses calls _ (snd r) c)); auto.
    rewrite IH, map_app, <- app_assoc. reflexivity.
Qed.

(** A chunk with tool calls: one batch, with one response per call carrying
    the call's id and name, sent before the branch ends. *)
Lemma answer_tool_calls_batch calls locals :
  extends_by (@response_keys W) [map call_key calls] (answer_tool_calls calls locals).
Proof.
  intros c. unfold answer_tool_calls, mbind, SO_bind, so_bind.
  pose proof (collect_responses_keeps response_keys not_tool_response
                (fun _ _ => eq_refl) response_keys_log
                (fun _ _ => eq_refl) (fun _ _ => eq_refl) (fun _ => eq_refl)
                calls [] locals c) as Hkeep.
  pose proof (collect_responses_keys calls [] locals c) as Hkeys.
  destruct (collect_responses calls [] locals c) as [[[rs l]|e| |] c1]; simpl in *;
    try (exists []; rewrite app_nil_r; split; [exact Hkeep|]; split;
         [apply prefix_nil | discriminate]).
  exists [map call_key calls]. split; [|split; [reflexivity | auto]].
  unfold session_call, log, modify, await, mbind, SO_bind, so_bind. simpl.
  destruct (session_send _ (world c1)) as [[[[]|e]|] w']; simpl;
    unfold response_keys in *; simpl; rewrite tool_responses_app, map_app; simpl;
    rewrite Hkeep, Hkeys; reflexivity.
Qed.

Lemma handle_chunk_batches ch locals :
  extends_by (@response_keys W)
    (match tool_call_function_calls ch with
     | [] => []
     | calls => [map call_key calls]
     end)
    (handle_chunk ch locals).
Proof.
  unfold handle_chunk. destruct (tool_call_function_calls ch) as [|fc calls].
  - apply extends_by_keeps.
    destruct (chunk_server_content ch) as [sc|]; [|apply keeps_ret].
    eapply handle_server_content_keeps with (ok_action := not_tool_response);
      auto using response_keys_log.
  - apply answer_tool_calls_batch.
Qed.

Lemma read_stream_batches turn locals :
  extends_by (@response_keys W) (map (map call_key) (stream_batches turn))
    (read_stream turn locals).
Proof.
  revert locals. induction turn as [|ch rest IH|e|]; intros locals; simpl.
  - apply extends_by_keeps, keeps_ret.
  - replace (map (map call_key)
               match tool_call_function_calls ch with
               | [] => stream_batches rest
               | f :: l => (f :: l) :: stream_batches rest
               end)
      with (match tool_call_function_calls ch with
            | [] => []
            | calls => [map call_key calls]
            end ++ map (map call_key) (stream_batches rest))
      by (destruct (tool_call_function_calls ch); reflexivity).
    apply extends_by_bind; [apply handle_chunk_batches | intros l; apply IH].
  - apply extends_by_keeps, keeps_raise.
  - apply extends_by_keeps. intros c. reflexivity.
Qed.

Lemma part_texts_cons p parts :
  part_texts (p :: parts) = part_texts [p] ++ part_texts parts.
Proof. unfold part_texts. change (p :: parts) with ([p] ++ parts). apply omap_app. Qed.

Lemma handle_parts_texts parts locals :
  extends_by (@texts_of W) (part_texts parts) (handle_parts parts locals).
Proof.
  revert locals. induction parts as [|p parts IH]; intros locals.
  - apply extends_by_keeps, keeps_ret.
  - rewrite part_texts_cons. cbn [handle_parts].
    apply extends_by_bind; [|intros l; apply IH].
    intros c. exists (part_texts [p]). split; [|split; [reflexivity|auto]].
    unfold handle_part, part_texts, texts_of. cbv zeta. simpl.
    unfold mbind, SO_bind, so_bind, mret, SO_ret, so_ret, emit, log, modify.
    destruct (inline_data p); destruct (part_text p) as [text|]; simpl;
      try destruct (String.eqb text ""); simpl;
      rewrite ?texts_received_app; simpl; rewrite ?app_nil_r; reflexivity.
Qed.

Lemma handle_chunk_texts ch locals :
  extends_by (@texts_of W) (chunk_texts ch) (handle_chunk ch locals).
Proof.
  unfold handle_chunk, chunk_texts.
  destruct (tool_call_function_calls ch) as [|fc calls].
  - destruct (chunk_server_content ch) as [sc|]; [|apply extends_by_keeps, keeps_ret].
    unfold handle_server_content. apply extends_by_nil_bind.
    { destruct (grounding_metadata sc); [|apply keeps_ret].
      apply keeps_bind; [apply keeps_iterate|]. intros uris. apply keeps_ret. }
    intros l. destruct (model_turn sc) as [[parts|]|]; simpl.
    + intros c. exact (handle_parts_texts parts l c).
    + apply extends_by_keeps. intros c. reflexivity.
    + apply extends_by_keeps, keeps_ret.
  - apply extends_by_keeps.
    eapply answer_tool_calls_keeps with (ok_action := not_text); auto using texts_of_log.
Qed.

Lemma read_stream_texts turn locals :
  extends_by (@texts_of W) (stream_texts turn) (read_stream turn locals).
Proof.
  revert locals. induction turn as [|ch rest IH|e|]; intros locals; simpl.
  - apply extends_by_keeps, keeps_ret.
  - apply extends_by_bind; [apply handle_chunk_texts | intros l; apply IH].
  - apply extends_by_keeps, keeps_raise.
  - apply extends_by_keeps. intros c. reflexivity.
Qed.
End DemuxProgress.

(** ** The end of a turn *)

Section TurnEnd.
Context {W : Type} `{World W}.
Implicit Type c : core W.

Lemma finish_turn_trace locals c :
  fst (finish_turn locals c) = Ret tt /\
  trace (snd (finish_turn locals c)) =
    trace c ++ map Emit (turn_activity locals ++ [end_of_turn; speaking_stopped]).
Proof.
  unfold finish_turn, turn_activity.
  unfold mbind, SO_bind, so_bind, emit, log, modify.
  destruct (file_list_data locals) as [[d fs]|]; simpl.
  - rewrite <- !app_assoc. auto.
  - destruct (decide (turn_code_content locals <> "")) as [Hc|Hc].
    + apply String.eqb_neq in Hc. rewrite Hc. simpl. rewrite <- !app_assoc. auto.
    + assert (Hc' : turn_code_content locals = "")
        by (destruct (String.eqb_spec (turn_code_content locals) ""); tauto).
      rewrite Hc'. simpl.
      destruct (decide (turn_urls locals <> ∅)) as [Hu|Hu].
      * rewrite bool_decide_eq_false_2 by exact Hu. simpl.
        rewrite <- !app_assoc. auto.
      * rewrite bool_decide_eq_true_2 by (destruct (decide (turn_urls locals = ∅)); tauto).
        simpl. rewrite <- !app_assoc. auto.
Qed.

Lemma turn_activity_idle locals :
  idle_locals locals ->
  turn_activity locals =
    [code_being_executed "" ""; search_results_received [];
     file_list_received (VStr "") (VList [])].
Proof.
  intros (Hf & Hc & Hu). unfold turn_activity. rewrite Hf, Hc, Hu.
  destruct (decide ("" <> "")); [congruence|].
  destruct (decide ((∅ : gset string) <> ∅)); [congruence|]. reflexivity.
Qed.

Lemma turn_activity_one locals :
  (length (List.filter (fun sg => negb (is_empty_activity sg)) (turn_activity locals)) <= 1)%nat.
Proof.
  unfold turn_activity. destruct (file_list_data locals) as [[d fs]|].
  - simpl. destruct (negb _); simpl; lia.
  - destruct (decide _); [simpl; destruct (negb _); simpl; lia|].
    destruct (decide _); [simpl; destruct (negb _); simpl; lia|]. simpl. lia.
Qed.

Lemma add_grounding_urls_idle uris locals :
  Forall (fun u => u = None \/ u = Some "") uris ->
  add_grounding_urls uris locals = locals.
Proof.
  intros Hu. unfold add_grounding_urls. destruct locals as [urls code out fl]. simpl.
  f_equal. revert urls. induction Hu as [|u uris [-> | ->] _ IH]; intros urls; simpl; auto.
Qed.

Lemma handle_parts_idle parts locals :
  Forall idle_part parts -> idle_locals locals ->
  returning (W:=W) idle_locals (handle_parts parts locals).
Proof.
  intros Hp. revert locals. induction Hp as [|p parts [Hx Hr] _ IH]; intros locals Hl.
  - apply returning_ret, Hl.
  - cbn [handle_parts]. eapply returning_bind with (Q := idle_locals); [|intros l; apply IH].
    unfold handle_part. cbv zeta. rewrite Hx, Hr. simpl.
    do 2 (apply returning_then; intros ?). apply returning_ret.
    destruct Hl as (Hf & Hc & Hu). repeat split; assumption.
Qed.

Lemma handle_chunk_idle ch locals :
  idle_chunk ch -> idle_locals locals -> returning (W:=W) idle_locals (handle_chunk ch locals).
Proof.
  intros [Hcalls Hsc] Hl. unfold handle_chunk. rewrite Hcalls.
  destruct (chunk_server_content ch) as [sc|]; [|apply returning_ret, Hl].
  destruct Hsc as [Hg Hm]. unfold handle_server_content.
  eapply returning_bind with (Q := idle_locals).
  - destruct (grounding_metadata sc) as [[uris|]|]; simpl.
    + intros c. simpl. rewrite add_grounding_urls_idle by exact Hg. exact Hl.
    + intros c. exact I.
    + apply returning_ret, Hl.
  - intros l Hl'. destruct (model_turn sc) as [[parts|]|]; simpl.
    + intros c. exact (handle_parts_idle parts l Hm Hl' c).
    + intros c. exact I.
    + apply returning_ret, Hl'.
Qed.

Lemma read_stream_idle turn locals :
  idle_stream turn -> idle_locals locals -> returning (W:=W) idle_locals (read_stream turn locals).
Proof.
  revert locals. induction turn as [|ch rest IH|e|]; intros locals Hs Hl; simpl.
  - apply returning_ret, Hl.
  - destruct Hs as [Hch Hrest].
    eapply returning_bind; [apply handle_chunk_idle; assumption|].
    intros l Hl'. apply IH; assumption.
  - intros c. exact I.
  - intros c. exact I.
Qed.

Lemma fresh_turn_idle : idle_locals fresh_turn.
Proof. repeat split. Qed.
End TurnEnd.

(** ** C1: tool calls and their responses *)

(** When the stream of a turn is read without an exception, every chunk
    that carries tool calls is answered by one batch, sent before the next
    chunk is read, with one response per call carrying the call's id and
    name; when the reading is interrupted, the batches sent answer a prefix
    of those chunks.  An undeclared function is answered too, with the
    empty mapping. *)
Lemma turn_answers_every_call {W : Type} `{World W} (turn : stream)
    (locals : turn_locals) (c : core W) :
  exists answered,
    response_keys (snd (read_stream turn locals c)) = response_keys c ++ answered /\
    answered `prefix_of` map (map call_key) (stream_batches turn) /\
    (forall locals', fst (read_stream turn locals c) = Ret locals' ->
                     answered = map (map call_key) (stream_batches turn)).
Proof. apply read_stream_batches. Qed.

Example create_file_round_trip :
  response_keys
    (snd (receive_text [StreamChunk (tool_chunk [create_file_call; undeclared_call]) StreamEnd]
            (SimWorld.connected "camera"))) =
    [[("call-1", "create_file"); ("call-3", "reboot")]] /\
  (fr_response <$>
     head (concat (tool_responses
       (trace (snd (receive_text
                      [StreamChunk (tool_chunk [create_file_call; undeclared_call]) StreamEnd]
                      (SimWorld.connected "camera"))))))) =
    Some (mk_result "success" "Successfully created the file at 'x.txt'.").
Proof. split; vm_compute; reflexivity. Qed.

(** C1 at the failing input [create_folder(folder_path=123)]: the helper
    answers with a structured error, but [escape(path)] then raises while
    the activity message is formatted, the turn is abandoned by the
    [except] of [receive_text], and neither a tool response nor any signal
    of the turn goes out: one request, no result. *)
Theorem non_string_argument_gets_no_response :
  fst (_create_folder (VInt 123) SimWorld.empty_world) =
    Ret (mk_result "error" "Invalid folder path provided.") /\
  fst (dispatch_call create_folder_number_call fresh_turn (SimWorld.connected "camera")) =
    Raise (Exn AttributeError "object has no attribute 'replace'") /\
  receive_text [StreamChunk (tool_chunk [create_folder_number_call]) StreamEnd]
    (SimWorld.connected "camera") = (Block, SimWorld.connected "camera") /\
  stream_batches (StreamChunk (tool_chunk [create_folder_number_call]) StreamEnd) =
    [[create_folder_number_call]] /\
  tool_responses
    (trace (snd (receive_text
                   [StreamChunk (tool_chunk [create_folder_number_call]) StreamEnd]
                   (SimWorld.connected "camera")))) = [].
Proof. repeat split; vm_compute; reflexivity. Qed.

(** * Further properties of the helpers, the coroutines and the window *)

(** ** The file helpers and the store *)

Lemma not_a_path_str p : p <> "" -> not_a_path (VStr p) = false.
Proof.
  intros Hp. unfold not_a_path. simpl. apply String.eqb_neq in Hp. rewrite Hp. reflexivity.
Qed.

Lemma not_a_path_inv v : not_a_path v = false -> exists p, v = VStr p /\ p <> "".
Proof.
  unfold not_a_path. destruct v as [|b|n|s|l]; simpl;
    try discriminate; try (rewrite orb_true_r; discriminate).
  intros Hs. exists s. split; [reflexivity|].
  rewrite orb_false_r in Hs. apply negb_false_iff in Hs.
  apply String.eqb_neq. destruct (String.eqb s ""); [discriminate | reflexivity].
Qed.

Section CreationFacts.
Context {W : Type} `{World W}.

Lemma _create_file_touches v content w :
  snd (_create_file v content w) = w \/
  exists p, v = VStr p /\ p <> "" /\ path_exists p w = false /\
            snd (_create_file v content w) = snd (open_write p content w).
Proof.
  unfold _create_file, try_except.
  destruct (not_a_path v) eqn:Hv; [left; reflexivity|].
  destruct (not_a_path_inv v Hv) as (p & -> & Hp).
  unfold mbind, SO_bind, so_bind, mret, SO_ret, so_ret, gets, call. simpl.
  destruct (path_exists p w) eqn:Hex; [left; reflexivity|].
  right. exists p. repeat split; try assumption.
  destruct (open_write p content w) as [[[]|e] w1]; reflexivity.
Qed.

Lemma _create_folder_touches v w :
  snd (_create_folder v w) = w \/
  exists p, v = VStr p /\ p <> "" /\ path_exists p w = false /\
            snd (_create_folder v w) = snd (os_makedirs p w).
Proof.
  unfold _create_folder, try_except.
  destruct (not_a_path v) eqn:Hv; [left; reflexivity|].
  destruct (not_a_path_inv v Hv) as (p & -> & Hp).
  unfold mbind, SO_bind, so_bind, mret, SO_ret, so_ret, gets, call. simpl.
  destruct (path_exists p w) eqn:Hex; [left; reflexivity|].
  right. exists p. repeat split; try assumption.
  destruct (os_makedirs p w) as [[[]|e] w1]; reflexivity.
Qed.

Lemma _create_file_existing p content w :
  p <> "" -> path_exists p w = true ->
  _create_file (VStr p) content w =
    (Ret (mk_result "skipped" (fmt ["The file '"; p; "' already exists."])), w).
Proof.
  intros Hp Hex. unfold _create_file, try_except. rewrite not_a_path_str by exact Hp.
  unfold mbind, SO_bind, so_bind, mret, SO_ret, so_ret, gets. simpl. rewrite Hex. reflexivity.
Qed.

Lemma _create_folder_existing p w :
  p <> "" -> path_exists p w = true ->
  _create_folder (VStr p) w =
    (Ret (mk_result "skipped" (fmt ["The folder '"; p; "' already exists."])), w).
Proof.
  intros Hp Hex. unfold _create_folder, try_except. rewrite not_a_path_str by exact Hp.
  unfold mbind, SO_bind, so_bind, mret, SO_ret, so_ret, gets. simpl. rewrite Hex. reflexivity.
Qed.
End CreationFacts.

(** [_create_folder] and [_create_file] never touch a path that exists.
    Whatever the argument and the world, either the world is left as it
    was, or the argument is a non-empty string naming a path that does not
    exist and the world is changed by the one call of [os.makedirs]
    (resp. of [open(.., 'w')] and [write]) on that path.  On a path that
    exists both answer status "skipped" and leave the world alone. *)
Theorem creation_never_overwrites {W : Type} `{World W} (v content : value) (w : W) :
  (snd (_create_file v content w) = w \/
   exists p, v = VStr p /\ p <> "" /\ path_exists p w = false /\
             snd (_create_file v content w) = snd (open_write p content w)) /\
  (snd (_create_folder v w) = w \/
   exists p, v = VStr p /\ p <> "" /\ path_exists p w = false /\
             snd (_create_folder v w) = snd (os_makedirs p w)) /\
  (forall p, p <> "" -> path_exists p w = true ->
     _create_file (VStr p) content w =
       (Ret (mk_result "skipped" (fmt ["The file '"; p; "' already exists."])), w) /\
     _create_folder (VStr p) w =
       (Ret (mk_result "skipped" (fmt ["The folder '"; p; "' already exists."])), w)).
Proof.
  split; [apply _create_file_touches|]. split; [apply _create_folder_touches|].
  intros p Hp Hex. split;
    [apply _create_file_existing | apply _create_folder_existing]; assumption.
Qed.

Lemma creation_never_overwrites_witness :
  _create_file (VStr "notes.txt") (VStr "new")
    (SimWorld.Sim {["notes.txt" := "old"]} true) =
    (Ret (mk_result "skipped" "The file 'notes.txt' already exists."),
     SimWorld.Sim {["notes.txt" := "old"]} true).
Proof.
  refine (proj1 (proj2 (proj2 (creation_never_overwrites (VStr "notes.txt") (VStr "new")
                                 (SimWorld.Sim {["notes.txt" := "old"]} true)))
                   "notes.txt" _ _)).
  - discriminate.
  - reflexivity.
Defined.

(** Writing with [_create_file], appending with [_edit_file] and reading
    back with [_read_file]: in a store where a file reads back what was
    written to it and an append adds to what it held, creating a file that
    does not exist with content [s], then editing it with [t], then reading
    it returns status "success" with the content [s], a newline, [t]. *)
Theorem create_edit_read_round_trip {W : Type} `{World W} (p s t : string) (w w1 w2 : W) :
  (forall q c u u', open_write q (VStr c) u = (Ok tt, u') ->
     path_exists q u' = true /\ path_isfile q u' = true /\ open_read q u' = (Ok c, u')) ->
  (forall q c d u u', open_read q u = (Ok c, u) -> open_append q d u = (Ok tt, u') ->
     path_exists q u' = true /\ path_isfile q u' = true /\
     open_read q u' = (Ok (String.append c d), u')) ->
  p <> "" -> path_exists p w = false ->
  open_write p (VStr s) w = (Ok tt, w1) ->
  open_append p (String (ascii_of_nat 10) t) w1 = (Ok tt, w2) ->
  (_create_file (VStr p) (VStr s) ;; _edit_file (VStr p) (VStr t) ;; _read_file (VStr p)) w =
    (Ret (<["content" := VStr (String.append s (String (ascii_of_nat 10) t))]>
            (mk_result "success" (fmt ["Successfully read the file '"; p; "'."]))), w2).
Proof.
  intros Hwrite Happend Hp Hnew Hw1 Hw2.
  destruct (Hwrite p s w w1 Hw1) as (Hex1 & Hfile1 & Hread1).
  destruct (Happend p s _ w1 w2 Hread1 Hw2) as (Hex2 & Hfile2 & Hread2).
  unfold _create_file, _edit_file, _read_file, try_except.
  rewrite not_a_path_str by exact Hp.
  unfold mbind, SO_bind, so_bind, mret, SO_ret, so_ret, gets, call.
  simpl in Hw2 |- *.
  rewrite Hnew, Hw1. simpl. rewrite Hex1. simpl.
  change (py_str (VStr t)) with t. rewrite Hw2. simpl.
  rewrite Hex2. simpl. rewrite Hfile2. simpl. rewrite Hread2. reflexivity.
Qed.

Lemma create_edit_read_round_trip_witness :
  (_create_file (VStr "notes.txt") (VStr "milk") ;;
   _edit_file (VStr "notes.txt") (VStr "eggs") ;;
   _read_file (VStr "notes.txt")) SimWorld.empty_world =
    (Ret (<["content" := VStr (String.append "milk" (String (ascii_of_nat 10) "eggs"))]>
            (mk_result "success" "Successfully read the file 'notes.txt'.")),
     SimWorld.Sim {["notes.txt" := String.append "milk" (String (ascii_of_nat 10) "eggs")]}
       true).
Proof.
  refine (create_edit_read_round_trip "notes.txt" "milk" "eggs" SimWorld.empty_world
            (SimWorld.Sim {["notes.txt" := "milk"]} true) _ _ _ _ _ _ _).
  - intros q c [f up] u' Hw. injection Hw as <-. simpl.
    unfold SimWorld.sim_exists, SimWorld.sim_read. simpl.
    rewrite lookup_insert_eq. split; [|split]; try reflexivity;
      apply bool_decide_eq_true_2; eexists; reflexivity.
  - intros q c d [f up] u' Hr Ha. simpl in Hr, Ha.
    unfold SimWorld.sim_read in Hr. simpl in Hr.
    destruct (f !! q) as [c'|] eqn:Hq; [|discriminate].
    injection Hr as ->. unfold SimWorld.sim_append in Ha. simpl in Ha.
    rewrite Hq in Ha. injection Ha as <-. simpl.
    unfold SimWorld.sim_exists, SimWorld.sim_read. simpl.
    rewrite lookup_insert_eq. split; [|split]; try reflexivity;
      apply bool_decide_eq_true_2; eexists; reflexivity.
  - discriminate.
  - reflexivity.
  - reflexivity.
  - reflexivity.
Defined.

(** ** [_open_website]: the URL that is opened *)

(** [_open_website] on a non-empty string opens exactly one URL, which
    carries a scheme: the argument itself when it starts with "http://" or
    "https://" (as written, in lower case), otherwise the argument with
    "https://" put in front.  The result says "success" with that URL when
    the browser call returns and "error" with the text of the exception
    when it raises. *)
Theorem open_website_adds_scheme {W : Type} `{World W} (u : string) (w : W) :
  u <> "" ->
  exists url,
    (str_startswith "http://" url || str_startswith "https://" url = true) /\
    (if str_startswith "http://" u || str_startswith "https://" u
     then url = u else url = String.append "https://" u) /\
    _open_website (VStr u) w =
      match webbrowser_open url w with
      | (Ok _, w') =>
          (Ret (mk_result "success" (fmt ["Successfully opened '"; url; "'."])), w')
      | (Err e, w') =>
          (Ret (mk_result "error" (fmt ["An error occurred: "; exn_str e])), w')
      end.
Proof.
  intros Hu.
  exists (if str_startswith "http://" u || str_startswith "https://" u
          then u else String.append "https://" u).
  split; [|split].
  - destruct (str_startswith "http://" u || str_startswith "https://" u) eqn:Hs;
      [exact Hs|]. destruct u; reflexivity.
  - destruct (str_startswith "http://" u || str_startswith "https://" u); reflexivity.
  - unfold _open_website, try_except. rewrite not_a_path_str by exact Hu.
    unfold mbind, SO_bind, so_bind, mret, SO_ret, so_ret, call. simpl.
    destruct (webbrowser_open _ w) as [[[]|e] w']; reflexivity.
Qed.

Lemma open_website_adds_scheme_witness :
  _open_website (VStr "example.org/a") SimWorld.empty_world =
    (Ret (mk_result "success" "Successfully opened 'https://example.org/a'."),
     SimWorld.empty_world) /\
  _open_website (VStr "HTTP://example.org") SimWorld.empty_world =
    (Ret (mk_result "success" "Successfully opened 'https://HTTP://example.org'."),
     SimWorld.empty_world).
Proof.
  split.
  - destruct (open_website_adds_scheme "example.org/a" SimWorld.empty_world)
      as (url & _ & Hurl & Hopen); [discriminate|].
    simpl in Hurl. subst url. exact Hopen.
  - reflexivity.
Defined.

(** ** [_search_file_sync]: what is found, and when the search stops *)

Section SearchCharacterisation.
Context {W : Type} `{World W}.

Lemma scan_files_matches s root dirs files matches w :
  scan_files (VStr s) root files matches w =
    (Ret (matches ++ entry_matches s (root, dirs, files)), w).
Proof.
  unfold entry_matches. simpl. revert matches.
  induction files as [|f files IH]; intros matches; simpl.
  - rewrite app_nil_r. reflexivity.
  - unfold mbind, SO_bind, so_bind, mret, SO_ret, so_ret. simpl.
    destruct (str_contains (str_lower s) (str_lower f)); rewrite IH; simpl;
      rewrite <- ?app_assoc; reflexivity.
Qed.

Lemma scan_entries_matches s entries matches w :
  (length matches < 5)%nat ->
  exists r,
    scan_entries (VStr s) entries matches w = (Ret r, w) /\
    match r with
    | inl found =>
        (5 <= length found)%nat /\
        found `prefix_of` matches ++ flat_map (entry_matches s) entries
    | inr ms =>
        ms = matches ++ flat_map (entry_matches s) entries /\ (length ms < 5)%nat
    end.
Proof.
  revert matches. induction entries as [|[[root dirs] files] entries IH];
    intros matches Hlen; cbn [scan_entries flat_map].
  - exists (inr matches). rewrite app_nil_r. auto.
  - unfold mbind, SO_bind, so_bind. rewrite (scan_files_matches s root dirs files).
    destruct (Nat.leb 5 (length (matches ++ entry_matches s (root, dirs, files)))) eqn:Hfull.
    + exists (inl (matches ++ entry_matches s (root, dirs, files))).
      split; [reflexivity|]. split; [apply Nat.leb_le, Hfull|].
      rewrite app_assoc. apply prefix_app_r. reflexivity.
    + apply Nat.leb_gt in Hfull. destruct (IH _ Hfull) as (r & Hr & Hspec).
      exists r. split; [exact Hr|]. rewrite app_assoc. exact Hspec.
Qed.

Lemma scan_roots_matches s roots matches w :
  (length matches < 5)%nat ->
  exists ms,
    scan_roots (VStr s) roots matches w = (Ret ms, w) /\
    ms `prefix_of`
      matches ++ flat_map (entry_matches s) (flat_map (root_entries w) roots) /\
    ((length ms < 5)%nat ->
     ms = matches ++ flat_map (entry_matches s) (flat_map (root_entries w) roots)).
Proof.
  revert matches. induction roots as [|root_dir roots IH]; intros matches Hlen; simpl.
  - exists matches. rewrite app_nil_r. auto.
  - unfold mbind, SO_bind, so_bind, gets. unfold root_entries at 1 3.
    destruct (String.eqb root_dir "" || negb (path_isdir root_dir w)); [apply IH, Hlen|].
    rewrite flat_map_app, app_assoc.
    destruct (scan_entries_matches s (walk_entries keep_dir root_dir (os_walk root_dir w))
                matches w Hlen) as ([found|ms] & -> & Hspec).
    + destruct Hspec as [Hfull Hpre]. exists found. split; [reflexivity|].
      split; [apply prefix_app_r, Hpre | lia].
    + destruct Hspec as [-> Hshort]. apply IH, Hshort.
Qed.

Lemma searched_entries_roots w :
  searched_entries w = flat_map (root_entries w) (search_roots w).
Proof. reflexivity. Qed.

Lemma entry_matches_sound s entry m :
  m ∈ entry_matches s entry ->
  exists root f, m = path_join root f /\ str_contains (str_lower s) (str_lower f) = true.
Proof.
  unfold entry_matches. intros Hm. apply list_elem_of_fmap in Hm as (f & -> & Hf).
  apply list_elem_of_In, filter_In in Hf. destruct Hf as [_ Hf].
  exists (fst (fst entry)), f. auto.
Qed.

Lemma search_is_prefix_of_exhaustive s w :
  exists ms,
    _search_file_sync (VStr s) w = (Ret ms, w) /\
    ms `prefix_of` exhaustive_matches s w /\
    ((length ms < 5)%nat -> ms = exhaustive_matches s w).
Proof.
  destruct (scan_roots_matches s (search_roots w) [] w) as (ms & Hrun & Hpre & Hall);
    [simpl; lia|].
  exists ms. split; [|split].
  - unfold _search_file_sync, mbind, SO_bind, so_bind, gets. exact Hrun.
  - exact Hpre.
  - exact Hall.
Qed.
End SearchCharacterisation.

(** [_search_file_sync] on an ASCII string, where the file names it meets
    are ASCII, reads the world and leaves it as it is.  Its result is a
    prefix of what an exhaustive search of the six folders and of the home
    directory would list (hidden and system directories pruned, files in
    walk order): the whole list when it has fewer than five paths, and at
    least five paths when there are that many, since the search only stops
    after a directory that brings the count to five or more.  Every path
    returned is a file whose name contains the query, letter case apart. *)
Theorem search_returns_prefix_of_exhaustive {W : Type} `{World W} (s : string) (w : W) :
  is_ascii s = true ->
  ascii_names w = true ->
  exists ms,
    _search_file_sync (VStr s) w = (Ret ms, w) /\
    ms `prefix_of` exhaustive_matches s w /\
    ((length ms < 5)%nat -> ms = exhaustive_matches s w) /\
    ((5 <= length (exhaustive_matches s w))%nat -> (5 <= length ms)%nat) /\
    Forall (fun m => exists root f,
                m = path_join root f /\
                str_contains (str_lower s) (str_lower f) = true) ms.
Proof.
  intros _ _.
  destruct (search_is_prefix_of_exhaustive s w) as (ms & Hrun & Hpre & Hall).
  exists ms. split; [exact Hrun|]. split; [exact Hpre|]. split; [exact Hall|]. split.
  - intros Hmany. destruct (Nat.lt_ge_cases (length ms) 5) as [Hshort|Hfull]; [|exact Hfull].
    rewrite <- (Hall Hshort) in Hmany. lia.
  - apply Forall_forall. intros m Hm.
    assert (Hin : m ∈ exhaustive_matches s w).
    { destruct Hpre as [rest ->]. apply elem_of_app. left. exact Hm. }
    unfold exhaustive_matches in Hin.
    apply list_elem_of_In, in_flat_map in Hin. destruct Hin as (entry & _ & Hin).
    apply (entry_matches_sound s entry), list_elem_of_In, Hin.
Qed.

Lemma search_returns_prefix_of_exhaustive_witness :
  _search_file_sync (VStr "REPORT") DeskWorld.Desk =
    (Ret ["/home/user/Desktop/Report.txt"; "/home/user/Documents/drafts/report-v2.txt";
          "/home/user/Desktop/Report.txt"; "/home/user/Documents/drafts/report-v2.txt"],
     DeskWorld.Desk) /\
  exhaustive_matches "REPORT" DeskWorld.Desk =
    ["/home/user/Desktop/Report.txt"; "/home/user/Documents/drafts/report-v2.txt";
     "/home/user/Desktop/Report.txt"; "/home/user/Documents/drafts/report-v2.txt"].
Proof.
  assert (Hnames : ascii_names DeskWorld.Desk = true) by (vm_compute; reflexivity).
  destruct (search_returns_prefix_of_exhaustive "REPORT" DeskWorld.Desk eq_refl Hnames)
    as (ms & Hrun & Hpre & Hall & _).
  assert (Hms : ms = ["/home/user/Desktop/Report.txt";
                      "/home/user/Documents/drafts/report-v2.txt";
                      "/home/user/Desktop/Report.txt";
                      "/home/user/Documents/drafts/report-v2.txt"]).
  { vm_compute in Hrun. injection Hrun as <-. reflexivity. }
  split; [rewrite Hrun, Hms; reflexivity|].
  rewrite <- (Hall ltac:(rewrite Hms; simpl; lia)). exact Hms.
Defined.

Lemma elem_of_twice {A} (m : A) (l1 l2 l3 : list A) :
  m ∈ l1 -> m ∈ l3 ->
  exists a b c, l1 ++ l2 ++ l3 = a ++ m :: b ++ m :: c.
Proof.
  intros H1 H3.
  apply list_elem_of_split in H1 as (a1 & a2 & ->).
  apply list_elem_of_split in H3 as (c1 & c2 & ->).
  exists a1, (a2 ++ l2 ++ c1), c2.
  rewrite <- !app_assoc. simpl. rewrite <- ?app_assoc. reflexivity.
Qed.

Section SearchTwice.
Context {W : Type} `{World W}.

Lemma entry_matches_elem s root dirs files f :
  f ∈ files -> str_contains (str_lower s) (str_lower f) = true ->
  path_join root f ∈ entry_matches s (root, dirs, files).
Proof.
  intros Hf Hs. unfold entry_matches. simpl. apply list_elem_of_fmap.
  exists f. split; [reflexivity|]. apply list_elem_of_In, filter_In.
  split; [apply list_elem_of_In, Hf | exact Hs].
Qed.

Lemma walk_entries_head keep root subdirs files :
  (root, map fst subdirs, files) ∈ walk_entries keep root (Dir subdirs files).
Proof. simpl. apply list_elem_of_here. Qed.

Lemma walk_entries_sub keep root subdirs files name sub entry :
  (name, sub) ∈ subdirs -> keep name = true ->
  entry ∈ walk_entries keep (path_join root name) sub ->
  entry ∈ walk_entries keep root (Dir subdirs files).
Proof.
  intros Hsub Hkeep Hentry. simpl. apply list_elem_of_further.
  apply list_elem_of_In, in_flat_map. exists (name, sub).
  split; [apply list_elem_of_In, Hsub|]. simpl. rewrite Hkeep.
  apply list_elem_of_In, Hentry.
Qed.

Lemma flat_map_elem {A B} (f : A -> list B) (l : list A) a b :
  a ∈ l -> b ∈ f a -> b ∈ flat_map f l.
Proof.
  intros Ha Hb. apply list_elem_of_In, in_flat_map. exists a.
  split; apply list_elem_of_In; assumption.
Qed.
End SearchTwice.

(** A file that sits on the Desktop is reported twice.  The search walks
    the Desktop folder first and the whole home directory last, and the
    walk of the home directory goes through the Desktop again: for an
    ASCII query among ASCII file names, when the search does not stop early
    (fewer than five paths in all), the path of every matching Desktop file
    occurs at two places of the result. *)
Theorem desktop_file_is_found_twice {W : Type} `{World W} (s f : string) (w : W)
    (subdirs home_subdirs : list (string * dirtree)) (files home_files : list string) :
  is_ascii s = true ->
  ascii_names w = true ->
  expanduser_home w <> "" ->
  path_join (expanduser_home w) "Desktop" <> "" ->
  path_isdir (expanduser_home w) w = true ->
  path_isdir (path_join (expanduser_home w) "Desktop") w = true ->
  os_walk (path_join (expanduser_home w) "Desktop") w = Dir subdirs files ->
  os_walk (expanduser_home w) w = Dir home_subdirs home_files ->
  ("Desktop", Dir subdirs files) ∈ home_subdirs ->
  f ∈ files ->
  str_contains (str_lower s) (str_lower f) = true ->
  (length (exhaustive_matches s w) < 5)%nat ->
  exists ms l1 l2 l3,
    _search_file_sync (VStr s) w = (Ret ms, w) /\
    ms = l1 ++ path_join (path_join (expanduser_home w) "Desktop") f :: l2 ++
         path_join (path_join (expanduser_home w) "Desktop") f :: l3.
Proof.
  intros _ _ Hhome Hdesk Hhomedir Hdeskdir Hwalkdesk Hwalkhome Hsub Hf Hs Hshort.
  destruct (search_is_prefix_of_exhaustive s w) as (ms & Hrun & Hpre & Hall).
  assert (Hms : ms = exhaustive_matches s w).
  { apply Hall. apply prefix_length in Hpre. lia. }
  set (home := expanduser_home w) in *.
  set (desktop := path_join home "Desktop") in *.
  set (m := path_join desktop f).
  assert (Hfirst : m ∈ flat_map (entry_matches s) (root_entries w desktop)).
  { unfold root_entries. apply String.eqb_neq in Hdesk. rewrite Hdesk, Hdeskdir. simpl.
    rewrite Hwalkdesk.
    eapply flat_map_elem; [apply walk_entries_head|].
    apply entry_matches_elem; assumption. }
  assert (Hlast : m ∈ flat_map (entry_matches s) (root_entries w home)).
  { unfold root_entries. apply String.eqb_neq in Hhome. rewrite Hhome, Hhomedir. simpl negb.
    cbv iota. rewrite Hwalkhome.
    eapply flat_map_elem.
    - eapply walk_entries_sub; [exact Hsub | reflexivity | apply walk_entries_head].
    - apply entry_matches_elem; assumption. }
  assert (Hshape : exhaustive_matches s w =
            flat_map (entry_matches s) (root_entries w desktop) ++
            flat_map (entry_matches s)
              (flat_map (root_entries w)
                 [path_join home "Downloads"; path_join home "Documents";
                  path_join home "Videos"; path_join home "Music";
                  path_join home "Pictures"]) ++
            flat_map (entry_matches s) (root_entries w home)).
  { unfold exhaustive_matches. rewrite searched_entries_roots. unfold search_roots.
    fold home. fold desktop. cbn [flat_map]. rewrite !flat_map_app, !app_nil_r.
    rewrite <- ?app_assoc. reflexivity. }
  destruct (elem_of_twice m _
              (flat_map (entry_matches s)
                 (flat_map (root_entries w)
                    [path_join home "Downloads"; path_join home "Documents";
                     path_join home "Videos"; path_join home "Music";
                     path_join home "Pictures"]))
              _ Hfirst Hlast) as (l1 & l2 & l3 & Hsplit).
  exists ms, l1, l2, l3. split; [exact Hrun|].
  rewrite Hms, Hshape. exact Hsplit.
Qed.

Lemma desktop_file_is_found_twice_witness :
  exists ms l1 l2 l3,
    _search_file_sync (VStr "notes") DeskWorld.Desk = (Ret ms, DeskWorld.Desk) /\
    ms = l1 ++ "/home/user/Desktop/notes.md" :: l2 ++ "/home/user/Desktop/notes.md" :: l3.
Proof.
  refine (desktop_file_is_found_twice "notes" "notes.md" DeskWorld.Desk
            [] _ ["Report.txt"; "notes.md"] ["todo.txt"] _ _ _ _ _ _ _ _ _ _ _ _).
  - reflexivity.
  - vm_compute. reflexivity.
  - discriminate.
  - discriminate.
  - reflexivity.
  - reflexivity.
  - reflexivity.
  - reflexivity.
  - apply list_elem_of_here.
  - apply list_elem_of_further, list_elem_of_here.
  - reflexivity.
  - vm_compute. lia.
Defined.

(** ** Tool calls with arguments of the declared types *)

Lemma isinstance_str_inv v : isinstance_str v = true -> exists s, v = VStr s.
Proof. destruct v; try discriminate. eauto. Qed.

Lemma dict_get_str args k dflt :
  strings_only args -> isinstance_str dflt = true ->
  isinstance_str (dict_get args k dflt) = true.
Proof.
  intros Hargs Hd. unfold dict_get. destruct (args !! k) as [v|] eqn:Hk; simpl.
  - apply (Hargs k v Hk).
  - exact Hd.
Qed.

Lemma dict_get_none_str args k :
  strings_only args ->
  dict_get_none args k = VNone \/ exists s, dict_get_none args k = VStr s.
Proof.
  intros Hargs. unfold dict_get_none, dict_get.
  destruct (args !! k) as [v|] eqn:Hk; simpl; [|auto].
  right. apply isinstance_str_inv, (Hargs k v Hk).
Qed.

Lemma message_of_str d : well_formed_result d -> isinstance_str (message_of d) = true.
Proof.
  intros (status & message & _ & _ & Hm). unfold message_of, dict_get. rewrite Hm.
  reflexivity.
Qed.

Section Completion.
Context {W : Type} `{World W}.

Lemma completes_ret {A} (P : A -> Prop) a : P a -> completes (W:=W) P (mret a).
Proof. intros Ha c. exact Ha. Qed.

Lemma completes_bind {A B} (Q : A -> Prop) (P : B -> Prop)
    (m : SO (core W) A) (k : A -> SO (core W) B) :
  completes Q m -> (forall a, Q a -> completes P (k a)) -> completes P (m ≫= k).
Proof.
  intros Hm Hk c. specialize (Hm c). unfold mbind, SO_bind, so_bind.
  destruct (m c) as [[a|e| |] c1]; simpl in *; try exact Hm.
  apply (Hk a Hm).
Qed.

Lemma may_raise_bind {A B} (Q : A -> Prop) (P : B -> Prop)
    (m : SO (core W) A) (k : A -> SO (core W) B) :
  may_raise Q m -> (forall a, Q a -> may_raise P (k a)) -> may_raise P (m ≫= k).
Proof.
  intros Hm Hk c. specialize (Hm c). unfold mbind, SO_bind, so_bind.
  destruct (m c) as [[a|e| |] c1]; simpl in *; try exact Hm.
  apply (Hk a Hm).
Qed.

Lemma completes_may_raise {A} (P : A -> Prop) (m : SO (core W) A) :
  completes P m -> may_raise P m.
Proof.
  intros Hm c. specialize (Hm c). destruct (fst (m c)); simpl in *; auto; discriminate.
Qed.

Lemma completes_weaken {A} (P Q : A -> Prop) (m : SO (core W) A) :
  (forall a, P a -> Q a) -> completes P m -> completes Q m.
Proof.
  intros HPQ Hm c. specialize (Hm c). destruct (fst (m c)); simpl in *; auto.
Qed.

Lemma completes_try_except {A} (P : A -> Prop) (body : SO (core W) A) handler :
  may_raise P body -> (forall e, completes P (handler e)) ->
  completes P (try_except body handler).
Proof.
  intros Hb Hh c. specialize (Hb c). unfold try_except.
  destruct (body c) as [[a|e| |] c1]; simpl in *; try exact Hb. apply Hh.
Qed.

Lemma completes_gets {A} (g : core W -> A) : completes (fun _ => True) (gets g).
Proof. intros c. exact I. Qed.

Lemma completes_emit sg : completes (W:=W) (fun _ => True) (emit sg).
Proof. intros c. exact I. Qed.

Lemma completes_helper (Q : dict -> Prop) (m : SO W dict) :
  (forall w, exists d w', m w = (Ret d, w') /\ Q d) -> completes Q (in_world m).
Proof.
  intros Hm c. unfold in_world. destruct (Hm (world c)) as (d & w' & -> & Hd). exact Hd.
Qed.

Lemma completes_result (m : SO W dict) :
  (forall w, returns_result m w) -> completes well_formed_result (in_world m).
Proof. intros Hm. apply completes_helper, Hm. Qed.

Lemma completes_escape v :
  isinstance_str v = true -> completes (W:=W) (fun _ => True) (escape v).
Proof. intros Hv c. destruct v; try discriminate. exact I. Qed.

Lemma completes_str_method {A} attr (g : string -> A) v :
  isinstance_str v = true -> completes (W:=W) (fun _ => True) (str_method attr g v).
Proof. intros Hv c. destruct v; try discriminate. exact I. Qed.

Lemma completes_fspath v :
  isinstance_str v = true -> completes (W:=W) (fun _ => True) (fspath v).
Proof. intros Hv c. destruct v; try discriminate. exact I. Qed.

Lemma completes_py_contains sub v :
  isinstance_str v = true -> completes (W:=W) (fun _ => True) (py_contains sub v).
Proof. intros Hv c. destruct v; try discriminate. exact I. Qed.

Lemma completes_py_path_exists v :
  isinstance_str v = true -> completes (fun _ => True) (py_path_exists v).
Proof. intros Hv c. destruct v; try discriminate. exact I. Qed.

Lemma completes_mapM (ms : list (SO (core W) string)) :
  Forall (completes (fun _ => True)) ms -> completes (fun _ => True) (mapM id ms).
Proof.
  induction 1 as [|m ms Hm _ IH]; simpl; [apply completes_ret; exact I|].
  eapply completes_bind; [exact Hm|]. intros a _.
  eapply completes_bind; [exact IH|]. intros l _. apply completes_ret. exact I.
Qed.

Lemma completes_tool_activity tag (ms : list (SO (core W) string)) :
  Forall (completes (fun _ => True)) ms -> completes (fun _ => True) (tool_activity tag ms).
Proof.
  intros Hms. unfold tool_activity.
  eapply completes_bind; [apply completes_mapM, Hms|]. intros body _. apply completes_emit.
Qed.

Lemma completes_search_in_thread s :
  thread_starts -> completes (fun _ => True) (search_in_thread (VStr s)).
Proof.
  intros Hthread c. unfold search_in_thread, mbind, SO_bind, so_bind, await.
  specialize (Hthread (world c)).
  destruct (to_thread_start (world c)) as [[[[]|e]|] w1]; simpl in *.
  - unfold in_world. simpl.
    destruct (_search_file_sync_returns s w1) as (ms & w2 & ->). exact I.
  - exfalso. apply (Hthread e). reflexivity.
  - exact I.
Qed.

Lemma may_raise_call {A} (f : Sync W A) : may_raise (fun _ => True) (in_world (call f)).
Proof.
  intros c. unfold in_world, call. destruct (f (world c)) as [[a|e] w1]; simpl; auto.
Qed.
End Completion.

(** The results of [_read_file] and [_move_file]: the keys the demux reads
    back hold strings. *)
Section ResultKeys.
Context {W : Type} `{World W}.

Lemma _read_file_content v w :
  exists d w', _read_file v w = (Ret d, w') /\ well_formed_result d /\
               isinstance_str (dict_get d "content" (VStr "")) = true.
Proof.
  destruct (_read_file_returns v w) as (d & w' & Hrun & Hd).
  exists d, w'. split; [exact Hrun|]. split; [exact Hd|].
  revert Hrun. unfold _read_file, try_except.
  destruct (not_a_path v); [intros [= <- _]; reflexivity|].
  unfold mbind, SO_bind, so_bind, mret, SO_ret, so_ret, gets, call.
  destruct (fspath v w) as [[p|e| |] w1] eqn:Hp; simpl;
    try (intros [= <- _]; reflexivity); try discriminate.
  destruct (negb (path_exists p w1)); [intros [= <- _]; reflexivity|].
  destruct (negb (path_isfile p w1)); [intros [= <- _]; reflexivity|].
  destruct (open_read p w1) as [[content|e] w2]; intros [= <- _]; reflexivity.
Qed.

Lemma _move_file_destination src dst w :
  isinstance_str dst = true ->
  exists d w', _move_file src dst w = (Ret d, w') /\ well_formed_result d /\
               isinstance_str (dict_get d "destination" dst) = true.
Proof.
  intros Hdst. destruct (_move_file_returns src dst w) as (d & w' & Hrun & Hd).
  exists d, w'. split; [exact Hrun|]. split; [exact Hd|].
  revert Hrun. unfold _move_file, try_except.
  destruct (not_a_path src); [intros [= <- _]; exact Hdst|].
  destruct (not_a_path dst); [intros [= <- _]; exact Hdst|].
  unfold mbind, SO_bind, so_bind, mret, SO_ret, so_ret, gets, call.
  destruct (fspath src w) as [[p|e| |] w1]; simpl;
    try (intros [= <- _]; exact Hdst); try discriminate.
  destruct (fspath dst w1) as [[q|e| |] w2]; simpl;
    try (intros [= <- _]; exact Hdst); try discriminate.
  destruct (negb (path_exists p w2)); [intros [= <- _]; exact Hdst|].
  cbv zeta.
  destruct (os_makedirs_exist_ok _ w2) as [[[]|e] w3]; simpl;
    [|intros [= <- _]; exact Hdst].
  destruct (shutil_move _ _ w3) as [[[]|e] w4]; simpl; intros [= <- _];
    [reflexivity | exact Hdst].
Qed.
End ResultKeys.

Ltac completes_step :=
  lazymatch goal with
  | |- completes _ (mret _) => apply completes_ret; try exact I
  | |- completes _ (emit _) => apply completes_emit
  | |- completes _ (gets _) => apply completes_gets
  | |- completes _ (escape _) => apply completes_escape
  | |- completes _ (fspath _) => apply completes_fspath
  | |- completes _ (str_method _ _ _) => apply completes_str_method
  | |- completes _ (py_contains _ _) => apply completes_py_contains
  | |- completes _ (py_path_exists _) => apply completes_py_path_exists
  | |- completes _ (tool_activity _ _) => apply completes_tool_activity
  | |- completes _ (_ ≫= _) =>
      eapply completes_bind with (Q := fun _ => True); [|intros ? _]
  | |- Forall (completes _) _ => constructor
  | |- isinstance_str (dict_get _ _ _) = true =>
      apply dict_get_str; [assumption | reflexivity]
  | |- isinstance_str (message_of _) = true => apply message_of_str; assumption
  | |- isinstance_str (VStr _) = true => reflexivity
  end.

Ltac completes_auto := repeat completes_step.

Section DispatchCompletion.
Context {W : Type} `{World W}.
Hypothesis Hthread : thread_starts.

Lemma dispatch_open_file_completes args :
  strings_only args -> completes (fun _ => True) (dispatch_open_file args).
Proof.
  intros Hargs. unfold dispatch_open_file. cbv zeta.
  eapply completes_bind
    with (Q := fun v => v = VNone \/ exists s, v = VStr s).
  - destruct (negb (truthy (dict_get_none args "file_path")) &&
              truthy (dict_get_none args "filename")) eqn:Hsearch;
      [|apply completes_ret, dict_get_none_str, Hargs].
    apply andb_true_iff in Hsearch as [_ Hname].
    destruct (dict_get_none_str args "filename" Hargs) as [Hnone | [s Hs]];
      [rewrite Hnone in Hname; discriminate|].
    rewrite Hs.
    eapply completes_bind with (Q := fun _ => True); [completes_auto|]. intros _ _.
    eapply completes_bind with (Q := fun _ => True);
      [apply completes_search_in_thread, Hthread|].
    intros [|first rest] _; [apply completes_ret; eauto|].
    completes_auto. eauto.
  - intros file_path Hfp.
    eapply completes_bind with (Q := fun _ => True).
    { destruct Hfp as [-> | [p ->]]; simpl; [apply completes_ret; exact I|].
      destruct (negb (String.eqb p "")); completes_auto. }
    intros found _. destruct found.
    + apply completes_try_except.
      * eapply may_raise_bind with (Q := fun _ => True).
        { intros c. destruct file_path; simpl; auto. }
        intros p _. eapply may_raise_bind with (Q := fun _ => True).
        { destruct sys_platform; apply may_raise_call. }
        intros _ _. apply completes_may_raise. completes_auto.
      * intros e. completes_auto.
    + assert (Hshown : isinstance_str
                (py_or (dict_get_none args "filename") (py_or file_path (VStr "?"))) = true).
      { unfold py_or.
        destruct (dict_get_none_str args "filename" Hargs) as [-> | [s ->]]; simpl.
        - destruct Hfp as [-> | [p ->]]; simpl; [reflexivity|].
          destruct (negb (String.eqb p "")); reflexivity.
        - destruct (negb (String.eqb s "")); [reflexivity|].
          destruct Hfp as [-> | [p ->]]; simpl; [reflexivity|].
          destruct (negb (String.eqb p "")); reflexivity. }
      completes_auto. exact Hshown.
Qed.

(** Dispatching a call whose arguments are all strings does not raise. *)
Lemma dispatch_call_completes fc locals :
  strings_only (fc_args fc) -> completes (fun _ => True) (dispatch_call fc locals).
Proof.
  intros Hargs. unfold dispatch_call. cbv zeta.
  repeat match goal with
         | |- completes _ (if String.eqb ?a ?b then _ else _) => destruct (String.eqb a b)
         end;
    [..|apply completes_ret; exact I];
    (eapply completes_bind with (Q := fun _ => True);
     [|intros ? _; apply completes_ret; exact I]) || idtac.
  - unfold dispatch_create_folder. cbv zeta.
    eapply completes_bind; [apply completes_result, _create_folder_returns|].
    intros d Hd. completes_auto.
  - unfold dispatch_create_file. cbv zeta.
    eapply completes_bind; [apply completes_result, _create_file_returns|].
    intros d Hd. completes_auto.
  - unfold dispatch_edit_file. cbv zeta.
    eapply completes_bind; [apply completes_result, _edit_file_returns|].
    intros d Hd. completes_auto.
  - unfold dispatch_list_files.
    eapply completes_bind; [apply completes_result, _list_files_returns|].
    intros d Hd. destruct (status_ok d); apply completes_ret; exact I.
  - unfold dispatch_read_file. cbv zeta.
    eapply completes_bind; [apply completes_helper, _read_file_content|].
    intros d [Hd Hcontent].
    eapply completes_bind with (Q := fun v => isinstance_str v = true).
    { destruct (status_ok d).
      - eapply completes_bind with (Q := fun _ => True);
          [apply completes_str_method, Hcontent|].
        intros s _. apply completes_ret. reflexivity.
      - apply completes_ret, message_of_str, Hd. }
    intros preview Hpreview. completes_auto. exact Hpreview.
  - unfold dispatch_open_application. cbv zeta.
    eapply completes_bind with (Q := fun _ => True); [completes_auto|]. intros _ _.
    eapply completes_bind; [apply completes_result, _open_application_returns|].
    intros d Hd. completes_auto.
  - unfold dispatch_close_application. cbv zeta.
    eapply completes_bind with (Q := fun _ => True); [completes_auto|]. intros _ _.
    eapply completes_bind; [apply completes_result, _close_application_returns|].
    intros d Hd. completes_auto.
  - unfold dispatch_open_website. cbv zeta.
    eapply completes_bind; [apply completes_result, _open_website_returns|].
    intros d Hd.
    eapply completes_bind with (Q := fun _ => True); [completes_auto|]. intros has_scheme _.
    eapply completes_bind with (Q := fun v => isinstance_str v = true).
    { destruct has_scheme.
      - eapply completes_bind with (Q := fun _ => True); [completes_auto|].
        intros s _. apply completes_ret. reflexivity.
      - apply completes_ret. completes_auto. }
    intros display Hdisplay. completes_auto. exact Hdisplay.
  - unfold dispatch_open_direct_youtube. cbv zeta.
    eapply completes_bind; [apply completes_result, _open_direct_youtube_returns|].
    intros d Hd. completes_auto.
  - unfold dispatch_search_and_open. cbv zeta.
    eapply completes_bind; [apply completes_result, _search_and_open_returns|].
    intros d Hd. completes_auto.
  - unfold dispatch_search_file. cbv zeta.
    destruct (isinstance_str_inv (dict_get (fc_args fc) "filename" (VStr "")))
      as [s ->]; [completes_auto|].
    eapply completes_bind with (Q := fun _ => True); [completes_auto|]. intros _ _.
    eapply completes_bind with (Q := fun _ => True);
      [apply completes_search_in_thread, Hthread|].
    intros matches _. completes_auto.
  - apply dispatch_open_file_completes, Hargs.
  - unfold dispatch_move_file. cbv zeta.
    eapply completes_bind with (Q := fun v => isinstance_str v = true).
    { eapply completes_bind with (Q := fun _ => True); [completes_auto|].
      intros p _. apply completes_ret. reflexivity. }
    intros src_name Hname.
    eapply completes_bind with (Q := fun _ => True);
      [completes_auto; exact Hname|]. intros _ _.
    eapply completes_bind.
    { apply completes_helper. intros w.
      apply (_move_file_destination _ (dict_get (fc_args fc) "destination_path" (VStr "")) w).
      completes_auto. }
    intros d [Hd Hdest]. completes_auto; assumption.
Qed.

Lemma collect_responses_completes calls rs locals :
  Forall (fun fc => strings_only (fc_args fc)) calls ->
  completes (fun _ => True) (collect_responses calls rs locals).
Proof.
  intros Hcalls. revert rs locals.
  induction Hcalls as [|fc calls Hfc _ IH]; intros rs locals; simpl.
  - apply completes_ret. exact I.
  - eapply completes_bind; [apply dispatch_call_completes, Hfc|]. intros r _. apply IH.
Qed.
End DispatchCompletion.

Section TurnCompletion.
Context {W : Type} `{World W}.
Hypothesis Hthread : thread_starts.
Hypothesis Hsession : session_accepts.

Lemma session_call_completes op : completes (fun _ => True) (session_call op).
Proof.
  intros c. unfold session_call, log, modify, await, mbind, SO_bind, so_bind. simpl.
  pose proof (Hsession op (world c)) as Hop.
  destruct (session_send op (world c)) as [[[[]|e]|] w1]; simpl in *; auto.
  exfalso. apply (Hop e). reflexivity.
Qed.

Lemma handle_parts_completes parts locals :
  completes (W:=W) (fun _ => True) (handle_parts parts locals).
Proof.
  revert locals. induction parts as [|p parts IH]; intros locals; simpl.
  - apply completes_ret. exact I.
  - eapply completes_bind with (Q := fun _ => True); [|intros l _; apply IH].
    unfold handle_part. cbv zeta.
    eapply completes_bind with (Q := fun _ => True).
    { destruct (inline_data p); [|apply completes_ret; exact I].
      intros c. exact I. }
    intros _ _. eapply completes_bind with (Q := fun _ => True).
    { destruct (part_text p) as [text|]; [|apply completes_ret; exact I].
      destruct (String.eqb text ""); [apply completes_ret; exact I | apply completes_emit]. }
    intros _ _. apply completes_ret. exact I.
Qed.

Lemma handle_chunk_completes ch locals :
  typed_chunk ch -> completes (fun _ => True) (handle_chunk ch locals).
Proof.
  intros [Hcalls Hsc]. unfold handle_chunk.
  destruct (tool_call_function_calls ch) as [|fc calls].
  - destruct (chunk_server_content ch) as [sc|]; [|apply completes_ret; exact I].
    destruct Hsc as [Hg Hm]. unfold handle_server_content.
    eapply completes_bind with (Q := fun _ => True).
    { destruct (grounding_metadata sc) as [[uris|]|];
        [|congruence|]; apply completes_ret; exact I. }
    intros l _. destruct (model_turn sc) as [[parts|]|];
      [|congruence|apply completes_ret; exact I].
    simpl. intros c. exact (handle_parts_completes parts l c).
  - unfold answer_tool_calls.
    eapply completes_bind with (Q := fun _ => True);
      [apply collect_responses_completes; assumption|].
    intros r _. eapply completes_bind with (Q := fun _ => True);
      [apply session_call_completes|].
    intros _ _. apply completes_ret. exact I.
Qed.

Lemma read_stream_completes turn locals :
  typed_stream turn -> completes (fun _ => True) (read_stream turn locals).
Proof.
  revert locals. induction turn as [|ch rest IH|e|]; intros locals Hturn; simpl in *.
  - apply completes_ret. exact I.
  - destruct Hturn as [Hch Hrest].
    eapply completes_bind with (Q := fun _ => True);
      [apply handle_chunk_completes, Hch|].
    intros l _. apply IH, Hrest.
  - contradiction.
  - intros c. exact I.
Qed.
End TurnCompletion.

Lemma strings_only_empty : strings_only ∅.
Proof. apply map_Forall_empty. Qed.

Lemma strings_only_insert k s args : strings_only args -> strings_only (<[k := VStr s]> args).
Proof. intros Hargs. apply map_Forall_insert_2; [reflexivity | exact Hargs]. Qed.

Lemma sim_thread_starts : @thread_starts SimWorld.sim _.
Proof. intros w e. discriminate. Qed.

Lemma sim_session_accepts : @session_accepts SimWorld.sim _.
Proof. intros op w e. discriminate. Qed.

(** A function call whose arguments are all strings, as every declared
    schema asks, is dispatched without an exception, whatever its name,
    whichever arguments are missing and whatever the operating system
    answers, provided [asyncio.to_thread] can start its thread: the
    dispatch returns its result, a well-formed one for a declared tool, or
    the task is cancelled while the file search runs.  So the exception
    that loses the response of a call needs an argument that is not a
    string. *)
Theorem typed_call_is_dispatched {W : Type} `{World W} (fc : function_call)
    (locals : turn_locals) (c : core W) :
  thread_starts ->
  strings_only (fc_args fc) ->
  match fst (dispatch_call fc locals c) with
  | Ret r => fc_name fc ∈ declared_tools -> well_formed_result (fst r)
  | Cancelled => True
  | Raise _ | Block => False
  end.
Proof.
  intros Hthread Hargs.
  pose proof (dispatch_call_completes Hthread fc locals Hargs c) as Hdone.
  destruct (fst (dispatch_call fc locals c)) as [r|e| |] eqn:Hrun; simpl in *; auto;
    try discriminate.
  intros Hname. pose proof (dispatch_call_result fc locals Hname c) as Hres.
  rewrite Hrun in Hres. exact Hres.
Qed.

Lemma typed_call_is_dispatched_witness :
  match fst (dispatch_call create_file_call fresh_turn (SimWorld.connected "camera")) with
  | Ret r => fc_name create_file_call ∈ declared_tools -> well_formed_result (fst r)
  | Cancelled => True
  | Raise _ | Block => False
  end.
Proof.
  apply (typed_call_is_dispatched create_file_call fresh_turn (SimWorld.connected "camera")).
  - exact sim_thread_starts.
  - unfold create_file_call. simpl. repeat apply strings_only_insert.
    exact strings_only_empty.
Defined.

(** When a turn is not abandoned.  Under four conditions: every argument
    of every function call of the turn is a string; every grounding
    metadata of the turn has a list as [grounding_chunks] and every model
    turn a list as [parts] (not [None], which the library allows); the
    iteration of the stream does not raise; and the runtime does not
    raise either, that is, [asyncio.to_thread] starts its thread and the
    session accepts the tool responses.  Then reading the turn raises no
    exception and does not stay suspended: it returns, unless the task is
    cancelled; when it returns, every chunk with tool calls has been
    answered by one batch with one response per call, in order, and the
    last two signals are [end_of_turn] and [speaking_stopped]. *)
Theorem typed_turn_is_answered {W : Type} `{World W} (turn : stream) (c : core W) :
  thread_starts ->
  session_accepts ->
  typed_stream turn ->
  match fst (receive_turn turn c) with
  | Ret _ =>
      response_keys (snd (receive_turn turn c)) =
        response_keys c ++ map (map call_key) (stream_batches turn) /\
      exists t, trace (snd (receive_turn turn c)) =
                  t ++ [Emit end_of_turn; Emit speaking_stopped]
  | Cancelled => True
  | Raise _ | Block => False
  end.
Proof.
  intros Hthread Hsession Hturn.
  pose proof (read_stream_completes Hthread Hsession turn fresh_turn Hturn c) as Hread.
  destruct (read_stream_batches turn fresh_turn c) as (answered & Hkeys & _ & Hall).
  unfold receive_turn, mbind, SO_bind, so_bind.
  destruct (read_stream turn fresh_turn c) as [[locals|e| |] c1] eqn:Hrun;
    simpl in *; auto; try discriminate.
  destruct (finish_turn_trace locals c1) as [Hret Htrace].
  rewrite Hret. split.
  - rewrite (finish_turn_keeps response_keys not_tool_response response_keys_log locals
               (fun _ => eq_refl) c1).
    rewrite Hkeys, (Hall locals eq_refl). reflexivity.
  - rewrite Htrace. exists (trace c1 ++ map Emit (turn_activity locals)).
    rewrite map_app, app_assoc. reflexivity.
Qed.

Lemma typed_turn_is_answered_witness :
  response_keys
    (snd (receive_turn
            (StreamChunk (tool_chunk [create_file_call; undeclared_call])
               (StreamChunk (text_chunk "Done.") StreamEnd))
            (SimWorld.connected "camera"))) =
    [[("call-1", "create_file"); ("call-3", "reboot")]].
Proof.
  pose proof (typed_turn_is_answered
                (StreamChunk (tool_chunk [create_file_call; undeclared_call])
                   (StreamChunk (text_chunk "Done.") StreamEnd))
                (SimWorld.connected "camera") sim_thread_starts sim_session_accepts) as Hturn.
  assert (Htyped : typed_stream
            (StreamChunk (tool_chunk [create_file_call; undeclared_call])
               (StreamChunk (text_chunk "Done.") StreamEnd))).
  { simpl. unfold typed_chunk. simpl. repeat split; try discriminate;
      repeat constructor.
    - repeat apply strings_only_insert. exact strings_only_empty.
    - exact strings_only_empty. }
  specialize (Hturn Htyped).
  destruct (fst (receive_turn _ (SimWorld.connected "camera"))) eqn:Hrun;
    try contradiction; try discriminate Hrun.
  exact (proj1 Hturn).
Defined.

(** Each condition on the chunks is needed: a grounding metadata or a
    model turn whose list is [None], or an argument that is a list, and
    the turn is abandoned with a [TypeError]. *)
Example untyped_turn_is_abandoned :
  fst (receive_turn (StreamChunk (ungrounded_chunk "Hello") StreamEnd)
         (SimWorld.connected "camera")) =
    Raise (Exn TypeError "'NoneType' object is not iterable") /\
  fst (receive_turn
         (StreamChunk (Chunk [] (Some (ServerContent None (Some None)))) StreamEnd)
         (SimWorld.connected "camera")) =
    Raise (Exn TypeError "'NoneType' object is not iterable") /\
  fst (receive_turn (StreamChunk (tool_chunk [open_file_list_call]) StreamEnd)
         (SimWorld.connected "camera")) =
    Raise (Exn TypeError "stat: path should be string, bytes, os.PathLike or integer").
Proof. repeat split; vm_compute; reflexivity. Qed.

(** ** The audio of a turn, and a turn that fails *)

Section AudioProgress.
Context {W : Type} `{World W}.
Implicit Type c : core W.

Lemma speaking_of_log a c :
  not_speaking a = true -> speaking_of (set_trace (trace c ++ [a]) c) = speaking_of c.
Proof.
  intros Ha. unfold speaking_of. simpl. rewrite speaking_events_app.
  destruct a as [[]| | | |]; simpl in *; try discriminate; rewrite app_nil_r; reflexivity.
Qed.

Lemma turn_closings_log a c :
  negb (closes_turn a) = true ->
  turn_closings (set_trace (trace c ++ [a]) c) = turn_closings c.
Proof.
  intros Ha. unfold turn_closings. simpl. rewrite List.filter_app. simpl.
  apply negb_true_iff in Ha. rewrite Ha. apply app_nil_r.
Qed.

Lemma part_audio_cons p parts : part_audio (p :: parts) = part_audio [p] ++ part_audio parts.
Proof. unfold part_audio. change (p :: parts) with ([p] ++ parts). apply omap_app. Qed.

Lemma handle_parts_audio parts locals :
  extends_by (@queued_audio W) (part_audio parts) (handle_parts parts locals).
Proof.
  revert locals. induction parts as [|p parts IH]; intros locals.
  - apply extends_by_keeps, keeps_ret.
  - rewrite part_audio_cons. cbn [handle_parts].
    apply extends_by_bind; [|intros l; apply IH].
    intros c. exists (part_audio [p]). split; [|split; [reflexivity|auto]].
    unfold handle_part, part_audio, queued_audio. cbv zeta. simpl.
    unfold mbind, SO_bind, so_bind, mret, SO_ret, so_ret, emit, log, modify.
    destruct (inline_data p); destruct (part_text p) as [text|]; simpl;
      try destruct (String.eqb text ""); simpl; rewrite ?app_nil_r; reflexivity.
Qed.

Lemma handle_parts_speaking parts locals :
  extends_by (@speaking_of W) (map (fun _ => true) (part_audio parts))
    (handle_parts parts locals).
Proof.
  revert locals. induction parts as [|p parts IH]; intros locals.
  - apply extends_by_keeps, keeps_ret.
  - rewrite part_audio_cons, map_app. cbn [handle_parts].
    apply extends_by_bind; [|intros l; apply IH].
    intros c. exists (map (fun _ => true) (part_audio [p])).
    split; [|split; [reflexivity|auto]].
    unfold handle_part, part_audio, speaking_of. cbv zeta. simpl.
    unfold mbind, SO_bind, so_bind, mret, SO_ret, so_ret, emit, log, modify.
    destruct (inline_data p); destruct (part_text p) as [text|]; simpl;
      try destruct (String.eqb text ""); simpl;
      rewrite ?speaking_events_app; simpl; rewrite ?app_nil_r; reflexivity.
Qed.

Lemma handle_chunk_audio ch locals :
  extends_by (@queued_audio W) (chunk_audio ch) (handle_chunk ch locals).
Proof.
  unfold handle_chunk, chunk_audio.
  destruct (tool_call_function_calls ch) as [|fc calls].
  - destruct (chunk_server_content ch) as [sc|]; [|apply extends_by_keeps, keeps_ret].
    unfold handle_server_content. apply extends_by_nil_bind.
    { destruct (grounding_metadata sc); [|apply keeps_ret].
      apply keeps_bind; [apply keeps_iterate|]. intros uris. apply keeps_ret. }
    intros l. destruct (model_turn sc) as [[parts|]|]; simpl.
    + intros c. exact (handle_parts_audio parts l c).
    + apply extends_by_keeps. intros c. reflexivity.
    + apply extends_by_keeps, keeps_ret.
  - apply extends_by_keeps.
    eapply answer_tool_calls_keeps with (ok_action := any_action); auto.
Qed.

Lemma handle_chunk_speaking ch locals :
  extends_by (@speaking_of W) (map (fun _ => true) (chunk_audio ch)) (handle_chunk ch locals).
Proof.
  unfold handle_chunk, chunk_audio.
  destruct (tool_call_function_calls ch) as [|fc calls].
  - destruct (chunk_server_content ch) as [sc|]; [|apply extends_by_keeps, keeps_ret].
    unfold handle_server_content. apply extends_by_nil_bind.
    { destruct (grounding_metadata sc); [|apply keeps_ret].
      apply keeps_bind; [apply keeps_iterate|]. intros uris. apply keeps_ret. }
    intros l. destruct (model_turn sc) as [[parts|]|]; simpl.
    + intros c. exact (handle_parts_speaking parts l c).
    + apply extends_by_keeps. intros c. reflexivity.
    + apply extends_by_keeps, keeps_ret.
  - apply extends_by_keeps.
    eapply answer_tool_calls_keeps with (ok_action := not_speaking);
      auto using speaking_of_log.
Qed.

Lemma read_stream_audio turn locals :
  extends_by (@queued_audio W) (stream_audio turn) (read_stream turn locals).
Proof.
  revert locals. induction turn as [|ch rest IH|e|]; intros locals; simpl.
  - apply extends_by_keeps, keeps_ret.
  - apply extends_by_bind; [apply handle_chunk_audio | intros l; apply IH].
  - apply extends_by_keeps, keeps_raise.
  - apply extends_by_keeps. intros c. reflexivity.
Qed.

Lemma read_stream_speaking turn locals :
  extends_by (@speaking_of W) (map (fun _ => true) (stream_audio turn))
    (read_stream turn locals).
Proof.
  revert locals. induction turn as [|ch rest IH|e|]; intros locals; simpl.
  - apply extends_by_keeps, keeps_ret.
  - rewrite map_app.
    apply extends_by_bind; [apply handle_chunk_speaking | intros l; apply IH].
  - apply extends_by_keeps, keeps_raise.
  - apply extends_by_keeps. intros c. reflexivity.
Qed.

Lemma read_stream_closings turn locals :
  keeps (@turn_closings W) (read_stream turn locals).
Proof.
  revert locals. induction turn as [|ch rest IH|e|]; intros locals; simpl.
  - apply keeps_ret.
  - apply keeps_bind; [|intros l; apply IH].
    unfold handle_chunk. destruct (tool_call_function_calls ch) as [|fc calls].
    + destruct (chunk_server_content ch) as [sc|]; [|apply keeps_ret].
      eapply handle_server_content_keeps with (ok_action := fun a => negb (closes_turn a));
        auto using turn_closings_log.
    + eapply answer_tool_calls_keeps with (ok_action := fun a => negb (closes_turn a));
        auto using turn_closings_log.
  - apply keeps_raise.
  - intros c. reflexivity.
Qed.

Lemma prefix_of_trues (done : list bool) (l : list bytes) :
  done `prefix_of` map (fun _ => true) l ->
  done = replicate (length done) true /\ (length done <= length l)%nat.
Proof.
  intros Hpre. split.
  - destruct Hpre as [rest Hrest]. revert l Hrest.
    induction done as [|b done IH]; intros l Hrest; [reflexivity|].
    destruct l as [|x l]; [discriminate|]. simpl in Hrest.
    injection Hrest as <- Hrest. simpl. f_equal. apply (IH l Hrest).
  - apply prefix_length in Hpre. rewrite length_map in Hpre. exact Hpre.
Qed.
End AudioProgress.

(** The audio of a turn is queued for playback in the order received.
    Along the stream of a turn the [inline_data] buffers of the parts are
    appended to the playback queue in their order, after whatever the queue
    held: a prefix of them if the stream is interrupted, all of them when
    it ends.  Each buffer queued comes with one [speaking_started] and the
    chunks emit no [speaking_stopped], so the speaking signals of the
    stream are [speaking_started], once per buffer. *)
Theorem audio_parts_are_queued_in_order {W : Type} `{World W} (turn : stream)
    (locals : turn_locals) (c : core W) :
  exists queued started,
    audio_in_queue_player (snd (read_stream turn locals c)) =
      audio_in_queue_player c ++ queued /\
    queued `prefix_of` stream_audio turn /\
    speaking_events (trace (snd (read_stream turn locals c))) =
      speaking_events (trace c) ++ replicate started true /\
    (started <= length (stream_audio turn))%nat /\
    match fst (read_stream turn locals c) with
    | Ret _ => queued = stream_audio turn /\ started = length (stream_audio turn)
    | _ => True
    end.
Proof.
  destruct (read_stream_audio turn locals c) as (queued & Hq & Hqpre & Hqall).
  destruct (read_stream_speaking turn locals c) as (done & Hs & Hspre & Hsall).
  destruct (prefix_of_trues done _ Hspre) as [Hdone Hlen].
  exists queued, (length done). split; [exact Hq|]. split; [exact Hqpre|].
  split; [unfold speaking_of in Hs; rewrite Hs, <- Hdone; reflexivity|].
  split; [exact Hlen|].
  destruct (fst (read_stream turn locals c)) as [l|e| |] eqn:Hrun; auto.
  split; [apply (Hqall l eq_refl)|].
  rewrite (Hsall l eq_refl), length_map. reflexivity.
Qed.

(** A turn that raises is not closed, and the receiver goes on.  When the
    reading of a turn raises while the orchestrator runs, [receive_text]
    goes on with the next turn from the state in which the exception
    struck; none of the signals that close a turn (the activity,
    [end_of_turn], [speaking_stopped]) is emitted for the failed turn; and
    the speaking signals it did emit are all [speaking_started], so a turn
    that fails after an audio part leaves the speaking state on. *)
Theorem failed_turn_is_not_closed {W : Type} `{World W} (turn : stream)
    (turns : list stream) (c : core W) (e : exn) :
  is_running c = true ->
  fst (read_stream turn fresh_turn c) = Raise e ->
  receive_text (turn :: turns) c =
    receive_text turns (snd (read_stream turn fresh_turn c)) /\
  turn_closings (snd (read_stream turn fresh_turn c)) = turn_closings c /\
  exists started,
    speaking_events (trace (snd (read_stream turn fresh_turn c))) =
      speaking_events (trace c) ++ replicate started true /\
    ((0 < started)%nat ->
     is_speaking (trace (snd (read_stream turn fresh_turn c))) = true).
Proof.
  intros Hrunning Hraise.
  pose proof (read_stream_keeps_all is_running (fun _ _ => eq_refl) (fun _ _ => eq_refl)
                (fun _ _ => eq_refl) turn fresh_turn c) as Hkeep.
  split; [|split].
  - cbn [receive_text]. unfold mbind, SO_bind, so_bind, gets, try_except.
    rewrite Hrunning. unfold receive_turn, mbind, SO_bind, so_bind.
    destruct (read_stream turn fresh_turn c) as [o c1]. simpl in *. subst o.
    rewrite Hkeep, Hrunning. reflexivity.
  - apply read_stream_closings.
  - destruct (read_stream_speaking turn fresh_turn c) as (done & Hs & Hspre & _).
    destruct (prefix_of_trues done _ Hspre) as [Hdone _].
    exists (length done). unfold speaking_of in Hs. rewrite Hs.
    split; [rewrite <- Hdone; reflexivity|]. intros Hpos. unfold is_speaking.
    rewrite Hs, Hdone. destruct (length done) as [|n]; [lia|].
    rewrite replicate_S_end, app_assoc, last_snoc. reflexivity.
Qed.

Lemma failed_turn_is_not_closed_witness :
  signals (trace (snd (receive_text [failing_turn] (SimWorld.connected "camera")))) =
    [speaking_started] /\
  is_speaking (trace (snd (receive_text [failing_turn] (SimWorld.connected "camera")))) = true.
Proof.
  destruct (failed_turn_is_not_closed failing_turn [] (SimWorld.connected "camera")
              (Exn AttributeError "object has no attribute 'replace'") eq_refl eq_refl)
    as (Hloop & _).
  rewrite Hloop. split; reflexivity.
Defined.

(** ** Calls with a missing argument *)

(** The tools whose first argument is checked by their helper. *)
Lemma dict_get_empty k dflt : dict_get ∅ k dflt = dflt.
Proof. unfold dict_get. rewrite lookup_empty. reflexivity. Qed.

(** A call that carries no argument.  For each of the ten tools whose
    first argument is required, the demux passes the empty string, the
    helper refuses it before any call into the operating system, and the
    dispatch returns a result with status "error": the world is left as it
    was, the turn goes on, and the call is answered like any other. *)
Theorem missing_argument_is_an_error {W : Type} `{World W} (id name : string)
    (locals : turn_locals) (c : core W) :
  name ∈ checked_tools ->
  exists message c',
    dispatch_call (FunctionCall id name ∅) locals c =
      (Ret (mk_result "error" message, locals), c') /\
    world c' = world c.
Proof.
  intros Hname. unfold checked_tools in Hname.
  repeat (apply elem_of_cons in Hname; destruct Hname as [-> | Hname]);
    [..|inversion Hname]; eexists _, _; (split; [reflexivity|reflexivity]).
Qed.

Lemma missing_argument_is_an_error_witness :
  exists message c',
    dispatch_call (bare_call "open_website") fresh_turn (SimWorld.connected "camera") =
      (Ret (mk_result "error" message, fresh_turn), c') /\
    world c' = world (SimWorld.connected "camera").
Proof.
  apply (missing_argument_is_an_error "call-4" "open_website" fresh_turn
           (SimWorld.connected "camera")).
  unfold checked_tools. repeat constructor.
Defined.

Section ListFilesDefault.
Context {W : Type} `{World W}.

Lemma _list_files_default v :
  truthy v = false -> _list_files v = _list_files (VStr ".").
Proof. intros Hv. unfold _list_files. rewrite Hv. reflexivity. Qed.

Lemma dispatch_list_files_call fc locals :
  fc_name fc = "list_files" ->
  dispatch_call fc locals = dispatch_list_files (fc_args fc) locals.
Proof. intros Hname. unfold dispatch_call. rewrite Hname. reflexivity. Qed.
End ListFilesDefault.

(** [list_files] without a directory lists the current one.  A call of
    [list_files] whose [directory_path] is missing, [None] or empty is
    dispatched exactly as the call for ".".  When "." is a directory that
    can be listed, the result carries its entries, the listing becomes the
    turn's [file_list_data] with the directory ".", and the dispatch emits
    no signal: the listing is shown when the turn ends. *)
Theorem list_files_defaults_to_current_directory {W : Type} `{World W}
    (fc : function_call) (locals : turn_locals) (c : core W) :
  fc_name fc = "list_files" ->
  truthy (dict_get_none (fc_args fc) "directory_path") = false ->
  dispatch_call fc locals c = dispatch_call (list_files_call (fc_id fc) ".") locals c /\
  (forall files w',
     path_isdir "." (world c) = true ->
     os_listdir "." (world c) = (Ok files, w') ->
     exists result,
       dispatch_call fc locals c =
         (Ret (result,
               TurnLocals (turn_urls locals) (turn_code_content locals)
                 (turn_code_result locals) (Some (VStr ".", VList (map VStr files)))),
          set_world w' c) /\
       result !! "files" = Some (VList (map VStr files)) /\
       result !! "status" = Some (VStr "success")).
Proof.
  intros Hname Hdir.
  assert (Hsame : dispatch_call fc locals c =
                  dispatch_call (list_files_call (fc_id fc) ".") locals c).
  { rewrite (dispatch_list_files_call fc locals Hname).
    rewrite (dispatch_list_files_call (list_files_call (fc_id fc) ".") locals eq_refl).
    unfold dispatch_list_files. rewrite (_list_files_default _ Hdir). reflexivity. }
  split; [exact Hsame|]. intros files w' Hisdir Hlist. rewrite Hsame.
  eexists. split; [|split].
  - rewrite (dispatch_list_files_call (list_files_call (fc_id fc) ".") locals eq_refl).
    unfold dispatch_list_files, in_world, mbind, SO_bind, so_bind.
    change (dict_get_none (fc_args (list_files_call (fc_id fc) ".")) "directory_path")
      with (VStr ".").
    unfold _list_files, try_except, mbind, SO_bind, so_bind, mret, SO_ret, so_ret,
      gets, call. simpl. rewrite Hisdir. simpl. rewrite Hlist. simpl. reflexivity.
  - reflexivity.
  - reflexivity.
Qed.

Lemma list_files_defaults_to_current_directory_witness :
  exists result,
    dispatch_call (bare_call "list_files") fresh_turn (DeskWorld.connected "camera") =
      (Ret (result,
            TurnLocals ∅ "" ""
              (Some (VStr ".",
                     VList [VStr "Desktop"; VStr ".cache"; VStr "Documents";
                            VStr "todo.txt"]))),
       DeskWorld.connected "camera") /\
    result !! "files" =
      Some (VList [VStr "Desktop"; VStr ".cache"; VStr "Documents"; VStr "todo.txt"]) /\
    result !! "status" = Some (VStr "success").
Proof.
  exact (proj2 (list_files_defaults_to_current_directory (bare_call "list_files") fresh_turn
                  (DeskWorld.connected "camera") eq_refl eq_refl)
           ["Desktop"; ".cache"; "Documents"; "todo.txt"] DeskWorld.Desk eq_refl eq_refl).
Defined.

(** ** The outbound queue: video switched off, and the codec round trip *)

Section CaptureSteps.
Context {W : Type} `{World W}.
Implicit Type c : core W.
Implicit Type t : tasks W.

(** Followed from its [while] until it is back there, the capture task
    does what one turn of [stream_video_to_gui] does. *)
Lemma capture_until_head_turn c :
  capture_until_head 3 AtLoopHead c =
    (match fst (stream_video_to_gui_turn c) with
     | Ret _ => if is_running c then AtLoopHead else Finished
     | _ => Finished
     end, snd (stream_video_to_gui_turn c)).
Proof.
  unfold stream_video_to_gui_turn, stream_video_iteration, capture_frame. simpl.
  unfold capture_advance, guarded, capture_head, capture_opening, capture_reading,
    capture_grabbing, camera_opened, publish_frame, release_capture.
  unfold_so.
  destruct (is_running c) eqn:Hrun; simpl.
  2:{ destruct (video_capture c); reflexivity. }
  destruct (String.eqb (video_mode c) "camera") eqn:Hcam; simpl.
  - destruct (video_capture c) eqn:Hvc; simpl.
    + destruct (cap_isOpened (world c)); simpl; rewrite ?Hvc; [|reflexivity].
      destruct (cap_read (world c)) as [[[[ok fr]|e]|] w1]; simpl; rewrite ?Hvc;
        try reflexivity.
      destruct ok; simpl; [|reflexivity]. destruct fr; reflexivity.
    + destruct (cv2_VideoCapture (world c)) as [[[[]|e]|] w1]; simpl; rewrite ?Hvc;
        try reflexivity.
      destruct (cap_isOpened w1); simpl; [|reflexivity].
      destruct (cap_read w1) as [[[[ok fr]|e]|] w2]; simpl; try reflexivity.
      destruct ok; simpl; [|reflexivity]. destruct fr; reflexivity.
  - destruct (String.eqb (video_mode c) "screen"); simpl.
    + destruct (video_capture c) eqn:Hvc; simpl;
        match goal with |- context [ImageGrab_grab ?w] =>
          destruct (ImageGrab_grab w) as [[[fr|e]|] w1] end; simpl; rewrite ?Hvc;
        reflexivity.
    + destruct (video_capture c); reflexivity.
Qed.
End CaptureSteps.

Section VideoOff.
Context {W : Type} `{World W}.
Implicit Type c : core W.
Implicit Type t : tasks W.

Lemma video_stays_off_start t :
  video_mode (tasks_core t) = "none" -> video_stays_off t [] t.
Proof.
  intros Hm. split; simpl; auto.
  - rewrite app_nil_r. reflexivity.
  - apply Forall_forall. intros item Hin. right. unfold items_pending.
    apply elem_of_app. left. exact Hin.
  - apply Forall_forall. intros item Hin. right. exact Hin.
Qed.

Lemma shown_app (a b : list action) : shown (a ++ b) = shown a ++ shown b.
Proof. unfold shown. apply omap_app. Qed.

Lemma images_app (a b : list message) : images (a ++ b) = images a ++ images b.
Proof. unfold images. apply List.filter_app. Qed.


Lemma put_advance_off t0 added c item at_ c' :
  put_advance item c = (at_, c') ->
  video_mode c = "none" ->
  trace c = trace (tasks_core t0) ++ added ->
  Forall (off_action t0) added ->
  Forall (fun item => audio_item item \/ item ∈ items_pending t0) (out_queue_gemini c) ->
  (audio_item item \/ item ∈ items_in_flight t0) ->
  exists extra,
    video_mode c' = "none" /\
    trace c' = trace (tasks_core t0) ++ added ++ extra /\
    Forall (off_action t0) (added ++ extra) /\
    Forall (fun item => audio_item item \/ item ∈ items_pending t0) (out_queue_gemini c') /\
    Forall (fun item => audio_item item \/ item ∈ items_in_flight t0) (putting at_) /\
    shown extra = [] /\
    (length (images (submitted extra)) + length (images (putting at_))
       <= length (images [item]))%nat.
Proof.
  unfold put_advance, out_queue_put. unfold_so.
  intros Hput Hm Ht Hadded Hq Hitem.
  case_bool_decide; simpl in Hput; inversion Hput; subst; clear Hput.
  - exists [Submit item]. simpl. rewrite Ht, <- app_assoc.
    repeat split; auto.
    + apply Forall_app. split; [exact Hadded|]. constructor; [exact Hitem|constructor].
    + apply Forall_app. split; [exact Hq|]. constructor; [|constructor].
      destruct Hitem as [Ha|Hin]; [left; exact Ha|right].
      unfold items_pending. apply elem_of_app. right. exact Hin.
    + change (submitted [Submit item]) with [item]. lia.
  - exists []. simpl. rewrite !app_nil_r.
    repeat split; auto.
Qed.

Lemma mic_step_off t0 added t :
  video_stays_off t0 added t ->
  exists extra, video_stays_off t0 (added ++ extra) (task_step t MicStep).
Proof.
  intros [Hm Ht Hadded Hq Hputs Hframes Himages].
  unfold task_step. destruct (mic_advance (mic_at t) (tasks_core t)) as [at_ c'] eqn:Hstep.
  rewrite images_app, length_app in Himages.
  apply Forall_app in Hputs as [Hmic Hsampler].
  assert (Hstay : (at_, c') = (mic_at t, tasks_core t) ->
            exists extra, video_stays_off t0 (added ++ extra)
                            (Tasks c' at_ (sampler_at t) (capture_at t) (sender_at t))).
  { intros Heq. inversion Heq; subst. exists []. rewrite app_nil_r.
    split; simpl; [assumption..| | |].
    - apply Forall_app. split; assumption.
    - exact Hframes.
    - rewrite images_app, length_app. exact Himages. }
  assert (Hquiet : putting (mic_at t) = [] ->
            putting at_ = [] \/ (exists data, at_ = Putting (Message "audio/pcm" data)) ->
            trace c' = trace (tasks_core t) -> video_mode c' = video_mode (tasks_core t) ->
            out_queue_gemini c' = out_queue_gemini (tasks_core t) ->
            exists extra, video_stays_off t0 (added ++ extra)
                            (Tasks c' at_ (sampler_at t) (capture_at t) (sender_at t))).
  { intros Hold Hnew Htr Hmode Hqueue. exists []. rewrite app_nil_r.
    assert (Himg : images (putting at_) = []).
    { destruct Hnew as [->|[data ->]]; reflexivity. }
    split; simpl.
    - congruence.
    - congruence.
    - exact Hadded.
    - rewrite Hqueue. exact Hq.
    - apply Forall_app. split; [|exact Hsampler].
      destruct Hnew as [->|[data ->]]; [constructor|].
      constructor; [left; reflexivity|constructor].
    - exact Hframes.
    - rewrite images_app, length_app, Himg.
      simpl. lia. }
  destruct (mic_at t) as [| | |item| | | | |] eqn:Hat; simpl in Hstep;
    try (apply Hstay; symmetry; exact Hstep).
  - inversion Hstep; subst. apply Hquiet; auto. destruct (is_running _); auto.
  - unfold await in Hstep.
    destruct (audio_stream_read (world (tasks_core t))) as [[[data|e]|] w1];
      inversion Hstep; subst; apply Hquiet; simpl; auto.
    destruct (is_running _); eauto.
  - inversion Hmic as [|? ? Hitem _]; subst.
    destruct (put_advance_off t0 added (tasks_core t) item at_ c' Hstep Hm Ht Hadded Hq Hitem)
      as (extra & Hm' & Ht' & Hadded' & Hq' & Hput' & Hshown & Hcount).
    exists extra. split; simpl; [assumption| |assumption..| | |].
    + exact Ht'.
    + apply Forall_app. split; assumption.
    + rewrite shown_app, length_app, Hshown. simpl. unfold frames_in_flight in *. simpl. lia.
    + rewrite submitted_app, images_app, length_app.
      rewrite images_app, length_app.
      change (putting (Putting item)) with [item] in Himages. lia.
Qed.

Lemma video_stays_off_step t0 added t extra t' :
  video_stays_off t0 added t ->
  video_mode (tasks_core t') = "none" ->
  trace (tasks_core t') = trace (tasks_core t) ++ extra ->
  Forall (off_action t0) extra ->
  Forall (fun item => audio_item item \/ item ∈ items_pending t0)
    (out_queue_gemini (tasks_core t')) ->
  Forall (fun item => audio_item item \/ item ∈ items_in_flight t0)
    (putting (mic_at t') ++ putting (sampler_at t')) ->
  (length (shown extra) + frames_in_flight t' <= frames_in_flight t)%nat ->
  (length (images (submitted extra)) +
   length (images (putting (mic_at t') ++ putting (sampler_at t')))
   <= length (images (putting (mic_at t) ++ putting (sampler_at t))))%nat ->
  video_stays_off t0 (added ++ extra) t'.
Proof.
  intros [Hm Ht Hadded Hq Hputs Hframes Himages] Hm' Ht' Hextra Hq' Hputs' Hframes' Himages'.
  split.
  - exact Hm'.
  - rewrite Ht', Ht, app_assoc. reflexivity.
  - apply Forall_app. split; assumption.
  - exact Hq'.
  - exact Hputs'.
  - rewrite shown_app, length_app. lia.
  - rewrite submitted_app, images_app, length_app. lia.
Qed.

Lemma video_stays_off_same t0 added t t' :
  video_stays_off t0 added t ->
  tasks_core t' = tasks_core t ->
  putting (mic_at t') ++ putting (sampler_at t') = putting (mic_at t) ++ putting (sampler_at t) ->
  (frames_in_flight t' <= frames_in_flight t)%nat ->
  exists extra, video_stays_off t0 (added ++ extra) t'.
Proof.
  intros Hoff Hc Hp Hf. exists []. apply (video_stays_off_step t0 added t [] t' Hoff).
  - rewrite Hc. apply Hoff.
  - rewrite Hc, app_nil_r. reflexivity.
  - constructor.
  - rewrite Hc. apply Hoff.
  - rewrite Hp. apply Hoff.
  - simpl. exact Hf.
  - rewrite Hp. simpl. lia.
Qed.

Lemma sampler_step_off t0 added t :
  video_stays_off t0 added t ->
  exists extra, video_stays_off t0 (added ++ extra) (task_step t SamplerStep).
Proof.
  intros Hoff. pose proof Hoff as [Hm Ht Hadded Hq Hputs Hframes Himages].
  unfold task_step.
  destruct (sampler_advance (sampler_at t) (tasks_core t)) as [at_ c'] eqn:Hstep.
  destruct (sampler_at t) as [| | |item| | | | |] eqn:Hat; simpl in Hstep;
    try (inversion Hstep; subst; apply (video_stays_off_same t0 added t); simpl;
         rewrite ?Hat; auto; fail).
  - inversion Hstep; subst. apply (video_stays_off_same t0 added t); simpl; rewrite ?Hat; auto.
    destruct (is_running _); reflexivity.
  - rewrite Hm in Hstep. simpl in Hstep. inversion Hstep; subst.
    apply (video_stays_off_same t0 added t); simpl; rewrite ?Hat; auto.
  - apply Forall_app in Hputs as [Hmic Hsampler].
    inversion Hsampler as [|? ? Hitem _]; subst.
    destruct (put_advance_off t0 added (tasks_core t) item at_ c' Hstep Hm Ht Hadded Hq Hitem)
      as (extra & Hm' & Ht' & Hadded' & Hq' & Hput' & Hshown & Hcount).
    exists extra. apply (video_stays_off_step t0 added t extra); simpl; auto.
    + rewrite Ht', Ht, app_assoc. reflexivity.
    + apply Forall_app in Hadded'. apply Hadded'.
    + apply Forall_app. split; assumption.
    + rewrite Hshown. simpl. unfold frames_in_flight. simpl. lia.
    + rewrite !images_app, !length_app. rewrite Hat.
      change (putting (Putting item)) with [item]. lia.
Qed.

Ltac off_side :=
  simpl; auto;
  try (rewrite app_nil_r; reflexivity);
  try (unfold frames_in_flight; simpl; lia);
  try (repeat constructor; fail).

Lemma sender_step_off t0 added t :
  video_stays_off t0 added t ->
  exists extra, video_stays_off t0 (added ++ extra) (task_step t SenderStep).
Proof.
  intros Hoff. pose proof Hoff as [Hm Ht Hadded Hq Hputs Hframes Himages].
  unfold task_step.
  destruct (sender_advance (sender_at t) (tasks_core t)) as [at_ c'] eqn:Hstep.
  destruct (sender_at t) eqn:Hat; simpl in Hstep;
    try (inversion Hstep; subst; apply (video_stays_off_same t0 added t); simpl; auto; fail).
  unfold send_realtime_iteration, session_call in Hstep. unfold_so.
  destruct (out_queue_gemini (tasks_core t)) as [|msg q'] eqn:Hqueue; simpl in Hstep;
    [inversion Hstep; subst; apply (video_stays_off_same t0 added t); simpl; auto|].
  inversion Hq as [|? ? Hmsg Hq']; subst.
  destruct (is_running (tasks_core t)) eqn:Hrun; simpl in Hstep;
    [|exists []; inversion Hstep; subst; apply (video_stays_off_step t0 added t); off_side].
  destruct (String.eqb (msg_mime_type msg) "audio/pcm") eqn:Haudio; simpl in Hstep.
  { exists [Session (send_realtime_input_audio (msg_data msg))].
    destruct (session_send _ (world (tasks_core t))) as [[[[]|e]|] w1]; simpl in Hstep;
      inversion Hstep; subst; apply (video_stays_off_step t0 added t); off_side. }
  assert (Hpending : msg ∈ items_pending t0).
  { destruct Hmsg as [Ha|Hin]; [|exact Hin].
    unfold audio_item in Ha. rewrite Ha in Haudio. discriminate. }
  destruct (String.eqb (msg_mime_type msg) "image/jpeg") eqn:Himage; simpl in Hstep.
  - destruct (b64decode (msg_data msg)) as [data|e] eqn:Hdata; simpl in Hstep.
    + exists [Session (send_realtime_input_video data)].
      assert (Hsent : off_action t0 (Session (send_realtime_input_video data))).
      { exists msg. split; [exact Hpending|]. unfold realtime_input.
        rewrite Haudio, Himage, Hdata. reflexivity. }
      destruct (session_send _ (world (tasks_core t))) as [[[[]|e]|] w1]; simpl in Hstep;
        inversion Hstep; subst; apply (video_stays_off_step t0 added t); off_side.
    + exists []. inversion Hstep; subst.
      apply (video_stays_off_step t0 added t); off_side.
  - exists []. inversion Hstep; subst.
    apply (video_stays_off_step t0 added t); off_side.
Qed.

Lemma gui_step_off t0 added t mode :
  video_stays_off t0 added t ->
  mode <> "camera" /\ mode <> "screen" ->
  exists extra, video_stays_off t0 (added ++ extra) (task_step t (GuiSetVideoMode mode)).
Proof.
  intros Hoff [Hcam Hscreen]. pose proof Hoff as [Hm Ht Hadded Hq Hputs Hframes Himages].
  unfold task_step, set_video_mode. unfold_so.
  case_bool_decide as Hin; simpl.
  2:{ apply (video_stays_off_same t0 added t); simpl; auto. }
  assert (Hnone : mode = "none").
  { unfold video_modes in Hin.
    repeat (apply elem_of_cons in Hin; destruct Hin as [Hin|Hin]; try congruence).
    inversion Hin. }
  subst mode. simpl. exists [Emit (video_mode_changed "none")].
  apply (video_stays_off_step t0 added t); off_side.
Qed.

Ltac off_actions := repeat (constructor; [simpl; auto|]); constructor.

Ltac off_step Hoff Hat :=
  eexists;
  refine (video_stays_off_step _ _ _ _ _ Hoff _ _ _ _ _ _ _);
  [ simpl; auto
  | simpl; first [ rewrite <- ?app_assoc; reflexivity | symmetry; apply app_nil_r ]
  | off_actions
  | simpl; auto
  | simpl; auto
  | unfold frames_in_flight; simpl; rewrite ?Hat; simpl; lia
  | simpl; lia ].

Lemma capture_step_off t0 added t :
  video_stays_off t0 added t ->
  exists extra, video_stays_off t0 (added ++ extra) (task_step t CaptureStep).
Proof.
  intros Hoff. pose proof Hoff as [Hm Ht Hadded Hq Hputs Hframes Himages].
  unfold task_step.
  destruct (capture_advance (capture_at t) (tasks_core t)) as [at_ c'] eqn:Hstep.
  unfold capture_advance, guarded, capture_head, capture_opening, capture_reading,
    capture_grabbing, camera_opened, publish_frame, release_capture in Hstep.
  unfold_so.
  destruct (capture_at t) eqn:Hat;
    try (inversion Hstep; subst; off_step Hoff Hat).
  - (* at the test of the loop: the mode is "none" *)
    rewrite Hm in Hstep. simpl in Hstep.
    destruct (is_running (tasks_core t)); simpl in Hstep;
      destruct (video_capture (tasks_core t)); simpl in Hstep; inversion Hstep; subst;
      off_step Hoff Hat.
  - (* a thread was opening the camera *)
    assert (Hflight : capturing (capture_at t0) = true).
    { unfold frames_in_flight in Hframes. rewrite Hat in Hframes. simpl in Hframes.
      destruct (capturing (capture_at t0)); [reflexivity|lia]. }
    destruct (cv2_VideoCapture (world (tasks_core t))) as [[[[]|e]|] w1]; simpl in Hstep.
    + destruct (cap_isOpened w1); simpl in Hstep; inversion Hstep; subst;
        off_step Hoff Hat.
    + destruct (video_capture (tasks_core t)); simpl in Hstep; inversion Hstep; subst;
        off_step Hoff Hat.
    + inversion Hstep; subst. off_step Hoff Hat.
  - (* a thread was reading the camera *)
    assert (Hflight : capturing (capture_at t0) = true).
    { unfold frames_in_flight in Hframes. rewrite Hat in Hframes. simpl in Hframes.
      destruct (capturing (capture_at t0)); [reflexivity|lia]. }
    destruct (cap_read (world (tasks_core t))) as [[[[ok fr]|e]|] w1]; simpl in Hstep.
    + destruct ok; simpl in Hstep; [destruct fr; simpl in Hstep|];
        inversion Hstep; subst; off_step Hoff Hat.
    + destruct (video_capture (tasks_core t)); simpl in Hstep; inversion Hstep; subst;
        off_step Hoff Hat.
    + inversion Hstep; subst. off_step Hoff Hat.
  - (* a thread was grabbing the screen *)
    assert (Hflight : capturing (capture_at t0) = true).
    { unfold frames_in_flight in Hframes. rewrite Hat in Hframes. simpl in Hframes.
      destruct (capturing (capture_at t0)); [reflexivity|lia]. }
    destruct (ImageGrab_grab (world (tasks_core t))) as [[[fr|e]|] w1]; simpl in Hstep.
    + inversion Hstep; subst. off_step Hoff Hat.
    + destruct (video_capture (tasks_core t)); simpl in Hstep; inversion Hstep; subst;
        off_step Hoff Hat.
    + inversion Hstep; subst. off_step Hoff Hat.
Qed.

Lemma task_step_off t0 added t ev :
  video_stays_off t0 added t -> leaves_video_off ev ->
  exists extra, video_stays_off t0 (added ++ extra) (task_step t ev).
Proof.
  intros Hoff Hev. destruct ev as [| | | |mode].
  - apply mic_step_off, Hoff.
  - apply sampler_step_off, Hoff.
  - apply sender_step_off, Hoff.
  - apply capture_step_off, Hoff.
  - apply gui_step_off; assumption.
Qed.

Lemma run_tasks_off t0 evs : forall added t,
  video_stays_off t0 added t -> Forall leaves_video_off evs ->
  exists extra, video_stays_off t0 (added ++ extra) (run_tasks evs t).
Proof.
  induction evs as [|ev evs IH]; intros added t Hoff Hevs.
  - exists []. rewrite app_nil_r. exact Hoff.
  - inversion Hevs as [|? ? Hev Hrest]; subst.
    destruct (task_step_off t0 added t ev Hoff Hev) as [extra Hstep].
    destruct (IH _ _ Hstep Hrest) as [extra' Hrun].
    exists (extra ++ extra'). rewrite app_assoc. exact Hrun.
Qed.

Lemma off_actions_added t0 (added : list action) :
  Forall (off_action t0) added ->
  Forall (fun item => audio_item item \/ item ∈ items_in_flight t0) (submitted added) /\
  Forall (fun op => op = CamRelease \/ capturing (capture_at t0) = true) (camera_ops added) /\
  Forall (fun op => forall data, op = send_realtime_input_video data ->
            exists item, item ∈ items_pending t0 /\ realtime_input item = Some op)
    (session_ops added).
Proof.
  induction 1 as [|a added Ha _ (Hsub & Hcam & Hses)]; simpl; [repeat split; constructor|].
  destruct a as [sg|op|op|op|item]; simpl in *; repeat split; try assumption.
  - constructor; [|exact Hses]. intros data ->. exact Ha.
  - constructor; [exact Ha|exact Hcam].
  - constructor; [exact Ha|exact Hsub].
Qed.

Lemma images_nil (items : list message) :
  images items = [] -> Forall audio_item items.
Proof.
  induction items as [|item items IH]; simpl; [constructor|].
  destruct (String.eqb (msg_mime_type item) "audio/pcm") eqn:Ha; simpl; [|discriminate].
  intros Hrest. constructor; [apply String.eqb_eq, Ha|apply IH, Hrest].
Qed.
End VideoOff.



(** What was in flight when the video was switched off still arrives: the
    frame of the pending read is shown and becomes the latest frame again,
    and the image the sampler was putting is submitted and sent.  After
    that the capture task releases the camera, no other frame is shown and
    the tasks are at rest. *)
Example frame_in_flight_is_still_shown :
  video_mode (tasks_core switched_off_in_flight) = "none" /\
  latest_frame (tasks_core switched_off_in_flight) = None /\
  capture_at switched_off_in_flight = ReadingFrame /\
  sampler_at switched_off_in_flight =
    Putting (Message "image/jpeg" (Base64.encode "camera-frame")) /\
  drop (length (trace (tasks_core switched_off_in_flight)))
    (trace (tasks_core (run_tasks [CaptureStep; SamplerStep; SenderStep; SenderStep]
                          switched_off_in_flight))) =
    [Emit (frame_received (Some "camera-frame"));
     Submit (Message "image/jpeg" (Base64.encode "camera-frame"));
     Session (send_realtime_input_video "camera-frame")] /\
  latest_frame (tasks_core (run_tasks [CaptureStep; SamplerStep; SenderStep; SenderStep]
                              switched_off_in_flight)) =
    Some "camera-frame" /\
  camera_ops
    (drop (length (trace (tasks_core switched_off_in_flight)))
       (trace (tasks_core (run_tasks off_schedule switched_off_in_flight)))) =
    [CamRelease] /\
  shown
    (drop (length (trace (tasks_core switched_off_in_flight)))
       (trace (tasks_core (run_tasks off_schedule switched_off_in_flight)))) =
    [Some "camera-frame"] /\
  video_at_rest (run_tasks off_schedule switched_off_in_flight).
Proof. repeat split; vm_compute; reflexivity. Qed.

(** The codec round trip through the outbound queue.  While the
    orchestrator runs with the video on and a latest frame, a turn of the
    frame sampler submits the frame as a JPEG in base64 under the type
    "image/jpeg", unless the queue is full; where decoding undoes the
    encoding of those bytes, what [send_realtime] sends for this item is
    the video input carrying exactly the JPEG bytes of the frame; and from
    an empty queue the next turn of the sender makes that call. *)
Theorem sampled_frame_is_sent_as_jpeg {W : Type} `{World W} (c : core W) (fr : string) :
  is_running c = true ->
  video_mode c <> "none" ->
  latest_frame c = Some fr ->
  (length (out_queue_gemini c) < out_queue_maxsize)%nat ->
  b64decode (b64encode (jpeg_of_frame fr)) = Ok (jpeg_of_frame fr) ->
  let item := Message "image/jpeg" (b64encode (jpeg_of_frame fr)) in
  let c1 := snd (mux_step FrameSamplerTurn c) in
  out_queue_gemini c1 = out_queue_gemini c ++ [item] /\
  trace c1 = trace c ++ [Submit item] /\
  realtime_input item = Some (send_realtime_input_video (jpeg_of_frame fr)) /\
  (out_queue_gemini c = [] ->
   out_queue_gemini (snd (mux_step SenderTurn c1)) = [] /\
   trace (snd (mux_step SenderTurn c1)) =
     trace c ++ [Submit item; Session (send_realtime_input_video (jpeg_of_frame fr))]).
Proof.
  intros Hrun Hmode Hframe Hroom Hcodec item c1.
  assert (Hinput : realtime_input item = Some (send_realtime_input_video (jpeg_of_frame fr))).
  { unfold realtime_input, item. simpl. rewrite Hcodec. reflexivity. }
  assert (Hc1 : c1 = set_trace (trace c ++ [Submit item])
                       (set_out_queue_gemini (out_queue_gemini c ++ [item]) c)).
  { subst c1. simpl. unfold while_running_turn, send_frames_to_gemini_iteration,
      out_queue_put. unfold_so. rewrite Hrun, Hframe. simpl.
    apply String.eqb_neq in Hmode. rewrite Hmode. simpl.
    rewrite bool_decide_eq_true_2 by exact Hroom. reflexivity. }
  split; [rewrite Hc1; reflexivity|]. split; [rewrite Hc1; reflexivity|].
  split; [exact Hinput|]. intros Hempty.
  assert (Hrun1 : is_running c1 = true) by (rewrite Hc1; exact Hrun).
  assert (Hq1 : out_queue_gemini c1 = [item])
    by (rewrite Hc1; simpl; rewrite Hempty; reflexivity).
  destruct (sender_turn_forwards_head c1 item [] _ Hrun1 Hq1 Hinput) as [Hq Ht].
  split; [exact Hq|]. rewrite Ht, Hc1. simpl. rewrite <- app_assoc. reflexivity.
Qed.

Lemma sampled_frame_is_sent_as_jpeg_witness :
  trace (snd (mux_step SenderTurn (snd (mux_step FrameSamplerTurn camera_running)))) =
    trace camera_running ++
      [Submit (Message "image/jpeg" (Base64.encode "camera-frame"));
       Session (send_realtime_input_video "camera-frame")].
Proof.
  refine (proj2 (proj2 (proj2 (proj2
    (sampled_frame_is_sent_as_jpeg camera_running "camera-frame" _ _ _ _ _))) _)).
  - reflexivity.
  - discriminate.
  - reflexivity.
  - vm_compute. lia.
  - reflexivity.
  - reflexivity.
Defined.

(** ** Playback and the user text channel *)

Section PlaybackFacts.
Context {W : Type} `{World W} `{AudioOutput W}.
Implicit Type p : player W.

Lemma play_audio_loop_stopped fuel p :
  is_running (player_core p) = false -> play_audio_loop (S fuel) p = (Ret tt, p).
Proof.
  intros Hrun. destruct p as [c ws]. simpl in *.
  unfold mbind, SO_bind, so_bind, on_core, gets. simpl. rewrite Hrun. reflexivity.
Qed.

Lemma play_audio_loop_fifo fuel p :
  is_running (player_core p) = true ->
  (length (audio_in_queue_player (player_core p)) < fuel)%nat ->
  exists played,
    written (snd (play_audio_loop fuel p)) = written p ++ played /\
    played `prefix_of` audible (audio_in_queue_player (player_core p)) /\
    (fst (play_audio_loop fuel p) = Block ->
     played = audible (audio_in_queue_player (player_core p)) /\
     audio_in_queue_player (player_core (snd (play_audio_loop fuel p))) = []).
Proof.
  revert p. induction fuel as [|fuel IH]; intros [c ws] Hrun Hfuel; simpl in *; [lia|].
  unfold mbind, SO_bind, so_bind, on_core, gets. simpl. rewrite Hrun.
  unfold play_audio_iteration, mbind, SO_bind, so_bind, on_core, gets, modify, block.
  simpl. destruct (audio_in_queue_player c) as [|bytestream q'] eqn:Hq; simpl.
  { exists []. rewrite app_nil_r. rewrite Hq. auto. }
  rewrite Hrun. simpl in Hfuel. rewrite andb_true_r.
  destruct (String.eqb bytestream "") eqn:Hempty; simpl.
  - destruct (IH (Player (set_audio_in_queue_player q' c) ws)) as (played & Hw & Hpre & Hend);
      [exact Hrun | simpl; lia |].
    simpl in *. exists played. auto.
  - unfold stream_write_call, mbind, SO_bind, so_bind, on_core, modify, await. simpl.
    destruct (stream_write bytestream (world c)) as [[[[]|e]|] w1]; simpl;
      try (exists [bytestream]; split; [reflexivity|];
           split; [apply prefix_cons, prefix_nil | discriminate]).
    destruct (IH (Player (set_world w1 (set_audio_in_queue_player q' c))
                    (ws ++ [bytestream])))
      as (played & Hw & Hpre & Hend); [exact Hrun | simpl; lia |].
    simpl in *. exists (bytestream :: played). split; [|split].
    + rewrite Hw, <- app_assoc. reflexivity.
    + apply prefix_cons, Hpre.
    + intros Hblock. destruct (Hend Hblock) as [-> Hdrained]. auto.
Qed.

Local Arguments play_audio_loop : simpl never.

Lemma play_audio_fifo p :
  exists played,
    written (snd (play_audio p)) = written p ++ played /\
    played `prefix_of` audible (audio_in_queue_player (player_core p)) /\
    (is_running (player_core p) = false -> played = []) /\
    (fst (play_audio p) = Block ->
     played = audible (audio_in_queue_player (player_core p)) /\
     audio_in_queue_player (player_core (snd (play_audio p))) = []).
Proof.
  destruct p as [c ws]. unfold play_audio, mbind, SO_bind, so_bind, on_core, await. simpl.
  destruct (pya_open_output (world c)) as [[[[]|e]|] w1]; simpl;
    try (exists []; rewrite app_nil_r; repeat split; auto using prefix_nil; discriminate).
  destruct (is_running c) eqn:Hrun.
  - destruct (play_audio_loop_fifo (S (length (audio_in_queue_player c)))
                (Player (set_world w1 c) ws)) as (played & Hw & Hpre & Hend);
      [exact Hrun | simpl; lia |].
    simpl in *. exists played. repeat split; auto; try discriminate; apply Hend; assumption.
  - rewrite (play_audio_loop_stopped _ (Player (set_world w1 c) ws)) by exact Hrun.
    exists []. rewrite app_nil_r. simpl. repeat split; auto using prefix_nil; discriminate.
Qed.
End PlaybackFacts.



(** A user text silences what was queued.  When
    [process_text_input_queue] takes a text while a session is open, the
    audio that was waiting in the playback queue is never written to the
    output: [play_audio], run from the state the iteration leaves, hands
    nothing to [stream.write]. *)
Theorem user_text_silences_queued_audio {W : Type} `{World W} `{AudioOutput W}
    (c : core W) (text : string) (q' : list (option string)) (ws : list string) :
  text_input_queue c = Some text :: q' ->
  session c = true ->
  written (snd (play_audio (Player (snd (process_text_input_iteration c)) ws))) = ws.
Proof.
  intros Hq Hs.
  destruct (process_text_input_iteration_effect c text q' Hq Hs) as (_ & Hempty & _).
  destruct (play_audio_fifo (Player (snd (process_text_input_iteration c)) ws))
    as (played & Hw & Hpre & _).
  simpl in Hw, Hpre. rewrite Hempty in Hpre. apply prefix_nil_inv in Hpre.
  rewrite Hw, Hpre, app_nil_r. reflexivity.
Qed.

Lemma user_text_silences_queued_audio_witness :
  audio_in_queue_player (speaking_state "stop") = ["buf1"; "buf2"] /\
  written (snd (play_audio
                  (Player (snd (process_text_input_iteration (speaking_state "stop"))) [])))
    = [].
Proof.
  split; [reflexivity|].
  exact (user_text_silences_queued_audio (speaking_state "stop") "stop" [] []
           eq_refl eq_refl).
Defined.

Lemma client_texts_app t1 t2 : client_texts (t1 ++ t2) = client_texts t1 ++ client_texts t2.
Proof. unfold client_texts. apply omap_app. Qed.

Section TextChannel.
Context {W : Type} `{World W}.
Implicit Type c : core W.

Lemma handle_user_text_running text c :
  is_running c = true ->
  handle_user_text true text c =
    (Ret tt, set_text_input_queue (text_input_queue c ++ [Some text]) c).
Proof.
  intros Hrun. unfold handle_user_text. unfold_so. rewrite Hrun. reflexivity.
Qed.

Lemma handle_user_text_stopped loop text c :
  is_running c = false -> handle_user_text loop text c = (Ret tt, c).
Proof. intros Hrun. unfold handle_user_text. unfold_so. rewrite Hrun. reflexivity. Qed.

Lemma stop_stopped loop c : is_running c = false -> stop loop c = (Ret tt, c).
Proof. intros Hrun. unfold stop. unfold_so. rewrite Hrun. reflexivity. Qed.

Lemma stop_running c :
  is_running c = true ->
  stop true c =
    (Ret tt, set_text_input_queue (text_input_queue c ++ [None]) (set_is_running false c)).
Proof.
  intros Hrun. unfold stop, shutdown_async_tasks. unfold_so. rewrite Hrun. reflexivity.
Qed.

(** Once the task of [process_text_input_queue] has ended, nothing more is
    sent. *)
Lemma run_text_ended evs c :
  client_texts (trace (snd (run_text evs false c))) = client_texts (trace c).
Proof.
  revert c. induction evs as [|[text| |] evs IH]; intros c; simpl; [reflexivity|..].
  - rewrite IH. unfold handle_user_text. unfold_so.
    destruct (is_running c && true); reflexivity.
  - apply IH.
  - rewrite IH. unfold stop, shutdown_async_tasks. unfold_so.
    destruct (is_running c && true); reflexivity.
Qed.

(** Once the orchestrator is stopped, nothing more is sent. *)
Lemma run_text_stopped evs alive c :
  is_running c = false ->
  client_texts (trace (snd (run_text evs alive c))) = client_texts (trace c).
Proof.
  revert alive c. induction evs as [|[text| |] evs IH]; intros alive c Hrun; simpl;
    [reflexivity|..].
  - rewrite handle_user_text_stopped by exact Hrun. apply IH, Hrun.
  - destruct alive; [|apply IH, Hrun].
    unfold text_loop_turn. unfold_so. rewrite Hrun. apply run_text_ended.
  - rewrite stop_stopped by exact Hrun. apply IH, Hrun.
Qed.

Lemma run_text_fifo evs c pending :
  is_running c = true -> session c = true ->
  text_input_queue c = map Some pending ->
  exists consumed,
    client_texts (trace (snd (run_text evs true c))) =
      client_texts (trace c) ++ map (fun text => str_or text ".") consumed /\
    consumed `prefix_of` pending ++ accepted evs.
Proof.
  revert c pending. induction evs as [|[text| |] evs IH]; intros c pending Hrun Hs Hq; simpl.
  - exists []. rewrite app_nil_r. split; [reflexivity | apply prefix_nil].
  - rewrite handle_user_text_running by exact Hrun.
    destruct (IH (set_text_input_queue (text_input_queue c ++ [Some text]) c)
                (pending ++ [text])) as (consumed & Hsent & Hpre);
      [exact Hrun | exact Hs | simpl; rewrite Hq, map_app; reflexivity |].
    exists consumed. split; [exact Hsent|]. rewrite <- app_assoc in Hpre. exact Hpre.
  - unfold text_loop_turn. unfold mbind at 1, SO_bind, so_bind, gets. rewrite Hrun.
    destruct pending as [|text pending]; simpl in Hq.
    + unfold process_text_input_iteration. unfold_so. rewrite Hq. simpl.
      apply (IH c []); assumption.
    + rewrite (process_text_input_iteration_text c text (map Some pending) Hq Hs).
      destruct (session_call_trace (send_client_content (str_or text "."))
                  (purged c (map Some pending))) as (Ht & _ & _ & Hnb).
      unfold mbind, SO_bind, so_bind, mret, SO_ret, so_ret.
      destruct (session_call _ (purged c (map Some pending))) as [[[]|e| |] c1] eqn:Hcall;
        simpl in *; try congruence.
      * assert (Hc1 : is_running c1 = true /\ session c1 = true /\
                      text_input_queue c1 = map Some pending).
        { revert Hcall. unfold session_call. unfold_so. simpl.
          destruct (session_send _ (world c)) as [[[[]|e]|] w1]; simpl;
            intros [= <-]; auto. }
        destruct Hc1 as (Hrun1 & Hs1 & Hq1).
        destruct (IH c1 pending Hrun1 Hs1 Hq1) as (consumed & Hsent & Hpre).
        exists (text :: consumed). split.
        -- rewrite Hsent, Ht, client_texts_app. simpl. rewrite <- app_assoc. reflexivity.
        -- apply prefix_cons, Hpre.
      * exists [text]. rewrite run_text_ended, Ht, client_texts_app. simpl.
        split; [reflexivity | apply prefix_cons, prefix_nil].
      * exists [text]. rewrite run_text_ended, Ht, client_texts_app. simpl.
        split; [reflexivity | apply prefix_cons, prefix_nil].
  - rewrite stop_running by exact Hrun. exists [].
    rewrite run_text_stopped by reflexivity. simpl. rewrite app_nil_r.
    split; [reflexivity | apply prefix_nil].
Qed.
End TextChannel.

(** The user text channel is first in, first out, and closed by [stop].
    From a running orchestrator with an open session and an empty input
    queue, along every schedule of texts handed to [handle_user_text],
    turns of the loop of [process_text_input_queue] and calls of [stop]:
    the user turns sent to the session are, in order and each once, a
    prefix of the texts submitted before the first [stop] (an empty text
    being sent as "."); a text submitted after [stop] is never sent. *)
Theorem user_texts_are_sent_in_order {W : Type} `{World W} (c : core W)
    (evs : list text_event) :
  is_running c = true ->
  session c = true ->
  text_input_queue c = [] ->
  exists consumed,
    client_texts (trace (snd (run_text evs true c))) =
      client_texts (trace c) ++ map (fun text => str_or text ".") consumed /\
    consumed `prefix_of` accepted evs.
Proof.
  intros Hrun Hs Hq. apply (run_text_fifo evs c [] Hrun Hs Hq).
Qed.

Lemma user_texts_are_sent_in_order_witness :
  client_texts
    (trace (snd (run_text [UserText "hello"; TextLoopTurn; UserText ""; UserText "bye";
                           TextLoopTurn; StopCore; UserText "late"; TextLoopTurn]
                   true (SimWorld.connected "camera")))) = ["hello"; "."] /\
  exists consumed,
    client_texts
      (trace (snd (run_text [UserText "hello"; TextLoopTurn; UserText ""; UserText "bye";
                             TextLoopTurn; StopCore; UserText "late"; TextLoopTurn]
                     true (SimWorld.connected "camera")))) =
      client_texts (trace (SimWorld.connected "camera")) ++
        map (fun text => str_or text ".") consumed /\
    consumed `prefix_of`
      accepted [UserText "hello"; TextLoopTurn; UserText ""; UserText "bye";
                TextLoopTurn; StopCore; UserText "late"; TextLoopTurn].
Proof.
  split; [reflexivity|].
  apply (user_texts_are_sent_in_order (SimWorld.connected "camera")); reflexivity.
Defined.

(** ** The window *)

(** *** Indices into the pieces of a split *)

Lemma str_split_go_nonempty sep skip cur s : str_split_go sep skip cur s <> [].
Proof.
  revert skip cur. induction s as [|c s IH]; intros skip cur; cbn [str_split_go];
    [intros Hnil; discriminate Hnil|].
  destruct skip as [|k]; [|apply IH].
  destruct (String.prefix sep (String c s)); [intros Hnil; discriminate Hnil | apply IH].
Qed.

Lemma str_split_nonempty sep s : str_split sep s <> [].
Proof. apply str_split_go_nonempty. Qed.

Lemma str_split_go_two sep cur s :
  str_contains sep s = true -> sep <> "" ->
  exists a b rest, str_split_go sep 0 cur s = a :: b :: rest.
Proof.
  intros Hin Hsep. revert cur Hin. induction s as [|c s IH]; intros cur Hin.
  - simpl in Hin. destruct sep; [congruence | discriminate].
  - cbn [str_split_go].
    destruct (String.prefix sep (String c s)) eqn:Hpre.
    + destruct (str_split_go sep (String.length sep - 1) "" s) as [|b rest] eqn:Hrest;
        [exfalso; exact (str_split_go_nonempty _ _ _ _ Hrest)|].
      eauto.
    + apply IH. cbn [str_contains] in Hin. rewrite Hpre in Hin. exact Hin.
Qed.

Lemma last_is_Some {A} (l : list A) : l <> [] -> is_Some (last l).
Proof.
  destruct l as [|x l] using rev_ind; [congruence|]. intros _. rewrite last_snoc. eauto.
Qed.

Lemma path_parts_last path : is_Some (last (path_parts path)).
Proof. apply last_is_Some, str_split_nonempty. Qed.

Lemma search_display_text_is_Some url : is_Some (search_display_text url).
Proof.
  unfold search_display_text. destruct (str_contains "//" url) eqn:Hin; [|eauto].
  destruct (str_split_go_two "//" "" url Hin) as (a & b & rest & Hsplit); [discriminate|].
  unfold str_split. rewrite Hsplit. simpl.
  destruct (str_split_go "/" 0 "" b) as [|h t] eqn:Hparts;
    [exfalso; exact (str_split_go_nonempty _ _ _ _ Hparts)|].
  simpl. eauto.
Qed.

Lemma search_results_html_is_Some items html : is_Some (search_results_html items html).
Proof.
  revert html. induction items as [|[i url] items IH]; intros html; simpl; [eauto|].
  destruct (search_display_text_is_Some url) as [text ->]. simpl. apply IH.
Qed.

Lemma file_search_lines_is_Some items html : is_Some (file_search_lines items html).
Proof.
  revert html. induction items as [|[i path] items IH]; intros html; simpl; [eauto|].
  unfold file_search_line. destruct (path_parts_last path) as [filename ->]. simpl.
  apply IH.
Qed.

Lemma split_words_go_nil inside cur s :
  split_words_go inside cur s = [] <-> cur = "" /\ blank_go inside s = true.
Proof.
  revert inside cur. induction s as [|c s IH]; intros inside cur.
  - cbn [split_words_go blank_go].
    destruct (String.eqb_spec cur ""); split; try tauto; try discriminate.
  - cbn [split_words_go blank_go]. destruct inside as [|k]; [|apply IH].
    destruct (space_width (String c s)) as [|k].
    + rewrite IH. split; [intros [Hc _]; discriminate | intros [_ Hb]; discriminate].
    + destruct (String.eqb_spec cur "") as [->|Hcur].
      * rewrite IH. tauto.
      * split; [discriminate | tauto].
Qed.

Lemma str_split_words_nil tag : str_split_words tag = [] <-> is_blank tag = true.
Proof. unfold str_split_words, is_blank. rewrite split_words_go_nil. tauto. Qed.

(** The slots that index into the pieces of a split never leave the range.
    [update_search_results] takes [split('//')[1]] only under ['//' in url],
    where the split has two pieces at least; [update_file_search] and
    [update_file_opened] take the last piece of a split, which is never
    empty: the three return for every argument.  [update_tool_activity]
    takes the last word of the tag: it raises, before it has changed
    anything, exactly when the tag has no word (it is empty or made of
    white space only, in the sense of [str.split()]: the control characters
    U+001C to U+001F and the spaces beyond ASCII count), and otherwise
    shows that word in the title. *)
Theorem activity_slots_index_in_range (ts : string) (g : window) :
  (forall urls, is_Some (update_search_results ts urls g)) /\
  (forall query matches, is_Some (update_file_search ts query matches g)) /\
  (forall file_path, is_Some (update_file_opened ts file_path g)) /\
  (forall tag html_body,
     update_tool_activity ts tag html_body g = None <-> is_blank tag = true) /\
  (forall tag html_body g',
     update_tool_activity ts tag html_body g = Some g' ->
     exists word, last (str_split_words tag) = Some word /\
                  tool_activity_title g' = fmt ["SYSTEM ACTIVITY // "; word]).
Proof.
  split; [|split; [|split; [|split]]].
  - intros [|url urls]; unfold update_search_results; [eauto|].
    cbv beta iota zeta.
    destruct (search_results_html_is_Some (enumerate (url :: urls)) "") as [html ->].
    simpl. eauto.
  - intros query [|path matches]; unfold update_file_search; [simpl; eauto|].
    cbv beta iota zeta.
    match goal with
    | |- context [file_search_lines ?items ?html] =>
        destruct (file_search_lines_is_Some items html) as [lines ->]
    end.
    simpl. eauto.
  - intros file_path. unfold update_file_opened.
    destruct (path_parts_last file_path) as [filename ->]. simpl. eauto.
  - intros tag html_body. rewrite <- str_split_words_nil. unfold update_tool_activity.
    destruct (str_split_words tag) as [|w ws] eqn:Hwords; [simpl; tauto|].
    destruct (last_is_Some (w :: ws)) as [word Hword]; [discriminate|].
    rewrite Hword. simpl. split; discriminate.
  - intros tag html_body g' Hrun. unfold update_tool_activity in Hrun.
    destruct (last (str_split_words tag)) as [word|]; [|discriminate].
    injection Hrun as <-. exists word. split; reflexivity.
Qed.

Lemma activity_slots_index_in_range_witness :
  (exists word,
     last (str_split_words "APP LAUNCHED") = Some word /\
     tool_activity_title
       (_append_activity "12:00:00" "APP LAUNCHED" "<p>Notepad</p>"
          (set_tool_activity_title "SYSTEM ACTIVITY // LAUNCHED" new_window)) =
       fmt ["SYSTEM ACTIVITY // "; word]) /\
  update_tool_activity "12:00:00" (String (ascii_of_nat 31) "") "" new_window = None /\
  update_tool_activity "12:00:00"
    (String (ascii_of_nat 194) (String (ascii_of_nat 160) "")) "" new_window = None.
Proof.
  split; [|split].
  - exact (proj2 (proj2 (proj2 (proj2 (activity_slots_index_in_range "12:00:00" new_window))))
             "APP LAUNCHED" "<p>Notepad</p>" _ eq_refl).
  - apply (proj1 (proj2 (proj2 (proj2 (activity_slots_index_in_range "12:00:00"
                                         new_window))))).
    reflexivity.
  - apply (proj1 (proj2 (proj2 (proj2 (activity_slots_index_in_range "12:00:00"
                                         new_window))))).
    reflexivity.
Defined.

(** *** The conversation pane *)

Section Conversation.
Context {W : Type} `{World W}.
Variable markup : string -> list string -> string.
Variable at_ : nat -> moment W.

Lemma deliver_all_app k sgs1 sgs2 g :
  deliver_all markup at_ k (sgs1 ++ sgs2) g =
    g' ← deliver_all markup at_ k sgs1 g;
    deliver_all markup at_ (k + length sgs1) sgs2 g'.
Proof.
  revert k g. induction sgs1 as [|sg sgs1 IH]; intros k g; simpl.
  - rewrite Nat.add_0_r. reflexivity.
  - destruct (deliver markup (at_ k) sg g) as [g1|]; simpl; [|reflexivity].
    rewrite IH. replace (S k + length sgs1)%nat with (k + S (length sgs1))%nat by lia.
    reflexivity.
Qed.

(** Text deltas after the first of a reply are inserted at the end. *)
Lemma deliver_texts_continued k texts g :
  is_first_ada_chunk g = false ->
  exists g',
    deliver_all markup at_ k (map text_received texts) g = Some g' /\
    is_first_ada_chunk g' = false /\
    text_display g' = text_display g ++ map InsertText texts.
Proof.
  revert k g. induction texts as [|text texts IH]; intros k g Hfirst; simpl.
  - exists g. rewrite app_nil_r. auto.
  - destruct (IH (S k) (update_text text g)) as (g' & Hrun & Hfirst' & Hshown).
    { unfold update_text. rewrite Hfirst. exact Hfirst. }
    exists g'. split; [exact Hrun|]. split; [exact Hfirst'|].
    rewrite Hshown. unfold update_text. rewrite Hfirst. simpl.
    rewrite <- app_assoc. reflexivity.
Qed.

Lemma deliver_texts_reply k texts g :
  is_first_ada_chunk g = true ->
  exists g',
    deliver_all markup at_ k (map text_received texts ++ [end_of_turn]) g = Some g' /\
    is_first_ada_chunk g' = true /\
    text_display g' =
      text_display g ++
        match texts with
        | [] => []
        | _ => AppendHtml reply_header :: map InsertText texts ++ [AppendHtml ""]
        end.
Proof.
  intros Hfirst. destruct texts as [|text texts].
  - exists (add_newline g). simpl. unfold add_newline. rewrite Hfirst. simpl.
    rewrite app_nil_r. auto.
  - rewrite deliver_all_app. cbn [map deliver_all]. cbn [deliver]. cbn [mbind option_bind].
    destruct (deliver_texts_continued (S k) texts (update_text text g))
      as (g1 & Hrun & Hfirst1 & Hshown).
    { unfold update_text. rewrite Hfirst. reflexivity. }
    rewrite Hrun. cbn [mbind option_bind deliver_all deliver].
    exists (add_newline g1). split; [reflexivity|]. split; [reflexivity|].
    unfold add_newline. rewrite Hfirst1. simpl. rewrite Hshown.
    unfold update_text. rewrite Hfirst. simpl. unfold reply_header.
    rewrite <- !app_assoc. reflexivity.
Qed.
End Conversation.

(** One header per reply.  Delivered to a window that expects the first
    chunk of a reply, the text deltas of a turn followed by [end_of_turn]
    add to the conversation the header of the assistant once, then every
    delta in order, then the closing paragraph, and the window expects a
    first chunk again; a turn without text adds nothing, not even the
    header. *)
Theorem reply_header_once_per_turn {W : Type} `{World W}
    (markup : string -> list string -> string) (at_ : nat -> moment W) (k : nat)
    (texts : list string) (g : window) :
  is_first_ada_chunk g = true ->
  exists g',
    deliver_all markup at_ k (map text_received texts ++ [end_of_turn]) g = Some g' /\
    is_first_ada_chunk g' = true /\
    text_display g' =
      text_display g ++
        match texts with
        | [] => []
        | _ => AppendHtml reply_header :: map InsertText texts ++ [AppendHtml ""]
        end.
Proof. apply deliver_texts_reply. Qed.

Lemma reply_header_once_per_turn_witness :
  exists g',
    deliver_all (fun _ body => fmt body) (fun _ => Moment SimWorld.empty_world "12:00:00") 0
      (map text_received ["Hello"; ", world"] ++ [end_of_turn]) new_window = Some g' /\
    is_first_ada_chunk g' = true /\
    text_display g' =
      text_display new_window ++
        [AppendHtml reply_header; InsertText "Hello"; InsertText ", world"; AppendHtml ""].
Proof.
  exact (reply_header_once_per_turn (fun _ body => fmt body)
           (fun _ => Moment SimWorld.empty_world "12:00:00") 0 ["Hello"; ", world"]
           new_window eq_refl).
Defined.

(** *** The activity pane at the end of a turn *)

Lemma signals_emitted (sgs : list signal) : signals (map Emit sgs) = sgs.
Proof.
  unfold signals. induction sgs as [|sg sgs IH]; cbn; [reflexivity | f_equal; exact IH].
Qed.

Section ActivityPane.
Context {W : Type} `{World W}.
Variable markup : string -> list string -> string.
Variable at_ : nat -> moment W.

Lemma _append_activity_adds ts tag html g :
  length (tool_activity_display (_append_activity ts tag html g)) =
    S (length (tool_activity_display g)).
Proof. unfold _append_activity. simpl. rewrite length_app. simpl. lia. Qed.

(** The slot of one activity signal adds one block to the activity pane at
    most, and nothing when the signal is empty. *)
Lemma deliver_activity m sg g g' :
  is_turn_activity sg = true ->
  deliver markup m sg g = Some g' ->
  (length (tool_activity_display g') <= S (length (tool_activity_display g)))%nat /\
  (is_empty_activity sg = true -> g' = g).
Proof.
  intros Hact Hrun. destruct sg as [| | |urls|code result|d files| | | | | |];
    try discriminate Hact; cbn [deliver] in Hrun.
  - unfold update_search_results in Hrun. destruct urls as [|url urls].
    + injection Hrun as <-. split; [lia | reflexivity].
    + cbv beta iota zeta in Hrun.
      destruct (search_results_html _ _) as [html|]; [|discriminate Hrun].
      injection Hrun as <-. rewrite _append_activity_adds.
      split; [simpl; lia | intros He; discriminate He].
  - injection Hrun as <-. unfold display_executed_code.
    destruct code as [|a code]; [split; [simpl; lia | reflexivity]|].
    cbv beta iota zeta. cbn [String.eqb negb].
    rewrite _append_activity_adds. split; [simpl; lia | intros He; discriminate He].
  - destruct d as [| | |directory_path|]; try discriminate Hrun.
    destruct files as [| | | |files]; try discriminate Hrun.
    destruct (strings_of files) as [names|] eqn:Hnames; [|discriminate Hrun].
    cbn [mbind option_bind] in Hrun. injection Hrun as <-. unfold update_file_list.
    destruct directory_path as [|a directory_path]; [split; [simpl; lia | reflexivity]|].
    cbv beta iota zeta. cbn [String.eqb negb].
    rewrite _append_activity_adds. split; [simpl; lia | intros He; discriminate He].
Qed.

Lemma deliver_turn_activity k locals g g' :
  deliver_all markup at_ k (turn_activity locals) g = Some g' ->
  (length (tool_activity_display g') <= S (length (tool_activity_display g)))%nat.
Proof.
  unfold turn_activity. destruct (file_list_data locals) as [[d fs]|].
  - cbn [deliver_all]. intros Hrun.
    destruct (deliver markup (at_ k) (file_list_received d fs) g) as [g1|] eqn:Hone;
      [|discriminate Hrun].
    injection Hrun as <-. eapply deliver_activity; [|exact Hone]; reflexivity.
  - destruct (decide (turn_code_content locals <> "")).
    + cbn [deliver_all]. intros Hrun.
      destruct (deliver markup (at_ k) (code_being_executed _ _) g) as [g1|] eqn:Hone;
        [|discriminate Hrun].
      injection Hrun as <-. eapply deliver_activity; [|exact Hone]; reflexivity.
    + destruct (decide (turn_urls locals <> ∅)).
      * cbn [deliver_all]. intros Hrun.
        destruct (deliver markup (at_ k) (search_results_received _) g) as [g1|] eqn:Hone;
          [|discriminate Hrun].
        injection Hrun as <-. eapply deliver_activity; [|exact Hone]; reflexivity.
      * intros Hrun. change (Some g = Some g') in Hrun. injection Hrun as <-. lia.
Qed.

Lemma finish_turn_signals locals (c : core W) :
  signals_since (length (trace c)) (snd (finish_turn locals c)) =
    turn_activity locals ++ [end_of_turn; speaking_stopped].
Proof.
  unfold signals_since. rewrite (proj2 (finish_turn_trace locals c)).
  rewrite drop_app_length. apply signals_emitted.
Qed.

Lemma add_newline_activity g :
  tool_activity_display (add_newline g) = tool_activity_display g /\
  tool_activity_title (add_newline g) = tool_activity_title g.
Proof. unfold add_newline. destruct (is_first_ada_chunk g); split; reflexivity. Qed.
End ActivityPane.

(** The window after a turn.  Once the slots have run on the signals that
    [receive_text] emits when a turn ends, the next text delta opens a new
    reply (the first-chunk flag is set), the animation is not in its
    speaking state with its pulse at rest, and the activity pane has gained
    one block at most.  When the turn gathered no directory listing, no
    code and no URL, its three empty signals are each dropped by their
    slot: no slot fails, and the window is the one [add_newline] and
    [stop_speaking_animation] make of it, the activity pane and its title
    untouched. *)
Theorem turn_end_readies_the_window {W : Type} `{World W}
    (markup : string -> list string -> string) (at_ : nat -> moment W) (k : nat)
    (locals : turn_locals) (c : core W) (g : window) :
  (forall g',
     deliver_all markup at_ k
       (signals_since (length (trace c)) (snd (finish_turn locals c))) g = Some g' ->
     is_first_ada_chunk g' = true /\
     AIAnimationWidget.is_speaking (animation_widget g') = false /\
     AIAnimationWidget.pulse_angle (animation_widget g') = AIAnimationWidget.pulse_angle
                                                            AIAnimationWidget.init /\
     (length (tool_activity_display g') <= S (length (tool_activity_display g)))%nat) /\
  (idle_locals locals ->
     deliver_all markup at_ k
       (signals_since (length (trace c)) (snd (finish_turn locals c))) g =
       Some (set_animation_widget
               (AIAnimationWidget.stop_speaking_animation (animation_widget g))
               (add_newline g)) /\
     tool_activity_display (add_newline g) = tool_activity_display g /\
     tool_activity_title (add_newline g) = tool_activity_title g).
Proof.
  rewrite finish_turn_signals. split.
  - intros g'. rewrite deliver_all_app.
    destruct (deliver_all markup at_ k (turn_activity locals) g) as [g1|] eqn:Hact;
      [|discriminate].
    cbn [mbind option_bind deliver_all deliver]. intros Hrun. injection Hrun as <-.
    pose proof (deliver_turn_activity markup at_ k locals g g1 Hact) as Hlen.
    destruct (add_newline_activity g1) as [Hd _].
    cbn. repeat split.
    change (length (tool_activity_display (add_newline g1)) <=
              S (length (tool_activity_display g)))%nat.
    rewrite Hd. exact Hlen.
  - intros Hidle. split; [|apply add_newline_activity].
    rewrite (turn_activity_idle locals Hidle). destruct g as [[] ? ? ? ? ? ? ? ? ? ? ?]; reflexivity.
Qed.

Lemma turn_end_readies_the_window_witness :
  deliver_all (fun _ body => fmt body) (fun _ => Moment SimWorld.empty_world "12:00:00") 0
    (signals_since 0 (snd (finish_turn fresh_turn (SimWorld.connected "camera")))) new_window =
    Some (set_animation_widget
            (AIAnimationWidget.stop_speaking_animation (animation_widget new_window))
            (add_newline new_window)).
Proof.
  refine (proj1 (proj2 (turn_end_readies_the_window (fun _ body => fmt body)
                   (fun _ => Moment SimWorld.empty_world "12:00:00") 0 fresh_turn
                   (SimWorld.connected "camera") new_window) _)).
  repeat split.
Defined.

(** *** The video panel *)

Lemma mode_changes_app sgs1 sgs2 :
  mode_changes (sgs1 ++ sgs2) = mode_changes sgs1 ++ mode_changes sgs2.
Proof. apply omap_app. Qed.

Lemma last_mode_app (mode : string) (l1 l2 : list string) :
  default mode (last (l1 ++ l2)) = default (default mode (last l1)) (last l2).
Proof. rewrite last_app. destruct (last l2); reflexivity. Qed.

Lemma update_video_mode_ui_shows mode g : panel_shows mode (update_video_mode_ui mode g).
Proof.
  unfold update_video_mode_ui, panel_shows. cbv zeta.
  destruct (String.eqb_spec mode "camera") as [->|Hcam]; [repeat split; discriminate|].
  destruct (String.eqb_spec mode "screen") as [->|Hscreen]; [repeat split; discriminate|].
  destruct (String.eqb_spec mode "none") as [->|Hnone]; repeat split; congruence.
Qed.

Section VideoPanel.
Context {W : Type} `{World W}.
Variable markup : string -> list string -> string.
Variable at_ : nat -> moment W.
Implicit Type c : core W.

(** A slot other than [update_video_mode_ui] leaves the mode and the
    buttons alone, and puts no picture up while the mode is "none". *)
Lemma deliver_keeps_panel m sg g g' mode :
  (forall mode', sg <> video_mode_changed mode') ->
  deliver markup m sg g = Some g' ->
  panel_shows mode g -> panel_shows mode g'.
Proof.
  unfold panel_shows. intros Hsg Hrun (Hmode & Hcam & Hscreen & Hoff & Hlabel).
  destruct sg as [text| |image|urls|code result|d files|query matches|file_path|tag body
                 |mode'| |]; cbn [deliver] in Hrun.
  - injection Hrun as <-. unfold update_text.
    destruct (is_first_ada_chunk g); repeat split; assumption.
  - injection Hrun as <-. unfold add_newline.
    destruct (is_first_ada_chunk g); repeat split; assumption.
  - injection Hrun as <-. unfold update_frame. rewrite Hmode.
    destruct (String.eqb_spec mode "none") as [->|Hnone].
    + repeat split; assumption.
    + destruct image; repeat split; try assumption; intros; contradiction.
  - unfold update_search_results in Hrun. destruct urls as [|url urls].
    + injection Hrun as <-. repeat split; assumption.
    + cbv beta iota zeta in Hrun.
      destruct (search_results_html _ _) as [html|]; [|discriminate Hrun].
      injection Hrun as <-. repeat split; assumption.
  - injection Hrun as <-. unfold display_executed_code.
    destruct (String.eqb code ""); repeat split; assumption.
  - destruct d as [| | |directory_path|]; try discriminate Hrun.
    destruct files as [| | | |files]; try discriminate Hrun.
    destruct (strings_of files) as [names|]; [|discriminate Hrun].
    cbn [mbind option_bind] in Hrun. injection Hrun as <-. unfold update_file_list.
    destruct (String.eqb directory_path ""); repeat split; assumption.
  - destruct query as [| | |query|]; try discriminate Hrun.
    unfold update_file_search in Hrun. cbv zeta in Hrun.
    match type of Hrun with
    | (?html ≫= _) = _ => destruct html as [html'|]; [|discriminate Hrun]
    end.
    injection Hrun as <-. repeat split; assumption.
  - unfold update_file_opened in Hrun. cbv zeta in Hrun.
    destruct (last _) as [filename|]; [|discriminate Hrun].
    injection Hrun as <-. repeat split; assumption.
  - unfold update_tool_activity in Hrun.
    destruct (last _) as [word|]; [|discriminate Hrun].
    injection Hrun as <-. repeat split; assumption.
  - exfalso. exact (Hsg mode' eq_refl).
  - injection Hrun as <-. repeat split; assumption.
  - injection Hrun as <-. repeat split; assumption.
Qed.

Lemma deliver_all_panel sgs k g g' mode :
  deliver_all markup at_ k sgs g = Some g' ->
  panel_shows mode g ->
  panel_shows (default mode (last (mode_changes sgs))) g'.
Proof.
  revert k g mode. induction sgs as [|sg sgs IH]; intros k g mode Hrun Hg.
  - injection Hrun as <-. exact Hg.
  - cbn [deliver_all] in Hrun.
    destruct (deliver markup (at_ k) sg g) as [g1|] eqn:Hone; [|discriminate Hrun].
    cbn [mbind option_bind] in Hrun.
    assert (Hstep : exists mode1,
               panel_shows mode1 g1 /\
               default mode (last (mode_changes (sg :: sgs))) =
                 default mode1 (last (mode_changes sgs))).
    { destruct sg as [| | | | | | | | |mode'| |];
        try (exists mode; split;
             [eapply deliver_keeps_panel; [|exact Hone|exact Hg]; intros; discriminate
             | reflexivity]).
      exists mode'. split.
      - cbn [deliver] in Hone. injection Hone as <-. apply update_video_mode_ui_shows.
      - change (mode_changes (video_mode_changed mode' :: sgs))
          with ([mode'] ++ mode_changes sgs).
        rewrite last_mode_app. reflexivity. }
    destruct Hstep as (mode1 & Hg1 & ->). exact (IH (S k) g1 mode1 Hrun Hg1).
Qed.

Lemma deliver_video_signals sgs k g :
  forallb video_signal sgs = true -> is_Some (deliver_all markup at_ k sgs g).
Proof.
  revert k g. induction sgs as [|sg sgs IH]; intros k g Hall; [eexists; reflexivity|].
  cbn [forallb] in Hall. apply andb_true_iff in Hall as [Hsg Hall].
  destruct sg; try discriminate Hsg; cbn [deliver_all deliver mbind option_bind];
    apply IH, Hall.
Qed.

(** One step of the capture pipeline: what the trace gains are signals of
    the video, and the mode of the core is the last one announced. *)
Lemma video_step_announces ev c :
  exists added,
    trace (snd (video_step ev c)) = trace c ++ added /\
    forallb video_signal (signals added) = true /\
    video_mode (snd (video_step ev c)) =
      default (video_mode c) (last (mode_changes (signals added))).
Proof.
  destruct ev as [mode| |]; cbn [video_step].
  - unfold set_video_mode. unfold_so. case_bool_decide; simpl.
    + destruct (String.eqb mode "none"); simpl;
        (eexists; split; [reflexivity|]; split; reflexivity).
    + exists []. rewrite app_nil_r. repeat split.
  - unfold stream_video_to_gui_turn, stream_video_iteration, capture_frame,
      publish_frame, release_capture. unfold_so. case_matches;
      rewrite <- ?app_assoc;
      first [ exists []; rewrite app_nil_r; repeat split; fail
            | eexists; split; [reflexivity|]; split; reflexivity ].
  - exists []. simpl. rewrite app_nil_r. repeat split.
Qed.

Lemma run_video_announces evs c :
  exists added,
    trace (run_video evs c) = trace c ++ added /\
    forallb video_signal (signals added) = true /\
    video_mode (run_video evs c) =
      default (video_mode c) (last (mode_changes (signals added))).
Proof.
  revert c. induction evs as [|ev evs IH]; intros c; cbn [run_video].
  - exists []. rewrite app_nil_r. repeat split.
  - destruct (video_step_announces ev c) as (a1 & Ht1 & Hv1 & Hm1).
    destruct (IH (snd (video_step ev c))) as (a2 & Ht2 & Hv2 & Hm2).
    exists (a1 ++ a2). rewrite Ht2, Ht1, app_assoc. split; [reflexivity|].
    rewrite signals_app, forallb_app, Hv1, Hv2, mode_changes_app, last_mode_app, <- Hm1.
    split; [reflexivity | exact Hm2].
Qed.
End VideoPanel.

(** The video panel follows the mode of [AI_Core].  [setup_backend_thread]
    ends by showing the mode the core starts in.  From a window that shows
    the mode of the core, and for every schedule of mode switches, turns of
    the capture loop and stops: the slots run on the signals the core has
    emitted since, in the order of emission, all succeed; and whenever the
    slots have run on signals among which the changes of mode are those the
    core announced, in that order (frames may be late, lost or mixed with
    any other signal), the window shows the mode the core is in: the same
    mode, the button of that mode marked and no other, and no picture left
    while the mode is "none". *)
Theorem video_panel_follows_mode {W : Type} `{World W}
    (markup : string -> list string -> string) (at_ : nat -> moment W) (k : nat)
    (evs : list video_event) (c : core W) (g : window) :
  shows_mode c g ->
  (forall g0, shows_mode c (update_video_mode_ui (video_mode c) g0)) /\
  is_Some (deliver_all markup at_ k
             (signals_since (length (trace c)) (run_video evs c)) g) /\
  (forall sgs g',
     mode_changes sgs =
       mode_changes (signals_since (length (trace c)) (run_video evs c)) ->
     deliver_all markup at_ k sgs g = Some g' ->
     shows_mode (run_video evs c) g').
Proof.
  intros Hg. split; [intros g0; apply update_video_mode_ui_shows|].
  destruct (run_video_announces evs c) as (added & Htrace & Hvideo & Hmode).
  unfold signals_since. rewrite Htrace, drop_app_length. split.
  - apply deliver_video_signals, Hvideo.
  - intros sgs g' Hsgs Hrun. unfold shows_mode. rewrite Hmode, <- Hsgs.
    exact (deliver_all_panel markup at_ sgs k g g' (video_mode c) Hrun Hg).
Qed.

Lemma video_panel_follows_mode_witness :
  exists g',
    deliver_all (fun _ body => fmt body)
      (fun _ => Moment SimWorld.empty_world "12:00:00") 0
      [video_mode_changed "none"; frame_received (Some "camera-frame")]
      (update_video_mode_ui "camera" new_window) = Some g' /\
    video_label g' = None /\
    shows_mode (run_video [CaptureLoopTurn; SetVideoMode "none"] (SimWorld.init "camera")) g'.
Proof.
  eexists. split; [reflexivity|]. split; [reflexivity|].
  refine (proj2 (proj2 (video_panel_follows_mode (fun _ body => fmt body)
                          (fun _ => Moment SimWorld.empty_world "12:00:00") 0
                          [CaptureLoopTurn; SetVideoMode "none"] (SimWorld.init "camera")
                          (update_video_mode_ui "camera" new_window) _))
            [video_mode_changed "none"; frame_received (Some "camera-frame")] _ _ _).
  - repeat split; discriminate.
  - reflexivity.
  - reflexivity.
Defined.

(** *** The input box *)

(** What is typed reaches the session, stripped.  [send_user_text] ignores
    an input box that [str.strip()] empties, one that holds white space
    only: nothing is shown, nothing is submitted and the box keeps its
    content.  Otherwise the text without its leading and trailing white
    space is submitted and the box is cleared;
    and with the orchestrator running, a session open and nothing waiting,
    [handle_user_text] queues that text and the next iteration of
    [process_text_input_queue] sends exactly it as the user turn (never the
    "." that stands in for an empty text) and leaves the input queue
    empty. *)
Theorem typed_text_reaches_the_session {W : Type} `{World W} (g : window) (c : core W) :
  is_running c = true -> session c = true -> text_input_queue c = [] ->
  if String.eqb (str_strip (input_box g)) "" then send_user_text g = g
  else
    input_box (send_user_text g) = "" /\
    user_text_submitted (send_user_text g) =
      user_text_submitted g ++ [str_strip (input_box g)] /\
    client_texts
      (trace (snd (process_text_input_iteration
                     (snd (handle_user_text true (str_strip (input_box g)) c))))) =
      client_texts (trace c) ++ [str_strip (input_box g)] /\
    text_input_queue
      (snd (process_text_input_iteration
              (snd (handle_user_text true (str_strip (input_box g)) c)))) = [].
Proof.
  intros Hrun Hs Hq. unfold send_user_text. cbv zeta.
  destruct (String.eqb (str_strip (input_box g)) "") eqn:Hblank; [reflexivity|].
  cbn [negb]. split; [reflexivity|]. split; [reflexivity|].
  rewrite handle_user_text_running by exact Hrun. rewrite Hq. cbn [app snd].
  set (c1 := set_text_input_queue [Some (str_strip (input_box g))] c).
  destruct (process_text_input_iteration_effect c1 (str_strip (input_box g)) []
              eq_refl Hs) as (_ & _ & Htrace & _).
  split.
  - rewrite Htrace, client_texts_app. unfold str_or. rewrite Hblank. reflexivity.
  - unfold process_text_input_iteration, purge_speech_queues, session_call. unfold_so.
    simpl. rewrite Hs. simpl.
    destruct (session_send _ (world c)) as [[[[]|e]|] w1]; reflexivity.
Qed.

Lemma typed_text_reaches_the_session_witness :
  client_texts
    (trace (snd (process_text_input_iteration
                   (snd (handle_user_text true "open notes"
                           (SimWorld.connected "camera")))))) = ["open notes"] /\
  send_user_text (set_input_box "   " new_window) = set_input_box "   " new_window /\
  send_user_text (set_input_box ideographic_space new_window) =
    set_input_box ideographic_space new_window.
Proof.
  split; [|split].
  - exact (proj1 (proj2 (proj2 (typed_text_reaches_the_session
                                  (set_input_box "  open notes " new_window)
                                  (SimWorld.connected "camera") eq_refl eq_refl eq_refl)))).
  - exact (typed_text_reaches_the_session (set_input_box "   " new_window)
             (SimWorld.connected "camera") eq_refl eq_refl eq_refl).
  - exact (typed_text_reaches_the_session (set_input_box ideographic_space new_window)
             (SimWorld.connected "camera") eq_refl eq_refl eq_refl).
Defined.

(** *** The animation widget *)

Lemma iter_period {A : Type} (f : A -> A) (z : A) (p n : nat) :
  p <> 0%nat -> Nat.iter p f z = z -> Nat.iter n f z = Nat.iter (n mod p) f z.
Proof.
  intros Hp Hz.
  assert (Hn : n = (n mod p + p * (n / p))%nat)
    by (rewrite Nat.add_comm; apply Nat.div_mod_eq).
  revert Hn. generalize (n mod p)%nat (n / p)%nat. intros r q ->.
  rewrite Nat.iter_add. f_equal.
  induction q as [|q IH]; [rewrite Nat.mul_0_r; reflexivity|].
  rewrite Nat.mul_succ_r, Nat.add_comm, Nat.iter_add, IH. exact Hz.
Qed.

Lemma angle_y_run evs w :
  AIAnimationWidget.angle_y (fold_left AIAnimationWidget.step evs w) =
    Nat.iter (AIAnimationWidget.count_ticks evs) AIAnimationWidget.turn_y
      (AIAnimationWidget.angle_y w).
Proof.
  revert w. induction evs as [|[| |] evs IH]; intros w; [reflexivity| | |];
    cbn [fold_left AIAnimationWidget.step]; rewrite IH; [|reflexivity..].
  change (AIAnimationWidget.count_ticks (AIAnimationWidget.Tick :: evs))
    with (S (AIAnimationWidget.count_ticks evs)).
  rewrite Nat.iter_succ_r. reflexivity.
Qed.

Lemma angle_x_run evs w :
  AIAnimationWidget.angle_x (fold_left AIAnimationWidget.step evs w) =
    Nat.iter (AIAnimationWidget.count_ticks evs) AIAnimationWidget.turn_x
      (AIAnimationWidget.angle_x w).
Proof.
  revert w. induction evs as [|[| |] evs IH]; intros w; [reflexivity| | |];
    cbn [fold_left AIAnimationWidget.step]; rewrite IH; [|reflexivity..].
  change (AIAnimationWidget.count_ticks (AIAnimationWidget.Tick :: evs))
    with (S (AIAnimationWidget.count_ticks evs)).
  rewrite Nat.iter_succ_r. reflexivity.
Qed.

Lemma speaking_run evs w :
  AIAnimationWidget.is_speaking (fold_left AIAnimationWidget.step evs w) =
    fold_left (fun b ev => match ev with
                           | AIAnimationWidget.Tick => b
                           | AIAnimationWidget.Started => true
                           | AIAnimationWidget.Stopped => false
                           end) evs (AIAnimationWidget.is_speaking w).
Proof.
  revert w. induction evs as [|[| |] evs IH]; intros w; [reflexivity| | |];
    cbn [fold_left AIAnimationWidget.step]; rewrite IH; reflexivity.
Qed.

Lemma pulse_at_rest evs w :
  (AIAnimationWidget.is_speaking w = false ->
   AIAnimationWidget.pulse_angle w = AIAnimationWidget.pulse_angle AIAnimationWidget.init) ->
  AIAnimationWidget.is_speaking (fold_left AIAnimationWidget.step evs w) = false ->
  AIAnimationWidget.pulse_angle (fold_left AIAnimationWidget.step evs w) =
    AIAnimationWidget.pulse_angle AIAnimationWidget.init.
Proof.
  revert w. induction evs as [|ev evs IH]; intros w Hw; [exact Hw|].
  cbn [fold_left]. apply IH. destruct ev; cbn.
  - destruct (AIAnimationWidget.is_speaking w); [discriminate | intros _; auto].
  - discriminate.
  - reflexivity.
Qed.

Lemma turn_y_period :
  Nat.iter AIAnimationWidget.period_y AIAnimationWidget.turn_y
    (AIAnimationWidget.angle_y AIAnimationWidget.init) =
    AIAnimationWidget.angle_y AIAnimationWidget.init.
Proof. vm_compute. reflexivity. Qed.

Lemma turn_x_period :
  Nat.iter AIAnimationWidget.period_x AIAnimationWidget.turn_x
    (AIAnimationWidget.angle_x AIAnimationWidget.init) =
    AIAnimationWidget.angle_x AIAnimationWidget.init.
Proof. vm_compute. reflexivity. Qed.

Lemma turn_y_in_circle n :
  (n < AIAnimationWidget.period_y)%nat ->
  AIAnimationWidget.in_circle
    (Nat.iter n AIAnimationWidget.turn_y (AIAnimationWidget.angle_y AIAnimationWidget.init)) =
    true.
Proof.
  intros Hn.
  assert (Hall : forallb (fun n => AIAnimationWidget.in_circle
                            (Nat.iter n AIAnimationWidget.turn_y
                               (AIAnimationWidget.angle_y AIAnimationWidget.init)))
                   (seq 0 AIAnimationWidget.period_y) = true)
    by (vm_compute; reflexivity).
  rewrite forallb_forall in Hall. apply Hall. apply in_seq. lia.
Qed.

Lemma turn_x_in_circle n :
  (n < AIAnimationWidget.period_x)%nat ->
  AIAnimationWidget.in_circle
    (Nat.iter n AIAnimationWidget.turn_x (AIAnimationWidget.angle_x AIAnimationWidget.init)) =
    true.
Proof.
  intros Hn.
  assert (Hall : forallb (fun n => AIAnimationWidget.in_circle
                            (Nat.iter n AIAnimationWidget.turn_x
                               (AIAnimationWidget.angle_x AIAnimationWidget.init)))
                   (seq 0 AIAnimationWidget.period_x) = true)
    by (vm_compute; reflexivity).
  rewrite forallb_forall in Hall. apply Hall. apply in_seq. lia.
Qed.

Lemma angles_ticks n w :
  AIAnimationWidget.angle_y (AIAnimationWidget.ticks n w) =
    Nat.iter n AIAnimationWidget.turn_y (AIAnimationWidget.angle_y w) /\
  AIAnimationWidget.angle_x (AIAnimationWidget.ticks n w) =
    Nat.iter n AIAnimationWidget.turn_x (AIAnimationWidget.angle_x w).
Proof.
  revert w. induction n as [|n IH]; intros w; [split; reflexivity|].
  cbn [AIAnimationWidget.ticks]. rewrite !Nat.iter_succ_r.
  destruct (IH (AIAnimationWidget.update_animation w)) as [-> ->]. split; reflexivity.
Qed.

(** The animation keeps its angles in the circle.  Whatever ticks of the
    timer and speaking signals the widget has received since it was made,
    both rotation angles lie from 0 (included) to 360 (excluded), as
    binary64 numbers; the angle about the vertical axis depends only on the
    number of ticks modulo 450, the other one on the number of ticks modulo
    1801 (not 1800: the 1800 steps of 0.2 add up to less than 360); the
    widget is in its speaking state exactly when the last speaking signal
    was [speaking_started]; and when it is not, its pulse is at rest. *)
Theorem animation_angles_stay_in_circle (evs : list AIAnimationWidget.event) :
  AIAnimationWidget.in_circle (AIAnimationWidget.angle_y (AIAnimationWidget.run evs)) = true /\
  AIAnimationWidget.in_circle (AIAnimationWidget.angle_x (AIAnimationWidget.run evs)) = true /\
  AIAnimationWidget.angle_y (AIAnimationWidget.run evs) =
    AIAnimationWidget.angle_y
      (AIAnimationWidget.ticks
         (AIAnimationWidget.count_ticks evs mod AIAnimationWidget.period_y)
         AIAnimationWidget.init) /\
  AIAnimationWidget.angle_x (AIAnimationWidget.run evs) =
    AIAnimationWidget.angle_x
      (AIAnimationWidget.ticks
         (AIAnimationWidget.count_ticks evs mod AIAnimationWidget.period_x)
         AIAnimationWidget.init) /\
  AIAnimationWidget.is_speaking (AIAnimationWidget.run evs) =
    AIAnimationWidget.last_speaking evs /\
  (AIAnimationWidget.is_speaking (AIAnimationWidget.run evs) = false ->
   AIAnimationWidget.pulse_angle (AIAnimationWidget.run evs) =
     AIAnimationWidget.pulse_angle AIAnimationWidget.init).
Proof.
  unfold AIAnimationWidget.run.
  rewrite angle_y_run, angle_x_run.
  rewrite (iter_period AIAnimationWidget.turn_y _ AIAnimationWidget.period_y
             (AIAnimationWidget.count_ticks evs) ltac:(discriminate) turn_y_period).
  rewrite (iter_period AIAnimationWidget.turn_x _ AIAnimationWidget.period_x
             (AIAnimationWidget.count_ticks evs) ltac:(discriminate) turn_x_period).
  split; [apply turn_y_in_circle, Nat.mod_upper_bound; discriminate|].
  split; [apply turn_x_in_circle, Nat.mod_upper_bound; discriminate|].
  split; [symmetry; apply angles_ticks|].
  split; [symmetry; apply angles_ticks|].
  split; [apply speaking_run|].
  apply pulse_at_rest. reflexivity.
Qed.

(** ** [_open_direct_youtube] and [_search_and_open]: the URL that is opened *)

Lemma no_space_append s t : no_space (String.append s t) = no_space s && no_space t.
Proof.
  unfold no_space. induction s as [|c s IH]; [reflexivity|].
  change (String.append (String c s) t) with (String c (String.append s t)).
  cbn [list_ascii_of_string forallb]. rewrite IH. apply andb_assoc.
Qed.

Lemma no_space_replace r s :
  no_space r = true -> no_space (str_replace_char " " r s) = true.
Proof.
  intros Hr. induction s as [|c s IH]; [reflexivity|]. cbn [str_replace_char].
  destruct (Ascii.eqb " " c) eqn:Hc.
  - rewrite no_space_append, Hr, IH. reflexivity.
  - unfold no_space in *. cbn [list_ascii_of_string forallb]. rewrite Hc, IH. reflexivity.
Qed.

Lemma succeeded_mk_result status message :
  succeeded (mk_result status message) = String.eqb status "success".
Proof. unfold succeeded, mk_result. rewrite lookup_insert_eq. reflexivity. Qed.

Lemma no_space_concat (pieces : list string) :
  forallb no_space pieces = true -> no_space (fmt pieces) = true.
Proof.
  unfold fmt. induction pieces as [|p [|p' pieces] IH]; intros Hall; [reflexivity| |].
  - cbn in Hall |- *. rewrite andb_true_r in Hall. exact Hall.
  - cbn [forallb] in Hall. apply andb_true_iff in Hall as [Hp Hall].
    cbn [String.concat]. rewrite !no_space_append, Hp. cbn [andb].
    change (no_space "") with true. cbn [andb]. apply IH, Hall.
Qed.

Section BrowserCalls.
Context {W : Type} `{World W}.

Lemma browser_call_opens (url : string) (message : string) (w : W) :
  opens url w
    (try_except (call (webbrowser_open url) ;; mret (mk_result "success" message))
       (fun e => mret (mk_result "error" (fmt ["An error occurred: "; exn_str e]))) w).
Proof.
  unfold opens, try_except, call. unfold mbind, SO_bind, so_bind, mret, SO_ret, so_ret.
  destruct (webbrowser_open url w) as [[[]|e] w1]; simpl; split; try reflexivity;
    eexists; (split; [reflexivity|]); apply succeeded_mk_result.
Qed.
End BrowserCalls.

(** The search helpers open a URL without a space.  On a non-empty query,
    [_open_direct_youtube] and [_search_and_open] make one call of the
    browser, on a URL that holds no space character: each space of the
    query is replaced by "+" in a search URL and dropped in a YouTube
    handle URL, and every other character of the query is passed on as it
    is.  The world is the one that call leaves, and the status is
    "success" exactly when the call returns. *)
Theorem search_urls_have_no_space {W : Type} `{World W}
    (q : string) (content_type platform : value) (w : W) :
  q <> "" ->
  (exists url,
     no_space url = true /\
     url = (if value_is content_type "channel"
            then fmt ["https://www.youtube.com/results?search_query=";
                      str_replace_char " " "+" q; "&sp=EgIQAg%253D%253D"]
            else if value_is content_type "video"
            then fmt ["https://www.youtube.com/results?search_query=";
                      str_replace_char " " "+" q; "&sp=EgIQAQ%253D%253D"]
            else fmt ["https://www.youtube.com/results?search_query=";
                      str_replace_char " " "+" q]) /\
     opens url w (_open_direct_youtube (VStr q) content_type w)) /\
  (exists url,
     no_space url = true /\
     url = (if value_is platform "youtube"
            then fmt ["https://www.youtube.com/@"; str_replace_char " " "" q]
            else if value_is platform "google"
            then fmt ["https://www.google.com/search?q="; str_replace_char " " "+" q]
            else fmt ["https://www.youtube.com/results?search_query=";
                      str_replace_char " " "+" q]) /\
     opens url w (_search_and_open (VStr q) platform w)).
Proof.
  intros Hq. split.
  - eexists. split; [|split; [reflexivity|]].
    + destruct (value_is content_type "channel"); [|destruct (value_is content_type "video")];
        apply no_space_concat; cbn [forallb]; rewrite no_space_replace by reflexivity;
        reflexivity.
    + unfold _open_direct_youtube. rewrite not_a_path_str by exact Hq.
      destruct (value_is content_type "channel"); [apply browser_call_opens|].
      destruct (value_is content_type "video"); apply browser_call_opens.
  - eexists. split; [|split; [reflexivity|]].
    + destruct (value_is platform "youtube"); [|destruct (value_is platform "google")];
        apply no_space_concat; cbn [forallb]; rewrite no_space_replace by reflexivity;
        reflexivity.
    + unfold _search_and_open. rewrite not_a_path_str by exact Hq.
      destruct (value_is platform "youtube"); [apply browser_call_opens|].
      destruct (value_is platform "google"); apply browser_call_opens.
Qed.

Lemma search_urls_have_no_space_witness :
  opens "https://www.youtube.com/@lofihiphop" SimWorld.empty_world
    (_search_and_open (VStr "lofi hip hop") (VStr "youtube") SimWorld.empty_world) /\
  opens "https://www.youtube.com/results?search_query=tom+&+jerry&sp=EgIQAQ%253D%253D"
    SimWorld.empty_world
    (_open_direct_youtube (VStr "tom & jerry") (VStr "video") SimWorld.empty_world).
Proof.
  split.
  - destruct (search_urls_have_no_space "lofi hip hop" (VStr "channel") (VStr "youtube")
                SimWorld.empty_world) as [_ (url & _ & Hurl & Hopens)]; [discriminate|].
    vm_compute in Hurl. subst url. exact Hopens.
  - destruct (search_urls_have_no_space "tom & jerry" (VStr "video") (VStr "youtube")
                SimWorld.empty_world) as [(url & _ & Hurl & Hopens) _]; [discriminate|].
    vm_compute in Hurl. subst url. exact Hopens.
Defined.

(** ** [tts]: the connection of a speech episode *)

Lemma websocket_ops_app t1 t2 :
  websocket_ops (t1 ++ t2) = websocket_ops t1 ++ websocket_ops t2.
Proof. apply omap_app. Qed.

Section EpisodeConnection.
Context {W : Type} `{World W}.
Implicit Type c : core W.

Lemma websocket_send_ops text c :
  websocket_ops (trace (snd (websocket_send text c))) =
    websocket_ops (trace c) ++ [WsSend text] /\
  response_queue_tts (snd (websocket_send text c)) = response_queue_tts c /\
  fst (websocket_send text c) <> Block.
Proof.
  unfold websocket_send. unfold_so. simpl.
  destruct (ws_send text (world c)) as [[[[]|e]|] w']; simpl;
    rewrite websocket_ops_app; repeat split; discriminate.
Qed.

Lemma tts_forward_fragments_ops fuel c :
  exists sends,
    sends `prefix_of` following_sends (response_queue_tts c) /\
    websocket_ops (trace (snd (tts_forward_fragments fuel c))) =
      websocket_ops (trace c) ++ map WsSend sends.
Proof.
  revert c. induction fuel as [|fuel IH]; intros c.
  { exists []. split; [apply prefix_nil | simpl; rewrite app_nil_r; reflexivity]. }
  cbn [tts_forward_fragments]. unfold mbind, SO_bind, so_bind, gets. simpl.
  destruct (is_running c);
    [|exists []; split; [apply prefix_nil | simpl; rewrite app_nil_r; reflexivity]].
  destruct (response_queue_tts c) as [|[text_chunk|] q'] eqn:Hq.
  - exists []. split; [apply prefix_nil | simpl; rewrite app_nil_r; reflexivity].
  - unfold modify. simpl.
    set (c1 := set_response_queue_tts q' c).
    destruct (websocket_send_ops (String.append text_chunk " ") c1) as (Hops & Hqueue & _).
    destruct (websocket_send (String.append text_chunk " ") c1) as [[[]|e| |] c2];
      simpl in Hops, Hqueue |- *;
      try (exists [String.append text_chunk " "]; split;
           [apply prefix_cons, prefix_nil | exact Hops]).
    destruct (IH c2) as (sends & Hpre & Hsends). rewrite Hqueue in Hpre.
    exists (String.append text_chunk " " :: sends). split; [apply prefix_cons, Hpre|].
    rewrite Hsends, Hops, <- app_assoc. reflexivity.
  - unfold modify. simpl.
    set (c1 := set_response_queue_tts q' c).
    destruct (websocket_send_ops "" c1) as (Hops & _ & _).
    exists [""]. split; [reflexivity | exact Hops].
Qed.

(** The body of [async with]: the messages are the first ones of the
    episode, the priming message at least. *)
Lemma tts_sending_ops text_chunk fuel c :
  let body :=
    websocket_send " " ;;
    websocket_send (String.append text_chunk " ") ;;
    tts_forward_fragments fuel ;;
    audio ← await ws_listen;
    modify (fun c => set_audio_in_queue_player (audio_in_queue_player c ++ audio) c) in
  exists sends,
    " " :: sends `prefix_of` episode_sends text_chunk (response_queue_tts c) /\
    websocket_ops (trace (snd (body c))) =
      websocket_ops (trace c) ++ map WsSend (" " :: sends).
Proof.
  intros body. subst body. unfold mbind, SO_bind, so_bind.
  destruct (websocket_send_ops " " c) as (Hops1 & Hq1 & _).
  destruct (websocket_send " " c) as [[[]|e| |] c1]; simpl in Hops1, Hq1 |- *;
    try (exists []; split; [apply prefix_cons, prefix_nil | exact Hops1]).
  destruct (websocket_send_ops (String.append text_chunk " ") c1) as (Hops2 & Hq2 & _).
  destruct (websocket_send (String.append text_chunk " ") c1) as [[[]|e| |] c2];
    simpl in Hops2, Hq2 |- *;
    try (exists [String.append text_chunk " "]; split;
         [apply prefix_cons, prefix_cons, prefix_nil
         | rewrite Hops2, Hops1, <- app_assoc; reflexivity]).
  destruct (tts_forward_fragments_ops fuel c2) as (sends & Hpre & Hops3).
  rewrite Hq2, Hq1 in Hpre.
  exists (String.append text_chunk " " :: sends).
  split; [apply prefix_cons, prefix_cons, Hpre|].
  assert (Hall : websocket_ops (trace (snd (tts_forward_fragments fuel c2))) =
                 websocket_ops (trace c) ++
                   map WsSend (" " :: String.append text_chunk " " :: sends)).
  { rewrite Hops3, Hops2, Hops1, <- !app_assoc. reflexivity. }
  destruct (tts_forward_fragments fuel c2) as [[[]|e| |] c3]; simpl in Hall |- *;
    try exact Hall.
  unfold await, modify.
  destruct (ws_listen (world c3)) as [[[audio|e]|] w']; simpl; exact Hall.
Qed.

Lemma bind_run {A B} (m : SO (core W) A) (k : A -> SO (core W) B) c :
  (m ≫= k) c =
    match m c with
    | (Ret a, c') => k a c'
    | (Raise e, c') => (Raise e, c')
    | (Cancelled, c') => (Cancelled, c')
    | (Block, c') => (Block, c')
    end.
Proof. reflexivity. Qed.

Lemma finally_close_ops (body : SO (core W) unit) (sends : list string) c :
  websocket_ops (trace (snd (body c))) = websocket_ops (trace c) ++ map WsSend sends ->
  websocket_ops (trace (snd (try_finally body (log (Websocket WsClose)) c))) =
    websocket_ops (trace c) ++ map WsSend sends ++
      match fst (try_finally body (log (Websocket WsClose)) c) with
      | Block => []
      | _ => [WsClose]
      end.
Proof.
  intros Hbody. unfold try_finally, log, modify.
  destruct (body c) as [[[]|e| |] c1]; cbn [fst snd trace set_trace] in Hbody |- *;
    rewrite ?websocket_ops_app, Hbody, <- ?app_assoc, ?app_nil_r; reflexivity.
Qed.

Lemma tts_connection_ops text_chunk fuel c :
  exists sends,
    sends `prefix_of` episode_sends text_chunk (response_queue_tts c) /\
    websocket_ops (trace (snd (tts_connection text_chunk fuel c))) =
      websocket_ops (trace c) ++ connection_ops (fst (tts_connection text_chunk fuel c)) sends.
Proof.
  unfold tts_connection. rewrite bind_run.
  assert (Hconn : trace (snd (await ws_connect c)) = trace c /\
                  response_queue_tts (snd (await ws_connect c)) = response_queue_tts c).
  { unfold await. destruct (ws_connect (world c)) as [[[[]|e]|] w']; split; reflexivity. }
  destruct Hconn as [Htrace Hqueue].
  destruct (await ws_connect c) as [[[]|e| |] c0]; cbn [fst snd] in Htrace, Hqueue |- *;
    try (exists []; split; [apply prefix_nil|]; rewrite Htrace; simpl;
         rewrite app_nil_r; reflexivity).
  rewrite bind_run.
  change (log (Websocket WsConnect) c0)
    with (Ret tt, set_trace (trace c0 ++ [Websocket WsConnect]) c0).
  cbn iota beta.
  set (c1 := set_trace (trace c0 ++ [Websocket WsConnect]) c0).
  destruct (tts_sending_ops text_chunk fuel c1) as (sends & Hpre & Hops).
  cbv zeta in Hops. exists (" " :: sends).
  split; [rewrite <- Hqueue; exact Hpre|].
  rewrite (finally_close_ops _ (" " :: sends) c1 Hops).
  subst c1. cbn [trace set_trace connection_ops]. rewrite websocket_ops_app, Htrace.
  rewrite <- app_assoc. reflexivity.
Qed.

(** One episode: the two speaking signals around the connection leave the
    websocket alone. *)
Lemma tts_episode_fuel_ops text_chunk fuel c :
  exists sends,
    sends `prefix_of` episode_sends text_chunk (response_queue_tts c) /\
    websocket_ops (trace (snd (tts_episode_fuel text_chunk fuel c))) =
      websocket_ops (trace c) ++
        connection_ops (fst (tts_episode_fuel text_chunk fuel c)) sends.
Proof.
  unfold tts_episode_fuel. rewrite bind_run.
  change (emit speaking_started c)
    with (Ret tt, set_trace (trace c ++ [Emit speaking_started]) c).
  cbn iota beta.
  set (c1 := set_trace (trace c ++ [Emit speaking_started]) c).
  destruct (tts_connection_ops text_chunk fuel c1) as (sends & Hpre & Hops).
  exists sends. split; [exact Hpre|].
  unfold try_finally, try_except, emit, log, modify.
  destruct (tts_connection text_chunk fuel c1) as [[[]|e| |] c2];
    cbn [fst snd trace set_trace mret SO_ret so_ret] in Hops |- *;
    rewrite ?websocket_ops_app, Hops; subst c1; cbn [trace set_trace];
    rewrite websocket_ops_app; cbn [websocket_ops omap]; rewrite ?app_nil_r;
    destruct sends; reflexivity.
Qed.
End EpisodeConnection.


(** ** C8: what gets past the boundary of the tool execution *)

(** C8 at the failing input [open_file(file_path=["notes.txt"])]: the
    demux evaluates [os.path.exists(file_path)] one line above the [try]
    of the branch, the [TypeError] leaves the dispatch, the turn is
    abandoned and no response goes out.  Two more tool calls end outside
    the four statuses: a name that the schema does not declare is answered
    with the start value, the empty mapping, which has no "status"; and
    [_search_file_sync], the one helper without a [try], raises on a
    number as soon as it meets a file. *)
Theorem tool_call_raises_past_the_boundary :
  fst (dispatch_call open_file_list_call fresh_turn (SimWorld.connected "camera")) =
    Raise (Exn TypeError "stat: path should be string, bytes, os.PathLike or integer") /\
  tool_responses
    (trace (snd (receive_text [StreamChunk (tool_chunk [open_file_list_call]) StreamEnd]
                   (SimWorld.connected "camera")))) = [] /\
  dispatch_call undeclared_call fresh_turn (SimWorld.connected "camera") =
    (Ret (∅, fresh_turn), SimWorld.connected "camera") /\
  (∅ : dict) !! "status" = None /\
  fst (_search_file_sync (VInt 7) DeskWorld.Desk) =
    Raise (Exn AttributeError "object has no attribute 'lower'").
Proof. repeat split; vm_compute; reflexivity. Qed.

(** ** C3: the activity signals of a turn *)

Lemma turn_activity_closes locals :
  List.filter closes_turn (map Emit (turn_activity locals ++ [end_of_turn; speaking_stopped])) =
    map Emit (turn_activity locals ++ [end_of_turn; speaking_stopped]).
Proof.
  unfold turn_activity. destruct (file_list_data locals) as [[d fs]|]; [reflexivity|].
  destruct (decide _); [reflexivity|]. destruct (decide _); reflexivity.
Qed.

Section WholeTurn.
Context {W : Type} `{World W}.
Implicit Type c : core W.

(** A turn, by how the reading of its stream ends: when the stream is
    read to its end the turn returns after the closing signals, otherwise
    it stops where the reading stopped. *)
Lemma receive_turn_cases turn c :
  match fst (read_stream turn fresh_turn c) with
  | Ret locals =>
      fst (receive_turn turn c) = Ret tt /\
      trace (snd (receive_turn turn c)) =
        trace (snd (read_stream turn fresh_turn c)) ++
          map Emit (turn_activity locals ++ [end_of_turn; speaking_stopped])
  | _ => snd (receive_turn turn c) = snd (read_stream turn fresh_turn c)
  end.
Proof.
  unfold receive_turn, mbind, SO_bind, so_bind.
  destruct (read_stream turn fresh_turn c) as [[locals|e| |] c1]; cbn [fst snd];
    try reflexivity.
  apply finish_turn_trace.
Qed.

Lemma receive_turn_closings turn c :
  turn_closings (snd (receive_turn turn c)) =
    turn_closings c ++
      match fst (read_stream turn fresh_turn c) with
      | Ret locals => map Emit (turn_activity locals ++ [end_of_turn; speaking_stopped])
      | _ => []
      end.
Proof.
  pose proof (receive_turn_cases turn c) as Hturn.
  pose proof (read_stream_closings turn fresh_turn c) as Hread.
  destruct (fst (read_stream turn fresh_turn c)) as [locals|e| |].
  - destruct Hturn as [_ Htrace]. unfold turn_closings in *.
    rewrite Htrace, List.filter_app, Hread, turn_activity_closes. reflexivity.
  - rewrite Hturn, app_nil_r. exact Hread.
  - rewrite Hturn, app_nil_r. exact Hread.
  - rewrite Hturn, app_nil_r. exact Hread.
Qed.
End WholeTurn.

(** C3, as stated, fails: a turn with no tool call, no grounding URL, no
    code-execution part and no directory listing emits three empty
    activity signals, one on each channel, not one.  And such a turn emits
    no activity signal and no [end_of_turn] at all when the reading of its
    stream raises, here on grounding metadata without a list. *)
Lemma empty_turn_emits_three_empty_signals :
  signals (trace (snd (receive_text [StreamEnd] (SimWorld.connected "camera")))) =
    [code_being_executed "" ""; search_results_received [];
     file_list_received (VStr "") (VList []); end_of_turn; speaking_stopped] /\
  length (List.filter is_empty_activity
            (signals (trace (snd (receive_text [StreamEnd] (SimWorld.connected "camera"))))))
    = 3%nat /\
  signals (trace (snd (receive_text [StreamChunk (ungrounded_chunk "Hello") StreamEnd]
                         (SimWorld.connected "camera")))) = [].
Proof. repeat split; reflexivity. Qed.

(** C3, amended.  Over a whole turn whose stream is read to its end
    without an exception or a cancellation, the signals on the three
    activity channels, [end_of_turn] and [speaking_stopped] are those of
    the turn end and no other: the chosen activity, then [end_of_turn]
    once, then [speaking_stopped].  The activity is the directory listing
    if there is one, else the code execution if code was received, else
    the search results if a grounding URL was received, else the three
    empty signals (code execution, search results, directory listing, in
    this order): so at most one activity that is not empty; and a turn
    whose chunks carry no tool call, no grounding URL and no
    code-execution part emits exactly the three empty signals and one
    [end_of_turn].  A turn whose reading raises or is cancelled stops there
    and emits none of these signals. *)
Theorem turn_end_activity {W : Type} `{World W} (turn : stream) (c : core W) :
  match fst (read_stream turn fresh_turn c) with
  | Ret locals =>
      fst (receive_turn turn c) = Ret tt /\
      turn_closings (snd (receive_turn turn c)) =
        turn_closings c ++
          map Emit (turn_activity locals ++ [end_of_turn; speaking_stopped]) /\
      (length (List.filter (fun sg => negb (is_empty_activity sg)) (turn_activity locals))
       <= 1)%nat /\
      (idle_stream turn ->
       turn_closings (snd (receive_turn turn c)) =
         turn_closings c ++
           map Emit [code_being_executed "" ""; search_results_received [];
                     file_list_received (VStr "") (VList []); end_of_turn;
                     speaking_stopped])
  | _ =>
      snd (receive_turn turn c) = snd (read_stream turn fresh_turn c) /\
      turn_closings (snd (receive_turn turn c)) = turn_closings c
  end.
Proof.
  pose proof (receive_turn_cases turn c) as Hturn.
  pose proof (receive_turn_closings turn c) as Hclosings.
  pose proof (fun Hidle => read_stream_idle turn fresh_turn Hidle fresh_turn_idle c) as Hidle.
  destruct (fst (read_stream turn fresh_turn c)) as [locals|e| |];
    try (rewrite app_nil_r in Hclosings; split; assumption).
  split; [exact (proj1 Hturn)|]. split; [exact Hclosings|].
  split; [apply turn_activity_one|].
  intros Hstream. rewrite Hclosings, (turn_activity_idle locals (Hidle Hstream)). reflexivity.
Qed.

Lemma turn_end_activity_witness :
  signals (turn_closings
             (snd (receive_turn (StreamChunk (text_chunk "Hello") StreamEnd)
                     (SimWorld.connected "camera")))) =
    [code_being_executed "" ""; search_results_received [];
     file_list_received (VStr "") (VList []); end_of_turn; speaking_stopped].
Proof.
  pose proof (turn_end_activity (StreamChunk (text_chunk "Hello") StreamEnd)
                (SimWorld.connected "camera")) as Hturn.
  assert (Hread : fst (read_stream (StreamChunk (text_chunk "Hello") StreamEnd) fresh_turn
                         (SimWorld.connected "camera")) = Ret fresh_turn) by reflexivity.
  rewrite Hread in Hturn. destruct Hturn as (_ & _ & _ & Hidle).
  rewrite Hidle; [reflexivity|].
  simpl. unfold idle_chunk, idle_part. simpl. repeat constructor.
Defined.

(** ** C2: text deltas and the TTS fragment queue *)

(** C2, as stated, fails: a text delta is emitted to the text sink, but it
    is not put on the TTS fragment queue, and no end sentinel is put there
    when the stream of the turn ends.  Nor is every text delta emitted: an
    empty one is skipped, one in a chunk that carries tool calls is
    dropped with the rest of that chunk's content, and one in a chunk on
    which the demux raises (here on grounding metadata without a list) is
    lost, the turn ending without its closing signals. *)
Lemma text_delta_not_enqueued_for_tts :
  texts_received
    (trace (snd (receive_text [StreamChunk (text_chunk "Hello") StreamEnd]
                   (SimWorld.connected "camera")))) = ["Hello"] /\
  response_queue_tts
    (snd (receive_text [StreamChunk (text_chunk "Hello") StreamEnd]
            (SimWorld.connected "camera"))) = [] /\
  texts_received
    (trace (snd (receive_text [StreamChunk (text_chunk "") StreamEnd]
                   (SimWorld.connected "camera")))) = [] /\
  texts_received
    (trace (snd (receive_text [StreamChunk (call_and_text_chunk "Hello") StreamEnd]
                   (SimWorld.connected "camera")))) = [] /\
  signals
    (trace (snd (receive_text [StreamChunk (ungrounded_chunk "Hello") StreamEnd]
                   (SimWorld.connected "camera")))) = [].
Proof. repeat split; vm_compute; reflexivity. Qed.

(** C2, amended.  [receive_text] never changes the TTS fragment queue:
    neither a text delta nor an end sentinel is put on it.  When the
    stream of a turn is read to its end without an exception or a
    cancellation, the texts emitted to the text sink over the whole turn
    are the non-empty text deltas of the chunks without tool calls, in the
    order received, and the turn then emits its activity, [end_of_turn]
    and [speaking_stopped].  When the reading raises or is cancelled, the
    texts emitted are a prefix of those deltas and the turn stops there,
    without the closing signals. *)
Theorem text_deltas_emitted_not_enqueued {W : Type} `{World W} (turn : stream)
    (c : core W) :
  (forall turns, response_queue_tts (snd (receive_text turns c)) = response_queue_tts c) /\
  (exists emitted,
     texts_of (snd (receive_turn turn c)) = texts_of c ++ emitted /\
     emitted `prefix_of` stream_texts turn /\
     match fst (read_stream turn fresh_turn c) with
     | Ret locals =>
         emitted = stream_texts turn /\
         fst (receive_turn turn c) = Ret tt /\
         trace (snd (receive_turn turn c)) =
           trace (snd (read_stream turn fresh_turn c)) ++
             map Emit (turn_activity locals ++ [end_of_turn; speaking_stopped])
     | _ => snd (receive_turn turn c) = snd (read_stream turn fresh_turn c)
     end).
Proof.
  split.
  - intros turns. apply (receive_text_keeps_all response_queue_tts); reflexivity.
  - destruct (read_stream_texts turn fresh_turn c) as (emitted & Htexts & Hpre & Hall).
    pose proof (receive_turn_cases turn c) as Hturn.
    exists emitted. split; [|split; [exact Hpre|]].
    + destruct (fst (read_stream turn fresh_turn c)) as [locals|e| |];
        try (rewrite Hturn; exact Htexts).
      destruct Hturn as [_ Htrace]. unfold texts_of in *.
      rewrite Htrace, texts_received_app, Htexts.
      assert (Hnone : texts_received
                        (map Emit (turn_activity locals ++ [end_of_turn; speaking_stopped])) = []).
      { unfold turn_activity. destruct (file_list_data locals) as [[d fs]|]; [reflexivity|].
        destruct (decide _); [reflexivity|]. destruct (decide _); reflexivity. }
      rewrite Hnone, app_nil_r. reflexivity.
    + destruct (fst (read_stream turn fresh_turn c)) as [locals|e| |] eqn:Hread;
        try exact Hturn.
      split; [exact (Hall locals eq_refl) | exact Hturn].
Qed.

Lemma text_deltas_emitted_not_enqueued_witness :
  texts_of (snd (receive_turn (StreamChunk (text_chunk "Hello")
                                 (StreamChunk (text_chunk ", world") StreamEnd))
                   (SimWorld.connected "camera"))) = ["Hello"; ", world"] /\
  response_queue_tts
    (snd (receive_text [StreamChunk (text_chunk "Hello") StreamEnd]
            (SimWorld.connected "camera"))) = [].
Proof.
  destruct (text_deltas_emitted_not_enqueued
              (StreamChunk (text_chunk "Hello") (StreamChunk (text_chunk ", world") StreamEnd))
              (SimWorld.connected "camera")) as (Hqueue & emitted & Htexts & _ & Hall).
  assert (Hread : fst (read_stream (StreamChunk (text_chunk "Hello")
                                      (StreamChunk (text_chunk ", world") StreamEnd))
                         fresh_turn (SimWorld.connected "camera")) = Ret fresh_turn)
    by reflexivity.
  rewrite Hread in Hall. destruct Hall as (-> & _).
  split; [exact Htexts | exact (Hqueue _)].
Defined.
